(* ===== verification/_CoqProject ===== *)
-Q . S2P
Prelude.v
Hoare.v
Text.v
Protocol.v
Validators.v
StateMachine.v
Vfs.v
VfsTree.v
VfsAdd.v
VfsDelete.v
VfsPaths.v
VfsSpec.v
VfsEntries.v
VfsExamples.v
VfsThreads.v
Scheduler.v
Monitor.v
MonitorSpec.v
UsersDb.v
Transfer.v
TransferSpec.v
StdMap.v
BackupRequests.v
DownloadManager.v
Manager.v
Handler.v
Connection.v
ManagerSpec.v
ManagerFrame.v
DownloadSpec.v
ManagerInv.v
HandlerSpec.v
AccountsSpec.v
Notices.v
NoticesSpec.v
NoticesInv.v
Steady.v
Accounting.v
System.v
RequestInv.v
SystemInv.v
SystemAccount.v
SystemWaiting.v
SystemNames.v
SystemSpec.v
SystemUploads.v
SystemDebug.v
SystemNotices.v
Server.v
TransferPort.v
Workers.v
WorkersSpec.v
WorkersInv.v
WorkersRaces.v
