(* ===== verification/Prelude.v ===== *)
(** * FSPServer: a verification development

    FSPServer is a file-sharing server.  Clients hold a TCP connection on which they
    sign in, register the paths of the files they share and ask for the files of
    others; the server keeps one virtual tree of paths per client, tells every client
    about the changes of the others, and moves file contents between clients over a
    second, TLS port, keeping a local copy of what passed through it.

    ** The program and the files that model it

    A received chunk of bytes is parsed by the connection and each message goes through
    three validators; an admitted request is confirmed and posted to a priority
    scheduler; a worker thread executes it against the client's tree, the accounts and
    the connection manager, which notifies the other clients and runs the downloads.

    - [Prelude], [Hoare], [Text], [StdMap]: outcomes of C++ code (a value or a fault),
      state passing with its weakest preconditions and hint databases, [assert] with and
      without [NDEBUG], 64-bit wrap-around, C strings, [to_string]/[stoull]/[atoll]/[setw],
      [boost::split], ordered maps.
    - [Protocol]: the interface of the protocol library of the sibling project, as a
      type class; it is a parameter everywhere, and [sample_protocol] is an instance.
    - [Validators]: basic_validator.cpp, transition_validator.cpp,
      semantic_validator.cpp, confirmator.cpp; [State] of client.h.
    - [StateMachine]: state_machine.h, guards.h, actions.h.
    - [Vfs]: VirtualFileSystemTree.h on a heap of nodes with parent and child pointers.
      [VfsTree] relates the heap to mathematical trees, [VfsPaths] the paths,
      [VfsDelete] and [VfsAdd] the two operations that allocate and free, [VfsSpec] has
      the properties and [VfsExamples] a concrete tree.  [VfsEntries] has the paths of
      the entries of a tree as a set, and what the operations do to it.  [VfsThreads] has
      [SpinLock] and the threads that work on one tree at the same time.
    - [Scheduler]: priority_scheduler.h, request_scheduler.h, scheduler_priorities.h,
      with the interleavings of posts, workers and [stop] as a step relation.  [Monitor]
      has the mutex and the condition variable below it, one action of a thread at a time,
      and a critical section reads the queue and changes it in different actions;
      [MonitorSpec] shows that it refines [Scheduler], which needs the mutex.
    - [UsersDb]: IUsersDB.h, IUsersDB.cpp, SQLiteDB.cpp over a parameter for SQLAPI.
    - [Transfer], [TransferSpec]: the four chains of completion handlers that move a
      file (stream_file_deliver.cpp, stream_mode_file_receiver.cpp,
      compressed_mode_file_deliver.cpp, compressed_mode_file_receiver.cpp).
    - [BackupRequests]: backup_requests_manager.h and .cpp, the clients that wait for a
      file; [DownloadManager]: download_manager.cpp, transactions and greeting;
      [TransferPort]: its accept loop and the life of its [TemporarySession]s.
    - [Manager]: connection_manager.cpp with the state of the connections and clients
      (connection.h, client.h).  [ManagerSpec] is about connections and shared buffers,
      [DownloadSpec] about downloads, [ManagerFrame] says what an operation leaves alone,
      and [ManagerInv] has the manager's invariant ([mgr_ok]) and that every operation
      preserves it and completes.
    - [Notices]: the notifications as a vocabulary with a meaning, what a reader learns
      from each of them; [NoticesSpec]: what each operation of the manager says;
      [NoticesInv]: what keeps every client rightly informed.
    - [Handler]: server_side_handler.cpp, protocol_impl.h, [connection::read_action];
      [HandlerSpec] follows a request from the connection to its reply, [AccountsSpec]
      the nicknames and the accounts.
    - [Connection]: the write and read loops of connection.cpp.
    - [System]: the whole server as a transition system.  An event is one completion
      handler (a connection accepted, a message or bytes read, a write finished, a timer,
      a transfer or a greeting), one turn of a pool thread, or a signal; [sys_step] is
      the step.  Runs are serial: a handler ends before the next one begins, and
      [serial_reach] are the states such runs lead to.
    - [Workers]: the handlers of [Handler] and the disconnections again, as programs of
      actions: a critical section, an access through a pointer, a statement on shared
      data.  Between two actions the other pool threads and the io thread run; a
      connection lives as long as someone holds it.  [WorkersSpec] shows that a program
      without interference is the handler, so that serial runs are among the
      interleavings; [WorkersInv] what holds under every interleaving, [WorkersRaces]
      what does not.
    - [Server]: Server.h and .cpp, Configuration.h and .cpp, Main.cpp: the settings, the
      acceptor, the signals, the threads that are started and joined, [main].  [System]
      takes two of the settings as parameters: they are [download_port] and
      [incomplete_message_seconds] of [Server].

    Operations keep the names of the source.  State is explicit: an operation is a
    function of type [M S A], from a state to an outcome.  A fault says what went wrong
    (undefined behaviour, an exception, a failed assertion), so that "does not fault" is
    a theorem and not an assumption.

    ** Serial runs and interleavings

    The threads of the program - the pool, the io thread, the download thread - run
    handlers at the same time, and a handler is several critical sections.  Two models
    share that between them.  [System] has every handler, timer and transfer, and runs
    them one after the other; a theorem about [serial_reach] says what the handlers do
    when they do not overlap, whatever their order.  [Workers] has the requests and the
    disconnections only, and interleaves them action by action.  What is proved of serial
    runs and false of overlapping handlers is named with its theorem and shown by a run of
    [WorkersRaces]: a nickname used twice, a download request that is lost, a shared buffer
    that is freed too early, an announcement that comes too late; and the null pointer of
    [interleavings_fault_only].

    ** How the theorems about the whole server are built

    An invariant of the parts, one file each: [SystemInv] that the state is well-formed
    and which events fault ([crash]), [SystemAccount] the balance of requests and
    replies, [SystemWaiting] that what waits for a file is watched by a timer or a
    receiver, [SystemNames] the nicknames, [SystemUploads] that a deliver at work has
    its transaction, [SystemNotices] that every registered client can tell from its
    notifications which files the others have.  Each shows that [handle], the handler of
    an event, preserves it, and [SystemSpec] lifts it to the states of serial runs by
    induction.  [SystemDebug] repeats the question which events fault for a debug build.
    They rest on frame classes: [Steady] derives once, for any relation that is a
    [Frame], that the requests other than downloads preserve it; [Accounting] counts
    requests and replies; [RequestInv] says how a request and a read end.
    The fields [used], [counted], [admitted] and [executed] of [system] are history: no
    step reads them except to forbid the address of a connection to be used twice.

    ** What the theorems show

    - The whole server in serial runs ([SystemSpec]): a release build survives every event
      but those that [crash] lists ([server_survives]), a debug build every one but those
      of [debug_crash] ([debug_server_survives]); the state stays well-formed
      ([server_well_formed]); no buffer is freed while it is written
      ([shared_buffers_stored]); requests are neither lost nor duplicated between the
      socket and the reply ([every_request_accounted]), never get stuck
      ([no_request_stuck]) and are worked off by any schedule of the pool
      ([requests_drain]); downloads are answered or wait, and what waits is answered
      once ([download_querry_answered_or_waits], [waiting_requests_settled]); nicknames
      stay unique ([nicknames_stay_unique]).
    - Notifications over whole serial runs: what a client was sent, replayed by [apply_notice],
      is what the other clients have ([pictures_right]), for release builds and [orderly]
      runs.  Orderly is a condition on the states of the run, and it is needed: a
      client that signs in again after it has registered, or that renames a file to the
      name of a sibling, leaves the others misinformed ([second_sign_in_misinforms],
      [collision_misinforms]).
    - The program around it: [main_never_returns], [acceptor_serves], [port_bounds], and
      the raw pointers of the download port, [sessions_deleted_once].
    - Threads inside the handlers: a request alone does what the one-step handler does
      ([threads_alone_atomic]); under every interleaving a step faults only where a
      [weak_ptr] that was tested is used, or a path is added whose [Add] is undefined
      ([interleavings_fault_only]), and connections live exactly as long as they are
      held ([held_connections_there]).  What the threads break: nicknames
      ([signins_race]), downloads ([querries_race]), the count of a shared buffer
      ([notification_race]), the order of announcements ([announcements_cross]).
    - The scheduler's monitor: its critical sections, several steps each, refine the
      scheduler of single steps ([monitor_refines]), only one thread is inside
      ([mutual_exclusion]), no wakeup is lost and everything posted is executed
      ([monitor_drains]).
    - Threads on one tree: the operations on a tree are serialised by its lock
      ([tree_operations_serialised]), but [Get] is not, and reads freed memory when a
      removal comes between two of its steps ([listing_unlocked]).
    - Memory safety of the parts: the tree ([requests_memory_safe]), the shared buffers
      ([shared_buffers_safe]), the receive buffer of a compressed transfer
      ([compressed_receive_safe]), the greeting ([handshake_safe]).
    - One request: [every_request_once], [message_admitted_or_refused],
      [executed_request_answered_once], [waiting_requests_answered],
      [received_bytes_handled].
    - Functional behaviour: the tree refines a mathematical tree ([Add_refines],
      [Add_Find], [Remove_Find], [Remove_local_copies], [SetCached_Find],
      [Rename_refines], [Get_Find]); the accounts refine a finite map
      ([users_db_refines], [register_retrieve]); nicknames stay unique
      ([signing_keeps_nicknames_unique]); admission ([admission_spec],
      [validator_agrees_with_table]); notifications ([notification_reaches_others],
      [disconnection_cases]); priorities ([started_is_highest], [drain_by_priority]);
      uploads ([upload_begins_fresh]).
    - Transfers end and are right: [stream_deliver_total], [stream_receive_total],
      [compressed_round_trip], [write_loops_transmit], [hello_round_trip].
    - Where the code falls short of what it means to do, the theorem says exactly when:
      [querry_checks_unreachable], [Rename_cached_copy], [download_start],
      [shared_write_completes], [lost_reader_leaks], [deleted_account_taken_over],
      [malformed_reply_throws], [low_priority_starves].

    ** Parameters, fuel and bounds

    Code outside the repository is a parameter: the protocol library, the message
    parser (nothing is assumed of it: the theorem about received bytes says what happens
    when it takes them apart, and that the loop does not end otherwise) and the receive
    buffer, the timers, Boost's [split], SQLAPI, the compressor,
    [std::priority_queue]'s choice among equals, files, sockets, the settings, and
    whether a port can be bound or a certificate read.  Laws about them are
    classes with the suffix [Laws] (and [SqlThrows]: SQLAPI reports errors by exceptions
    only), and every theorem that uses one is applied to a concrete instance; a law that
    only [pictures_right] needs, that the name of the root of a tree is the separator, is
    a hypothesis of its section.  Recursion
    over pointers and completions is fuelled; the theorems fix a fuel that depends on the
    input only (the number of nodes, the number of bytes) and show that it is never
    exhausted, so [OutOfFuel] is unreachable.  Counters are kept modulo 2^64; theorems
    that need a counter not to wrap say so, and [in_range] is that condition for a state
    of the whole server.

    ** What is not modelled

    Setting up the TLS context and the sockets, and the bytes on them; upload_manager.h
    (empty); the constructors and destructor of SQLiteDB; a second, unused overload of
    [do_get_paths].  Handlers that overlap are not in [System]; in [Workers] they are, but
    an action is still one step: the data races on a single word or container (the nickname,
    [shared_storage_] in [notify_shared_write_done], which takes no mutex) and the race
    of [Get] that [VfsThreads] shows are not represented there.  The download port and
    the timers are not among the threads of [Workers]; in [System] their handlers are
    events like the others.  In [Monitor] the threads of the
    pool have been started and the function objects return.  The file
    transfers of [Transfer] are one event of [System], their end.  [TryInitTransaction]
    may block the thread of the download port; [System] has the greeting only once it was
    read.  The address of a connection is never reused by a later one. *)

From stdpp Require Export prelude gmap strings list fin_maps.
From Stdlib Require Export ZArith Lia.

(** ** Outcomes of C++ code

    A piece of code either completes with a value or faults.  The faults are
    kept apart because the properties speak about them separately. *)

Inductive fault :=
  | UndefinedBehaviour   (* null or dangling dereference *)
  | Thrown               (* an exception propagates out of the code *)
  | AssertionFailed      (* assert(...) evaluated to false *)
  | OutOfFuel.           (* artefact of fuelled recursion, proved unreachable *)

Inductive outcome (A : Type) : Type :=
  | Ok (a : A)
  | Fault (f : fault).
Arguments Ok {A} a.
Arguments Fault {A} f.

#[export] Instance fault_eq_dec : EqDecision fault.
Proof. solve_decision. Defined.
#[export] Instance outcome_eq_dec `{EqDecision A} : EqDecision (outcome A).
Proof. solve_decision. Defined.

#[export] Instance outcome_ret : MRet outcome := @Ok.
#[export] Instance outcome_bind : MBind outcome := λ A B f m,
  match m with Ok a => f a | Fault e => Fault e end.
#[export] Instance outcome_fmap : FMap outcome := λ A B f m,
  match m with Ok a => Ok (f a) | Fault e => Fault e end.

Section outcome_laws.
Context {A B C : Type}.

Lemma outcome_bind_Ok (m : outcome A) (f : A → outcome B) b :
  (m ≫= f) = Ok b ↔ ∃ a, m = Ok a ∧ f a = Ok b.
Proof.
  destruct m as [a|e]; cbn; split.
  - intros H; by exists a.
  - by intros (? & [= <-] & H).
  - done.
  - by intros (? & [=] & _).
Qed.

Lemma outcome_bind_assoc (m : outcome A) (f : A → outcome B) (g : B → outcome C) :
  ((m ≫= f) ≫= g) = (m ≫= λ a, f a ≫= g).
Proof. by destruct m. Qed.

Lemma outcome_fmap_Ok (m : outcome A) (f : A → B) b :
  f <$> m = Ok b ↔ ∃ a, m = Ok a ∧ b = f a.
Proof. destruct m; cbn; naive_solver. Qed.
End outcome_laws.

Definition is_ok {A} (m : outcome A) : bool :=
  match m with Ok _ => true | Fault _ => false end.

(** Break up every hypothesis that says a sequence of steps succeeded. *)
Ltac outcome_inv :=
  repeat match goal with
  | H : Ok _ = Ok _ |- _ => injection H as H; subst
  | H : Fault _ = Ok _ |- _ => discriminate H
  | H : Ok _ = Fault _ |- _ => discriminate H
  | H : mret _ = Ok _ |- _ => injection H as H; subst
  | H : (_ ≫= _) = Ok _ |- _ =>
      apply outcome_bind_Ok in H; destruct H as (? & ? & H)
  | H : (_ <$> _) = Ok _ |- _ =>
      apply outcome_fmap_Ok in H; destruct H as (? & ? & ?); subst
  end.

(** ** State-passing computations

    [M S A] is code that reads and writes a state [S] and may fault. *)

Definition M (S A : Type) : Type := S → outcome (A * S).

#[export] Instance M_ret {S} : MRet (M S) := λ A a s, Ok (a, s).
#[export] Instance M_bind {S} : MBind (M S) := λ A B f m s,
  match m s with Ok (a, s') => f a s' | Fault e => Fault e end.

Definition gets {S A} (f : S → A) : M S A := λ s, Ok (f s, s).
Definition modify {S} (f : S → S) : M S unit := λ s, Ok (tt, f s).
Definition lift {S A} (m : outcome A) : M S A := λ s,
  match m with Ok a => Ok (a, s) | Fault e => Fault e end.
Definition raise {S A} (e : fault) : M S A := λ _, Fault e.

(** [for (auto& x : l) body(x);] *)
Fixpoint for_each {S A} (body : A → M S unit) (l : list A) : M S unit :=
  match l with
  | [] => mret tt
  | x :: l => body x ≫= λ _, for_each body l
  end.

Section state_laws.
Context {S : Type}.

Lemma M_bind_unfold {A B} (m : M S A) (f : A → M S B) s :
  (m ≫= f) s = match m s with Ok (a, s') => f a s' | Fault e => Fault e end.
Proof. done. Qed.

Lemma M_bind_Ok {A B} (m : M S A) (f : A → M S B) s a s' :
  m s = Ok (a, s') → (m ≫= f) s = f a s'.
Proof. intros H. by rewrite M_bind_unfold, H. Qed.

Lemma M_bind_assoc {A B C} (m : M S A) (f : A → M S B) (g : B → M S C) s :
  ((m ≫= f) ≫= g) s = (m ≫= λ x, f x ≫= g) s.
Proof. rewrite !M_bind_unfold. by destruct (m s) as [[]|]. Qed.

(** A loop whose body always completes is a fold. *)
Lemma for_each_fold {A} (body : A → M S unit) (step : S → A → S) l s :
  (∀ s x, body x s = Ok (tt, step s x)) →
  for_each body l s = Ok (tt, foldl step s l).
Proof.
  intros Hb. revert s. induction l as [|x l IH]; intros s; [done|].
  cbn [for_each foldl]. by rewrite (M_bind_Ok _ _ _ _ _ (Hb s x)).
Qed.

Lemma for_each_invariant {A} (body : A → M S unit) (I : S → Prop) l s s' :
  (∀ x s s', x ∈ l → I s → body x s = Ok (tt, s') → I s') →
  I s → for_each body l s = Ok (tt, s') → I s'.
Proof.
  revert s. induction l as [|x l IH]; intros s Hb HI; cbn.
  - by intros [= <-].
  - rewrite M_bind_unfold. destruct (body x s) as [[[] s1]|] eqn:E; [|done].
    apply IH; [|by eapply Hb; [left|..]].
    intros y ????. eapply Hb; [by right|done..].
Qed.
End state_laws.

(** ** Lists *)

Section lists.
Context {A : Type}.
Implicit Types (l : list A).

Lemma filter_all (P : A → Prop) `{∀ x, Decision (P x)} l :
  Forall P l → filter P l = l.
Proof.
  induction 1 as [|x l Hx Hl IH]; [done|].
  by rewrite filter_cons_True, IH.
Qed.

Lemma filter_none (P : A → Prop) `{∀ x, Decision (P x)} l :
  Forall (λ x, ¬ P x) l → filter P l = [].
Proof.
  induction 1 as [|x l Hx Hl IH]; [done|].
  by rewrite filter_cons_False, IH.
Qed.

Lemma filter_ext_in (P Q : A → Prop) `{!∀ x, Decision (P x), !∀ x, Decision (Q x)} l :
  (∀ x, x ∈ l → P x ↔ Q x) → filter P l = filter Q l.
Proof.
  induction l as [|x l IH]; intros HPQ; [done|].
  assert (filter P l = filter Q l) as IH' by (apply IH; intros y Hy; apply HPQ; by right).
  pose proof (HPQ x ltac:(left)) as Hx. destruct (decide (P x)) as [HP|HP].
  - rewrite !filter_cons_True by naive_solver. by rewrite IH'.
  - rewrite !filter_cons_False by naive_solver. done.
Qed.

(** The list without the first occurrence of [x]. *)
Fixpoint remove_one `{EqDecision A} (x : A) l : list A :=
  match l with
  | [] => []
  | y :: l => if decide (x = y) then l else y :: remove_one x l
  end.

Lemma remove_one_perm `{EqDecision A} (x : A) l : x ∈ l → l ≡ₚ x :: remove_one x l.
Proof.
  induction l as [|y l IH]; [by intros ?%elem_of_nil|]. cbn.
  destruct (decide (x = y)) as [->|Hne]; [done|].
  intros [?|Hin]%elem_of_cons; [done|]. rewrite (IH Hin) at 1. apply perm_swap.
Qed.

Lemma remove_one_in `{EqDecision A} (x y : A) l : x ∈ remove_one y l → x ∈ l.
Proof.
  induction l as [|z l IH]; cbn; [done|]. case_decide; [by right|].
  intros [->|]%elem_of_cons; [left|right; auto].
Qed.

Lemma remove_one_NoDup `{EqDecision A} (x : A) l : NoDup l → NoDup (remove_one x l).
Proof.
  induction 1 as [|y l Hy Hl IH]; cbn; [constructor|]. case_decide; [done|]. constructor; [|done].
  by intros ?%remove_one_in.
Qed.

Lemma remove_one_ne `{EqDecision A} (x y : A) l : NoDup l → x ∈ remove_one y l → x ≠ y.
Proof.
  induction 1 as [|z l Hz Hl IH]; cbn; [by intros ?%elem_of_nil|].
  case_decide as E; [subst; congruence|]. intros [->|Hx]%elem_of_cons; [congruence|auto].
Qed.

Lemma remove_one_other `{EqDecision A} (x y : A) l : x ≠ y → x ∈ l → x ∈ remove_one y l.
Proof.
  intros Hne. induction l as [|z l IH]; cbn; [done|].
  intros [->|Hin]%elem_of_cons; case_decide; subst; try done; [left|right; auto].
Qed.

(** How many elements a test accepts. *)
Definition count (P : A → bool) l : nat := length (filter (λ x, P x = true) l).

Lemma count_app P l k : count P (l ++ k) = (count P l + count P k)%nat.
Proof. unfold count. by rewrite filter_app, length_app. Qed.

Lemma count_cons P x l : count P (x :: l) = ((if P x then 1 else 0) + count P l)%nat.
Proof.
  unfold count. destruct (P x) eqn:E; [by rewrite filter_cons_True|].
  by rewrite filter_cons_False by (by rewrite E).
Qed.

#[global] Instance count_Permutation P : Proper ((≡ₚ) ==> (=)) (count P).
Proof. intros l k E. unfold count. by rewrite E. Qed.

Lemma count_prefix P l k : l `prefix_of` k → (count P l ≤ count P k)%nat.
Proof. intros [m ->]. rewrite count_app. lia. Qed.

Lemma count_filter (P Q : A → bool) l :
  (∀ x, P x = true → Q x = true) → count P (filter (λ x, Q x = true) l) = count P l.
Proof.
  intros HPQ. induction l as [|x l IH]; [done|]. rewrite (count_cons P x l).
  destruct (Q x) eqn:EQ; [rewrite filter_cons_True by done; by rewrite count_cons, IH|].
  rewrite filter_cons_False by (by rewrite EQ). rewrite IH.
  destruct (P x) eqn:EP; [|done]. apply HPQ in EP. congruence.
Qed.

Lemma list_snoc_cases l : l = [] ∨ ∃ l' x, l = l' ++ [x].
Proof. induction l as [|x l _] using rev_ind; [by left|right; eauto]. Qed.
End lists.

(** ** [assert(e)]

    [NDEBUG] removes the expression with the check; otherwise it is evaluated, side
    effects included, and must be true. *)
Definition cassert {S} (NDEBUG : bool) (e : M S bool) : M S unit :=
  if NDEBUG then mret tt
  else e ≫= λ b : bool, if b then mret tt else raise AssertionFailed.
