(* ===== verification/Hoare.v ===== *)
(** * Hoare: reasoning about state-passing code

    Two judgements on a computation [m : M S A].  [preserves R m]: whenever [m]
    completes, the state before and the state after are related by [R]; for a preorder
    [R] this composes, and a hint database does the composition.  [wp m Q E s]: from the
    state [s], [m] completes in [Q], or faults in [E]. *)

From S2P Require Import Prelude.

Definition preserves {S A} (R : relation S) (m : M S A) : Prop :=
  ∀ s x s', m s = Ok (x, s') → R s s'.

Definition wp {S A} (m : M S A) (Q : A → S → Prop) (E : fault → Prop) (s : S) : Prop :=
  match m s with Ok (x, s') => Q x s' | Fault f => E f end.

Lemma lift_bind {S A B} (o : outcome A) (f : A → M S B) s :
  (lift o ≫= f) s = match o with Ok x => f x s | Fault e => Fault e end.
Proof. rewrite M_bind_unfold. by destruct o. Qed.

Create HintDb preserves.

Section preserves.
Context {S : Type} (R : relation S) `{!PreOrder R} {A B : Type}.

Lemma preserves_ret (x : A) : preserves R (mret x).
Proof. by intros s y s' [= <- <-]. Qed.

Lemma preserves_bind (m : M S A) (f : A → M S B) :
  preserves R m → (∀ x, preserves R (f x)) → preserves R (m ≫= f).
Proof.
  intros Hm Hf s y s'. rewrite M_bind_unfold. destruct (m s) as [[x s1]|] eqn:E; [|done].
  intros E'. transitivity s1; [by eapply Hm|by eapply Hf].
Qed.

Lemma preserves_gets (f : S → A) : preserves R (gets f).
Proof. by intros s x s' [= <- <-]. Qed.

Lemma preserves_lift (m : outcome A) : preserves R (lift m).
Proof. intros s x s'. unfold lift. destruct m; [|done]. by intros [= <- <-]. Qed.

Lemma preserves_raise (e : fault) : preserves R (raise e : M S A).
Proof. done. Qed.

Lemma preserves_modify (f : S → S) : (∀ s, R s (f s)) → preserves R (modify f).
Proof. by intros Hf s x s' [= <- <-]. Qed.

Lemma preserves_for_each (body : A → M S unit) l :
  (∀ x, preserves R (body x)) → preserves R (for_each body l).
Proof.
  intros Hb. induction l as [|x l IH]; [by intros s y s' [= <- <-]|].
  intros s y s'. cbn [for_each]. rewrite M_bind_unfold.
  destruct (body x s) as [[[] s1]|] eqn:E; [|done]. intros E'.
  transitivity s1; [by eapply Hb|by eapply IH].
Qed.
End preserves.

Lemma preserves_impl {S A} (R R' : relation S) (m : M S A) :
  (∀ s s', R s s' → R' s s') → preserves R m → preserves R' m.
Proof. intros HR Hm s x s' E. by eapply HR, Hm. Qed.

Lemma preserves_cassert {S} (R : relation S) `{!PreOrder R} NDEBUG (e : M S bool) :
  preserves R e → preserves R (cassert NDEBUG e).
Proof.
  intros He. unfold cassert. destruct NDEBUG; [by apply preserves_ret|].
  apply preserves_bind; [done..|]. intros []; [by apply preserves_ret|apply preserves_raise].
Qed.

#[export] Hint Resolve preserves_ret preserves_bind preserves_gets preserves_lift
  preserves_raise preserves_for_each preserves_cassert : preserves.
#[export] Hint Extern 0 (PreOrder _) => apply _ : preserves.

(** Compose: binds, tests and the hints. *)
Ltac preserves :=
  repeat first
    [ progress (eauto 3 with preserves)
    | apply preserves_bind; [apply _| |intros ?]
    | match goal with
      | |- preserves _ (if ?b then _ else _) => destruct b
      | |- preserves _ (match ?x with _ => _ end) => destruct x
      end
    | apply preserves_modify; done ].

Section wp.
Context {S A B : Type}.
Implicit Types (m : M S A) (E : fault → Prop) (s : S).

Lemma wp_ret (x : A) (Q : A → S → Prop) E s : Q x s → wp (mret x) Q E s.
Proof. done. Qed.

Lemma wp_bind m (f : A → M S B) Q E s :
  wp m (λ x, wp (f x) Q E) E s → wp (m ≫= f) Q E s.
Proof. unfold wp. rewrite M_bind_unfold. by destruct (m s) as [[]|]. Qed.

Lemma wp_mono m (Q Q' : A → S → Prop) E s :
  wp m Q E s → (∀ x s', m s = Ok (x, s') → Q x s' → Q' x s') → wp m Q' E s.
Proof. unfold wp. intros Hm HQ. destruct (m s) as [[]|]; [by apply HQ|done]. Qed.

(** What is known of the state after, from a fact about completed runs. *)
Lemma wp_preserves R m Q E s :
  preserves R m → wp m (λ x s', R s s' → Q x s') E s → wp m Q E s.
Proof.
  intros HR Hm. eapply wp_mono; [exact Hm|]. intros x s' Em HQ. apply HQ. by eapply HR.
Qed.

Lemma wp_gets (f : S → A) Q E s : Q (f s) s → wp (gets f) Q E s.
Proof. done. Qed.

Lemma wp_modify (f : S → S) (Q : unit → S → Prop) E s : Q tt (f s) → wp (modify f) Q E s.
Proof. done. Qed.

Lemma wp_lift (o : outcome A) (Q : A → S → Prop) E s :
  match o with Ok x => Q x s | Fault f => E f end → wp (lift o) Q E s.
Proof. unfold wp, lift. by destruct o. Qed.

Lemma wp_Ok m (Q : A → S → Prop) s :
  wp m Q (λ _, False) s ↔ ∃ x s', m s = Ok (x, s') ∧ Q x s'.
Proof.
  unfold wp. destruct (m s) as [[x s']|]; split; [by eauto|by intros (? & ? & [= <- <-] & ?)
    |done|by intros (? & ? & ? & _)].
Qed.
End wp.
