(* ===== verification/Text.v ===== *)
(** * Text: the standard-library string and number functions the server uses

    Byte strings ([std::string], [std::string_view], char buffers) are lists of
    characters.  The file models [std::to_string] on [uintmax_t], [std::stoull],
    [std::atoll], the [setw]/[setfill('0')] formatting of the chunk header,
    NUL-terminated views ([data()]) and, as an interface, [boost::split]. *)

From S2P Require Import Prelude.
From Stdlib Require Export Ascii.
Open Scope Z_scope.

Abbreviation str := (list ascii).

(** String literals of the examples and witnesses. *)
Definition lit (s : string) : str := String.list_ascii_of_string s.
Arguments lit _%_string.

(** ** Fixed-width unsigned arithmetic ([uint64_t], [uintmax_t], [size_t]) *)

Definition two64 : Z := 2 ^ 64.
Definition u64 (z : Z) : Z := z mod two64.
Definition in_u64 (z : Z) : Prop := 0 ≤ z < two64.

Lemma u64_range z : in_u64 (u64 z).
Proof. apply Z.mod_pos_bound. done. Qed.

Lemma u64_id z : in_u64 z → u64 z = z.
Proof. apply Z.mod_small. Qed.

Lemma u64_succ_pred z : in_u64 z → u64 (u64 (z + 1) - 1) = z.
Proof.
  intros H. unfold u64. rewrite Zminus_mod_idemp_l.
  replace (z + 1 - 1) with z by lia. by apply u64_id.
Qed.

(** ** NUL-terminated views

    [sv.data()] handed to a C interface is read up to the first NUL. *)

Definition NUL : ascii := zero.

Fixpoint c_str (s : str) : str :=
  match s with
  | [] => []
  | c :: s => if bool_decide (c = NUL) then [] else c :: c_str s
  end.

Lemma c_str_id s : NUL ∉ s → c_str s = s.
Proof.
  induction s as [|c s IH]; [done|]. rewrite not_elem_of_cons.
  intros [Hc Hs]. cbn. rewrite bool_decide_eq_false_2 by congruence.
  by rewrite IH.
Qed.

Lemma c_str_no_nul s : NUL ∉ c_str s.
Proof.
  induction s as [|c s IH]; cbn; [apply not_elem_of_nil|].
  case_bool_decide; [apply not_elem_of_nil|]. by apply not_elem_of_cons.
Qed.

(** ** Decimal numbers *)

Definition digit_char (d : Z) : ascii := ascii_of_N (48 + Z.to_N d).

Definition digit_val (c : ascii) : option Z :=
  let n := Z.of_N (N_of_ascii c) in
  if bool_decide (48 ≤ n ≤ 57) then Some (n - 48) else None.

Lemma digit_val_char d : 0 ≤ d < 10 → digit_val (digit_char d) = Some d.
Proof.
  intros H. unfold digit_val, digit_char.
  rewrite N_ascii_embedding by lia.
  rewrite bool_decide_eq_true_2 by lia. f_equal. lia.
Qed.

(** Read the longest prefix of digits; the flag says whether there was one. *)
Fixpoint read_digits (s : str) (acc : Z) (seen : bool) : Z * bool :=
  match s with
  | [] => (acc, seen)
  | c :: s =>
      match digit_val c with
      | Some d => read_digits s (acc * 10 + d) true
      | None => (acc, seen)
      end
  end.

Fixpoint print_digits (fuel : nat) (n : Z) (acc : str) : str :=
  match fuel with
  | O => acc
  | S fuel =>
      let acc := digit_char (n mod 10) :: acc in
      if bool_decide (n < 10) then acc else print_digits fuel (n / 10) acc
  end.

(** [std::to_string(uintmax_t)]; 2^64 - 1 has 20 decimal digits. *)
Definition to_string (n : Z) : str := print_digits 20 n [].

Lemma read_print_digits fuel n acc seen :
  0 ≤ n < 10 ^ Z.of_nat fuel → (0 < fuel)%nat →
  read_digits (print_digits fuel n acc) 0 seen = read_digits acc n true.
Proof.
  revert n acc. induction fuel as [|fuel IH]; intros n acc Hn Hf; [lia|].
  cbn [print_digits]. assert (0 ≤ n mod 10 < 10) by (apply Z.mod_pos_bound; lia).
  case_bool_decide as Hs.
  - cbn [read_digits]. rewrite digit_val_char by done.
    by rewrite Z.mod_small by lia.
  - rewrite Nat2Z.inj_succ, Z.pow_succ_r in Hn by lia.
    assert (0 ≤ n / 10 < 10 ^ Z.of_nat fuel)
      by (split; [apply Z.div_pos; lia | apply Z.div_lt_upper_bound; lia]).
    rewrite IH; [|done|]; last first.
    { destruct fuel; [|lia]. cbn in Hn. lia. }
    cbn [read_digits]. rewrite digit_val_char by done.
    f_equal. pose proof (Z.div_mod n 10). lia.
Qed.

Lemma read_digits_zeros k s seen :
  read_digits (replicate k (digit_char 0) ++ s) 0 seen
  = read_digits s 0 (seen || (0 <? k)%nat).
Proof.
  revert seen. induction k as [|k IH]; intros seen; cbn [replicate app].
  - by rewrite orb_false_r.
  - cbn [read_digits]. rewrite digit_val_char by lia. rewrite IH.
    f_equal. by destruct seen, k.
Qed.

Lemma length_print_digits fuel w n acc :
  0 ≤ n < 10 ^ Z.of_nat w → (0 < w)%nat →
  (length (print_digits fuel n acc) ≤ w + length acc)%nat.
Proof.
  revert w n acc. induction fuel as [|fuel IH]; intros w n acc Hn Hw;
    cbn [print_digits]; [lia|].
  case_bool_decide as Hs; [cbn; lia|].
  destruct w as [|[|w]]; [lia| |].
  { change (10 ^ Z.of_nat 1) with 10 in Hn. lia. }
  rewrite Nat2Z.inj_succ, Z.pow_succ_r in Hn by lia.
  assert (0 ≤ n / 10 < 10 ^ Z.of_nat (S w)).
  { split; [apply Z.div_pos; lia | apply Z.div_lt_upper_bound; lia]. }
  specialize (IH (S w) (n / 10) (digit_char (n mod 10) :: acc)).
  cbn [length] in *. lia.
Qed.

(** [std::to_string] and the digit reader are inverse on 64-bit numbers. *)
Lemma read_to_string n acc seen :
  in_u64 n → read_digits (to_string n ++ acc) 0 seen = read_digits acc n true.
Proof.
  intros Hn. unfold to_string.
  assert (∀ fuel m a b, print_digits fuel m a ++ b = print_digits fuel m (a ++ b))
    as Happ.
  { intros fuel. induction fuel as [|fuel IH]; intros m a b; [done|].
    cbn [print_digits]. case_bool_decide; [done|]. apply IH. }
  rewrite Happ. apply read_print_digits; [|lia].
  unfold in_u64, two64 in Hn. cbn. lia.
Qed.

(** ** [std::stoull] and [std::atoll] *)

Definition is_space (c : ascii) : bool :=
  let n := N_of_ascii c in bool_decide (n = 32 ∨ 9 ≤ n ≤ 13)%N.

Fixpoint skip_space (s : str) : str :=
  match s with
  | [] => []
  | c :: s' => if is_space c then skip_space s' else s
  end.

Definition PLUS : ascii := ascii_of_N 43.
Definition MINUS : ascii := ascii_of_N 45.

Definition read_sign (s : str) : bool * str :=
  match s with
  | [] => (false, [])
  | c :: s' =>
      if bool_decide (c = MINUS) then (true, s')
      else if bool_decide (c = PLUS) then (false, s') else (false, s)
  end.

(** [std::stoull]: invalid_argument without digits, out_of_range past 2^64 - 1;
    a leading minus negates modulo 2^64. *)
Definition stoull (s : str) : outcome Z :=
  let '(neg, s) := read_sign (skip_space (c_str s)) in
  let '(n, seen) := read_digits s 0 false in
  if negb seen then Fault Thrown
  else if bool_decide (two64 ≤ n) then Fault Thrown
  else Ok (if neg then u64 (- n) else n).

(** [std::atoll]: 0 without digits, undefined when the value does not fit. *)
Definition atoll (s : str) : outcome Z :=
  let '(neg, s) := read_sign (skip_space (c_str s)) in
  let '(n, _) := read_digits s 0 false in
  let n := if neg then - n else n in
  if bool_decide (- 2 ^ 63 ≤ n < 2 ^ 63) then Ok n else Fault UndefinedBehaviour.

(** A digit is neither a space, a sign nor NUL. *)
Lemma digit_char_plain d :
  0 ≤ d < 10 →
  is_space (digit_char d) = false ∧ digit_char d ≠ MINUS ∧ digit_char d ≠ PLUS
  ∧ digit_char d ≠ NUL.
Proof.
  intros H.
  assert (d ∈ [0;1;2;3;4;5;6;7;8;9]) as Hin.
  { rewrite !elem_of_cons. lia. }
  rewrite !elem_of_cons, elem_of_nil in Hin.
  repeat destruct Hin as [->|Hin]; by vm_compute.
Qed.

Definition all_digits (s : str) : Prop :=
  Forall (λ c, ∃ d, 0 ≤ d < 10 ∧ c = digit_char d) s.

Lemma all_digits_print fuel n acc :
  0 ≤ n → all_digits acc → all_digits (print_digits fuel n acc).
Proof.
  revert n acc. induction fuel as [|fuel IH]; intros n acc Hn Hacc; [done|].
  cbn [print_digits]. assert (all_digits (digit_char (n mod 10) :: acc)).
  { constructor; [|done]. exists (n mod 10). split; [|done]. apply Z.mod_pos_bound. lia. }
  case_bool_decide; [done|]. apply IH; [|done]. apply Z.div_pos; lia.
Qed.

Lemma all_digits_prefix s :
  all_digits s → read_sign (skip_space (c_str s)) = (false, s).
Proof.
  intros Hs. rewrite c_str_id.
  - destruct Hs as [|c s (d & Hd & ->) Hs]; [done|].
    destruct (digit_char_plain d Hd) as (Hsp & Hm & Hp & _).
    cbn [skip_space]. rewrite Hsp. cbn [read_sign].
    by rewrite !bool_decide_eq_false_2.
  - intros Hin. eapply Forall_forall in Hs; [|exact Hin].
    destruct Hs as (d & Hd & E). by destruct (digit_char_plain d Hd) as (_ & _ & _ & []).
Qed.

Lemma to_string_digits n : 0 ≤ n → all_digits (to_string n).
Proof. intros. apply all_digits_print; [done|]. by constructor. Qed.

Lemma stoull_to_string n : in_u64 n → stoull (to_string n) = Ok n.
Proof.
  intros Hn. unfold stoull.
  rewrite all_digits_prefix by (apply to_string_digits; destruct Hn; lia).
  rewrite <- (app_nil_r (to_string n)), read_to_string by done. cbn.
  rewrite bool_decide_eq_false_2; [done|]. destruct Hn. lia.
Qed.

(** ** [os << setw(w) << setfill('0') << n] *)
Definition setw_fill0 (w : nat) (n : Z) : str :=
  let s := to_string n in replicate (w - length s) (digit_char 0) ++ s.

Lemma length_setw_fill0 w n :
  0 ≤ n < 10 ^ Z.of_nat w → (0 < w)%nat → length (setw_fill0 w n) = w.
Proof.
  intros Hn Hw. unfold setw_fill0. rewrite length_app, length_replicate.
  unfold to_string. pose proof (length_print_digits 20 w n [] Hn Hw).
  cbn [length] in *. lia.
Qed.

Lemma atoll_setw_fill0 w n : 0 ≤ n < 2 ^ 63 → atoll (setw_fill0 w n) = Ok n.
Proof.
  intros Hn. unfold atoll, setw_fill0. rewrite all_digits_prefix.
  - rewrite read_digits_zeros, <- (app_nil_r (to_string n)), read_to_string.
    + cbn. by rewrite bool_decide_eq_true_2 by lia.
    + unfold in_u64, two64. lia.
  - apply Forall_app. split; [|apply to_string_digits; lia].
    apply Forall_replicate. exists 0. split; [lia|done].
Qed.

(** A text of [k] characters denotes a number below 10^k. *)
Lemma read_digits_bound s acc seen :
  0 ≤ acc →
  0 ≤ (read_digits s acc seen).1 < (acc + 1) * 10 ^ Z.of_nat (length s).
Proof.
  revert acc seen. induction s as [|c s IH]; intros acc seen Ha; cbn [read_digits length].
  - cbn. lia.
  - rewrite Nat2Z.inj_succ, Z.pow_succ_r by lia.
    assert (0 < 10 ^ Z.of_nat (length s)) by (apply Z.pow_pos_nonneg; lia).
    destruct (digit_val c) as [d|] eqn:Ed; cbn; [|nia].
    assert (0 ≤ d < 10) as Hd.
    { unfold digit_val in Ed. case_bool_decide; [|done]. injection Ed as <-. lia. }
    specialize (IH (acc * 10 + d) true ltac:(lia)). nia.
Qed.

Lemma atoll_short s : (length s ≤ 18)%nat → ∃ n, atoll s = Ok n.
Proof.
  intros Hl. unfold atoll. destruct (read_sign _) as [neg t] eqn:Es.
  assert (length t ≤ length s)%nat as Ht.
  { assert (∀ u : str, length (c_str u) ≤ length u)%nat as H1.
    { intros u. induction u; cbn; [lia|]. case_bool_decide; cbn; lia. }
    assert (∀ u : str, length (skip_space u) ≤ length u)%nat as H2.
    { intros u. induction u; cbn; [lia|]. destruct (is_space _); cbn; lia. }
    specialize (H1 s). specialize (H2 (c_str s)).
    destruct (skip_space (c_str s)) as [|c u]; cbn in Es; [simplify_eq; cbn; lia|].
    cbn in H2. repeat case_bool_decide; simplify_eq; cbn; lia. }
  pose proof (read_digits_bound t 0 false ltac:(lia)) as Hb.
  destruct (read_digits t 0 false) as [n seen]. cbn [fst] in Hb.
  assert (10 ^ Z.of_nat (length t) ≤ 10 ^ 18) by (apply Z.pow_le_mono_r; lia).
  exists (if neg then - n else n). rewrite bool_decide_eq_true_2; [done|].
  destruct neg; lia.
Qed.

(** ** [boost::split]

    Boost is third-party code: its [split] is a parameter.  The laws state its
    documentation for the default [token_compress_off]: every character that
    satisfies the predicate ends a token, adjacent separators give empty tokens,
    and the characters between separators are kept in order. *)

Class BoostSplit := boost_split : (ascii → bool) → str → list str.

Class BoostSplitLaws `{BoostSplit} : Prop := {
  split_empty p : boost_split p [] = [[]];
  split_sep p c s : p c = true → boost_split p (c :: s) = [] :: boost_split p s;
  split_char p c s t ts :
    p c = false → boost_split p s = t :: ts → boost_split p (c :: s) = (c :: t) :: ts;
}.

(** A concrete splitter, for witnesses. *)
Fixpoint split_def (p : ascii → bool) (s : str) : list str :=
  match s with
  | [] => [[]]
  | c :: s =>
      if p c then [] :: split_def p s
      else match split_def p s with [] => [[c]] | t :: ts => (c :: t) :: ts end
  end.

Definition split_def_split : BoostSplit := split_def.

Lemma split_def_laws : @BoostSplitLaws split_def_split.
Proof.
  split; unfold boost_split, split_def_split; [done| |].
  - intros p c s H. cbn. by rewrite H.
  - intros p c s t ts H E. cbn. by rewrite H, E.
Qed.

Section split_facts.
Context `{BoostSplitLaws}.
Implicit Types (p : ascii → bool) (s t : str).

Lemma boost_split_nonnil p s : boost_split p s ≠ [].
Proof.
  induction s as [|c s IH]; [by rewrite split_empty|].
  destruct (p c) eqn:E; [by rewrite split_sep|].
  destruct (boost_split p s) as [|t ts] eqn:Es; [done|].
  by erewrite split_char.
Qed.

(** The laws determine the splitter. *)
Lemma boost_split_def p s : boost_split p s = split_def p s.
Proof.
  induction s as [|c s IH]; [apply split_empty|]. cbn.
  destruct (p c) eqn:E; [by rewrite split_sep, IH|].
  destruct (boost_split p s) as [|t ts] eqn:Es.
  - by apply boost_split_nonnil in Es.
  - erewrite split_char by done. by rewrite <- IH.
Qed.

Lemma split_token p t :
  Forall (λ c, p c = false) t → boost_split p t = [t].
Proof.
  induction 1 as [|c t Hc Ht IH]; [apply split_empty|].
  by erewrite split_char.
Qed.

Lemma split_token_sep p t c s :
  Forall (λ c, p c = false) t → p c = true →
  boost_split p (t ++ c :: s) = t :: boost_split p s.
Proof.
  induction 1 as [|c' t Hc Ht IH]; intros Hp; cbn; [by apply split_sep|].
  erewrite split_char; [done..|by apply IH].
Qed.

(** No token contains a separator. *)
Lemma split_no_sep p s : Forall (Forall (λ c, p c = false)) (boost_split p s).
Proof.
  induction s as [|c s IH]; [rewrite split_empty; repeat constructor|].
  destruct (p c) eqn:E.
  - rewrite split_sep by done. by constructor.
  - destruct (boost_split p s) as [|t ts] eqn:Es; [by apply boost_split_nonnil in Es|].
    erewrite split_char by done. inversion_clear IH.
    constructor; [by constructor|done].
Qed.
End split_facts.
