(* ===== verification/Protocol.v ===== *)
(** * Protocol: the interface of the FSP protocol library

    The headers [fsp_commands.h], [fsp_headers.h], [fsp_querry_types.h],
    [fsp_notification_types.h], [fsp_responses.h], [fsp_compressions.h],
    [fsp_ssl_versions.h], [message.h] and [protocol.h] belong to a sibling project
    and are not part of this repository.  The server uses their constants by name
    and a message through [command()], [have_header()], [operator[]] and [body()];
    the class below is that interface, and a model parameter everywhere.  A
    constant is a name; its text, which only equality tests on received messages
    look at, is a field of the class. *)

From S2P Require Import Prelude Text.

Module commands.
Inductive t :=
  | SIGNIN | SIGNUP | PUSH_FILES | QUERRY | DELETE_ACCOUNT | LOGOUT | REPLY | HEARTBEAT
  | UPDATE_FILE_LIST_NOTIFICATION | USER_LOGGED_OUT_NOTIFICATION | REMOVE_FILES
  | DOWNLOAD_FILE | REPLY_NOTIFICATION.
#[global] Instance t_eq_dec : EqDecision t.
Proof. solve_decision. Defined.
End commands.

Module headers.
Inductive t :=
  | CommandId | Nickname | Password | ContentLength | ContentType | QuerryType
  | FileName | FileOwner | SslVersion | FileNewName | ReplyCode | FileSize
  | Compressions | DownloadPort | DownloadTransactionID.
#[global] Instance t_eq_dec : EqDecision t.
Proof. solve_decision. Defined.
End headers.

Module querries.
Inductive t := DOWNLOAD_FILE | ADD_FILE | REMOVE_PATH | RENAME_PATH.
#[global] Instance t_eq_dec : EqDecision t.
Proof. solve_decision. Defined.
End querries.

Module notifications.
Inductive t :=
  | USER_LOGGED_OUT | USER_REGISTERED_FILES | FILES_OF_OTHER_USERS
  | USER_ADDED_NEW_FILE | USER_DELETED_FILE | USER_RENAMED_FILE
  | USER_REQUESTED_FILE_DOWNLOAD.
#[global] Instance t_eq_dec : EqDecision t.
Proof. solve_decision. Defined.
End notifications.

Module responses.
Inductive t :=
  | SYNTACTIC_ERROR
  | CMDID_HDR_REQUIRED | NICKNAME_HDR_REQUIRED | PASSWORD_HDR_REQUIRED
  | CONTENT_TYPE_HDR_REQUIRED | CONTENT_TYPE_UNSUPPORTED | QUERRY_TYPE_HDR_REQUIRED
  | FILE_NAME_HDR_REQUIRED | FILE_OWNER_HDR_REQUIRED | SSL_VERSION_HDR_REQUIRED
  | INVALID_SSL_VERSION | FILE_NEW_NAME_HDR_REQUIRED | RPL_CODE_HDR_REQUIRED
  | FILE_SIZE_HDR_REQUIRED
  | INVALID_CMD_WHILE_IN_CONN_STATE | INVALID_CMD_WHILE_IN_LOGGED_STATE
  | INVALID_CMD_WHILE_IN_PROCESSING_STATE
  | SIGNIN_CMD_ACCEPTED | SIGNUP_CMD_ACCEPTED | DELETE_ACCOUNT_CMD_ACCEPTED
  | LOGOUT_CMD_ACCEPTED | PUSH_FILES_CMD_ACCEPTED | QUERRY_CMD_ACCEPTED
  | USER_ALREADY_LOGGED | LOGIN_SUCCESSFULL | NICKNAME_INCORRECT | PASSWORD_INCORRECT
  | INTERNAL_SERVER_ERR | REGISTERING_SUCCESSFULL | USER_ALREADY_REGISTERED
  | DELETING_ACCOUNT_SUCCESSFULL | REMOVE_ACCOUNT_FAILED
  | PUSH_FILES_SUCCESS | ADD_FILE_SUCCESSFULL
  | REMOVE_FILE_SUCCESSFULL | REMOVE_FILE_FAILED
  | RENAME_FILE_SUCCESSFULL | RENAME_FILE_FAILED
  | SSL_VERSION_INCOMPATIBLE | DOWNLOAD_DENY | DOWNLOAD_FILE_QUERRY_APPROVED.
#[global] Instance t_eq_dec : EqDecision t.
Proof. solve_decision. Defined.
End responses.

(** [fsp::protocol::compressions::compression]; the source names the first three
    and mentions lzma and bzip2 in a comment. *)
Inductive compression := nocompression | zlib | gzip | lzma | bzip2.
#[export] Instance compression_eq_dec : EqDecision compression.
Proof. solve_decision. Defined.

Class Protocol := {
  command_text : commands.t → str;
  header_text : headers.t → str;
  querry_text : querries.t → str;
  response_text : responses.t → str;

  (* message.h: parsed messages *)
  message : Type;
  command : message → str;
  have_header : message → headers.t → bool;
  header : message → headers.t → str;              (* request[hdr] *)
  body : message → list str;

  isValidContentTypeFormat : str → bool;
  CSV_LIST : str;
  CSV_MAP : str;

  (* fsp_ssl_versions.h *)
  ssl_version : Type;
  ssl_version_eq_dec :: EqDecision ssl_version;
  sslv23 : ssl_version;
  IsSslVersionValid : str → bool;
  Version_of_text : str → ssl_version;
  Version : ssl_version → str;

  (* fsp_compressions.h *)
  ZLIB : str;
  GZIP : str;
  Compression : compression → str;
  CSVCompressions_of_text : str → list compression;
  CSV_DELIMITER_STR : str;

  (* protocol.h *)
  CMD_ID_WHEN_NO_CMDID_PRESENT : str;
  HEARTBEAT_MESSAGE : str;
  PATH_SEPARATOR_CHR : ascii;
  PATH_ROOT : str;
  COMPRESSED_CHUNK_HEADER_LENGTH : nat;
  MAX_COMPRESSED_SEGMENT_LENGTH : nat;
  DOWNLOAD_TRANSACTION_DELIM_CHR : ascii;
  SENDER_RECEIVER_POSITION_DWNLD : nat;
  DOWNLOAD_TRANSACTION_ID_POS : nat;
  RECEIVER_CODE_STR : str;
  SENDER_CODE_STR : str;

  (* message builders: the body texts *)
  build_body_list : list str → str → str;
  build_body_map : gmap str (list str) → str;
}.

(** What the server relies on: the texts of the constants are distinct, a header
    name is not a query type, and the list delimiter is one character. *)
Class ProtocolLaws `{Protocol} : Prop := {
  command_text_inj :: Inj (=) (=) command_text;
  querry_text_inj :: Inj (=) (=) querry_text;
  header_not_querry h q : header_text h ≠ querry_text q;
  csv_delimiter_char : length CSV_DELIMITER_STR = 1%nat;
}.

(** ** Outgoing messages

    A message the server builds is recorded as the builder it uses and the values
    it gives to it, in the order of the calls; [build()] belongs to the library. *)
Inductive outbound :=
  | StringReplyMessage (code : responses.t) (RequestID : str)
      (additional : list (headers.t * str))
  | StringNotificationMessage (kind : notifications.t)
      (additional : list (headers.t * str)) (body : option str)
  | StringQuerryMessage (RequestID : str) (kind : querries.t)
      (additional : list (headers.t * str))
  | C_StaticAllocatedString (text : str).

#[export] Instance outbound_eq_dec : EqDecision outbound.
Proof. solve_decision. Defined.

(** The common case: a reply with a code, the request's id and nothing else. *)
Definition reply (code : responses.t) (RequestID : str) : outbound :=
  StringReplyMessage code RequestID [].

(** ** A concrete protocol, for witnesses *)

Record sample_message := mk_message {
  sm_command : str;
  sm_headers : list (headers.t * str);
  sm_body : list str;
}.

Fixpoint assoc_header (h : headers.t) (l : list (headers.t * str)) : option str :=
  match l with
  | [] => None
  | (k, v) :: l => if decide (h = k) then Some v else assoc_header h l
  end.

Definition sample_command_text (c : commands.t) : str :=
  match c with
  | commands.SIGNIN => lit "SIGNIN" | commands.SIGNUP => lit "SIGNUP"
  | commands.PUSH_FILES => lit "PUSH_FILES" | commands.QUERRY => lit "QUERRY"
  | commands.DELETE_ACCOUNT => lit "DELETE" | commands.LOGOUT => lit "LOGOUT"
  | commands.REPLY => lit "REPLY" | commands.HEARTBEAT => lit "HEARTBEAT"
  | commands.UPDATE_FILE_LIST_NOTIFICATION => lit "UPDATE_N"
  | commands.USER_LOGGED_OUT_NOTIFICATION => lit "LOGGED_OUT_N"
  | commands.REMOVE_FILES => lit "REMOVE_FILES"
  | commands.DOWNLOAD_FILE => lit "DOWNLOAD_FILE"
  | commands.REPLY_NOTIFICATION => lit "REPLY_N"
  end.

Definition sample_querry_text (q : querries.t) : str :=
  match q with
  | querries.DOWNLOAD_FILE => lit "DownloadFile" | querries.ADD_FILE => lit "AddFile"
  | querries.REMOVE_PATH => lit "RemovePath" | querries.RENAME_PATH => lit "RenamePath"
  end.

Definition sample_protocol : Protocol := {|
  command_text := sample_command_text;
  header_text := λ _, lit "Header";
  querry_text := sample_querry_text;
  response_text := λ r, if decide (r = responses.DOWNLOAD_FILE_QUERRY_APPROVED)
                        then lit "APPROVED" else lit "OTHER";
  message := sample_message;
  command := sm_command;
  have_header := λ m h, bool_decide (is_Some (assoc_header h (sm_headers m)));
  header := λ m h, default [] (assoc_header h (sm_headers m));
  body := sm_body;
  isValidContentTypeFormat := λ s, bool_decide (s = lit "csv");
  CSV_LIST := lit "csv";
  CSV_MAP := lit "map";
  ssl_version := bool;
  sslv23 := true;
  IsSslVersionValid := λ s, bool_decide (s = lit "sslv23");
  Version_of_text := λ s, bool_decide (s = lit "sslv23");
  Version := λ v, if v : bool then lit "sslv23" else lit "other";
  ZLIB := lit "zlib";
  GZIP := lit "gzip";
  Compression := λ c, match c with zlib => lit "zlib" | gzip => lit "gzip" | _ => [] end;
  CSVCompressions_of_text := λ s, if decide (s = lit "zlib") then [zlib]
                                  else if decide (s = lit "gzip") then [gzip] else [];
  CSV_DELIMITER_STR := lit ",";
  CMD_ID_WHEN_NO_CMDID_PRESENT := lit "0";
  HEARTBEAT_MESSAGE := lit "HEARTBEAT";
  PATH_SEPARATOR_CHR := ascii_of_N 47;
  PATH_ROOT := lit "/";
  COMPRESSED_CHUNK_HEADER_LENGTH := 6;
  MAX_COMPRESSED_SEGMENT_LENGTH := Z.to_nat 600000;
  DOWNLOAD_TRANSACTION_DELIM_CHR := ascii_of_N 58;
  SENDER_RECEIVER_POSITION_DWNLD := 0;
  DOWNLOAD_TRANSACTION_ID_POS := 1;
  RECEIVER_CODE_STR := lit "R";
  SENDER_CODE_STR := lit "S";
  build_body_list := λ l _, concat l;
  build_body_map := λ _, [];
|}.

Lemma sample_protocol_laws : @ProtocolLaws sample_protocol.
Proof.
  split.
  - intros [] [] H; by vm_compute in H.
  - intros [] [] H; by vm_compute in H.
  - intros h [] H; by vm_compute in H.
  - done.
Qed.
