(* ===== verification/Validators.v ===== *)
(** * Validators: the checks a parsed message passes before it is dispatched

    [basic_validator.cpp], [transition_validator.cpp], [semantic_validator.cpp] and
    [confirmator.cpp], with the client states of [client.h].  A validator returns
    the reply code of the refusal, or [None] for the [nullptr] that accepts. *)

From S2P Require Import Prelude Text Protocol.

(** [client::State] *)
Inductive State := connected | logged | processing.
#[global] Instance State_eq_dec : EqDecision State.
Proof. solve_decision. Defined.

Section validators.
Context `{Protocol}.
Implicit Types (req : message) (st : State).

(** [req.command() == CMD] *)
Definition is_command req (c : commands.t) : bool :=
  bool_decide (command req = command_text c).

(** [basic_validator::validate] *)
Definition basic_validate req : option responses.t :=
  if negb (have_header req headers.CommandId)
  then Some responses.CMDID_HDR_REQUIRED
  else None.

(** [transition_validator::validate] *)
Definition transition_validate req st : option responses.t :=
  match st with
  | connected =>
      if negb (is_command req commands.SIGNIN)
         && negb (is_command req commands.SIGNUP)
      then Some responses.INVALID_CMD_WHILE_IN_CONN_STATE else None
  | logged =>
      if negb (is_command req commands.PUSH_FILES)
         && negb (is_command req commands.DELETE_ACCOUNT)
         && negb (is_command req commands.LOGOUT)
      then Some responses.INVALID_CMD_WHILE_IN_LOGGED_STATE else None
  | processing =>
      if negb (is_command req commands.DELETE_ACCOUNT)
         && negb (is_command req commands.LOGOUT)
         && negb (is_command req commands.QUERRY)
         && negb (is_command req commands.REPLY)
      then Some responses.INVALID_CMD_WHILE_IN_PROCESSING_STATE else None
  end.

Definition validateAuthentication req : option responses.t :=
  if negb (have_header req headers.Nickname)
  then Some responses.NICKNAME_HDR_REQUIRED
  else if negb (have_header req headers.Password)
  then Some responses.PASSWORD_HDR_REQUIRED
  else None.

Definition validatePushFiles req : option responses.t :=
  if have_header req headers.ContentLength then
    if negb (have_header req headers.ContentType)
    then Some responses.CONTENT_TYPE_HDR_REQUIRED
    else if negb (isValidContentTypeFormat (header req headers.ContentType))
    then Some responses.CONTENT_TYPE_UNSUPPORTED
    else None
  else None.

(** [QuerryType == querries::X]: the code compares the name of the header, except
    for [ADD_FILE], where it compares the header's value [QuerryType_]. *)
Definition QuerryType_is (q : querries.t) : bool :=
  bool_decide (header_text headers.QuerryType = querry_text q).

Definition validateQuerry req : option responses.t :=
  if negb (have_header req headers.QuerryType)
  then Some responses.QUERRY_TYPE_HDR_REQUIRED
  else
    let QuerryType_ := header req headers.QuerryType in
    if (QuerryType_is querries.DOWNLOAD_FILE || QuerryType_is querries.REMOVE_PATH
        || QuerryType_is querries.RENAME_PATH
        || bool_decide (QuerryType_ = querry_text querries.ADD_FILE))
       && negb (have_header req headers.FileName)
    then Some responses.FILE_NAME_HDR_REQUIRED
    else if QuerryType_is querries.DOWNLOAD_FILE
            && negb (have_header req headers.FileOwner)
    then Some responses.FILE_OWNER_HDR_REQUIRED
    else if QuerryType_is querries.DOWNLOAD_FILE
            && negb (have_header req headers.SslVersion)
    then Some responses.SSL_VERSION_HDR_REQUIRED
    else if QuerryType_is querries.DOWNLOAD_FILE
            && negb (IsSslVersionValid (header req headers.SslVersion))
    then Some responses.INVALID_SSL_VERSION
    else if QuerryType_is querries.RENAME_PATH
            && negb (have_header req headers.FileNewName)
    then Some responses.FILE_NEW_NAME_HDR_REQUIRED
    else None.

(** [semantic_validator::validateReply]; private, and never called. *)
Definition validateReply req : option responses.t :=
  if negb (have_header req headers.ReplyCode)
  then Some responses.RPL_CODE_HDR_REQUIRED
  else if bool_decide (header req headers.ReplyCode
                       = response_text responses.DOWNLOAD_FILE_QUERRY_APPROVED)
          && negb (have_header req headers.FileSize)
  then Some responses.FILE_SIZE_HDR_REQUIRED
  else None.

(** [semantic_validator::validate] *)
Definition semantic_validate req : option responses.t :=
  if is_command req commands.SIGNIN || is_command req commands.SIGNUP
  then validateAuthentication req
  else if is_command req commands.PUSH_FILES then validatePushFiles req
  else if is_command req commands.QUERRY then validateQuerry req
  else None.

(** [confirmator::confirm]; [None] is the [nullptr] of the last line. *)
Definition confirm req : option responses.t :=
  if is_command req commands.SIGNIN then Some responses.SIGNIN_CMD_ACCEPTED
  else if is_command req commands.SIGNUP then Some responses.SIGNUP_CMD_ACCEPTED
  else if is_command req commands.DELETE_ACCOUNT
  then Some responses.DELETE_ACCOUNT_CMD_ACCEPTED
  else if is_command req commands.LOGOUT then Some responses.LOGOUT_CMD_ACCEPTED
  else if is_command req commands.PUSH_FILES
  then Some responses.PUSH_FILES_CMD_ACCEPTED
  else if is_command req commands.QUERRY then Some responses.QUERRY_CMD_ACCEPTED
  else None.

(** ** Specification *)

(** The commands each state admits. *)
Definition allowed_commands st : list commands.t :=
  match st with
  | connected => [commands.SIGNIN; commands.SIGNUP]
  | logged => [commands.PUSH_FILES; commands.DELETE_ACCOUNT; commands.LOGOUT]
  | processing =>
      [commands.DELETE_ACCOUNT; commands.LOGOUT; commands.QUERRY; commands.REPLY]
  end.
End validators.

Section theorems.
Context `{ProtocolLaws}.
Implicit Types (req : message) (st : State).

Lemma is_command_spec req c :
  is_command req c = true ↔ command req = command_text c.
Proof. apply bool_decide_eq_true. Qed.

Lemma is_command_text req c c' :
  command req = command_text c →
  is_command req c' = bool_decide (c = c').
Proof.
  intros E. unfold is_command. rewrite E. apply bool_decide_ext.
  split; [apply command_text_inj|by intros ->].
Qed.

Lemma QuerryType_is_false q : QuerryType_is q = false.
Proof. apply bool_decide_eq_false_2, header_not_querry. Qed.

Lemma transition_validate_allowed req st :
  transition_validate req st = None ↔
  ∃ c, c ∈ allowed_commands st ∧ command req = command_text c.
Proof.
  unfold transition_validate, allowed_commands.
  destruct st;
    repeat match goal with
    | |- context[is_command req ?c] =>
        let E := fresh "E" in destruct (is_command req c) eqn:E;
        [apply is_command_spec in E | apply bool_decide_eq_false in E]
    end; cbn; (split; [intros|intros (c & Hc & E')]);
    try done;
    try (eexists; split; [|eassumption]; set_solver);
    rewrite ?elem_of_cons, ?elem_of_nil in Hc; naive_solver.
Qed.

(** What the semantic validator demands of each command. *)
Definition required_headers req (c : commands.t) : Prop :=
  match c with
  | commands.SIGNIN | commands.SIGNUP =>
      have_header req headers.Nickname = true
      ∧ have_header req headers.Password = true
  | commands.PUSH_FILES =>
      have_header req headers.ContentLength = true →
      have_header req headers.ContentType = true
      ∧ isValidContentTypeFormat (header req headers.ContentType) = true
  | commands.QUERRY =>
      have_header req headers.QuerryType = true
      ∧ (header req headers.QuerryType = querry_text querries.ADD_FILE →
         have_header req headers.FileName = true)
  | _ => True
  end.

Lemma validateAuthentication_None req :
  validateAuthentication req = None ↔
  have_header req headers.Nickname = true ∧ have_header req headers.Password = true.
Proof.
  unfold validateAuthentication.
  destruct (have_header req headers.Nickname), (have_header req headers.Password);
    cbn; naive_solver.
Qed.

Lemma validatePushFiles_None req :
  validatePushFiles req = None ↔ required_headers req commands.PUSH_FILES.
Proof.
  unfold validatePushFiles. cbn.
  destruct (have_header req headers.ContentLength); [|naive_solver].
  destruct (have_header req headers.ContentType); cbn; [|naive_solver].
  destruct (isValidContentTypeFormat _); cbn; naive_solver.
Qed.

Lemma validateQuerry_None req :
  validateQuerry req = None ↔ required_headers req commands.QUERRY.
Proof.
  unfold validateQuerry. rewrite !QuerryType_is_false. cbn.
  destruct (have_header req headers.QuerryType); cbn; [|naive_solver].
  case_bool_decide; destruct (have_header req headers.FileName); cbn; naive_solver.
Qed.

Lemma semantic_validate_None req c :
  command req = command_text c →
  semantic_validate req = None ↔ required_headers req c.
Proof.
  intros E. unfold semantic_validate. rewrite !(is_command_text _ _ _ E).
  destruct c; cbn; try done; first
    [apply validateAuthentication_None|apply validatePushFiles_None
    |apply validateQuerry_None].
Qed.

(** C30. The transition and the semantic validator together admit a request
    exactly when its command is one the client's state allows and the request
    has the headers the semantic validator demands of that command. *)
Theorem admission_spec req st :
  transition_validate req st = None ∧ semantic_validate req = None ↔
  ∃ c, c ∈ allowed_commands st ∧ command req = command_text c
       ∧ required_headers req c.
Proof.
  rewrite transition_validate_allowed. split.
  - intros [(c & Hc & E) Hs]. exists c. by rewrite (semantic_validate_None _ _ E) in Hs.
  - intros (c & Hc & E & Hr). split; [by exists c|]. by apply (semantic_validate_None _ _ E).
Qed.

Lemma confirm_text req c :
  command req = command_text c →
  confirm req =
    match c with
    | commands.SIGNIN => Some responses.SIGNIN_CMD_ACCEPTED
    | commands.SIGNUP => Some responses.SIGNUP_CMD_ACCEPTED
    | commands.DELETE_ACCOUNT => Some responses.DELETE_ACCOUNT_CMD_ACCEPTED
    | commands.LOGOUT => Some responses.LOGOUT_CMD_ACCEPTED
    | commands.PUSH_FILES => Some responses.PUSH_FILES_CMD_ACCEPTED
    | commands.QUERRY => Some responses.QUERRY_CMD_ACCEPTED
    | _ => None
    end.
Proof.
  intros E. unfold confirm. rewrite !(is_command_text _ _ _ E). by destruct c.
Qed.

(** The confirmation sent for a request that passed the transition check is
    never the null pointer, except for a REPLY, which is not confirmed. *)
Lemma confirm_admitted req st :
  transition_validate req st = None →
  is_command req commands.REPLY = false →
  is_Some (confirm req).
Proof.
  rewrite transition_validate_allowed. intros (c & Hc & E) HR.
  rewrite (is_command_text _ _ _ E), bool_decide_eq_false in HR.
  rewrite (confirm_text _ _ E).
  destruct st; cbn in Hc; repeat (apply elem_of_cons in Hc as [->|Hc]);
    first [by apply elem_of_nil in Hc|by destruct HR|by eexists].
Qed.

(** The semantic validator admits a download, a removal or a renaming query
    that carries nothing but its type: the checks on the file name, the owner, the
    SSL version and the new name are never reached, because they compare the name
    of the header with the query types instead of its value. *)
Theorem querry_checks_unreachable req q :
  q ≠ querries.ADD_FILE →
  have_header req headers.QuerryType = true →
  header req headers.QuerryType = querry_text q →
  (∀ h, h ≠ headers.QuerryType → have_header req h = false) →
  validateQuerry req = None.
Proof.
  intros Hq Hh E _. apply validateQuerry_None. cbn. split; [done|].
  rewrite E. by intros ?%querry_text_inj.
Qed.
End theorems.

(** ** Witnesses *)

Definition signin_message : sample_message :=
  mk_message (lit "SIGNIN")
    [(headers.CommandId, lit "1"); (headers.Nickname, lit "ann");
     (headers.Password, lit "pw")] [].

Lemma admission_spec_witness :
  transition_validate (H := sample_protocol) signin_message connected = None
  ∧ semantic_validate (H := sample_protocol) signin_message = None.
Proof.
  apply (admission_spec (H := sample_protocol) (H0 := sample_protocol_laws)).
  exists commands.SIGNIN. repeat split; try reflexivity. by left.
Defined.

Definition bare_download : sample_message :=
  mk_message (lit "QUERRY") [(headers.QuerryType, lit "DownloadFile")] [].

Lemma querry_checks_unreachable_witness :
  validateQuerry (H := sample_protocol) bare_download = None.
Proof.
  apply (querry_checks_unreachable (H := sample_protocol) (H0 := sample_protocol_laws)
           bare_download querries.DOWNLOAD_FILE); try reflexivity; try discriminate.
  intros [] E; first [reflexivity|by destruct E].
Defined.
