(* ===== verification/StateMachine.v ===== *)
(** * StateMachine: [state_machine.h], [guards.h], [actions.h]

    The Boost.MSM machine that describes the life of a client connection, kept in the
    repository as its specification (no other file includes it): its states, events,
    transition table and the lines it prints.  [process_event] is what Boost.MSM
    documents for a flat machine: the row of the current state and the event is
    looked up, its guard is evaluated, then the source's exit behaviour, the row's
    action and the target's entry behaviour run, or [no_transition] is called.  The
    theorem compares the table with the admission control the server really uses. *)

From S2P Require Import Prelude Text Protocol Validators.

Inductive fsm_state := Connected | Logged | Running | Disconnected.
Inductive fsm_event :=
  | signin | signup | push_files | connection_closed | logout | delete_account.

#[global] Instance fsm_state_eq_dec : EqDecision fsm_state.
Proof. solve_decision. Defined.
#[global] Instance fsm_event_eq_dec : EqDecision fsm_event.
Proof. solve_decision. Defined.

(** The lines the guards, actions and states print. *)
Inductive log_line :=
  | guard_line (e : fsm_event)                   (* client_msm_::guard_... *)
  | action_line (e : fsm_event)                  (* client_msm_::do_... *)
  | entering (s : fsm_state)
  | leaving (s : fsm_state)
  | no_transition (s : fsm_state) (e : fsm_event).

(** [guard_signin], [guard_signup], [guard_push_files]: print, then accept. *)
Definition run_guard (e : fsm_event) : bool * list log_line := (true, [guard_line e]).

Record row := mkRow {
  source : fsm_state;
  on : fsm_event;
  guarded : bool;
  has_action : bool;
  target : fsm_state;
}.

(** [transition_table] *)
Definition transition_table : list row :=
  [ mkRow Connected signin true true Logged;
    mkRow Connected signup true true Logged;
    mkRow Connected connection_closed false false Disconnected;
    mkRow Logged push_files true true Running;
    mkRow Logged logout false true Disconnected;
    mkRow Logged delete_account false true Disconnected;
    mkRow Logged connection_closed false false Disconnected;
    mkRow Running logout false true Disconnected;
    mkRow Running connection_closed false false Disconnected ].

Definition initial_state : fsm_state := Connected.

Definition row_for (s : fsm_state) (e : fsm_event) : option row :=
  list_find (λ r, source r = s ∧ on r = e) transition_table ≫= λ ir, Some ir.2.

(** [Logged_impl] and [Running_impl] have entry and exit behaviours. *)
Definition on_entry (s : fsm_state) : list log_line :=
  match s with Logged | Running => [entering s] | _ => [] end.
Definition on_exit (s : fsm_state) : list log_line :=
  match s with Logged | Running => [leaving s] | _ => [] end.

Definition process_event (s : fsm_state) (e : fsm_event) : fsm_state * list log_line :=
  match row_for s e with
  | None => (s, [no_transition s e])
  | Some r =>
      let '(ok, printed) := if guarded r then run_guard e else (true, []) in
      if ok : bool then
        (target r,
         printed ++ on_exit s ++ (if has_action r then [action_line e] else [])
                 ++ on_entry (target r))
      else (s, printed)
  end.

Fixpoint process_events (s : fsm_state) (es : list fsm_event) : fsm_state * list log_line :=
  match es with
  | [] => (s, [])
  | e :: es =>
      let '(s, l) := process_event s e in
      let '(s, l') := process_events s es in (s, l ++ l')
  end.

(** The events of [test()]. *)
Definition test_events : list fsm_event :=
  [push_files; signin; push_files; logout; connection_closed].

(** [test()]: after the four first events the client is disconnected, as its comment
    says, and the two events the table has no row for leave the state alone. *)
Lemma test_run :
  process_events initial_state test_events
  = (Disconnected,
     [no_transition Connected push_files;
      guard_line signin; action_line signin; entering Logged;
      guard_line push_files; leaving Logged; action_line push_files; entering Running;
      leaving Running; action_line logout;
      no_transition Disconnected connection_closed]).
Proof. reflexivity. Qed.

(** ** The table and the transition validator *)

(** The machine's name of a client state, and the event of a command. *)
Definition fsm_of_State (st : State) : fsm_state :=
  match st with connected => Connected | logged => Logged | processing => Running end.

Definition event_of_command (c : commands.t) : option fsm_event :=
  match c with
  | commands.SIGNIN => Some signin
  | commands.SIGNUP => Some signup
  | commands.PUSH_FILES => Some push_files
  | commands.LOGOUT => Some logout
  | commands.DELETE_ACCOUNT => Some delete_account
  | _ => None
  end.

Section agreement.
Context `{ProtocolLaws}.

Lemma admitted_command req st c :
  command req = command_text c →
  transition_validate req st = None ↔ c ∈ allowed_commands st.
Proof.
  intros E. rewrite transition_validate_allowed. split.
  - intros (c' & Hc & E'). rewrite E in E'. by apply command_text_inj in E' as ->.
  - intros Hc. by exists c.
Qed.

(** C39. For every command that is an event of the machine, the transition validator
    admits it in a state exactly when the transition table has a row for it, with one
    exception: the validator also lets a client that has registered its files delete
    its account, and the table has no such row. *)
Theorem validator_agrees_with_table req st c e :
  command req = command_text c → event_of_command c = Some e →
  transition_validate req st = None ↔
  is_Some (row_for (fsm_of_State st) e) ∨ (st = processing ∧ c = commands.DELETE_ACCOUNT).
Proof.
  intros E He. rewrite (admitted_command _ _ _ E).
  assert (∀ b : bool, bool_decide (c ∈ allowed_commands st) = b →
    (c ∈ allowed_commands st) ↔ b = true) as Hb.
  { intros b <-. symmetry. apply bool_decide_eq_true. }
  rewrite (Hb _ eq_refl).
  destruct c; try discriminate He; injection He as <-; destruct st; vm_compute;
    (split; [intros HH|intros [[? HH]|[HH1 HH2]]]); try done;
    first [by left; eexists | by right].
Qed.
End agreement.

(** ** Witness *)

Definition logout_message : sample_message := mk_message (lit "LOGOUT") [] [].

Lemma validator_agrees_with_table_witness :
  transition_validate (H := sample_protocol) logout_message processing = None.
Proof.
  apply (validator_agrees_with_table (H := sample_protocol) (H0 := sample_protocol_laws)
           logout_message processing commands.LOGOUT logout eq_refl eq_refl).
  left. eexists. reflexivity.
Defined.
