(* ===== verification/Vfs.v ===== *)
(** * Vfs: [VirtualFileSystemTree.h]

    The shared directory of a client is a tree of heap-allocated nodes linked by raw
    pointers: a child list in each node and a pointer back to the parent.  The model
    keeps that representation: [heap] maps the addresses of live nodes to their
    fields, a dereference of an address that is not live is undefined behaviour, and
    [new] and [delete] add and remove addresses.  Effects on the local disk (the
    cached copies of files) are returned as a list of [fs_effect]s.  The separator,
    the owner (a reference to the client's nickname, read when used) and the path
    arithmetic of [std::filesystem] are parameters.  An operation is a function on the
    whole tree; [VfsThreads] has the spin lock and the threads that share a tree, and
    says what is left of atomicity: [Get] alone does not hold the lock throughout. *)

From S2P Require Import Prelude Text.

Abbreviation loc := nat.

(** [Node]; [Owner_] and [PathSeparator_] are the tree's, passed separately. *)
Record Node := mkNode {
  MyName_ : str;
  MyChildrens_ : list loc;
  MyParent_ : option loc;
  Cached_ : bool;
}.

#[global] Instance Node_eq_dec : EqDecision Node.
Proof. solve_decision. Defined.

(** A tree: its live nodes, its root and the next fresh address. *)
Record vfs := mkVfs {
  heap : gmap loc Node;
  root_ : loc;
  next_ : loc;
}.

Inductive fs_effect :=
  | FsRemove (LocalPath : str)                          (* filesystem::remove *)
  | FsRename (OldLocalPath NewLocalPath : str).          (* filesystem::rename *)

#[global] Instance fs_effect_eq_dec : EqDecision fs_effect.
Proof. solve_decision. Defined.

Definition with_children (cs : list loc) (nd : Node) : Node :=
  mkNode (MyName_ nd) cs (MyParent_ nd) (Cached_ nd).
Definition with_name (Name : str) (nd : Node) : Node :=
  mkNode Name (MyChildrens_ nd) (MyParent_ nd) (Cached_ nd).
Definition with_cached (Cached : bool) (nd : Node) : Node :=
  mkNode (MyName_ nd) (MyChildrens_ nd) (MyParent_ nd) Cached.
Definition with_heap (h : gmap loc Node) (v : vfs) : vfs :=
  mkVfs h (root_ v) (next_ v).

(** [p->...] *)
Definition deref (h : gmap loc Node) (l : loc) : outcome Node :=
  match h !! l with Some nd => Ok nd | None => Fault UndefinedBehaviour end.

(** ** [Node] *)

Definition AddChildren (p c : loc) (h : gmap loc Node) : outcome (gmap loc Node) :=
  nd ← deref h p;
  Ok (<[p := with_children (c :: MyChildrens_ nd) nd]> h).

(** [forward_list::remove] drops every element equal to the pointer. *)
Definition drop_child (c : loc) (cs : list loc) : list loc := filter (λ x, x ≠ c) cs.

Definition RemoveChildren (p c : loc) (h : gmap loc Node) : outcome (gmap loc Node) :=
  nd ← deref h p;
  Ok (<[p := with_children (drop_child c (MyChildrens_ nd)) nd]> h).

(** The constructor: allocates the node and links it into its parent. *)
Definition new_Node (Name : str) (parent : option loc) (v : vfs)
    : outcome (loc * vfs) :=
  let l := next_ v in
  let h := <[l := mkNode Name [] parent false]> (heap v) in
  h ← match parent with Some p => AddChildren p l h | None => Ok h end;
  Ok (l, mkVfs h (root_ v) (S l)).

(** [GetChildren]: [find_if] on the child list, the null pointer when none fits. *)
Fixpoint find_child (h : gmap loc Node) (cs : list loc) (Name : str)
    : outcome (option loc) :=
  match cs with
  | [] => Ok None
  | c :: cs =>
      nd ← deref h c;
      if bool_decide (MyName_ nd = Name) then Ok (Some c) else find_child h cs Name
  end.

Definition GetChildren (h : gmap loc Node) (p : loc) (Name : str)
    : outcome (option loc) :=
  nd ← deref h p; find_child h (MyChildrens_ nd) Name.

Definition IsLeaf (nd : Node) : bool := bool_decide (MyChildrens_ nd = []).

Section paths.
Variable separator : ascii.

(** [while (CurrentParrent->MyParent_) { Path += sep; Path.append(reversed name);
    CurrentParrent = CurrentParrent->MyParent_; }] *)
Fixpoint climb (fuel : nat) (h : gmap loc Node) (CurrentParrent : loc) (Path : str)
    : outcome str :=
  match fuel with
  | O => Fault OutOfFuel
  | S fuel =>
      nd ← deref h CurrentParrent;
      match MyParent_ nd with
      | None => Ok Path
      | Some p => climb fuel h p (Path ++ [separator] ++ rev (MyName_ nd))
      end
  end.

(** The loop shared by [PathToMe] and [LocalPathToMe]; the nodes visited are
    distinct, so the number of live nodes is enough fuel. *)
Definition climb_from (h : gmap loc Node) (nd : Node) (Path : str) : outcome str :=
  match MyParent_ nd with
  | Some p => climb (S (size h)) h p Path
  | None => Ok Path
  end.

Definition PathToMe (h : gmap loc Node) (nd : Node) (Path : str) : outcome str :=
  Path ← climb_from h nd Path;
  Ok (rev (Path ++ [separator])).

Definition MyPath (h : gmap loc Node) (nd : Node) (Path : str) : outcome str :=
  Path ← PathToMe h nd Path;
  Ok (Path ++ MyName_ nd).

Definition LocalPathToMe (owner : str) (h : gmap loc Node) (nd : Node) (Path : str)
    : outcome str :=
  Path ← climb_from h nd Path;
  Ok (rev (Path ++ [separator] ++ rev owner) ++ MyName_ nd).

(** [delete p], that is [~Node()]: remove the cached copy, unlink from the parent,
    then delete a snapshot of the children, each of which unlinks itself. *)
Fixpoint delete_Node (fuel : nat) (owner : str) (l : loc)
    (h : gmap loc Node) : outcome (list fs_effect * gmap loc Node) :=
  match fuel with
  | O => Fault OutOfFuel
  | S fuel =>
      nd ← deref h l;
      effects ←
        (if Cached_ nd then
           LocalPath ← LocalPathToMe owner h nd [];
           Ok [FsRemove LocalPath]
         else Ok []);
      h ← match MyParent_ nd with Some p => RemoveChildren p l h | None => Ok h end;
      nd ← deref h l;
      let TempChildrens := MyChildrens_ nd in
      '(effects', h) ←
        (fix delete_all (cs : list loc) (h : gmap loc Node) :=
           match cs with
           | [] => Ok ([], h)
           | c :: cs =>
               '(e1, h) ← delete_Node fuel owner c h;
               '(e2, h) ← delete_all cs h;
               Ok (e1 ++ e2, h)
           end) TempChildrens h;
      Ok (effects ++ effects', base.delete l h)
  end.
End paths.

Inductive PathType := FILE | DIRECTORY | GENERIC.

(** References into [PathComponents]: [None] once the element was popped. *)
Definition read_ref (r : option str) : outcome str :=
  match r with Some s => Ok s | None => Fault UndefinedBehaviour end.

Definition pop_front (pc : list str) : outcome (list str) :=
  match pc with [] => Fault UndefinedBehaviour | _ :: pc => Ok pc end.

(** [do_add]: the state of the loop is the component list, the reference
    [CurrentPathComponent] bound to its front on entry, [done] and the tree; the
    first component of its result says whether the loop body executed [return].
    [done] is a by-value parameter, so a callee's assignment is not seen here. *)
Fixpoint do_add (fuel : nat) (Parent : loc) (PathComponents : list str) (done : bool)
    (v : vfs) : outcome (list str * vfs) :=
  match fuel with
  | O => Fault OutOfFuel
  | S fuel =>
    match PathComponents with
    | [] => Ok ([], v)
    | front :: _ =>
      nd ← deref (heap v) Parent;
      '(returned, pc, CurrentPathComponent, done, v) ←
        (fix loop (Childrens : list loc) (pc : list str) (cur : option str)
             (done : bool) (v : vfs) :=
           match Childrens with
           | [] => Ok (false, pc, cur, done, v)
           | Children :: Childrens =>
             c ← deref (heap v) Children;
             name ← read_ref cur;
             if bool_decide (MyName_ c = name) then
               pc ← pop_front pc;
               match pc with
               | [] =>
                 moved ← read_ref None;
                 '(_, v) ← new_Node moved (Some Children) v;
                 Ok (true, pc, None, true, v)
               | _ :: _ =>
                 '(pc, v) ← do_add fuel Children pc done v;
                 if done : bool then Ok (false, pc, None, done, v)
                 else loop Childrens pc None done v
               end
             else if done : bool then Ok (false, pc, cur, done, v)
             else loop Childrens pc cur done v
           end) (MyChildrens_ nd) PathComponents (Some front) done v;
      if returned : bool then Ok (pc, v)
      else match pc with
           | [] => Ok ([], v)
           | _ :: _ =>
             moved ← read_ref CurrentPathComponent;
             '(NewTreePathComponent, v) ← new_Node moved (Some Parent) v;
             pc ← pop_front pc;
             do_add fuel NewTreePathComponent pc done v
           end
    end
  end.

(** [do_find_path], which consumes the components. *)
Fixpoint do_find_path (h : gmap loc Node) (Parent : loc) (PathComponents : list str)
    : outcome (option loc) :=
  match PathComponents with
  | [] => Ok (Some Parent)
  | front :: PathComponents =>
      Children ← GetChildren h Parent front;
      match Children with
      | Some Children => do_find_path h Children PathComponents
      | None => Ok None
      end
  end.

(** The three tests at the end of [do_get_paths]. *)
Definition reports (ty : PathType) (nd : Node) : bool :=
  match ty with
  | GENERIC => true
  | FILE => IsLeaf nd
  | DIRECTORY => negb (IsLeaf nd)
  end.

Section operations.
Context `{BoostSplit}.
Variable separator : ascii.
Variable owner : str.
(** [filesystem::path(p).relative_path().append(f)] *)
Variable relative_append : str → str → str.

Definition get_components (Path : str) : list str :=
  filter (λ file, file ≠ []) (boost_split (λ c, bool_decide (c = separator)) Path).

(** The text after the last separator. *)
Fixpoint until_separator (r : str) : str :=
  match r with
  | [] => []
  | c :: r => if bool_decide (c = separator) then [] else c :: until_separator r
  end.
Definition filename (Path : str) : str := rev (until_separator (rev Path)).

Definition do_find_node (v : vfs) (Path : str) : outcome (option loc) :=
  match get_components Path with
  | [] => Ok None
  | PathComponents => do_find_path (heap v) (root_ v) PathComponents
  end.

(** [Add]; one recursive call per component and one for the empty rest. *)
Definition Add (Path : str) (v : vfs) : outcome vfs :=
  let PathComponents := get_components Path in
  snd <$> do_add (S (length PathComponents)) (root_ v) PathComponents false v.

(** [do_get_paths], the overload for [forward_list]: [CurrentPath] and
    [PathsContainer] are passed by reference and returned. *)
Fixpoint do_get_paths (fuel : nat) (h : gmap loc Node) (ty : PathType)
    (Parent : loc) (CurrentPath : str) (PathsContainer : list str)
    : outcome (str * list str) :=
  match fuel with
  | O => Fault OutOfFuel
  | S fuel =>
      nd ← deref h Parent;
      '(CurrentPath, PathsContainer) ←
        (fix each (cs : list loc) (CurrentPath : str) (PathsContainer : list str) :=
           match cs with
           | [] => Ok (CurrentPath, PathsContainer)
           | Child :: cs =>
               '(CurrentPath, PathsContainer) ←
                 do_get_paths fuel h ty Child CurrentPath PathsContainer;
               each cs CurrentPath PathsContainer
           end) (MyChildrens_ nd) (CurrentPath ++ MyName_ nd ++ [separator])
                PathsContainer;
      let CurrentPath := removelast CurrentPath in
      let PathsContainer :=
        if reports ty nd then CurrentPath :: PathsContainer else PathsContainer in
      if bool_decide (length CurrentPath < length (MyName_ nd))%nat
      then Fault Thrown
      else Ok (take (length CurrentPath - length (MyName_ nd)) CurrentPath,
               PathsContainer)
  end.

(** [for (auto Child : root_->MyChildrens_) do_get_paths(Child, ...)] *)
Fixpoint get_each (v : vfs) (ty : PathType) (cs : list loc) (CurrentPath : str)
    (PathsContainer : list str) : outcome (list str) :=
  match cs with
  | [] => Ok PathsContainer
  | Child :: cs =>
      '(CurrentPath, PathsContainer) ←
        do_get_paths (S (size (heap v))) (heap v) ty Child CurrentPath PathsContainer;
      get_each v ty cs CurrentPath PathsContainer
  end.

Definition Get (v : vfs) (ty : PathType) : outcome (list str) :=
  root ← deref (heap v) (root_ v);
  get_each v ty (MyChildrens_ root) (MyName_ root) [].

(** [Find] returns the result and the reference parameter [Cached]. *)
Definition Find (v : vfs) (Path : str) (Cached : bool) : outcome (bool * bool) :=
  NodeToFind ← do_find_node v Path;
  match NodeToFind with
  | Some l => nd ← deref (heap v) l; Ok (true, Cached_ nd)
  | None => Ok (false, Cached)
  end.

Definition Remove (Path : str) (v : vfs) : outcome (bool * list fs_effect * vfs) :=
  NodeToDelete ← do_find_node v Path;
  match NodeToDelete with
  | Some l =>
      '(effects, h) ← delete_Node separator (S (size (heap v))) owner l (heap v);
      Ok (true, effects, with_heap h v)
  | None => Ok (false, [], v)
  end.

Definition Rename (Path NewPath : str) (v : vfs)
    : outcome (bool * list fs_effect * vfs) :=
  NodeToRename ← do_find_node v Path;
  match NodeToRename with
  | Some l =>
      let FileName := filename NewPath in
      if bool_decide (FileName = []) then Ok (false, [], v)
      else
        nd ← deref (heap v) l;
        OldLocalPath ←
          (if Cached_ nd then LocalPathToMe separator owner (heap v) nd [] else Ok []);
        let v := with_heap (<[l := with_name FileName nd]> (heap v)) v in
        Ok (true,
            (if Cached_ nd
             then [FsRename OldLocalPath (relative_append OldLocalPath FileName)]
             else []), v)
  | None => Ok (false, [], v)
  end.

Definition SetCached (Path : str) (Cached : bool) (v : vfs) : outcome (bool * vfs) :=
  NodeToFind ← do_find_node v Path;
  match NodeToFind with
  | Some l =>
      nd ← deref (heap v) l;
      Ok (true, with_heap (<[l := with_cached Cached nd]> (heap v)) v)
  | None => Ok (false, v)
  end.

Definition Empty (v : vfs) : outcome bool :=
  root ← deref (heap v) (root_ v);
  Ok (bool_decide (MyChildrens_ root = [])).

(** The constructor allocates the root; [~VirtualFileSystemTree] deletes it. *)
Definition new_vfs (Root : str) : vfs := mkVfs {[0%nat := mkNode Root [] None false]} 0 1.

Definition delete_vfs (v : vfs) : outcome (list fs_effect) :=
  fst <$> delete_Node separator (S (size (heap v))) owner (root_ v) (heap v).
End operations.
