(* ===== verification/VfsTree.v ===== *)
(** * VfsTree: the abstract tree behind the pointers of [Vfs]

    [tree] is the file system as a value: names, flags and ordered children.  Each
    node keeps its address so that [repr v t] can say exactly which heap cells of
    [v] are the nodes of [t].  The lookup operations of [Vfs] are proved to compute
    the tree functions below; [VfsAdd], [VfsDelete] and [VfsPaths] do the rest. *)

From S2P Require Import Prelude Text Vfs.

Inductive tree := TNode (tloc : loc) (tname : str) (tcached : bool) (tsub : list tree).

Definition tloc (t : tree) : loc := let 'TNode l _ _ _ := t in l.
Definition tname (t : tree) : str := let 'TNode _ n _ _ := t in n.
Definition tcached (t : tree) : bool := let 'TNode _ _ c _ := t in c.
Definition tsub (t : tree) : list tree := let 'TNode _ _ _ ts := t in ts.

Section tree_induction.
Variable P : tree → Prop.
Hypothesis step : ∀ l n c ts, Forall P ts → P (TNode l n c ts).

Fixpoint tree_ind' (t : tree) : P t :=
  match t with
  | TNode l n c ts =>
      step l n c ts
        ((fix all (ts : list tree) : Forall P ts :=
            match ts with
            | [] => List.Forall_nil P
            | t :: ts => @List.Forall_cons tree P t ts (tree_ind' t) (all ts)
            end) ts)
  end.
End tree_induction.

(** ** Addresses and representation *)

Fixpoint locs (t : tree) : list loc :=
  let 'TNode l _ _ ts := t in l :: flat_map locs ts.

Fixpoint repr_at (h : gmap loc Node) (p : option loc) (t : tree) : Prop :=
  let 'TNode l n c ts := t in
  h !! l = Some (mkNode n (map tloc ts) p c)
  ∧ foldr (λ t P, repr_at h (Some l) t ∧ P) True ts.

Lemma foldr_Forall {A} (Q : A → Prop) l : foldr (λ x P, Q x ∧ P) True l ↔ Forall Q l.
Proof. induction l as [|x l IH]; cbn; [by split|]. by rewrite IH, Forall_cons. Qed.

Lemma repr_at_unfold h p l n c ts :
  repr_at h p (TNode l n c ts) ↔
  h !! l = Some (mkNode n (map tloc ts) p c) ∧ Forall (repr_at h (Some l)) ts.
Proof. cbn. by rewrite foldr_Forall. Qed.

Lemma repr_at_lookup h p t :
  repr_at h p t → h !! tloc t = Some (mkNode (tname t) (map tloc (tsub t)) p (tcached t)).
Proof. destruct t. by intros [? _]%repr_at_unfold. Qed.

Lemma repr_at_sub h p t : repr_at h p t → Forall (repr_at h (Some (tloc t))) (tsub t).
Proof. destruct t. by intros [_ ?]%repr_at_unfold. Qed.

Lemma elem_of_flat_map {A B} (f : A → list B) l y :
  y ∈ flat_map f l ↔ ∃ x, x ∈ l ∧ y ∈ f x.
Proof.
  rewrite list_elem_of_In, in_flat_map.
  by setoid_rewrite list_elem_of_In.
Qed.

Lemma locs_node l n c ts k :
  k ∈ locs (TNode l n c ts) ↔ k = l ∨ ∃ t, t ∈ ts ∧ k ∈ locs t.
Proof. cbn [locs]. by rewrite elem_of_cons, elem_of_flat_map. Qed.

Lemma tloc_in_locs t : tloc t ∈ locs t.
Proof. destruct t. rewrite locs_node. by left. Qed.

(** The representation of a tree only reads the cells of its nodes. *)
Lemma repr_at_frame h h' p t :
  repr_at h p t → (∀ l, l ∈ locs t → h' !! l = h !! l) → repr_at h' p t.
Proof.
  revert p. induction t as [l n c ts IH] using tree_ind'. intros p.
  rewrite !repr_at_unfold. intros [Hl Hts] Hag. split.
  - rewrite Hag; [done|]. apply locs_node. by left.
  - rewrite Forall_forall in *. intros t Ht. apply IH; [done|by apply Hts|].
    intros k Hk. apply Hag, locs_node. right. eauto.
Qed.

Lemma repr_at_dom h p t l : repr_at h p t → l ∈ locs t → is_Some (h !! l).
Proof.
  revert p. induction t as [l' n c ts IH] using tree_ind'. intros p.
  rewrite repr_at_unfold, locs_node, !Forall_forall in *.
  intros [Hl Hts] [->|(t & Ht & Hlt)]; [by eexists|]. eauto.
Qed.

(** ** Tree operations *)

(** The first child with a name. *)
Fixpoint child_named (Name : str) (ts : list tree) : option tree :=
  match ts with
  | [] => None
  | t :: ts => if bool_decide (tname t = Name) then Some t else child_named Name ts
  end.

Fixpoint tree_find (comps : list str) (t : tree) : option tree :=
  match comps with
  | [] => Some t
  | c :: comps =>
      match child_named c (tsub t) with Some t' => tree_find comps t' | None => None end
  end.

(** Apply a function to the first child with a name. *)
Fixpoint update_child (Name : str) (f : tree → tree) (ts : list tree) : list tree :=
  match ts with
  | [] => []
  | t :: ts =>
      if bool_decide (tname t = Name) then f t :: ts else t :: update_child Name f ts
  end.

Fixpoint remove_child (Name : str) (ts : list tree) : list tree :=
  match ts with
  | [] => []
  | t :: ts => if bool_decide (tname t = Name) then ts else t :: remove_child Name ts
  end.

Definition with_sub (f : list tree → list tree) (t : tree) : tree :=
  let 'TNode l n c ts := t in TNode l n c (f ts).

(** Apply a function to the node at a path. *)
Fixpoint tree_modify (f : tree → tree) (comps : list str) (t : tree) : tree :=
  match comps with
  | [] => f t
  | c :: comps => with_sub (update_child c (tree_modify f comps)) t
  end.

Definition tree_set_cached (b : bool) : list str → tree → tree :=
  tree_modify (λ '(TNode l n _ ts), TNode l n b ts).
Definition tree_rename (Name : str) : list str → tree → tree :=
  tree_modify (λ '(TNode l _ c ts), TNode l Name c ts).
(** Remove the node at [comps ++ [c]]. *)
Definition tree_remove (comps : list str) (c : str) : tree → tree :=
  tree_modify (with_sub (remove_child c)) comps.

Lemma child_named_split Name ts t :
  child_named Name ts = Some t →
  ∃ ts1 ts2, ts = ts1 ++ t :: ts2 ∧ tname t = Name
    ∧ Forall (λ t, tname t ≠ Name) ts1.
Proof.
  induction ts as [|t' ts IH]; cbn; [done|]. case_bool_decide as E.
  - intros [= <-]. exists [], ts. by repeat split.
  - intros (ts1 & ts2 & -> & Hn & Hall)%IH. exists (t' :: ts1), ts2.
    repeat split; [done|]. by constructor.
Qed.

Lemma child_named_None Name ts :
  child_named Name ts = None ↔ Forall (λ t, tname t ≠ Name) ts.
Proof.
  induction ts as [|t ts IH]; cbn; [by split|]. case_bool_decide as E.
  - split; [done|]. by inversion 1.
  - rewrite IH. split; [by constructor|by inversion 1].
Qed.

Lemma child_named_app Name ts1 t ts2 :
  Forall (λ t, tname t ≠ Name) ts1 → tname t = Name →
  child_named Name (ts1 ++ t :: ts2) = Some t.
Proof.
  intros H1 H2. induction H1; cbn; [by rewrite bool_decide_eq_true_2|].
  by rewrite bool_decide_eq_false_2.
Qed.

Lemma update_child_app Name f ts1 t ts2 :
  Forall (λ t, tname t ≠ Name) ts1 → tname t = Name →
  update_child Name f (ts1 ++ t :: ts2) = ts1 ++ f t :: ts2.
Proof.
  intros H1 H2. induction H1; cbn; [by rewrite bool_decide_eq_true_2|].
  rewrite bool_decide_eq_false_2 by done. by f_equal.
Qed.

Lemma remove_child_app Name ts1 t ts2 :
  Forall (λ t, tname t ≠ Name) ts1 → tname t = Name →
  remove_child Name (ts1 ++ t :: ts2) = ts1 ++ ts2.
Proof.
  intros H1 H2. induction H1; cbn; [by rewrite bool_decide_eq_true_2|].
  rewrite bool_decide_eq_false_2 by done. by f_equal.
Qed.

Lemma tree_find_app cs cs' t :
  tree_find (cs ++ cs') t = tree_find cs t ≫= tree_find cs'.
Proof.
  revert t. induction cs as [|c cs IH]; intros t; [done|]. cbn.
  destruct (child_named c (tsub t)); [apply IH|done].
Qed.

(** ** Lookup refines [tree_find] *)

Lemma deref_Some h l nd : h !! l = Some nd → deref h l = Ok nd.
Proof. unfold deref. by intros ->. Qed.

Lemma find_child_repr h q ts Name :
  Forall (repr_at h q) ts →
  find_child h (map tloc ts) Name = Ok (tloc <$> child_named Name ts).
Proof.
  induction 1 as [|t ts Ht Hts IH]; [done|]. cbn [find_child map child_named].
  unfold deref. rewrite (repr_at_lookup _ _ _ Ht). cbn.
  case_bool_decide; [done|apply IH].
Qed.

Lemma GetChildren_repr h p t Name :
  repr_at h p t → GetChildren h (tloc t) Name = Ok (tloc <$> child_named Name (tsub t)).
Proof.
  intros Ht. unfold GetChildren, deref. rewrite (repr_at_lookup _ _ _ Ht). cbn.
  by eapply find_child_repr, repr_at_sub.
Qed.

Lemma repr_at_child h p t Name t' :
  repr_at h p t → child_named Name (tsub t) = Some t' → repr_at h (Some (tloc t)) t'.
Proof.
  intros Ht (ts1 & ts2 & E & _)%child_named_split.
  apply repr_at_sub in Ht. rewrite E in Ht.
  by apply Forall_app in Ht as [_ [Ht _]%Forall_cons].
Qed.

Lemma do_find_path_repr h p t comps :
  repr_at h p t → do_find_path h (tloc t) comps = Ok (tloc <$> tree_find comps t).
Proof.
  revert p t. induction comps as [|c comps IH]; intros p t Ht; [done|].
  cbn [do_find_path tree_find]. rewrite (GetChildren_repr _ _ _ _ Ht). cbn.
  destruct (child_named c (tsub t)) as [t'|] eqn:E; [|done]. cbn.
  by eapply IH, repr_at_child.
Qed.

Lemma tree_find_repr h p t comps s :
  repr_at h p t → tree_find comps t = Some s → ∃ q, repr_at h q s.
Proof.
  revert p t. induction comps as [|c comps IH]; intros p t Ht; cbn.
  - intros [= <-]. by exists p.
  - destruct (child_named c (tsub t)) as [t'|] eqn:E; [|done].
    by eapply IH, repr_at_child.
Qed.

(** The nodes under a path are part of the tree; a modification replaces them and
    keeps the others. *)
Lemma tree_modify_locs comps t s :
  tree_find comps t = Some s →
  ∃ rest, locs t ≡ₚ locs s ++ rest
    ∧ ∀ f, locs (tree_modify f comps t) ≡ₚ locs (f s) ++ rest.
Proof.
  revert t. induction comps as [|c comps IH]; intros t; cbn.
  { intros [= ->]. exists []. split; [by rewrite app_nil_r|]. intros f. by rewrite app_nil_r. }
  destruct (child_named c (tsub t)) as [t'|] eqn:E; [|done]. intros Hs.
  destruct (IH _ Hs) as (rest & Hrest & Hmod).
  destruct t as [l n b ts]. cbn in E.
  apply child_named_split in E as (ts1 & ts2 & -> & Hn & Hall).
  exists (l :: flat_map locs ts1 ++ rest ++ flat_map locs ts2). split.
  - cbn. rewrite flat_map_app. cbn. rewrite Hrest. solve_Permutation.
  - intros f. cbn. rewrite update_child_app by done.
    rewrite flat_map_app. cbn. rewrite Hmod. solve_Permutation.
Qed.

Lemma tree_find_locs comps t s l :
  tree_find comps t = Some s → l ∈ locs s → l ∈ locs t.
Proof.
  intros (rest & -> & _)%tree_modify_locs Hl. set_solver.
Qed.

Lemma NoDup_locs_sub l n c ts : NoDup (locs (TNode l n c ts)) →
  (l ∉ flat_map locs ts) ∧ NoDup (flat_map locs ts).
Proof. cbn. by rewrite NoDup_cons. Qed.

Lemma tree_modify_tloc f comps t s :
  tree_find comps t = Some s → tloc (f s) = tloc s → tloc (tree_modify f comps t) = tloc t.
Proof. destruct comps as [|c comps]; cbn; [by intros [= ->]|]. by destruct t. Qed.

(** Changing the cells of the node at a path, and only them, modifies the tree
    there. *)
Lemma repr_at_modify h h' p t comps s f :
  repr_at h p t → NoDup (locs t) → tree_find comps t = Some s →
  tloc (f s) = tloc s →
  (∀ l, l ∈ locs t → l ∉ locs s → h' !! l = h !! l) →
  (∀ q, repr_at h q s → repr_at h' q (f s)) →
  repr_at h' p (tree_modify f comps t).
Proof.
  intros Ht Hnd Hs Hl Hframe Hf. revert p t Ht Hnd Hs Hframe.
  induction comps as [|c comps IH]; intros p t Ht Hnd; cbn [tree_find tree_modify].
  { intros [= ->] _. by apply Hf. }
  destruct (child_named c (tsub t)) as [t'|] eqn:E; [|done]. intros Hs Hframe.
  pose proof (repr_at_child _ _ _ _ _ Ht E) as Ht'.
  destruct t as [l n b ts]. cbn [tsub] in E.
  apply child_named_split in E as (ts1 & ts2 & -> & Hn & Hall).
  apply NoDup_locs_sub in Hnd as [Hl0 Hnd].
  rewrite flat_map_app in Hnd, Hl0. cbn in Hnd, Hl0.
  apply NoDup_app in Hnd as (_ & Hdis1 & Hnd2).
  apply NoDup_app in Hnd2 as (Hnd' & Hdis2 & _).
  assert (∀ k, k ∈ locs s → k ∈ locs t') as Hsub by (intros k; by apply (tree_find_locs comps)).
  assert (∀ k t1, k ∈ locs t1 → t1 ∈ ts1 ++ t' :: ts2 →
            k ∈ locs (TNode l n b (ts1 ++ t' :: ts2))) as Hin.
  { intros k t1 ??. apply locs_node. right. by exists t1. }
  cbn [with_sub]. rewrite update_child_app by done.
  apply repr_at_unfold in Ht as [Hh Hts]. apply repr_at_unfold. split.
  - rewrite Hframe, Hh; [|apply locs_node; by left|set_solver].
    rewrite !map_app. cbn [map]. by rewrite (tree_modify_tloc f comps t' s Hs Hl).
  - apply Forall_app in Hts as [H1 [_ H2]%Forall_cons].
    rewrite Forall_forall in H1, H2.
    apply Forall_app. split; [|apply Forall_cons; split].
    + apply Forall_forall. intros t1 Ht1.
      apply (repr_at_frame h); [by apply H1|]. intros k Hk.
      apply Hframe; [eapply Hin; [done|set_solver]|]. intros Hks%Hsub.
      eapply Hdis1; [apply elem_of_flat_map; by exists t1|set_solver].
    + apply IH; [done..|]. intros k Hk. apply Hframe. eapply Hin; [done|set_solver].
    + apply Forall_forall. intros t1 Ht1.
      apply (repr_at_frame h); [by apply H2|]. intros k Hk.
      apply Hframe; [eapply Hin; [done|set_solver]|]. intros Hks%Hsub.
      eapply Hdis2; [done|apply elem_of_flat_map; by exists t1].
Qed.

(** ** The representation relation *)

Record repr (v : vfs) (t : tree) : Prop := {
  repr_root : root_ v = tloc t;
  repr_heap : repr_at (heap v) None t;
  repr_nodup : NoDup (locs t);
  repr_dom l : is_Some (heap v !! l) ↔ l ∈ locs t;
  repr_next l : l ∈ locs t → (l < next_ v)%nat;
}.

Lemma new_vfs_repr Root : repr (new_vfs Root) (TNode 0 Root false []).
Proof.
  split; cbn.
  - done.
  - done.
  - by apply NoDup_singleton.
  - intros l. rewrite list_elem_of_singleton. split.
    + intros [nd [-> _]%lookup_singleton_Some]. done.
    + intros ->. rewrite lookup_singleton_eq. by eexists.
  - intros l ->%list_elem_of_singleton. lia.
Qed.

Lemma repr_size v t : repr v t → size (heap v) = length (locs t).
Proof.
  intros [_ _ Hnd Hdom _]. rewrite <- size_dom.
  rewrite <- (size_list_to_set (C := gset loc) (locs t)) by done.
  f_equal. apply set_eq. intros l. by rewrite elem_of_dom, Hdom, elem_of_list_to_set.
Qed.

(** An update in place of the name or the flag of one node. *)
Lemma repr_update_node v t comps s f nd :
  repr v t → tree_find comps t = Some s → heap v !! tloc s = Some nd →
  tloc (f s) = tloc s → tsub (f s) = tsub s →
  repr (with_heap (<[tloc s := mkNode (tname (f s)) (MyChildrens_ nd) (MyParent_ nd)
                                 (tcached (f s))]> (heap v)) v)
       (tree_modify f comps t).
Proof.
  intros Hr Hs Hnd Hl Hsub. destruct (tree_modify_locs _ _ _ Hs) as (rest & Ht & Hm).
  assert (locs (f s) = locs s) as Hlocs.
  { destruct (f s), s. cbn in *. by subst. }
  assert (∀ l, l ∈ locs (tree_modify f comps t) ↔ l ∈ locs t) as Hiff.
  { intros l. by rewrite Hm, Ht, Hlocs. }
  split; cbn [root_ heap next_ with_heap].
  - rewrite (repr_root _ _ Hr). symmetry. by eapply tree_modify_tloc.
  - eapply repr_at_modify; [apply Hr|apply Hr|done|done| |].
    + intros l _ Hns. rewrite lookup_insert_ne; [done|].
      intros <-. apply Hns, tloc_in_locs.
    + intros q Hq. pose proof (repr_at_lookup _ _ _ Hq) as Hq'.
      rewrite Hnd in Hq'. injection Hq' as ->. cbn.
      destruct (f s) as [l' n' c' ts'].
      destruct s as [l n c ts]. cbn in *. subst l' ts'.
      apply repr_at_unfold. split; [apply lookup_insert_eq|].
      apply repr_at_unfold in Hq as [_ Hts].
      rewrite Forall_forall in *. intros t' Ht'.
      apply (repr_at_frame (heap v)); [by apply Hts|]. intros k Hk.
      apply lookup_insert_ne. intros ->.
      pose proof (repr_nodup _ _ Hr) as Hnd'. rewrite Ht in Hnd'.
      apply NoDup_cons in Hnd' as [Hnin _].
      apply Hnin, elem_of_app. left. apply elem_of_flat_map. by exists t'.
  - rewrite Hm, Hlocs, <- Ht. apply Hr.
  - intros l. rewrite Hiff, <- (repr_dom _ _ Hr). rewrite lookup_insert.
    case_decide as E; [|done]. subst. by rewrite Hnd.
  - intros l Hin%Hiff. by apply Hr.
Qed.

Section lookup_operations.
Context `{BoostSplit}.
Variable separator : ascii.
Implicit Types (v : vfs) (t : tree) (Path : str).

Abbreviation comps_of := (get_components separator).

Lemma do_find_node_repr v t Path :
  repr v t →
  do_find_node separator v Path =
    Ok (match comps_of Path with [] => None | cs => tloc <$> tree_find cs t end).
Proof.
  intros Hr. unfold do_find_node.
  destruct (comps_of Path) as [|c cs]; [done|].
  rewrite (repr_root _ _ Hr). eapply do_find_path_repr, Hr.
Qed.

Lemma repr_lookup v t comps s :
  repr v t → tree_find comps t = Some s →
  ∃ q, heap v !! tloc s = Some (mkNode (tname s) (map tloc (tsub s)) q (tcached s)).
Proof.
  intros Hr Hs. destruct (tree_find_repr _ _ _ _ _ (repr_heap _ _ Hr) Hs) as [q Hq].
  exists q. by apply repr_at_lookup.
Qed.

(** [Find] answers from the abstract tree. *)
Lemma Find_tree v t Path Cached :
  repr v t →
  Find separator v Path Cached =
    Ok (match comps_of Path with
        | [] => (false, Cached)
        | cs => match tree_find cs t with
                | Some s => (true, tcached s) | None => (false, Cached) end
        end).
Proof.
  intros Hr. unfold Find. rewrite (do_find_node_repr _ _ _ Hr).
  destruct (comps_of Path) as [|c cs]; [done|].
  destruct (tree_find (c :: cs) t) as [s|] eqn:Hs; [|done]. cbn.
  destruct (repr_lookup _ _ _ _ Hr Hs) as [q Hq]. unfold deref. by rewrite Hq.
Qed.

Lemma Find_tree_ne v t Path Cached :
  repr v t → comps_of Path ≠ [] →
  Find separator v Path Cached =
    Ok (match tree_find (comps_of Path) t with
        | Some s => (true, tcached s) | None => (false, Cached) end).
Proof. intros Hr. rewrite (Find_tree _ _ _ _ Hr). by destruct (comps_of Path). Qed.

(** [SetCached] marks the node at the path. *)
Lemma SetCached_tree v t Path Cached :
  repr v t →
  match comps_of Path with
  | [] => SetCached separator Path Cached v = Ok (false, v)
  | cs => match tree_find cs t with
          | Some _ => ∃ v', SetCached separator Path Cached v = Ok (true, v')
                            ∧ repr v' (tree_set_cached Cached cs t)
          | None => SetCached separator Path Cached v = Ok (false, v)
          end
  end.
Proof.
  intros Hr. unfold SetCached. rewrite (do_find_node_repr _ _ _ Hr).
  destruct (comps_of Path) as [|c cs]; [done|].
  destruct (tree_find (c :: cs) t) as [s|] eqn:Hs; [|done].
  destruct (repr_lookup _ _ _ _ Hr Hs) as [q Hq].
  cbn [fmap option_fmap option_map mbind outcome_bind].
  unfold deref. rewrite Hq. eexists. split; [reflexivity|].
  pose proof (repr_update_node v t (c :: cs) s (λ '(TNode l n _ ts), TNode l n Cached ts)
                _ Hr Hs Hq) as Hu.
  destruct s as [l n b ts]. by apply Hu.
Qed.
End lookup_operations.

(** ** Lookups after a modification *)

Lemma child_named_update Name f ts t c :
  child_named Name ts = Some t → tname (f t) = Name →
  child_named c (update_child Name f ts) =
    if bool_decide (c = Name) then Some (f t) else child_named c ts.
Proof.
  intros (ts1 & ts2 & -> & Hn & Hall)%child_named_split Hf.
  rewrite update_child_app by done. case_bool_decide as E.
  - subst c. by apply child_named_app.
  - induction ts1 as [|t1 ts1 IH]; cbn.
    + rewrite Hf, Hn. by rewrite !bool_decide_eq_false_2 by done.
    + inversion_clear Hall. case_bool_decide; [done|]. by apply IH.
Qed.

Lemma tree_modify_tname f cs t s :
  tree_find cs t = Some s → tname (f s) = tname s → tname (tree_modify f cs t) = tname t.
Proof. destruct cs as [|c cs]; cbn; [by intros [= ->]|]. by destruct t. Qed.

Lemma child_named_tname c ts t : child_named c ts = Some t → tname t = c.
Proof. by intros (? & ? & _ & ? & _)%child_named_split. Qed.

Lemma tree_find_modify_same f cs t s :
  tree_find cs t = Some s → tname (f s) = tname s →
  tree_find cs (tree_modify f cs t) = Some (f s).
Proof.
  revert t. induction cs as [|c cs IH]; intros t; cbn; [by intros [= ->]|].
  destruct t as [l n b ts]. cbn.
  destruct (child_named c ts) as [t'|] eqn:E; [|done]. intros Hs Hf.
  pose proof (child_named_tname _ _ _ E) as Hn.
  erewrite child_named_update; [|done|by erewrite tree_modify_tname].
  rewrite bool_decide_eq_true_2 by done. by apply IH.
Qed.

(** A modification that keeps the name and the children of its node leaves the
    flag of every other node alone. *)
Lemma tree_find_modify_other f cs q t s :
  tree_find cs t = Some s → tname (f s) = tname s → tsub (f s) = tsub s → q ≠ cs →
  tcached <$> tree_find q (tree_modify f cs t) = tcached <$> tree_find q t.
Proof.
  intros Hs Hn Hsub. revert q t Hs. induction cs as [|c cs IH]; intros q t; cbn.
  - intros [= ->] Hq. destruct q as [|c q]; [done|]. cbn. by rewrite Hsub.
  - destruct t as [l n b ts]. cbn.
    destruct (child_named c ts) as [t'|] eqn:E; [|done]. intros Hs Hq.
    destruct q as [|c' q]; [done|]. cbn.
    pose proof (child_named_tname _ _ _ E) as Hn'.
    erewrite child_named_update; [|done|by erewrite tree_modify_tname].
    case_bool_decide as Ec; [|done]. subst c'. rewrite E. apply IH; [done|].
    by intros ->.
Qed.
