(* ===== verification/VfsAdd.v ===== *)
(** * VfsAdd: what [Add] does to the abstract tree, and when it is undefined

    [do_add] binds a reference to the first path component and keeps using it after
    popping that component.  [add_ok] is the exact condition under which no such use
    happens; under it [Add] computes [tree_add], otherwise it is undefined. *)

From S2P Require Import Prelude Text Vfs VfsTree.

(** [do_add] on the tree: descend along existing nodes, then build the missing ones
    at consecutive fresh addresses. *)
Fixpoint tree_add (next : loc) (comps : list str) (t : tree) : tree :=
  match comps with
  | [] => t
  | c :: comps =>
      match child_named c (tsub t) with
      | Some _ => with_sub (update_child c (tree_add next comps)) t
      | None => with_sub (cons (tree_add (S next) comps (TNode next c false []))) t
      end
  end.

(** How many nodes that allocates. *)
Fixpoint tree_added (comps : list str) (t : tree) : nat :=
  match comps with
  | [] => 0
  | c :: cs =>
      match child_named c (tsub t) with
      | Some t' => tree_added cs t'
      | None => length comps
      end
  end.

(** The first child with a name and the children after it. *)
Fixpoint split_child (Name : str) (ts : list tree) : option (tree * list tree) :=
  match ts with
  | [] => None
  | t :: ts => if bool_decide (tname t = Name) then Some (t, ts) else split_child Name ts
  end.

(** At each level the component is new, or names the last child and is not the last
    component. *)
Fixpoint add_ok (comps : list str) (t : tree) : bool :=
  match comps with
  | [] => true
  | c :: cs =>
      match split_child c (tsub t) with
      | None => true
      | Some (t', after) =>
          bool_decide (after = []) && bool_decide (cs ≠ []) && add_ok cs t'
      end
  end.

Lemma split_child_named Name ts : fst <$> split_child Name ts = child_named Name ts.
Proof. induction ts; cbn; [done|]. by case_bool_decide. Qed.

Lemma split_child_app Name ts t after :
  split_child Name ts = Some (t, after) →
  ∃ ts1, ts = ts1 ++ t :: after ∧ tname t = Name ∧ Forall (λ t, tname t ≠ Name) ts1.
Proof.
  induction ts as [|t' ts IH]; cbn; [done|]. case_bool_decide as E.
  - intros [= <- <-]. by exists [].
  - intros (ts1 & -> & Hn & Hall)%IH. exists (t' :: ts1). repeat split; [done|].
    by constructor.
Qed.

Lemma split_child_None Name ts :
  split_child Name ts = None ↔ Forall (λ t, tname t ≠ Name) ts.
Proof. rewrite <- child_named_None, <- split_child_named. by destruct (split_child _ _). Qed.

(** The same on the heap: the first child with a name, and whether it is the last. *)
Fixpoint named_among (h : gmap loc Node) (Name : str) (ls : list loc) : option (loc * bool) :=
  match ls with
  | [] => None
  | l :: ls =>
      match h !! l with
      | Some nd => if bool_decide (MyName_ nd = Name) then Some (l, bool_decide (ls = []))
                   else named_among h Name ls
      | None => None
      end
  end.

(** Some component names a child and is the last component, or names a child that is not
    the last one of its parent: the loop of [do_add] goes on with a popped component. *)
Fixpoint rereads (h : gmap loc Node) (comps : list str) (l : loc) : bool :=
  match comps with
  | [] => false
  | c :: cs =>
      match h !! l with
      | Some nd =>
          match named_among h c (MyChildrens_ nd) with
          | Some (l', last) => bool_decide (cs = []) || negb last || rereads h cs l'
          | None => false
          end
      | None => false
      end
  end.

Lemma named_among_repr h p Name ts :
  Forall (repr_at h p) ts →
  named_among h Name (map tloc ts)
  = (λ e, (tloc e.1, bool_decide (e.2 = []))) <$> split_child Name ts.
Proof.
  induction 1 as [|t ts Ht Hts IH]; [done|]. cbn [map named_among split_child].
  rewrite (repr_at_lookup _ _ _ Ht). cbn [MyName_]. case_bool_decide; [|done]. cbn.
  do 2 f_equal. apply bool_decide_ext. by destruct ts.
Qed.

Lemma split_child_elem Name ts t after : split_child Name ts = Some (t, after) → t ∈ ts.
Proof.
  induction ts as [|t' ts IH]; cbn; [done|]. case_bool_decide; [intros [= -> _]; left|].
  intros ?. right. auto.
Qed.

Lemma rereads_repr h p comps t : repr_at h p t → rereads h comps (tloc t) = negb (add_ok comps t).
Proof.
  revert p t. induction comps as [|c cs IH]; intros p t Ht; [done|]. cbn [rereads add_ok].
  rewrite (repr_at_lookup _ _ _ Ht). cbn [MyChildrens_]. pose proof (repr_at_sub _ _ _ Ht) as Hsub.
  rewrite (named_among_repr h (Some (tloc t))) by done.
  destruct (split_child c (tsub t)) as [[t' after]|] eqn:E; [|done]. cbn.
  rewrite Forall_forall in Hsub. rewrite (IH (Some (tloc t))) by by eapply Hsub, split_child_elem.
  by destruct (bool_decide (after = [])), (bool_decide_reflect (cs = [])) as [->|];
    rewrite ?bool_decide_eq_true_2, ?bool_decide_eq_false_2 by done.
Qed.

(** Where it happens: the components before it lead to a directory, and it is there. *)
Lemma add_ok_false comps t :
  add_ok comps t = false ↔
  ∃ above c below dir child after,
    comps = above ++ c :: below ∧ tree_find above t = Some dir
    ∧ split_child c (tsub dir) = Some (child, after) ∧ (below = [] ∨ after ≠ []).
Proof.
  revert t. induction comps as [|c cs IH]; intros t; cbn [add_ok].
  { split; [done|]. by intros ([|] & ? & ? & ? & ? & ? & ? & _). }
  destruct (split_child c (tsub t)) as [[t' after]|] eqn:E.
  - split.
    + intros Hf. destruct (decide (after = [] ∧ cs ≠ [])) as [[-> Hcs]|Hn].
      * rewrite !bool_decide_eq_true_2 in Hf by done. cbn in Hf.
        apply IH in Hf as (above & c' & below & dir & child & after & -> & Hd & Hc & Hor).
        exists (c :: above), c', below, dir, child, after. split_and!; try done.
        cbn [tree_find]. by rewrite <- split_child_named, E.
      * exists [], c, cs, t, t', after. split_and!; try done.
        destruct cs; [by left|right]. intros ->. by apply Hn.
    + intros (above & c' & below & dir & child & after' & Ec & Hd & Hc & Hor).
      destruct above as [|c0 above]; injection Ec as <- ->.
      * injection Hd as <-. rewrite E in Hc. injection Hc as <- <-.
        destruct Hor as [->|Hne]; [by rewrite andb_false_r|]. by rewrite (bool_decide_eq_false_2 (after = [])).
      * cbn [tree_find] in Hd. rewrite <- split_child_named, E in Hd. cbn in Hd.
        assert (add_ok (above ++ c' :: below) t' = false) as ->; [|by rewrite andb_false_r].
        apply IH. by exists above, c', below, dir, child, after'.
  - split; [done|]. intros (above & c' & below & dir & child & after' & Ec & Hd & Hc & _).
    destruct above as [|c0 above]; injection Ec as <- ->.
    + injection Hd as <-. congruence.
    + cbn [tree_find] in Hd. by rewrite <- split_child_named, E in Hd.
Qed.

Lemma tree_add_tloc next comps t : tloc (tree_add next comps t) = tloc t.
Proof. destruct comps as [|c comps], t; cbn; [done|]. by destruct (child_named c _). Qed.

Lemma tree_add_tname next comps t : tname (tree_add next comps t) = tname t.
Proof. destruct comps as [|c comps], t; cbn; [done|]. by destruct (child_named c _). Qed.

Lemma tree_add_locs next comps t :
  locs (tree_add next comps t) ≡ₚ locs t ++ seq next (tree_added comps t).
Proof.
  revert next t. induction comps as [|c comps IH]; intros next t.
  { cbn. by rewrite app_nil_r. }
  destruct t as [l n b ts]. cbn [tree_add tree_added tsub].
  destruct (child_named c ts) as [t'|] eqn:E.
  - apply child_named_split in E as (ts1 & ts2 & -> & Hn & Hall). cbn [with_sub].
    rewrite update_child_app by done. cbn [locs].
    rewrite !flat_map_app. cbn [flat_map]. rewrite IH. solve_Permutation.
  - cbn [with_sub locs flat_map length]. rewrite IH. cbn [locs flat_map app].
    assert (tree_added comps (TNode next c false []) = length comps) as ->.
    { by destruct comps. }
    change (seq next (S (length comps))) with (next :: seq (S next) (length comps)).
    solve_Permutation.
Qed.

(** ** The loop of [do_add] over the children

    [do_add] is unfolded once: the loop it runs is named so that lemmas can speak
    about it. *)
Definition do_add_loop (rec : loc → list str → bool → vfs → outcome (list str * vfs)) :=
  fix loop (Childrens : list loc) (pc : list str) (cur : option str)
           (done : bool) (v : vfs)
      : outcome (bool * list str * option str * bool * vfs) :=
    match Childrens with
    | [] => Ok (false, pc, cur, done, v)
    | Children :: Childrens =>
      c ← deref (heap v) Children;
      name ← read_ref cur;
      if bool_decide (MyName_ c = name) then
        pc ← pop_front pc;
        match pc with
        | [] =>
          moved ← read_ref None;
          '(_, v) ← new_Node moved (Some Children) v;
          Ok (true, pc, None, true, v)
        | _ :: _ =>
          '(pc, v) ← rec Children pc done v;
          if done : bool then Ok (false, pc, None, done, v)
          else loop Childrens pc None done v
        end
      else if done : bool then Ok (false, pc, cur, done, v)
      else loop Childrens pc cur done v
    end.

Lemma do_add_unfold fuel Parent front rest done v :
  do_add (S fuel) Parent (front :: rest) done v =
    (nd ← deref (heap v) Parent;
     '(returned, pc, cur, done, v) ←
       do_add_loop (do_add fuel) (MyChildrens_ nd) (front :: rest) (Some front) done v;
     if returned : bool then Ok (pc, v)
     else match pc with
          | [] => Ok ([], v)
          | _ :: _ =>
            moved ← read_ref cur;
            '(New, v) ← new_Node moved (Some Parent) v;
            pc ← pop_front pc;
            do_add fuel New pc done v
          end).
Proof. done. Qed.

(** No child has the name: the loop does nothing. *)
Lemma do_add_loop_fresh rec v q ts front rest :
  Forall (repr_at (heap v) q) ts → Forall (λ t, tname t ≠ front) ts →
  do_add_loop rec (map tloc ts) (front :: rest) (Some front) false v
  = Ok (false, front :: rest, Some front, false, v).
Proof.
  intros Hr Hn. induction Hr as [|t ts Ht Hts IH]; [done|].
  inversion_clear Hn. cbn. unfold deref.
  rewrite (repr_at_lookup _ _ _ Ht). cbn.
  rewrite bool_decide_eq_false_2 by done. by apply IH.
Qed.

(** The first child with the name decides: with nothing left to add, or with
    another child behind it, the popped component is read again. *)
Lemma do_add_loop_match rec v q ts1 t after front rest :
  Forall (repr_at (heap v) q) (ts1 ++ t :: after) →
  Forall (λ t, tname t ≠ front) ts1 → tname t = front →
  do_add_loop rec (map tloc (ts1 ++ t :: after)) (front :: rest) (Some front) false v
  = match rest with
    | [] => Fault UndefinedBehaviour
    | _ :: _ =>
        '(pc, v) ← rec (tloc t) rest false v;
        match after with
        | [] => Ok (false, pc, None, false, v)
        | _ :: _ => do_add_loop rec (map tloc after) pc None false v
        end
    end.
Proof.
  intros Hr Hn Ht. induction ts1 as [|t1 ts1 IH].
  - cbn in *. apply Forall_cons in Hr as [Hrt _]. unfold deref.
    rewrite (repr_at_lookup _ _ _ Hrt). cbn. rewrite bool_decide_eq_true_2 by done.
    destruct rest as [|r rest]; [done|].
    destruct (rec (tloc t) (r :: rest) false v) as [[pc v']|]; [|done]. cbn.
    by destruct after.
  - cbn in Hr. apply Forall_cons in Hr as [Hr1 Hr]. inversion_clear Hn.
    cbn. unfold deref at 1. rewrite (repr_at_lookup _ _ _ Hr1). cbn.
    rewrite bool_decide_eq_false_2 by done. by apply IH.
Qed.

Lemma do_add_loop_dangling rec v c cs pc :
  is_Some (heap v !! c) →
  do_add_loop rec (c :: cs) pc None false v = Fault UndefinedBehaviour.
Proof. intros [nd Hnd]. cbn. unfold deref. by rewrite Hnd. Qed.

(** What a successful [do_add] leaves behind. *)
Record add_post (v v' : vfs) (p : option loc) (comps : list str) (t : tree) : Prop := {
  post_root : root_ v' = root_ v;
  post_next : next_ v' = (next_ v + tree_added comps t)%nat;
  post_repr : repr_at (heap v') p (tree_add (next_ v) comps t);
  post_frame l : (l < next_ v)%nat → l ∉ locs t → heap v' !! l = heap v !! l;
  post_dom l : is_Some (heap v' !! l) ↔
               is_Some (heap v !! l) ∨ l ∈ seq (next_ v) (tree_added comps t);
}.

Definition bounded (v : vfs) : Prop := ∀ l, is_Some (heap v !! l) → (l < next_ v)%nat.

(** Allocating a child below a represented node. *)
Lemma new_Node_repr v p l n b ts Name :
  repr_at (heap v) p (TNode l n b ts) → bounded v →
  ∃ h, new_Node Name (Some l) v = Ok (next_ v, mkVfs h (root_ v) (S (next_ v)))
    ∧ h !! next_ v = Some (mkNode Name [] (Some l) false)
    ∧ h !! l = Some (mkNode n (next_ v :: map tloc ts) p b)
    ∧ (∀ k, k ≠ next_ v → k ≠ l → h !! k = heap v !! k).
Proof.
  intros Hr Hb. pose proof (repr_at_lookup _ _ _ Hr) as Hl. cbn in Hl.
  assert (l < next_ v)%nat as Hlt by (apply Hb; by eexists).
  unfold new_Node, AddChildren, deref.
  rewrite lookup_insert_ne, Hl by lia. cbn.
  eexists. split; [reflexivity|]. split_and!.
  - rewrite lookup_insert_ne by lia. apply lookup_insert_eq.
  - by rewrite lookup_insert_eq.
  - intros k ??. by rewrite !lookup_insert_ne by done.
Qed.

Lemma add_ok_leaf l n c cs : add_ok cs (TNode l n c []) = true.
Proof. by destruct cs. Qed.

Lemma tree_added_leaf l n c cs : tree_added cs (TNode l n c []) = length cs.
Proof. by destruct cs. Qed.

Lemma seq_S_elem n k l : l ∈ seq n (S k) ↔ l = n ∨ l ∈ seq (S n) k.
Proof. cbn. apply elem_of_cons. Qed.

(** The new branch, once the recursive call has filled it. *)
Lemma add_post_fresh v v1 v' p l n b ts c cs :
  repr_at (heap v) p (TNode l n b ts) → NoDup (locs (TNode l n b ts)) → bounded v →
  child_named c ts = None →
  v1 = mkVfs (heap v1) (root_ v) (S (next_ v)) →
  heap v1 !! next_ v = Some (mkNode c [] (Some l) false) →
  heap v1 !! l = Some (mkNode n (next_ v :: map tloc ts) p b) →
  (∀ k, k ≠ next_ v → k ≠ l → heap v1 !! k = heap v !! k) →
  add_post v1 v' (Some l) cs (TNode (next_ v) c false []) →
  add_post v v' p (c :: cs) (TNode l n b ts).
Proof.
  intros Hr Hnd Hb Hnone Hv1 Hnew Hl Hk [Hroot Hnext Hrepr Hframe Hdom].
  rewrite Hv1 in Hroot, Hnext, Hrepr, Hframe, Hdom.
  cbn [root_ next_ heap] in *. rewrite tree_added_leaf in Hnext, Hdom.
  pose proof (repr_at_lookup _ _ _ Hr) as Hl0. cbn in Hl0.
  assert (l < next_ v)%nat as Hlt by (apply Hb; by eexists).
  assert (∀ k, (k < next_ v)%nat → k ≠ l → heap v' !! k = heap v !! k) as Hsame.
  { intros k Hkn Hkl. rewrite Hframe; [|lia|].
    - apply Hk; [lia|done].
    - rewrite locs_node. intros [->|(? & []%not_elem_of_nil & _)]. lia. }
  split; cbn [tree_added tsub]; rewrite ?Hnone.
  - done.
  - cbn [length]. lia.
  - cbn [tree_add tsub]. rewrite Hnone. cbn [with_sub]. apply repr_at_unfold. split.
    + rewrite Hframe; [|lia|].
      * rewrite Hl. cbn [map]. by rewrite tree_add_tloc.
      * rewrite locs_node. intros [->|(? & []%not_elem_of_nil & _)]. lia.
    + constructor; [done|]. apply repr_at_unfold in Hr as [_ Hts].
      rewrite Forall_forall in *. intros t Ht.
      apply (repr_at_frame (heap v)); [by apply Hts|]. intros k Hkt. apply Hsame.
      * apply Hb. eapply repr_at_dom; [by apply Hts|done].
      * intros ->. apply NoDup_locs_sub in Hnd as [Hnin _].
        apply Hnin, elem_of_flat_map. by exists t.
  - intros k Hkn Hkl. apply Hsame; [done|]. intros ->. apply Hkl, locs_node. by left.
  - intros k. cbn [length]. rewrite Hdom, seq_S_elem.
    destruct (decide (k = next_ v)) as [->|Hkn]; [rewrite Hnew; naive_solver|].
    destruct (decide (k = l)) as [->|Hkl]; [rewrite Hl, Hl0; naive_solver|].
    rewrite Hk by done. naive_solver.
Qed.

(** The existing branch: the recursive call worked in the last child. *)
Lemma add_post_last v v' p l n b ts1 t' c cs :
  repr_at (heap v) p (TNode l n b (ts1 ++ [t'])) →
  NoDup (locs (TNode l n b (ts1 ++ [t']))) → bounded v →
  Forall (λ t, tname t ≠ c) ts1 → tname t' = c →
  add_post v v' (Some l) cs t' →
  add_post v v' p (c :: cs) (TNode l n b (ts1 ++ [t'])).
Proof.
  intros Hr Hnd Hb Hn Ht' [Hroot Hnext Hrepr Hframe Hdom].
  pose proof (repr_at_lookup _ _ _ Hr) as Hl0. cbn in Hl0.
  assert (l < next_ v)%nat as Hlt by (apply Hb; by eexists).
  assert (child_named c (ts1 ++ [t']) = Some t') as Hc by by apply child_named_app.
  apply NoDup_locs_sub in Hnd as [Hnin Hnd].
  rewrite flat_map_app in Hnin, Hnd. cbn in Hnin, Hnd. rewrite app_nil_r in Hnin, Hnd.
  apply NoDup_app in Hnd as (_ & Hdis & _).
  split; cbn [tree_added tsub]; rewrite ?Hc; try done.
  - cbn [tree_add tsub]. rewrite Hc. cbn [with_sub]. rewrite update_child_app by done.
    apply repr_at_unfold in Hr as [_ Hts]. apply Forall_app in Hts as [Hts1 _].
    apply repr_at_unfold. split.
    + rewrite Hframe by (done || set_solver). rewrite Hl0.
      rewrite !map_app. cbn [map]. by rewrite tree_add_tloc.
    + apply Forall_app. split; [|by constructor].
      rewrite Forall_forall in *. intros t1 Ht1.
      apply (repr_at_frame (heap v)); [by apply Hts1|]. intros k Hk. apply Hframe.
      * apply Hb. eapply repr_at_dom; [by apply Hts1|done].
      * apply Hdis, elem_of_flat_map. by exists t1.
  - intros k Hkn Hkl. apply Hframe; [done|]. intros Hin. apply Hkl, locs_node. right.
    exists t'. split; [|done]. apply elem_of_app. right. by left.
Qed.

(** [do_add] is defined exactly on [add_ok] paths, and then builds [tree_add]. *)
Lemma do_add_spec fuel comps v p t :
  repr_at (heap v) p t → NoDup (locs t) → bounded v → (length comps < fuel)%nat →
  if add_ok comps t
  then ∃ v', do_add fuel (tloc t) comps false v = Ok ([], v') ∧ add_post v v' p comps t
  else do_add fuel (tloc t) comps false v = Fault UndefinedBehaviour.
Proof.
  revert fuel v p t. induction comps as [|c cs IH]; intros fuel v p t Hr Hnd Hb Hf;
    (destruct fuel as [|fuel]; [lia|]).
  { exists v. split; [done|]. split; cbn; try done; try lia.
    intros l. by rewrite elem_of_nil, (right_id False (∨)). }
  destruct t as [l n b ts]. cbn [length] in Hf.
  rewrite do_add_unfold. unfold deref. cbn [tloc].
  pose proof (repr_at_lookup _ _ _ Hr) as Hl. cbn in Hl. rewrite Hl.
  cbn [mbind outcome_bind MyChildrens_ add_ok tsub].
  pose proof (proj2 (proj1 (repr_at_unfold _ _ _ _ _ _) Hr)) as Hts.
  destruct (split_child c ts) as [[t' after]|] eqn:Es.
  - apply split_child_app in Es as (ts1 & -> & Hn & Hall).
    rewrite (do_add_loop_match _ _ _ _ _ _ _ _ Hts Hall Hn).
    destruct cs as [|c' cs]; [by rewrite andb_false_r|].
    rewrite (bool_decide_eq_true_2 (c' :: cs ≠ [])) by done. rewrite andb_true_r.
    assert (repr_at (heap v) (Some l) t') as Ht'.
    { by apply Forall_app in Hts as [_ [? _]%Forall_cons]. }
    assert (NoDup (locs t')) as Hnd'.
    { apply NoDup_locs_sub in Hnd as [_ Hnd]. rewrite flat_map_app in Hnd. cbn in Hnd.
      by apply NoDup_app in Hnd as (_ & _ & [? _]%NoDup_app). }
    specialize (IH fuel v (Some l) t' Ht' Hnd' Hb ltac:(lia)).
    destruct (add_ok (c' :: cs) t') eqn:Eok.
    + destruct IH as (v' & -> & Hpost). cbn [mbind outcome_bind].
      rewrite andb_true_r. destruct after as [|a after].
      * rewrite bool_decide_eq_true_2 by done. exists v'. split; [done|].
        by apply add_post_last.
      * rewrite bool_decide_eq_false_2 by done. cbn [map].
        rewrite do_add_loop_dangling; [done|].
        apply (post_dom _ _ _ _ _ Hpost). left.
        eapply repr_at_dom, tloc_in_locs.
        by apply Forall_app in Hts as [_ [_ [? _]%Forall_cons]%Forall_cons].
    + rewrite IH. by rewrite andb_false_r.
  - pose proof (proj1 (split_child_None _ _) Es) as Hall.
    rewrite (do_add_loop_fresh _ _ _ _ _ _ Hts Hall).
    cbn [mbind outcome_bind read_ref].
    destruct (new_Node_repr v p l n b ts c Hr Hb) as (h & -> & Hnew & Hl' & Hk).
    cbn [mbind outcome_bind pop_front].
    set (v1 := mkVfs h (root_ v) (S (next_ v))).
    assert (repr_at (heap v1) (Some l) (TNode (next_ v) c false [])) as Hr1
      by by apply repr_at_unfold.
    assert (bounded v1) as Hb1.
    { intros k Hk'. cbn in *. destruct (decide (k = next_ v)); [lia|].
      destruct (decide (k = l)) as [->|]; [|rewrite Hk in Hk' by done; apply Hb in Hk'; lia].
      enough (l < next_ v)%nat by lia. apply Hb. by eexists. }
    specialize (IH fuel v1 (Some l) _ Hr1 (NoDup_singleton _) Hb1 ltac:(lia)).
    rewrite add_ok_leaf in IH. destruct IH as (v' & IH & Hpost).
    exists v'. split; [exact IH|].
    eapply (add_post_fresh v v1); try done. by apply child_named_None.
Qed.

(** ** Lookups after [tree_add] *)

(** Everything that was there stays, with its flag; the prefixes of the added path
    that were missing appear, not cached; nothing else does. *)
Lemma tree_find_add next comps q t :
  tcached <$> tree_find q (tree_add next comps t) =
  match tree_find q t with
  | Some s => Some (tcached s)
  | None => if bool_decide (q `prefix_of` comps) then Some false else None
  end.
Proof.
  revert next q t. induction comps as [|c comps IH]; intros next q t.
  { cbn. destruct (tree_find q t) eqn:E; [done|].
    rewrite bool_decide_eq_false_2; [done|]. intros ->%prefix_nil_inv. done. }
  destruct t as [l n b ts]. cbn [tree_add tsub].
  destruct q as [|c' q]; [by destruct (child_named c ts)|].
  destruct (child_named c ts) as [t'|] eqn:E; cbn [with_sub tree_find tsub].
  - rewrite (child_named_update c _ _ t');
      [|done|rewrite tree_add_tname; by eapply child_named_tname].
    case_bool_decide as Ec.
    + subst c'. rewrite E, IH. destruct (tree_find q t'); [done|].
      erewrite bool_decide_ext; [done|]. split; [apply prefix_cons|apply prefix_cons_inv_2].
    + rewrite (bool_decide_eq_false_2 (c' :: q `prefix_of` _));
        [by destruct (child_named c' ts) as [t1|]; [destruct (tree_find q t1)|]|].
      by intros ->%prefix_cons_inv_1.
  - cbn [child_named]. rewrite tree_add_tname. cbn [tname]. case_bool_decide as Ec.
    + subst c'. rewrite E, IH.
      destruct q as [|c' q]; cbn [tree_find tsub child_named]; [by rewrite bool_decide_eq_true_2
        by (apply prefix_cons, prefix_nil)|].
      erewrite bool_decide_ext; [done|]. split; [apply prefix_cons|apply prefix_cons_inv_2].
    + rewrite (bool_decide_eq_false_2 (c' :: q `prefix_of` _));
        [by destruct (child_named c' ts) as [t1|]; [destruct (tree_find q t1)|]|].
      by intros <-%prefix_cons_inv_1.
Qed.

Section add.
Context `{BoostSplit}.
Variables (separator : ascii).
Abbreviation comps_of := (get_components separator).

Lemma repr_bounded v t : repr v t → bounded v.
Proof. intros Hr l Hl. by apply Hr, (repr_dom _ _ Hr). Qed.

Lemma Add_spec v t Path :
  repr v t →
  if add_ok (comps_of Path) t
  then ∃ v', Add separator Path v = Ok v'
             ∧ repr v' (tree_add (next_ v) (comps_of Path) t)
  else Add separator Path v = Fault UndefinedBehaviour.
Proof.
  intros Hr. unfold Add. rewrite (repr_root _ _ Hr).
  pose proof (do_add_spec (S (length (comps_of Path))) (comps_of Path) v None t
                (repr_heap _ _ Hr) (repr_nodup _ _ Hr) (repr_bounded _ _ Hr)
                ltac:(lia)) as Hs.
  destruct (add_ok _ t); [|by rewrite Hs].
  destruct Hs as (v' & -> & Hpost). exists v'. split; [done|].
  pose proof (tree_add_locs (next_ v) (comps_of Path) t) as Hlocs.
  split.
  - by rewrite (post_root _ _ _ _ _ Hpost), tree_add_tloc, (repr_root _ _ Hr).
  - apply Hpost.
  - rewrite Hlocs. apply NoDup_app. split_and!; [apply Hr| |apply NoDup_ListNoDup, seq_NoDup].
    intros l Hl%(repr_next _ _ Hr) [??]%elem_of_seq. lia.
  - intros l. rewrite (post_dom _ _ _ _ _ Hpost), Hlocs, elem_of_app.
    by rewrite (repr_dom _ _ Hr).
  - intros l. rewrite Hlocs, elem_of_app, (post_next _ _ _ _ _ Hpost).
    intros [Hl%(repr_next _ _ Hr)|[??]%elem_of_seq]; lia.
Qed.

(** Adding the path is undefined, on the heap. *)
Definition add_undefined (Path : str) (v : vfs) : bool := rereads (heap v) (comps_of Path) (root_ v).

Lemma add_undefined_repr v t Path :
  repr v t → add_undefined Path v = negb (add_ok (comps_of Path) t).
Proof.
  intros Hr. unfold add_undefined. rewrite (repr_root _ _ Hr).
  exact (rereads_repr _ _ _ _ (repr_heap _ _ Hr)).
Qed.

Lemma Add_cases v t Path :
  repr v t →
  if add_undefined Path v then Add separator Path v = Fault UndefinedBehaviour
  else ∃ v', Add separator Path v = Ok v' ∧ repr v' (tree_add (next_ v) (comps_of Path) t).
Proof.
  intros Hr. rewrite (add_undefined_repr v t Path Hr). pose proof (Add_spec v t Path Hr) as Hs.
  by destruct (add_ok _ t).
Qed.

(** C21. [Add] either adds the path to the abstract tree - every component that
    already exists is kept, the missing ones are created below it - or is undefined.
    It is undefined exactly when some component of the path is there, in the directory
    that the components before it lead to, and is the last component of the path, or is
    not the last child of that directory: so when the whole path is there already, and
    also for a path that is not there, through a directory that another one follows in the
    list of children (a new child is the first). *)
Theorem Add_refines v t Path :
  repr v t →
  (if add_ok (comps_of Path) t
   then ∃ v', Add separator Path v = Ok v'
              ∧ repr v' (tree_add (next_ v) (comps_of Path) t)
   else Add separator Path v = Fault UndefinedBehaviour)
  ∧ (Add separator Path v = Fault UndefinedBehaviour ↔
     ∃ above c below dir child after,
       comps_of Path = above ++ c :: below ∧ tree_find above t = Some dir
       ∧ split_child c (tsub dir) = Some (child, after) ∧ (below = [] ∨ after ≠ [])).
Proof.
  intros Hr. pose proof (Add_spec v t Path Hr) as Hs. split; [done|].
  rewrite <- add_ok_false. destruct (add_ok _ t); [|by split].
  destruct Hs as (v' & E & _). rewrite E. done.
Qed.

(** A path that already names a node can not be added again. *)
Lemma add_ok_existing comps t s :
  comps ≠ [] → tree_find comps t = Some s → add_ok comps t = false.
Proof.
  revert t. induction comps as [|c comps IH]; intros t; [done|]. intros _. cbn.
  rewrite <- split_child_named. destruct (split_child c (tsub t)) as [[t' after]|]; [|done].
  cbn. intros Hs. destruct comps as [|c' comps]; [by rewrite andb_false_r|].
  rewrite (IH t') by done. by rewrite andb_false_r.
Qed.

Lemma Add_Ok v t Path v' :
  repr v t → Add separator Path v = Ok v' →
  add_ok (comps_of Path) t = true ∧ repr v' (tree_add (next_ v) (comps_of Path) t).
Proof.
  intros Hr HA. pose proof (Add_spec v t Path Hr) as Href.
  destruct (add_ok _ t); [|congruence].
  destruct Href as (v'' & E & Hr'). rewrite E in HA. injection HA as ->. done.
Qed.

(** After [Add Path] succeeded, [Find] sees every entry it saw before, with the
    same flag, and in addition exactly the missing prefixes of [Path], as entries
    that are not cached; every other path is still absent. *)
Theorem Add_Find v t Path v' Q Cached :
  repr v t → Add separator Path v = Ok v' → comps_of Q ≠ [] →
  Find separator v' Q Cached =
    match Find separator v Q Cached with
    | Ok (false, _) =>
        if bool_decide (comps_of Q `prefix_of` comps_of Path)
        then Ok (true, false) else Ok (false, Cached)
    | r => r
    end.
Proof.
  intros Hr [_ Hr']%(Add_Ok _ _ _ _ Hr) HQ.
  rewrite (Find_tree _ _ _ _ _ Hr'), (Find_tree _ _ _ _ _ Hr).
  destruct (comps_of Q) as [|c cs]; [done|].
  pose proof (tree_find_add (next_ v) (comps_of Path) (c :: cs) t) as Hf.
  destruct (tree_find (c :: cs) t), (tree_find (c :: cs) (tree_add _ _ _));
    try case_bool_decide; cbn [fmap option_fmap option_map] in Hf; congruence.
Qed.
End add.
