(* ===== verification/VfsDelete.v ===== *)
(** * VfsDelete: [~Node()] and [Remove]

    Deleting a node frees exactly its subtree, unlinks it from its parent, and
    removes the cached copies of the subtree from the local disk, parents first. *)

From S2P Require Import Prelude Text Vfs VfsTree.

(** ** Ancestors

    [chain h l ls cs]: following the parent pointers from [l] visits the nodes [ls]
    up to the root; [cs] are their names from the root down, the root's excluded.
    It depends only on names and parent pointers, which deletion leaves alone. *)
Inductive chain (h : gmap loc Node) : loc → list loc → list str → Prop :=
  | chain_root l nd : h !! l = Some nd → MyParent_ nd = None → chain h l [l] []
  | chain_up l nd p ls cs :
      h !! l = Some nd → MyParent_ nd = Some p → chain h p ls cs →
      chain h l (l :: ls) (cs ++ [MyName_ nd]).

Definition skeleton (nd : Node) : str * option loc := (MyName_ nd, MyParent_ nd).

Lemma chain_frame h h' l ls cs :
  chain h l ls cs → (∀ k, k ∈ ls → skeleton <$> h' !! k = skeleton <$> h !! k) →
  chain h' l ls cs.
Proof.
  induction 1 as [l nd Hl Hp|l nd p ls cs Hl Hp Hc IH]; intros Hag;
    pose proof (Hag l ltac:(by left)) as E; rewrite Hl in E;
    destruct (h' !! l) as [nd'|] eqn:Hl'; cbn in E; try done;
    injection E as E1 E2.
  - apply (chain_root _ _ _ Hl'). by rewrite E2.
  - rewrite <- E1. eapply chain_up; [done|by rewrite E2|].
    apply IH. intros k Hk. apply Hag. by right.
Qed.

(** What the climbing loop appends: the names bottom-up, each reversed. *)
Definition upwards (separator : ascii) (cs : list str) : str :=
  concat (rev (map (λ c, separator :: rev c) cs)).

Lemma upwards_snoc separator cs c :
  upwards separator (cs ++ [c]) = (separator :: rev c) ++ upwards separator cs.
Proof. unfold upwards. by rewrite map_app, rev_app_distr. Qed.

Lemma climb_chain separator h l ls cs fuel P :
  chain h l ls cs → (length ls ≤ fuel)%nat →
  climb separator fuel h l P = Ok (P ++ upwards separator cs).
Proof.
  intros Hc. revert fuel P.
  induction Hc as [l nd Hl Hp|l nd p ls cs Hl Hp Hc IH]; intros fuel P Hf;
    (destruct fuel as [|fuel]; [cbn in Hf; lia|]); cbn [climb]; unfold deref;
    rewrite Hl; cbn; rewrite Hp.
  - cbn. by rewrite app_nil_r.
  - rewrite IH by (cbn in Hf; lia). rewrite upwards_snoc. by rewrite <- !app_assoc.
Qed.

(** [/a/b], the components of a path joined again. *)
Definition join_path (separator : ascii) (cs : list str) : str :=
  concat (map (cons separator) cs).

Lemma rev_upwards separator cs :
  rev (upwards separator cs ++ [separator]) = separator :: concat (map (λ c, c ++ [separator]) cs).
Proof.
  rewrite rev_app_distr. cbn. f_equal. induction cs as [|c cs IH] using rev_ind; [done|].
  rewrite upwards_snoc, rev_app_distr, IH. cbn.
  rewrite map_app, concat_app. cbn. by rewrite rev_involutive, app_nil_r.
Qed.

Lemma concat_map_snoc separator cs :
  separator :: concat (map (λ c, c ++ [separator]) cs) = join_path separator cs ++ [separator].
Proof.
  unfold join_path. induction cs as [|c cs IH]; [done|]. cbn.
  rewrite <- app_assoc. cbn. rewrite <- app_assoc. do 2 f_equal. by rewrite <- IH.
Qed.

(** The path of the local copy of the node [name] below the directories [cs]. *)
Definition local_path (separator : ascii) (owner : str) (cs : list str) (name : str) : str :=
  owner ++ join_path separator (cs ++ [name]).

Definition chain_opt h (p : option loc) (ls : list loc) (cs : list str) : Prop :=
  match p with Some q => chain h q ls cs | None => ls = [] ∧ cs = [] end.

Lemma chain_dom h l ls cs k : chain h l ls cs → k ∈ ls → is_Some (h !! k).
Proof.
  induction 1; rewrite ?list_elem_of_singleton, ?elem_of_cons; naive_solver.
Qed.

Lemma NoDup_dom_size (h : gmap loc Node) ls :
  NoDup ls → (∀ k, k ∈ ls → is_Some (h !! k)) → (length ls ≤ size h)%nat.
Proof.
  intros Hnd Hd. rewrite <- (size_list_to_set (C := gset loc) ls), <- size_dom by done.
  apply subseteq_size. intros k. rewrite elem_of_list_to_set, elem_of_dom. apply Hd.
Qed.

Lemma LocalPathToMe_chain separator owner h nd ls cs :
  chain_opt h (MyParent_ nd) ls cs → NoDup ls →
  LocalPathToMe separator owner h nd []
  = Ok (local_path separator owner cs (MyName_ nd)).
Proof.
  intros Hc Hnd. unfold LocalPathToMe, climb_from, local_path.
  assert (rev (upwards separator cs ++ separator :: rev owner) ++ MyName_ nd
          = owner ++ join_path separator (cs ++ [MyName_ nd])) as E.
  { rewrite (cons_middle separator), app_assoc, rev_app_distr, rev_involutive, rev_upwards, concat_map_snoc.
    unfold join_path. rewrite map_app, concat_app. cbn.
    by rewrite app_nil_r, <- !app_assoc. }
  destruct (MyParent_ nd) as [q|]; cbn in Hc.
  - rewrite (climb_chain _ _ _ _ _ _ _ Hc); [exact (f_equal Ok E)|].
    apply Nat.le_le_succ_r, NoDup_dom_size; [done|]. intros k. by eapply chain_dom.
  - destruct Hc as [-> ->]. exact (f_equal Ok E).
Qed.

(** ** The destructor *)

Section delete.
Variables (separator : ascii) (owner : str).

(** The local copies a deletion removes, in order. *)
Fixpoint del_effects (is_root : bool) (cs : list str) (t : tree) : list fs_effect :=
  let 'TNode _ n c ts := t in
  (if c then [FsRemove (local_path separator owner cs n)] else [])
  ++ flat_map (del_effects false (if is_root then [] else cs ++ [n])) ts.

(** The heap after the subtree [s] below [p] was deleted. *)
Definition after_delete (h h' : gmap loc Node) (p : option loc) (s : tree) : Prop :=
  ∀ k, h' !! k =
    if decide (k ∈ locs s) then None
    else if decide (p = Some k)
    then (λ nd, with_children (drop_child (tloc s) (MyChildrens_ nd)) nd) <$> h !! k
    else h !! k.

Definition delete_all
    (rec : loc → gmap loc Node → outcome (list fs_effect * gmap loc Node)) :=
  fix delete_all (cs : list loc) (h : gmap loc Node)
      : outcome (list fs_effect * gmap loc Node) :=
    match cs with
    | [] => Ok ([], h)
    | c :: cs =>
        '(e1, h) ← rec c h;
        '(e2, h) ← delete_all cs h;
        Ok (e1 ++ e2, h)
    end.

Lemma delete_Node_unfold fuel l h :
  delete_Node separator (S fuel) owner l h =
    (nd ← deref h l;
     effects ←
       (if Cached_ nd then
          LocalPath ← LocalPathToMe separator owner h nd [];
          Ok [FsRemove LocalPath]
        else Ok []);
     h ← match MyParent_ nd with Some p => RemoveChildren p l h | None => Ok h end;
     nd ← deref h l;
     '(effects', h) ← delete_all (delete_Node separator fuel owner) (MyChildrens_ nd) h;
     Ok (effects ++ effects', base.delete l h)).
Proof. done. Qed.

Lemma drop_child_head l ls : l ∉ ls → drop_child l (l :: ls) = ls.
Proof.
  intros Hl. unfold drop_child. rewrite filter_cons_False by naive_solver.
  apply filter_all, Forall_forall. by intros x Hx ->.
Qed.

Lemma drop_child_id l ls : l ∉ ls → drop_child l ls = ls.
Proof. intros Hl. apply filter_all, Forall_forall. by intros x Hx ->. Qed.

Lemma chain_head h l ls cs : chain h l ls cs → l ∈ ls.
Proof. by destruct 1; left. Qed.

Lemma map_tloc_locs ts l : l ∈ map tloc ts → l ∈ flat_map locs ts.
Proof.
  rewrite list_elem_of_fmap, elem_of_flat_map. intros (t & -> & Ht).
  exists t. split; [done|apply tloc_in_locs].
Qed.

(** Unlinking and freeing one child keeps what the deletion of its siblings
    relies on. *)
Lemma after_delete_chain h h1 l t ls cs :
  after_delete h h1 (Some l) t → chain h l ls cs →
  (∀ k, k ∈ ls → k ∉ locs t) → chain h1 l ls cs.
Proof.
  intros Ha Hc Hdis. apply (chain_frame h); [done|]. intros k Hk. rewrite Ha.
  rewrite decide_False by by apply Hdis. case_decide; [|done].
  by destruct (h !! k).
Qed.

Lemma delete_all_spec rec l ls cs ts h nd :
  (∀ t h, t ∈ ts → repr_at h (Some l) t → chain h l ls cs → NoDup (locs t) →
     (∀ k, k ∈ ls → k ∉ locs t) →
     ∃ h', rec (tloc t) h = Ok (del_effects false cs t, h')
           ∧ after_delete h h' (Some l) t) →
  Forall (repr_at h (Some l)) ts → NoDup (flat_map locs ts) →
  (∀ k, k ∈ ls → k ∉ flat_map locs ts) → chain h l ls cs →
  h !! l = Some nd → MyChildrens_ nd = map tloc ts →
  ∃ h', delete_all rec (map tloc ts) h = Ok (flat_map (del_effects false cs) ts, h')
    ∧ ∀ k, h' !! k = if decide (k ∈ flat_map locs ts) then None
                     else if decide (k = l) then Some (with_children [] nd)
                     else h !! k.
Proof.
  revert h nd. induction ts as [|t ts IH]; intros h nd Hrec Hts Hnd Hdis Hc Hl Hcs.
  { exists h. split; [done|]. intros k. rewrite decide_False by apply not_elem_of_nil.
    case_decide; [subst|done]. rewrite Hl. destruct nd. cbn in Hcs. by rewrite Hcs. }
  cbn [flat_map] in Hnd, Hdis. apply Forall_cons in Hts as [Ht Hts].
  apply NoDup_app in Hnd as (Hnd1 & Hnd12 & Hnd2).
  assert (∀ k, k ∈ ls → k ∉ locs t) as Hdis1 by set_solver.
  destruct (Hrec t h) as (h1 & Hr1 & Ha1); [by left|done..|].
  pose proof (chain_head _ _ _ _ Hc) as Hl0.
  assert (h1 !! l = Some (with_children (map tloc ts) nd)) as Hl1.
  { rewrite Ha1, decide_False, decide_True, Hl by auto. cbn. rewrite Hcs. cbn [map].
    rewrite drop_child_head; [done|]. intros Hin%map_tloc_locs.
    eapply Hnd12; [apply tloc_in_locs|done]. }
  destruct (IH h1 (with_children (map tloc ts) nd)) as (h' & E & Hk).
  - intros t' h0 Ht'. apply Hrec. by right.
  - rewrite Forall_forall in *. intros t' Ht'.
    apply (repr_at_frame h); [by apply Hts|]. intros k Hk. rewrite Ha1.
    assert (k ∈ flat_map locs ts) by (apply elem_of_flat_map; by exists t').
    rewrite !decide_False; [done| |]; [intros [= ->]; set_solver|].
    intros Hkt. by eapply Hnd12.
  - done.
  - set_solver.
  - by eapply after_delete_chain.
  - done.
  - done.
  - exists h'. split; [cbn; rewrite Hr1; cbn; by rewrite E|].
    intros k. rewrite Hk, Ha1. cbn [flat_map]. repeat case_decide; set_solver.
Qed.

(** Unlinking a node that is about to be destroyed. *)
Lemma unlink_spec h p l nd ls cs :
  h !! l = Some nd → MyParent_ nd = p → chain_opt h p ls cs → l ∉ ls →
  ∃ h0, match p with Some q => RemoveChildren q l h | None => Ok h end = Ok h0
    ∧ h0 !! l = Some nd
    ∧ chain h0 l (l :: ls) (match p with None => [] | Some _ => cs ++ [MyName_ nd] end)
    ∧ ∀ k, h0 !! k = if decide (p = Some k)
                     then (λ nd, with_children (drop_child l (MyChildrens_ nd)) nd)
                            <$> h !! k
                     else h !! k.
Proof.
  intros Hl Hp Hc Hls. destruct p as [q|]; cbn in Hc.
  - pose proof (chain_head _ _ _ _ Hc) as Hq.
    destruct (chain_dom _ _ _ _ _ Hc Hq) as [ndq Hndq].
    unfold RemoveChildren, deref. rewrite Hndq. cbn.
    eexists. split; [reflexivity|]. split_and!.
    + rewrite lookup_insert_ne; [done|]. by intros ->.
    + eapply chain_up; [rewrite lookup_insert_ne; [done|by intros ->]|done|].
      apply (chain_frame h); [done|]. intros k _. rewrite lookup_insert.
      case_decide; [|done]. subst. by rewrite Hndq.
    + intros k. rewrite lookup_insert. repeat case_decide; try congruence.
      simplify_eq. by rewrite Hndq.
  - destruct Hc as [-> ->]. exists h. split_and!; try done.
    by apply (chain_root _ _ nd).
Qed.

(** [~Node()] terminates, frees exactly the subtree and unlinks it. *)
Lemma delete_Node_spec s : ∀ fuel h p ls cs,
  (length (locs s) ≤ fuel)%nat → repr_at h p s → NoDup (locs s) →
  chain_opt h p ls cs → NoDup ls → (∀ k, k ∈ ls → k ∉ locs s) →
  ∃ h', delete_Node separator fuel owner (tloc s) h
        = Ok (del_effects (bool_decide (p = None)) cs s, h')
    ∧ after_delete h h' p s.
Proof.
  induction s as [l n c ts IH] using tree_ind'.
  intros fuel h p ls cs Hf Hr Hnd Hc Hnls Hdis. cbn [locs length] in Hf.
  destruct fuel as [|fuel]; [lia|].
  rewrite delete_Node_unfold. cbn [tloc].
  apply repr_at_unfold in Hr as [Hl Hts]. rewrite (deref_Some _ _ _ Hl).
  apply NoDup_locs_sub in Hnd as [Hnl Hnd].
  assert (l ∉ ls) as Hlls by (intros ?%Hdis; rewrite locs_node in *; naive_solver).
  cbn [mbind outcome_bind Cached_].
  rewrite (LocalPathToMe_chain separator owner h _ ls cs) by done.
  destruct (unlink_spec h p l _ ls cs Hl eq_refl Hc Hlls) as (h0 & E0 & Hl0 & Hc0 & Hk0).
  cbn [MyParent_ MyName_] in *.
  assert (∀ t, t ∈ ts → ∀ k, k ∈ locs t → k ∈ flat_map locs ts) as Hin.
  { intros t Ht k Hk. apply elem_of_flat_map. by exists t. }
  assert (∀ k, k ∈ l :: ls → k ∉ flat_map locs ts) as Hdis0.
  { intros k [->|Hk]%elem_of_cons; [done|]. specialize (Hdis k Hk). cbn in Hdis.
    set_solver. }
  destruct (delete_all_spec (delete_Node separator fuel owner) l (l :: ls)
              (match p with None => [] | Some _ => cs ++ [n] end) ts h0
              (mkNode n (map tloc ts) p c)) as (h1 & E1 & Hk1); try done.
  - intros t h2 Ht Hrt Hct Hndt Hdt. rewrite Forall_forall in IH.
    destruct (IH t Ht fuel h2 (Some l) (l :: ls)
                (match p with None => [] | Some _ => cs ++ [n] end)) as (h3 & E3 & Ha3);
      try done; [|by constructor|by exists h3].
    etrans; [|apply le_S_n, Hf]. apply submseteq_length.
    apply list_elem_of_split in Ht as (ts1 & ts2 & ->). rewrite flat_map_app. cbn.
    apply submseteq_inserts_l, submseteq_inserts_r. done.
  - rewrite Forall_forall in *. intros t Ht.
    apply (repr_at_frame h); [by apply Hts|]. intros k Hk. rewrite Hk0.
    rewrite decide_False; [done|]. intros ->. cbn in Hc.
    eapply (Hdis k); [by eapply chain_head|]. apply locs_node. right. eauto.
  - exists (base.delete l h1). split.
    + destruct c; cbn [mbind outcome_bind]; rewrite E0; cbn [mbind outcome_bind];
        rewrite (deref_Some _ _ _ Hl0); cbn [mbind outcome_bind MyChildrens_];
        rewrite E1; by destruct p.
    + intros k. rewrite lookup_delete, Hk1, Hk0. cbn [locs tloc].
      destruct (decide (k = l)) as [->|Hkl].
      * by rewrite !decide_True by (done || by left).
      * rewrite decide_False by done.
        repeat case_decide; try done; set_solver.
Qed.
End delete.

(** ** [Remove] *)

Lemma tree_find_NoDup comps t s : tree_find comps t = Some s → NoDup (locs t) → NoDup (locs s).
Proof. intros (rest & -> & _)%tree_modify_locs. by intros [? _]%NoDup_app. Qed.

Lemma child_in_locs c P s :
  child_named c (tsub P) = Some s → NoDup (locs P) →
  (∀ k, k ∈ locs s → k ∈ locs P ∧ k ≠ tloc P).
Proof.
  destruct P as [l n b ts]. cbn [tsub].
  intros (ts1 & ts2 & -> & _)%child_named_split [Hl _]%NoDup_locs_sub.
  intros k Hk. rewrite flat_map_app in Hl. cbn in *.
  rewrite elem_of_cons, flat_map_app. cbn. split; [set_solver|]. intros ->. set_solver.
Qed.

(** The ancestors of a node that a path leads to. *)
Lemma chain_find h t cs P :
  repr_at h None t → NoDup (locs t) → tree_find cs t = Some P →
  ∃ ls, chain h (tloc P) ls cs ∧ NoDup ls
    ∧ (∀ k, k ∈ ls → k ∈ locs P → k = tloc P).
Proof.
  intros Hr Hnd. revert P. induction cs as [|c cs IH] using rev_ind; intros P.
  { intros [= <-]. exists [tloc t]. split_and!; [|by apply NoDup_singleton|].
    - by eapply chain_root; [by apply repr_at_lookup|].
    - by intros k ->%list_elem_of_singleton. }
  rewrite tree_find_app. intros (P' & HP' & Hc)%bind_Some. cbn in Hc.
  destruct (child_named c (tsub P')) as [P1|] eqn:E; [|done]. injection Hc as ->.
  destruct (IH _ HP') as (ls & Hchain & Hndl & Hls).
  destruct (tree_find_repr _ _ _ _ _ Hr HP') as [q Hq].
  pose proof (repr_at_child _ _ _ _ _ Hq E) as HrP.
  pose proof (child_in_locs _ _ _ E (tree_find_NoDup _ _ _ HP' Hnd)) as Hsub.
  exists (tloc P :: ls). split_and!.
  - rewrite <- (child_named_tname _ _ _ E).
    change (tname P) with (MyName_ (mkNode (tname P) (map tloc (tsub P)) (Some (tloc P')) (tcached P))).
    eapply chain_up; [by apply repr_at_lookup|done|done].
  - constructor; [|done]. intros Hin. destruct (Hsub (tloc P) (tloc_in_locs P)) as [H1 H2].
    by apply H2, Hls.
  - intros k [->|Hk]%elem_of_cons HkP; [done|].
    destruct (Hsub k HkP) as [H1 H2]. by destruct H2; apply Hls.
Qed.

Lemma remove_child_locs c P s :
  child_named c (tsub P) = Some s →
  locs P ≡ₚ locs s ++ locs (with_sub (remove_child c) P).
Proof.
  destruct P as [l n b ts]. cbn [tsub]. intros (ts1 & ts2 & -> & Hn & Hall)%child_named_split.
  cbn [with_sub]. rewrite remove_child_app by done. cbn [locs].
  rewrite !flat_map_app. cbn. solve_Permutation.
Qed.

(** Deleting a child leaves its parent with the remaining children. *)
Lemma after_delete_parent h h' q P c s :
  repr_at h q P → NoDup (locs P) → child_named c (tsub P) = Some s →
  after_delete h h' (Some (tloc P)) s →
  repr_at h' q (with_sub (remove_child c) P).
Proof.
  intros Hr Hnd Hc Ha. pose proof (child_in_locs _ _ _ Hc Hnd) as Hsub.
  pose proof (remove_child_locs _ _ _ Hc) as Hlocs. rewrite Hlocs in Hnd.
  apply NoDup_app in Hnd as (_ & Hdis & Hnd).
  destruct P as [l n b ts]. cbn [tsub with_sub tloc] in *.
  apply child_named_split in Hc as (ts1 & ts2 & -> & Hn & Hall).
  rewrite remove_child_app in * by done.
  apply repr_at_unfold in Hr as [Hl Hts]. apply repr_at_unfold. split.
  - rewrite Ha, decide_False, decide_True, Hl; [|done|].
    + cbn. unfold with_children. cbn. do 2 f_equal. unfold drop_child.
      rewrite !map_app. cbn. rewrite filter_app, filter_cons_False by (intros []; done).
      rewrite <- filter_app. apply filter_all, Forall_forall.
      intros x Hx ->. eapply (Hdis (tloc s)); [apply tloc_in_locs|].
      cbn. right. apply map_tloc_locs. by rewrite map_app.
    + intros Hin. by destruct (Hsub l Hin).
  - apply Forall_app in Hts as [H1 [_ H2]%Forall_cons].
    assert (Forall (repr_at h (Some l)) (ts1 ++ ts2)) as H12 by by apply Forall_app.
    rewrite Forall_forall in *. intros t Ht.
    apply (repr_at_frame h); [by apply H12|]. intros k Hk. cbn [locs] in Hdis, Hnd.
    assert (k ∈ flat_map locs (ts1 ++ ts2)) by (apply elem_of_flat_map; by exists t).
    apply NoDup_cons in Hnd as [Hnl _].
    rewrite Ha, !decide_False; [done| |]; [by intros [= <-]|].
    intros Hks. eapply Hdis; [done|]. by right.
Qed.

(** The tree after [Remove] is represented by the heap after the deletion. *)
Lemma after_delete_repr v t h' cs P c s :
  repr v t → tree_find cs t = Some P → child_named c (tsub P) = Some s →
  after_delete (heap v) h' (Some (tloc P)) s →
  repr (with_heap h' v) (tree_remove cs c t).
Proof.
  intros Hr HP Hc Ha. pose proof (tree_find_NoDup _ _ _ HP (repr_nodup _ _ Hr)) as HndP.
  destruct (tree_modify_locs _ _ _ HP) as (rest & Ht & Hm).
  pose proof (remove_child_locs _ _ _ Hc) as HlP.
  assert (locs t ≡ₚ locs s ++ locs (tree_remove cs c t)) as Hlt.
  { unfold tree_remove. rewrite Hm, Ht, HlP. by rewrite app_assoc. }
  pose proof (repr_nodup _ _ Hr) as Hnd. rewrite Hlt in Hnd.
  apply NoDup_app in Hnd as (_ & Hdis & Hnd).
  assert (tloc (with_sub (remove_child c) P) = tloc P) as HlocP by by destruct P.
  split; cbn [with_heap root_ heap next_].
  - rewrite (repr_root _ _ Hr). symmetry. by eapply tree_modify_tloc.
  - eapply repr_at_modify; [apply Hr|apply Hr|exact HP|done| |].
    + intros l Hl HlnP. rewrite Ha, !decide_False; [done| |].
      * intros [= <-]. apply HlnP, tloc_in_locs.
      * intros Hls. by apply HlnP, (child_in_locs _ _ _ Hc HndP).
    + intros q Hq. by eapply after_delete_parent.
  - done.
  - intros l. rewrite Ha. case_decide as Hls.
    + split; [by intros [? ?]|]. by intros ?%Hdis.
    + transitivity (is_Some (heap v !! l)).
      * case_decide; [apply fmap_is_Some|done].
      * rewrite (repr_dom _ _ Hr), Hlt, elem_of_app. naive_solver.
  - intros l Hl. apply (repr_next _ _ Hr). rewrite Hlt. set_solver.
Qed.

Section remove.
Context `{BoostSplit}.
Variables (separator : ascii) (owner : str).
Abbreviation comps_of := (get_components separator).

Lemma Remove_tree v t Path cs c :
  repr v t → comps_of Path = cs ++ [c] →
  match tree_find (cs ++ [c]) t with
  | None => Remove separator owner Path v = Ok (false, [], v)
  | Some s => ∃ v',
      Remove separator owner Path v = Ok (true, del_effects separator owner false cs s, v')
      ∧ repr v' (tree_remove cs c t)
  end.
Proof.
  intros Hr Hp. unfold Remove. rewrite (do_find_node_repr _ _ _ _ Hr), Hp.
  destruct (cs ++ [c]) as [|x xs] eqn:Ecs; [by destruct cs|]. rewrite <- Ecs. clear x xs Ecs Hp.
  destruct (tree_find (cs ++ [c]) t) as [s|] eqn:Hs; [|done].
  cbn [fmap option_fmap option_map mbind outcome_bind].
  pose proof Hs as Hs'. rewrite tree_find_app in Hs'.
  apply bind_Some in Hs' as (P & HP & Hc). cbn in Hc.
  destruct (child_named c (tsub P)) as [P1|] eqn:E; [|done]. injection Hc as ->.
  destruct (chain_find _ _ _ _ (repr_heap _ _ Hr) (repr_nodup _ _ Hr) HP)
    as (ls & Hchain & Hndl & Hls).
  destruct (tree_find_repr _ _ _ _ _ (repr_heap _ _ Hr) HP) as [q Hq].
  pose proof (tree_find_NoDup _ _ _ HP (repr_nodup _ _ Hr)) as HndP.
  destruct (delete_Node_spec separator owner s (S (size (heap v))) (heap v)
              (Some (tloc P)) ls cs) as (h' & -> & Ha).
  - rewrite (repr_size _ _ Hr). destruct (tree_modify_locs _ _ _ Hs) as (rest & -> & _).
    rewrite length_app. lia.
  - by eapply repr_at_child.
  - by eapply tree_find_NoDup, repr_nodup.
  - done.
  - done.
  - intros k Hk Hks. destruct (child_in_locs _ _ _ E HndP k Hks) as [H1 H2].
    by apply H2, Hls.
  - exists (with_heap h' v). split; [done|]. by eapply after_delete_repr.
Qed.
End remove.

(** ** [Rename] *)

Section rename.
Context `{BoostSplit}.
Variables (separator : ascii) (owner : str) (relative_append : str → str → str).
Abbreviation comps_of := (get_components separator).

(** The local path of a node that a path leads to. *)
Lemma LocalPathToMe_find v t cs c s nd :
  repr v t → tree_find (cs ++ [c]) t = Some s → heap v !! tloc s = Some nd →
  LocalPathToMe separator owner (heap v) nd []
  = Ok (owner ++ join_path separator (cs ++ [c])).
Proof.
  intros Hr Hs Hnd. rewrite tree_find_app in Hs.
  apply bind_Some in Hs as (P & HP & Hc). cbn in Hc.
  destruct (child_named c (tsub P)) as [P1|] eqn:E; [|done]. injection Hc as ->.
  destruct (chain_find _ _ _ _ (repr_heap _ _ Hr) (repr_nodup _ _ Hr) HP)
    as (ls & Hchain & Hndl & _).
  destruct (tree_find_repr _ _ _ _ _ (repr_heap _ _ Hr) HP) as [q Hq].
  pose proof (repr_at_lookup _ _ _ (repr_at_child _ _ _ _ _ Hq E)) as Hl.
  rewrite Hnd in Hl. injection Hl as ->.
  rewrite (LocalPathToMe_chain _ _ _ _ ls cs) by done. cbn [MyName_].
  by rewrite (child_named_tname _ _ _ E).
Qed.

(** [Rename] gives the node a new name, whatever its siblings are called; if it is
    cached, the local copy is renamed too. *)
Lemma Rename_tree v t Path NewPath :
  repr v t → comps_of Path ≠ [] →
  match tree_find (comps_of Path) t with
  | Some s =>
      if bool_decide (filename separator NewPath = [])
      then Rename separator owner relative_append Path NewPath v = Ok (false, [], v)
      else ∃ v',
        let OldLocalPath := owner ++ join_path separator (comps_of Path) in
        Rename separator owner relative_append Path NewPath v
        = Ok (true,
              (if tcached s
               then [FsRename OldLocalPath
                       (relative_append OldLocalPath (filename separator NewPath))]
               else []), v')
        ∧ repr v' (tree_rename (filename separator NewPath) (comps_of Path) t)
  | None => Rename separator owner relative_append Path NewPath v = Ok (false, [], v)
  end.
Proof.
  intros Hr Hne. unfold Rename. rewrite (do_find_node_repr _ _ _ _ Hr).
  destruct (list_snoc_cases (comps_of Path)) as [?|(cs & c & ->)]; [done|].
  destruct (cs ++ [c]) as [|x xs] eqn:Ecs; [by destruct cs|]. rewrite <- Ecs. clear x xs Ecs Hne.
  destruct (tree_find (cs ++ [c]) t) as [s|] eqn:Hs; [|done].
  destruct (repr_lookup _ _ _ _ Hr Hs) as [q Hq].
  cbn [fmap option_fmap option_map mbind outcome_bind].
  case_bool_decide as Hn; [done|].
  pose proof (repr_update_node v t (cs ++ [c]) s
    (λ '(TNode l _ c ts), TNode l (filename separator NewPath) c ts) _ Hr Hs Hq) as Hu.
  pose proof (LocalPathToMe_find v t cs c s _ Hr Hs Hq) as Hp.
  rewrite (deref_Some _ _ _ Hq). cbn [mbind outcome_bind Cached_].
  rewrite Hp. cbn zeta. destruct s as [l n b ts]. cbn [tcached] in *.
  destruct b; (eexists; split; [reflexivity|by apply Hu]).
Qed.
End rename.

(** ** Sibling names

    [Add] and [Remove] keep the names of siblings distinct. *)
Fixpoint distinct_names (t : tree) : Prop :=
  let 'TNode _ _ _ ts := t in
  NoDup (map tname ts) ∧ foldr (λ t P, distinct_names t ∧ P) True ts.

Lemma distinct_names_unfold l n c ts :
  distinct_names (TNode l n c ts) ↔ NoDup (map tname ts) ∧ Forall distinct_names ts.
Proof. cbn. by rewrite foldr_Forall. Qed.

Lemma distinct_names_find cs t s :
  distinct_names t → tree_find cs t = Some s → distinct_names s.
Proof.
  revert t. induction cs as [|c cs IH]; intros t Hd; cbn; [by intros [= <-]|].
  destruct t as [l n b ts]. apply distinct_names_unfold in Hd as [_ Hd]. cbn.
  destruct (child_named c ts) as [t'|] eqn:E; [|done].
  apply child_named_split in E as (ts1 & ts2 & -> & _).
  apply Forall_app in Hd as [_ [Hd _]%Forall_cons]. by apply IH.
Qed.

Lemma child_named_remove q c ts :
  NoDup (map tname ts) →
  child_named q (remove_child c ts) = if bool_decide (q = c) then None else child_named q ts.
Proof.
  induction ts as [|t ts IH]; cbn; [by case_bool_decide|].
  intros [Hn Hnd]%NoDup_cons. destruct (decide (tname t = c)) as [Ec|Ec];
    [rewrite (bool_decide_eq_true_2 _ Ec)|rewrite (bool_decide_eq_false_2 _ Ec)].
  - destruct (decide (q = c)) as [->|Eq].
    + rewrite (bool_decide_eq_true_2 (c = c)) by done.
      apply child_named_None, Forall_forall. intros t' Ht' E'.
      apply Hn. rewrite Ec, <- E'. by apply list_elem_of_fmap_2.
    + by rewrite !bool_decide_eq_false_2 by congruence.
  - cbn. rewrite (IH Hnd). repeat case_bool_decide; congruence.
Qed.

Lemma prefix_cons_bool {A} `{EqDecision A} (x y : A) l k :
  bool_decide (x :: l `prefix_of` y :: k)
  = bool_decide (x = y) && bool_decide (l `prefix_of` k).
Proof.
  destruct (decide (x = y)) as [->|Hne].
  - rewrite (bool_decide_eq_true_2 (y = y)) by done. cbn. apply bool_decide_ext.
    split; [apply prefix_cons_inv_2|apply prefix_cons].
  - rewrite (bool_decide_eq_false_2 (x = y)) by done. cbn.
    apply bool_decide_eq_false_2. by intros ?%prefix_cons_inv_1.
Qed.

(** A removed entry is gone, together with everything below it, as long as sibling
    names are distinct. *)
Lemma tree_find_remove cs c q t s :
  distinct_names t → tree_find (cs ++ [c]) t = Some s →
  tcached <$> tree_find q (tree_remove cs c t) =
    if bool_decide ((cs ++ [c]) `prefix_of` q) then None else tcached <$> tree_find q t.
Proof.
  unfold tree_remove. revert q t. induction cs as [|c' cs IH]; intros q t Hd Hs;
    destruct t as [l n b ts]; apply distinct_names_unfold in Hd as [Hnd Hd].
  - cbn [tree_modify with_sub app]. destruct q as [|c' q].
    { rewrite bool_decide_eq_false_2; [done|]. by intros ?%prefix_nil_inv. }
    cbn [tree_find tsub]. rewrite (child_named_remove _ _ _ Hnd), prefix_cons_bool.
    rewrite (bool_decide_ext (c' = c) (c = c')) by naive_solver.
    rewrite (bool_decide_eq_true_2 ([] `prefix_of` q)), andb_true_r by apply prefix_nil.
    by case_bool_decide.
  - cbn [app] in *. destruct q as [|c'' q].
    { rewrite bool_decide_eq_false_2; [done|]. by intros ?%prefix_nil_inv. }
    cbn in Hs. destruct (child_named c' ts) as [t'|] eqn:E; [|done].
    cbn [tree_modify with_sub tree_find tsub]. rewrite prefix_cons_bool.
    pose proof Hs as Hs'. rewrite tree_find_app in Hs'.
    apply bind_Some in Hs' as (P & HP & _).
    rewrite (child_named_update c' _ _ t'); [|done|].
    2:{ erewrite tree_modify_tname by (done || by destruct P).
        by eapply child_named_tname. }
    rewrite (bool_decide_ext (c' = c'') (c'' = c')) by naive_solver.
    case_bool_decide as Ec; [|done]. subst c''. rewrite E. cbn [andb].
    apply IH; [|done]. apply child_named_split in E as (ts1 & ts2 & -> & _).
    by apply Forall_app in Hd as [_ [? _]%Forall_cons].
Qed.
