(* ===== verification/VfsPaths.v ===== *)
(** * VfsPaths: paths as text, the invariant of the tree, and the operations

    Names below the root are [plain] (not empty, without separator), siblings have
    distinct names: under that invariant a node has one canonical path, [Get] lists
    exactly those, and [Find] reads them back. *)

From S2P Require Import Prelude Text Vfs VfsTree VfsAdd VfsDelete.

Section text.
Context `{BoostSplitLaws}.
Variable separator : ascii.
Abbreviation comps_of := (get_components separator).
Abbreviation is_sep := (λ c, bool_decide (c = separator)).

Definition plain (c : str) : Prop := c ≠ [] ∧ separator ∉ c.

Lemma plain_no_sep c : plain c → Forall (λ x, is_sep x = false) c.
Proof.
  intros [_ Hc]. apply Forall_forall. intros x Hx. apply bool_decide_eq_false_2.
  by intros ->.
Qed.

(** Components are plain. *)
Lemma get_components_plain Path : Forall plain (comps_of Path).
Proof.
  apply Forall_forall. intros c [Hc Hin]%list_elem_of_filter. split; [done|].
  pose proof (split_no_sep is_sep Path) as Hs. rewrite Forall_forall in Hs.
  specialize (Hs c Hin). intros Hsep. rewrite Forall_forall in Hs.
  specialize (Hs _ Hsep). by rewrite bool_decide_eq_true_2 in Hs.
Qed.

Lemma split_join cs :
  Forall plain cs → boost_split is_sep (join_path separator cs) = [] :: cs.
Proof.
  induction 1 as [|c cs Hc Hcs IH]; [apply split_empty|].
  unfold join_path in *. cbn [map concat app].
  rewrite split_sep by by apply bool_decide_eq_true_2. f_equal.
  pose proof (plain_no_sep c Hc) as Hns.
  destruct cs as [|c' cs]; cbn [map concat app] in *.
  - rewrite app_nil_r. by apply split_token.
  - rewrite split_token_sep by (done || by apply bool_decide_eq_true_2). f_equal.
    rewrite split_sep in IH by by apply bool_decide_eq_true_2. by injection IH.
Qed.

(** A canonical path has the components it was made of. *)
Lemma get_components_join cs : Forall plain cs → comps_of (join_path separator cs) = cs.
Proof.
  intros Hcs. unfold get_components. rewrite split_join by done.
  rewrite filter_cons_False by naive_solver. apply filter_all.
  eapply Forall_impl; [done|]. by intros ? [? _].
Qed.
End text.

(** ** [Get] on the tree *)

Section get.
Variable separator : ascii.

Definition treports (ty : PathType) (t : tree) : bool :=
  match ty with
  | GENERIC => true
  | FILE => bool_decide (tsub t = [])
  | DIRECTORY => negb (bool_decide (tsub t = []))
  end.

(** What [do_get_paths] puts in front of the container. *)
Fixpoint tree_paths (ty : PathType) (CurrentPath : str) (t : tree) : list str :=
  let 'TNode _ n _ ts := t in
  (if treports ty t then [CurrentPath ++ n] else [])
  ++ concat (rev (map (tree_paths ty (CurrentPath ++ n ++ [separator])) ts)).

Definition get_children (ty : PathType) (CurrentPath : str) (ts : list tree) : list str :=
  concat (rev (map (tree_paths ty CurrentPath) ts)).

Definition get_loop (rec : loc → str → list str → outcome (str * list str)) :=
  fix each (cs : list loc) (CurrentPath : str) (PathsContainer : list str)
      : outcome (str * list str) :=
    match cs with
    | [] => Ok (CurrentPath, PathsContainer)
    | Child :: cs =>
        '(CurrentPath, PathsContainer) ← rec Child CurrentPath PathsContainer;
        each cs CurrentPath PathsContainer
    end.

Lemma do_get_paths_unfold fuel h ty Parent CurrentPath PathsContainer :
  do_get_paths separator (S fuel) h ty Parent CurrentPath PathsContainer =
    (nd ← deref h Parent;
     '(CurrentPath, PathsContainer) ←
       get_loop (do_get_paths separator fuel h ty) (MyChildrens_ nd)
         (CurrentPath ++ MyName_ nd ++ [separator]) PathsContainer;
     let CurrentPath := removelast CurrentPath in
     let PathsContainer :=
       if reports ty nd then CurrentPath :: PathsContainer else PathsContainer in
     if bool_decide (length CurrentPath < length (MyName_ nd))%nat
     then Fault Thrown
     else Ok (take (length CurrentPath - length (MyName_ nd)) CurrentPath,
              PathsContainer)).
Proof. done. Qed.

Lemma get_loop_spec rec ty ts CP PC :
  (∀ t PC, t ∈ ts → rec (tloc t) CP PC = Ok (CP, tree_paths ty CP t ++ PC)) →
  get_loop rec (map tloc ts) CP PC = Ok (CP, get_children ty CP ts ++ PC).
Proof.
  revert PC. induction ts as [|t ts IH]; intros PC Hrec; [done|]. cbn.
  rewrite Hrec by by left. cbn. rewrite IH.
  - unfold get_children. cbn. rewrite concat_app. cbn. by rewrite app_nil_r, app_assoc.
  - intros t' PC' ?. apply Hrec. by right.
Qed.

Lemma map_tloc_nil ts : bool_decide (map tloc ts = []) = bool_decide (ts = []).
Proof. by destruct ts. Qed.

Lemma do_get_paths_spec t : ∀ fuel h p ty CP PC,
  repr_at h p t → (length (locs t) ≤ fuel)%nat →
  do_get_paths separator fuel h ty (tloc t) CP PC = Ok (CP, tree_paths ty CP t ++ PC).
Proof.
  induction t as [l n c ts IH] using tree_ind'. intros fuel h p ty CP PC Hr Hf.
  destruct fuel as [|fuel]; [cbn in Hf; lia|]. cbn [locs length] in Hf.
  rewrite do_get_paths_unfold. apply repr_at_unfold in Hr as [Hl Hts]. cbn [tloc].
  rewrite (deref_Some _ _ _ Hl). cbn [mbind outcome_bind MyChildrens_ MyName_].
  rewrite (get_loop_spec _ ty).
  - cbn [mbind outcome_bind]. rewrite app_assoc, removelast_last.
    rewrite bool_decide_eq_false_2 by (rewrite length_app; lia).
    rewrite length_app, Nat.add_sub, take_app_length.
    cbn [tree_paths]. rewrite <- app_assoc.
    assert (reports ty (mkNode n (map tloc ts) p c) = treports ty (TNode l n c ts)) as ->.
    { destruct ty; cbn; unfold IsLeaf; cbn; by rewrite ?map_tloc_nil. }
    destruct (treports ty (TNode l n c ts)); cbn; unfold get_children; by rewrite <- ?app_assoc.
  - intros t PC' Ht. rewrite Forall_forall in *. eapply IH; [done|by apply Hts|].
    etrans; [|apply le_S_n, Hf]. apply list_elem_of_split in Ht as (ts1 & ts2 & ->).
    rewrite flat_map_app. cbn. rewrite !length_app. lia.
Qed.

Lemma get_each_spec v ty ts p CP PC :
  Forall (repr_at (heap v) p) ts →
  (∀ t, t ∈ ts → (length (locs t) ≤ S (size (heap v)))%nat) →
  get_each separator v ty (map tloc ts) CP PC = Ok (get_children ty CP ts ++ PC).
Proof.
  revert PC. induction ts as [|t ts IH]; intros PC Hr Hf; [done|].
  apply Forall_cons in Hr as [Ht Hts]. cbn [map get_each].
  rewrite (do_get_paths_spec _ _ _ _ _ _ _ Ht) by (apply Hf; by left).
  cbn [mbind outcome_bind]. rewrite IH; [|done|intros ??; apply Hf; by right].
  unfold get_children. cbn. rewrite concat_app. cbn. by rewrite app_nil_r, app_assoc.
Qed.

Lemma Get_tree v t ty :
  repr v t → Get separator v ty = Ok (get_children ty (tname t) (tsub t)).
Proof.
  intros Hr. unfold Get. rewrite (repr_root _ _ Hr).
  rewrite (deref_Some _ _ _ (repr_at_lookup _ _ _ (repr_heap _ _ Hr))).
  cbn [mbind outcome_bind MyChildrens_ MyName_].
  rewrite (get_each_spec v ty (tsub t) (Some (tloc t))).
  - by rewrite app_nil_r.
  - eapply repr_at_sub, repr_heap, Hr.
  - intros s Hs. rewrite (repr_size _ _ Hr). destruct t as [l n c ts]. cbn in *.
    apply list_elem_of_split in Hs as (ts1 & ts2 & ->).
    rewrite flat_map_app. cbn. rewrite !length_app. lia.
Qed.
End get.

(** ** The invariant of a client's tree *)

Section invariant.
Context `{BoostSplitLaws}.
Variables (separator : ascii) (owner : str).
Abbreviation comps_of := (get_components separator).
Abbreviation plain := (plain separator).

(** Below the root every name is plain, and siblings have distinct names. *)
Fixpoint tidy (t : tree) : Prop :=
  let 'TNode _ _ _ ts := t in
  NoDup (map tname ts) ∧ foldr (λ t P, (plain (tname t) ∧ tidy t) ∧ P) True ts.

Lemma tidy_unfold l n c ts :
  tidy (TNode l n c ts) ↔
  NoDup (map tname ts) ∧ Forall (λ t, plain (tname t) ∧ tidy t) ts.
Proof. cbn. by rewrite foldr_Forall. Qed.

Lemma tidy_distinct t : tidy t → distinct_names t.
Proof.
  induction t as [l n c ts IH] using tree_ind'. rewrite tidy_unfold, distinct_names_unfold.
  intros [Hnd Hts]. split; [done|]. rewrite Forall_forall in *.
  intros t Ht. by apply IH, Hts.
Qed.

Lemma tidy_update_child c f ts t :
  NoDup (map tname ts) → Forall (λ t, plain (tname t) ∧ tidy t) ts →
  child_named c ts = Some t → tname (f t) = tname t → tidy (f t) →
  NoDup (map tname (update_child c f ts))
  ∧ Forall (λ t, plain (tname t) ∧ tidy t) (update_child c f ts).
Proof.
  intros Hnd Hts (ts1 & ts2 & -> & Hn & Hall)%child_named_split Hf Ht.
  rewrite update_child_app by done. apply Forall_app in Hts as [H1 [[Hp _] H2]%Forall_cons].
  split.
  - by rewrite map_app in *; cbn in *; rewrite Hf.
  - apply Forall_app. split; [done|]. constructor; [by rewrite Hf|done].
Qed.

(** A modification that keeps the name of its node and leaves it tidy. *)
Lemma tidy_modify f cs t s :
  tidy t → tree_find cs t = Some s → tname (f s) = tname s →
  (tidy s → tidy (f s)) → tidy (tree_modify f cs t).
Proof.
  revert t. induction cs as [|c cs IH]; intros t Ht; [intros [= ->]; auto|].
  destruct t as [l n b ts]. cbn [tree_find tree_modify tsub with_sub].
  apply tidy_unfold in Ht as [Hnd Hts].
  destruct (child_named c ts) as [t'|] eqn:E; [|done]. intros Hs Hn Hf.
  apply tidy_unfold. eapply tidy_update_child; [done..| |].
  - by eapply tree_modify_tname.
  - apply IH; try done. apply child_named_split in E as (ts1 & ts2 & -> & _).
    by apply Forall_app in Hts as [_ [[_ ?] _]%Forall_cons].
Qed.

Lemma tidy_add next comps t :
  Forall plain comps → tidy t → tidy (tree_add next comps t).
Proof.
  intros Hp. revert next t. induction Hp as [|c comps Hc Hp IH]; intros next t Ht; [done|].
  destruct t as [l n b ts]. cbn [tree_add tsub].
  pose proof (proj1 (tidy_unfold _ _ _ _) Ht) as [Hnd Hts].
  destruct (child_named c ts) as [t'|] eqn:E; cbn [with_sub]; apply tidy_unfold.
  - eapply tidy_update_child; [done..|apply tree_add_tname|].
    apply IH. apply child_named_split in E as (ts1 & ts2 & -> & _).
    by apply Forall_app in Hts as [_ [[_ ?] _]%Forall_cons].
  - assert (tname (tree_add (S next) comps (TNode next c false [])) = c) as En
      by apply tree_add_tname.
    cbn [map]. rewrite En. split.
    + constructor; [|done]. rewrite list_elem_of_fmap. intros (t1 & -> & Ht1).
      apply child_named_None in E. rewrite Forall_forall in E. by apply (E t1).
    + constructor; [|done]. split; [by rewrite En|].
      apply IH, tidy_unfold. split; constructor.
Qed.

Lemma tidy_remove_child c t : tidy t → tidy (with_sub (remove_child c) t).
Proof.
  destruct t as [l n b ts]. cbn [with_sub]. rewrite !tidy_unfold. intros [Hnd Hts].
  destruct (child_named c ts) as [t'|] eqn:E.
  - apply child_named_split in E as (ts1 & ts2 & -> & Hn & Hall).
    rewrite remove_child_app by done. rewrite map_app in *.
    apply Forall_app in Hts as [H1 [_ H2]%Forall_cons]. split; [|by apply Forall_app].
    apply NoDup_app in Hnd as (? & ? & [? ?]%NoDup_cons). apply NoDup_app. set_solver.
  - assert (remove_child c ts = ts) as ->; [|done].
    apply child_named_None in E. clear -E.
    induction E as [|t ts Ht Hts IH]; cbn; [done|].
    rewrite bool_decide_eq_false_2 by done. by f_equal.
Qed.

(** [wf v t]: the heap of [v] is the tidy tree [t]. *)
Definition wf (v : vfs) (t : tree) : Prop := repr v t ∧ tidy t.

Lemma wf_new Root : wf (new_vfs Root) (TNode 0 Root false []).
Proof. split; [apply new_vfs_repr|]. apply tidy_unfold. split; constructor. Qed.

Lemma wf_Add v t Path v' :
  wf v t → Add separator Path v = Ok v' → wf v' (tree_add (next_ v) (comps_of Path) t).
Proof.
  intros [Hr Ht] [_ Hr']%(Add_Ok _ _ _ _ _ Hr). split; [done|].
  apply tidy_add; [apply get_components_plain|done].
Qed.

Lemma wf_SetCached v t Path b r v' :
  wf v t → SetCached separator Path b v = Ok (r, v') → ∃ t', wf v' t'.
Proof.
  intros [Hr Ht] HS. pose proof (SetCached_tree separator v t Path b Hr) as HT.
  destruct (comps_of Path) as [|c cs]; [rewrite HT in HS; simplify_eq; by exists t|].
  cbv zeta in HT.
  destruct (tree_find (c :: cs) t) as [s|] eqn:Hs;
    [|rewrite HT in HS; simplify_eq; by exists t].
  destruct HT as (v'' & E & Hr'). rewrite E in HS. simplify_eq.
  eexists. split; [exact Hr'|]. eapply tidy_modify; [done..| |].
  - by destruct s.
  - destruct s. by rewrite !tidy_unfold.
Qed.

Lemma wf_Remove v t Path r es v' :
  wf v t → Remove separator owner Path v = Ok (r, es, v') → ∃ t', wf v' t'.
Proof.
  intros [Hr Ht] HS. destruct (list_snoc_cases (comps_of Path)) as [Ep|(cs & c & Ep)].
  { unfold Remove in HS. rewrite (do_find_node_repr _ _ _ _ Hr), Ep in HS.
    cbn in HS. simplify_eq. by exists t. }
  pose proof (Remove_tree separator owner v t Path cs c Hr Ep) as HT.
  destruct (tree_find (cs ++ [c]) t) as [s|] eqn:Hs;
    [|rewrite HT in HS; simplify_eq; by exists t].
  destruct HT as (v'' & E & Hr'). rewrite E in HS. simplify_eq.
  eexists. split; [exact Hr'|]. rewrite tree_find_app in Hs.
  apply bind_Some in Hs as (P & HP & _).
  eapply tidy_modify; [done..|by destruct P|apply tidy_remove_child].
Qed.
End invariant.

(** ** What the operations promise *)

Section tree_facts.
Variables (separator : ascii) (owner : str).

Lemma child_named_distinct ts t :
  NoDup (map tname ts) → t ∈ ts → child_named (tname t) ts = Some t.
Proof.
  intros Hnd (ts1 & ts2 & ->)%list_elem_of_split. apply child_named_app; [|done].
  rewrite map_app in Hnd. apply NoDup_app in Hnd as (_ & Hdis & _).
  apply Forall_forall. intros t1 Ht1 E. eapply Hdis; [by apply list_elem_of_fmap_2|].
  rewrite E. cbn. by left.
Qed.

Lemma elem_of_concat_rev {A B} (f : A → list B) (l : list A) y :
  y ∈ concat (rev (map f l)) ↔ ∃ x, x ∈ l ∧ y ∈ f x.
Proof.
  rewrite list_elem_of_In, in_concat. setoid_rewrite <- in_rev.
  setoid_rewrite in_map_iff. setoid_rewrite list_elem_of_In. naive_solver.
Qed.

Lemma join_path_app cs cs' :
  join_path separator (cs ++ cs') = join_path separator cs ++ join_path separator cs'.
Proof. unfold join_path. by rewrite map_app, concat_app. Qed.

Lemma join_path_cons c cs :
  join_path separator (c :: cs) = separator :: c ++ join_path separator cs.
Proof. done. Qed.

(** Both traversals visit the nodes that paths lead to. *)
Lemma tree_paths_elem ty t : ∀ CP p,
  distinct_names t →
  p ∈ tree_paths separator ty CP t ↔
  ∃ cs s, tree_find cs t = Some s ∧ treports ty s = true
          ∧ p = CP ++ tname t ++ join_path separator cs.
Proof.
  induction t as [l n c ts IH] using tree_ind'. intros CP p Hd.
  cbn [tree_paths]. rewrite elem_of_app, elem_of_concat_rev.
  apply distinct_names_unfold in Hd as [Hnd Hd]. rewrite Forall_forall in IH, Hd.
  split.
  - intros [Hp|(t & Ht & Hp)].
    + exists [], (TNode l n c ts). destruct (treports ty _) eqn:E; [|by apply elem_of_nil in Hp].
      apply list_elem_of_singleton in Hp as ->. cbn. by rewrite app_nil_r.
    + apply (IH t Ht) in Hp as (cs & s & Hs & Hr & ->); [|by apply Hd].
      exists (tname t :: cs), s. cbn [tree_find tsub].
      rewrite child_named_distinct by done. split_and!; [done..|].
      rewrite join_path_cons. cbn [tname]. by rewrite <- !app_assoc.
  - intros ([|c' cs] & s & Hs & Hr & ->).
    + injection Hs as <-. left. rewrite Hr. cbn. rewrite app_nil_r. by left.
    + right. cbn [tree_find tsub] in Hs.
      destruct (child_named c' ts) as [t|] eqn:E; [|done].
      pose proof (child_named_tname _ _ _ E) as <-.
      apply child_named_split in E as (ts1 & ts2 & -> & _).
      assert (t ∈ ts1 ++ t :: ts2) as Ht by (rewrite elem_of_app; right; by left).
      exists t. split; [done|]. apply IH; [done|by apply Hd|].
      exists cs, s. split_and!; [done..|]. rewrite join_path_cons. cbn [tname].
      by rewrite <- !app_assoc.
Qed.

Lemma del_effects_elem t : ∀ cs e,
  distinct_names t →
  e ∈ del_effects separator owner false cs t ↔
  ∃ ds s, tree_find ds t = Some s ∧ tcached s = true
          ∧ e = FsRemove (owner ++ join_path separator (cs ++ tname t :: ds)).
Proof.
  induction t as [l n c ts IH] using tree_ind'. intros cs e Hd.
  cbn [del_effects]. rewrite elem_of_app, elem_of_flat_map.
  apply distinct_names_unfold in Hd as [Hnd Hd]. rewrite Forall_forall in IH, Hd.
  unfold local_path. split.
  - intros [He|(t & Ht & He)].
    + exists [], (TNode l n c ts). destruct c; [|by apply elem_of_nil in He].
      by apply list_elem_of_singleton in He as ->.
    + apply (IH t Ht) in He as (ds & s & Hs & Hc & ->); [|by apply Hd].
      exists (tname t :: ds), s. cbn [tree_find tsub].
      rewrite child_named_distinct by done. split_and!; [done..|].
      cbn [tname]. by rewrite <- app_assoc.
  - intros ([|c' ds] & s & Hs & Hc & ->).
    + injection Hs as <-. left. cbn in Hc. subst c. by left.
    + right. cbn [tree_find tsub] in Hs.
      destruct (child_named c' ts) as [t|] eqn:E; [|done].
      pose proof (child_named_tname _ _ _ E) as <-.
      apply child_named_split in E as (ts1 & ts2 & -> & _).
      assert (t ∈ ts1 ++ t :: ts2) as Ht by (rewrite elem_of_app; right; by left).
      exists t. split; [done|]. apply IH; [done|by apply Hd|].
      exists ds, s. split_and!; [done..|]. cbn [tname]. by rewrite <- app_assoc.
Qed.

Lemma tidy_find_plain cs t s :
  tidy separator t → tree_find cs t = Some s → Forall (plain separator) cs.
Proof.
  revert t. induction cs as [|c cs IH]; intros t Ht; [by constructor|].
  destruct t as [l n b ts]. cbn [tree_find tsub]. apply tidy_unfold in Ht as [_ Hts].
  destruct (child_named c ts) as [t|] eqn:E; [|done].
  apply child_named_split in E as (ts1 & ts2 & -> & <- & _).
  apply Forall_app in Hts as [_ [[Hp Ht] _]%Forall_cons].
  intros Hs. constructor; [done|by eapply IH].
Qed.

Lemma tidy_find cs t s :
  tidy separator t → tree_find cs t = Some s → tidy separator s.
Proof.
  revert t. induction cs as [|c cs IH]; intros t Ht; [by intros [= <-]|].
  destruct t as [l n b ts]. cbn [tree_find tsub]. apply tidy_unfold in Ht as [_ Hts].
  destruct (child_named c ts) as [t|] eqn:E; [|done].
  apply child_named_split in E as (ts1 & ts2 & -> & _).
  apply Forall_app in Hts as [_ [[_ Ht] _]%Forall_cons]. by apply IH.
Qed.

Lemma tree_modify_app f cs cs' t :
  tree_modify f (cs ++ cs') t = tree_modify (tree_modify f cs') cs t.
Proof.
  revert t. induction cs as [|c cs IH]; intros t; [done|]. cbn.
  destruct t as [l n b ts]. cbn. f_equal. induction ts as [|t ts IHts]; [done|].
  cbn. rewrite IH. case_bool_decide; [done|]. by f_equal.
Qed.
End tree_facts.
