(* ===== verification/VfsSpec.v ===== *)
(** * VfsSpec: the contract of the virtual file system

    Each theorem is about a tree whose heap satisfies [wf], the invariant the
    constructor establishes and the operations keep. *)

From S2P Require Import Prelude Text Vfs VfsTree VfsAdd VfsDelete VfsPaths.

Section contract.
Context `{BoostSplitLaws}.
Variables (separator : ascii) (owner : str).
Abbreviation comps_of := (get_components separator).
Abbreviation join := (join_path separator).
Abbreviation plain := (plain separator).
Abbreviation wf := (wf separator).

(** What [Get] lists: the canonical paths of the nodes of the requested kind. *)
Lemma Get_listed v t ty :
  wf v t → tname t = [separator] →
  ∃ ps, Get separator v ty = Ok ps
    ∧ ∀ p, p ∈ ps ↔
        ∃ cs s, cs ≠ [] ∧ tree_find cs t = Some s ∧ treports ty s = true ∧ p = join cs.
Proof.
  intros [Hr Ht] Hroot. eexists. split; [by apply Get_tree|].
  intros p. rewrite Hroot. unfold get_children. rewrite elem_of_concat_rev.
  destruct t as [l n b ts]. cbn [tsub]. apply tidy_unfold in Ht as [Hnd Hts].
  rewrite Forall_forall in Hts. split.
  - intros (t' & Ht' & Hp).
    apply tree_paths_elem in Hp as (cs & s & Hs & Hre & ->);
      [|by eapply tidy_distinct, Hts].
    exists (tname t' :: cs), s. cbn [tree_find tsub].
    rewrite child_named_distinct by done. by split_and!.
  - intros ([|c cs] & s & Hcs & Hs & Hre & ->); [done|]. cbn [tree_find tsub] in Hs.
    destruct (child_named c ts) as [t'|] eqn:E; [|done].
    pose proof (child_named_tname _ _ _ E) as <-.
    apply child_named_split in E as (ts1 & ts2 & -> & _).
    assert (t' ∈ ts1 ++ t' :: ts2) as Hin by (rewrite elem_of_app; right; by left).
    exists t'. split; [done|]. apply tree_paths_elem; [by eapply tidy_distinct, Hts|].
    by exists cs, s.
Qed.

(** C36. [Get] lists a node once per canonical path and [Find] reads every listed
    path back: the listed paths are exactly the canonical paths of the nodes of the
    requested kind, and splitting a listed path leads to that node. *)
Theorem Get_Find v t ty :
  wf v t → tname t = [separator] →
  ∃ ps, Get separator v ty = Ok ps
    ∧ (∀ p c, p ∈ ps → join (comps_of p) = p ∧
         ∃ s, tree_find (comps_of p) t = Some s ∧ treports ty s = true
              ∧ Find separator v p c = Ok (true, tcached s))
    ∧ (∀ cs s, cs ≠ [] → tree_find cs t = Some s → treports ty s = true →
         join cs ∈ ps).
Proof.
  intros Hwf Hroot. destruct (Get_listed v t ty Hwf Hroot) as (ps & E & Hel).
  destruct Hwf as [Hr Ht]. exists ps. split; [done|]. split.
  - intros p c (cs & s & Hcs & Hs & Hre & ->)%Hel.
    pose proof (tidy_find_plain _ _ _ _ Ht Hs) as Hp.
    rewrite (Find_tree _ _ _ _ _ Hr), get_components_join by done.
    split; [done|]. exists s. split_and!; [done..|].
    destruct cs; [done|]. by rewrite Hs.
  - intros cs s Hcs Hs Hre. apply Hel. by exists cs, s.
Qed.

(** C22. [Remove] succeeds exactly on the paths [Find] finds; then that entry and
    everything below it are gone, every other path is found as before with the same
    flag, and the heap again satisfies the invariant: no node leaks and none is
    freed twice. *)
Theorem Remove_Find v t Path :
  wf v t → comps_of Path ≠ [] →
  ∃ r es v', Remove separator owner Path v = Ok (r, es, v')
    ∧ (∃ t', wf v' t')
    ∧ (∀ c, fst <$> Find separator v Path c = Ok r)
    ∧ ∀ Q c, Find separator v' Q c =
             if r && bool_decide (comps_of Path `prefix_of` comps_of Q)
             then Ok (false, c) else Find separator v Q c.
Proof.
  intros [Hr Ht] Hne.
  destruct (list_snoc_cases (comps_of Path)) as [?|(cs & c & Ep)]; [done|].
  pose proof (Remove_tree separator owner v t Path cs c Hr Ep) as HT.
  destruct (tree_find (cs ++ [c]) t) as [s|] eqn:Hs.
  - destruct HT as (v' & E & Hr'). exists true, (del_effects separator owner false cs s), v'.
    split_and!; [done|exact (wf_Remove separator owner v t Path true _ v' (conj Hr Ht) E)| |].
    + intros b. by rewrite (Find_tree_ne _ _ _ _ _ Hr Hne), Ep, Hs.
    + intros Q b. rewrite (Find_tree _ _ _ _ _ Hr), (Find_tree _ _ _ _ _ Hr').
      cbn [andb].
      pose proof (tree_find_remove cs c (comps_of Q) t s (tidy_distinct _ _ Ht) Hs) as Hf.
      rewrite Ep. destruct (comps_of Q) as [|q qs].
      { rewrite bool_decide_eq_false_2; [done|].
        intros ?%prefix_nil_inv. by destruct cs. }
      destruct (tree_find (q :: qs) (tree_remove cs c t)), (tree_find (q :: qs) t);
        case_bool_decide; cbn [fmap option_fmap option_map] in Hf; congruence.
  - exists false, [], v. split_and!; [done|by exists t| |done].
    intros b. by rewrite (Find_tree_ne _ _ _ _ _ Hr Hne), Ep, Hs.
Qed.

(** Removing a path removes from the local disk exactly the cached copies of the
    entries at or below it, each under the name the server stored it by: the owner's
    nickname followed by the canonical path of the entry. *)
Theorem Remove_local_copies v t Path r es v' :
  wf v t → Remove separator owner Path v = Ok (r, es, v') →
  ∀ e, e ∈ es ↔ ∃ ds s, comps_of Path ≠ [] ∧ tree_find (comps_of Path ++ ds) t = Some s
    ∧ tcached s = true ∧ e = FsRemove (owner ++ join (comps_of Path ++ ds)).
Proof.
  intros [Hr Ht] HR e.
  destruct (list_snoc_cases (comps_of Path)) as [Ep|(cs & c & Ep)].
  { unfold Remove in HR. rewrite (do_find_node_repr _ _ _ _ Hr), Ep in HR.
    cbn in HR. simplify_eq. rewrite elem_of_nil, Ep. naive_solver. }
  pose proof (Remove_tree separator owner v t Path cs c Hr Ep) as HT. rewrite Ep.
  destruct (tree_find (cs ++ [c]) t) as [s|] eqn:Hs.
  - destruct HT as (v'' & E & _). rewrite E in HR. simplify_eq.
    rewrite del_effects_elem by (eapply distinct_names_find; [by eapply tidy_distinct|done]).
    assert (tname s = c) as ->.
    { rewrite tree_find_app in Hs. apply bind_Some in Hs as (P & _ & Hc). cbn in Hc.
      destruct (child_named c (tsub P)) eqn:E'; [|done]. injection Hc as ->.
      by eapply child_named_tname. }
    setoid_rewrite (tree_find_app (cs ++ [c])). rewrite Hs. cbn.
    split; intros (ds & s' & Hd); exists ds, s'; rewrite <- ?app_assoc in *; cbn in *;
      naive_solver (by destruct cs).
  - rewrite HT in HR. simplify_eq. rewrite elem_of_nil. split; [done|].
    intros (ds & s & _ & Hs' & _). by rewrite tree_find_app, Hs in Hs'.
Qed.

(** [SetCached] answers like [Find]; afterwards the entry has the new flag and
    every other path is found as before. *)
Theorem SetCached_Find v t Path b :
  wf v t →
  ∃ r v', SetCached separator Path b v = Ok (r, v')
    ∧ (∀ c, fst <$> Find separator v Path c = Ok r)
    ∧ ∀ Q c, Find separator v' Q c =
             if r && bool_decide (comps_of Q = comps_of Path)
             then Ok (true, b) else Find separator v Q c.
Proof.
  intros [Hr Ht]. pose proof (SetCached_tree separator v t Path b Hr) as HT.
  pose proof (λ c, Find_tree separator v t Path c Hr) as HF.
  destruct (comps_of Path) as [|p ps] eqn:Ep; cbv zeta in *.
  { exists false, v. split_and!; [done| |done]. intros c. by rewrite HF. }
  destruct (tree_find (p :: ps) t) as [s|] eqn:Hs.
  - destruct HT as (v' & E & Hr'). exists true, v'. split_and!; [done| |].
    + intros c. by rewrite HF.
    + intros Q c. rewrite (Find_tree _ _ _ _ _ Hr'), (Find_tree _ _ _ _ _ Hr). cbn [andb].
      destruct (comps_of Q) as [|q qs]; [done|].
      assert (∀ s, tname ((λ '(TNode l n _ ts), TNode l n b ts) s) = tname s) as Hn
        by by intros [].
      case_bool_decide as Eq.
      * rewrite Eq. unfold tree_set_cached.
        rewrite (tree_find_modify_same _ _ _ _ Hs (Hn s)). by destruct s.
      * pose proof (tree_find_modify_other (λ '(TNode l n _ ts), TNode l n b ts)
                      (p :: ps) (q :: qs) t s Hs (Hn s) ltac:(by destruct s) Eq) as Hf.
        unfold tree_set_cached.
        destruct (tree_find (q :: qs) (tree_modify _ _ _)), (tree_find (q :: qs) t);
          cbn [fmap option_fmap option_map] in Hf; congruence.
  - exists false, v. split_and!; [done| |done]. intros c. by rewrite HF.
Qed.
End contract.

(** ** Renaming *)

Section renaming.
Context `{BoostSplitLaws}.
Variables (separator : ascii) (owner : str) (relative_append : str → str → str).
Abbreviation comps_of := (get_components separator).
Abbreviation join := (join_path separator).
Abbreviation wf := (wf separator).

Lemma until_separator_no_sep r : separator ∉ until_separator separator r.
Proof.
  induction r as [|c r IH]; cbn; [apply not_elem_of_nil|].
  case_bool_decide; [apply not_elem_of_nil|]. by apply not_elem_of_cons.
Qed.

Lemma filename_plain NewPath :
  filename separator NewPath ≠ [] → plain separator (filename separator NewPath).
Proof.
  intros Hn. split; [done|]. unfold filename.
  rewrite list_elem_of_In, <- in_rev, <- list_elem_of_In. apply until_separator_no_sep.
Qed.

(** Renaming the child [a] of a tidy node keeps it tidy exactly when no other
    child has the new name. *)
Lemma tidy_rename_child a b n l c s ts1 ts2 :
  plain separator b → tname s = a → tidy separator (TNode l n c (ts1 ++ s :: ts2)) →
  tidy separator
    (TNode l n c (ts1 ++ (λ '(TNode l _ c ts), TNode l b c ts) s :: ts2)) ↔
  b ∉ map tname (ts1 ++ ts2).
Proof.
  intros Hb <-. rewrite !tidy_unfold, !map_app. cbn [map].
  assert (tname ((λ '(TNode l _ c ts), TNode l b c ts) s) = b) as -> by by destruct s.
  intros [Hnd Hts]. apply Forall_app in Hts as [H1 [[Hp Ht] H2]%Forall_cons].
  rewrite <- !(Permutation_middle (map tname ts1)), !NoDup_cons in *.
  destruct Hnd as [_ Hnd]. split; [by intros [[? _] _]|].
  intros Hnin. split; [done|]. apply Forall_app. split; [done|].
  constructor; [|done]. split; destruct s; [done|].
  by rewrite tidy_unfold in *.
Qed.

(** C37. [Rename] of a found path with a usable new name succeeds and gives that node
    the new name, in place and with its subtree; the result satisfies the invariant
    of the tree exactly when no sibling already has the new name - the code does not
    check, and then leaves two entries with one path. *)
Theorem Rename_refines v t Path NewPath cs a P s :
  wf v t → comps_of Path = cs ++ [a] → tree_find cs t = Some P →
  child_named a (tsub P) = Some s → filename separator NewPath ≠ [] →
  let OldLocalPath := owner ++ join (cs ++ [a]) in
  ∃ v' t',
    Rename separator owner relative_append Path NewPath v
    = Ok (true,
          (if tcached s
           then [FsRename OldLocalPath
                   (relative_append OldLocalPath (filename separator NewPath))]
           else []), v')
    ∧ repr v' t' ∧ t' = tree_rename (filename separator NewPath) (cs ++ [a]) t
    ∧ (wf v' t' ↔
       ∀ s', s' ∈ tsub P → tname s' = filename separator NewPath → s' = s).
Proof.
  intros [Hr Ht] Ep HP Ha Hn OldLocalPath.
  assert (tree_find (cs ++ [a]) t = Some s) as Hs.
  { rewrite tree_find_app, HP. cbn. by rewrite Ha. }
  assert (comps_of Path ≠ []) as Hne by (rewrite Ep; by destruct cs).
  pose proof (Rename_tree separator owner relative_append v t Path NewPath Hr Hne) as HT.
  rewrite Ep, Hs, bool_decide_eq_false_2 in HT by done.
  destruct HT as (v' & E & Hr'). cbv zeta in E.
  exists v'. eexists. split_and!; [exact E|exact Hr'|done|].
  set (b := filename separator NewPath) in *.
  pose proof (filename_plain NewPath Hn) as Hb.
  destruct P as [l n c ts]. cbn [tsub] in *.
  pose proof (child_named_tname _ _ _ Ha) as Hsn.
  pose proof (child_named_split _ _ _ Ha) as (ts1 & ts2 & -> & _ & Hall).
  set (f := λ '(TNode l _ c ts), TNode l b c ts).
  assert (tree_modify f [a] (TNode l n c (ts1 ++ s :: ts2))
          = TNode l n c (ts1 ++ f s :: ts2)) as Hmod.
  { cbn. by rewrite update_child_app. }
  assert (tidy separator (TNode l n c (ts1 ++ s :: ts2))) as HtP.
  { by eapply tidy_find. }
  transitivity (tidy separator (TNode l n c (ts1 ++ f s :: ts2))).
  - unfold tree_rename. fold f. rewrite tree_modify_app. split.
    + intros [_ Ht']. rewrite <- Hmod. eapply tidy_find; [exact Ht'|].
      apply (tree_find_modify_same _ _ _ _ HP). by rewrite Hmod.
    + intros HtP'. split; [unfold tree_rename in Hr'; fold f in Hr';
        by rewrite tree_modify_app in Hr'|].
      eapply tidy_modify; [exact Ht|exact HP|by rewrite Hmod|].
      intros _. by rewrite Hmod.
  - pose proof (tidy_rename_child a b n l c s ts1 ts2 Hb Hsn HtP) as Hiff.
    fold f in Hiff. rewrite Hiff.
    apply tidy_unfold in HtP as [Hnd _]. split.
    + intros Hnin s' [Hs'|[->|Hs']%elem_of_cons]%elem_of_app Es'; [|done|];
        destruct Hnin; rewrite map_app, elem_of_app, <- Es';
        [left|right]; by apply list_elem_of_fmap_2.
    + intros Hu Hin. rewrite map_app in Hnd. cbn in Hnd.
      rewrite <- (Permutation_middle (map tname ts1)), NoDup_cons, <- map_app in Hnd.
      destruct Hnd as [Hnin _].
      apply list_elem_of_fmap in Hin as (s' & Es' & Hs').
      assert (s' = s) as ->; [|apply Hnin; by apply list_elem_of_fmap_2].
      apply Hu; [|done]. rewrite elem_of_app in *. rewrite elem_of_cons. tauto.
Qed.
End renaming.

(** ** Cached files and renaming *)

Section cached_renaming.
Context `{BoostSplitLaws}.
Variables (separator : ascii) (owner : str) (relative_append : str → str → str).
(** [path::append] on relative paths: the operands joined by one separator. *)
Hypothesis relative_append_joins : ∀ p f, ∃ c, relative_append p f = p ++ [c] ++ f.
Abbreviation comps_of := (get_components separator).
Abbreviation join := (join_path separator).

(** Renaming a cached entry moves its local copy to a path below the old one,
    which is not the path the tree computes for the entry from then on: a later
    removal does not find the copy. *)
Theorem Rename_cached_copy v t Path NewPath cs a s :
  wf separator v t → comps_of Path = cs ++ [a] → tree_find (cs ++ [a]) t = Some s →
  tcached s = true → filename separator NewPath ≠ [] →
  ∃ v' NewLocalPath,
    Rename separator owner relative_append Path NewPath v
    = Ok (true, [FsRename (owner ++ join (cs ++ [a])) NewLocalPath], v')
    ∧ NewLocalPath ≠ owner ++ join (cs ++ [filename separator NewPath])
    ∧ ∀ nd', heap v' !! tloc s = Some nd' → tidy separator
        (tree_rename (filename separator NewPath) (cs ++ [a]) t) →
        LocalPathToMe separator owner (heap v') nd' []
        = Ok (owner ++ join (cs ++ [filename separator NewPath])).
Proof.
  intros [Hr Ht] Ep Hs Hc Hn.
  assert (comps_of Path ≠ []) as Hne by (rewrite Ep; by destruct cs).
  pose proof (Rename_tree separator owner relative_append v t Path NewPath Hr Hne) as HT.
  rewrite Ep, Hs, bool_decide_eq_false_2, Hc in HT by done.
  destruct HT as (v' & E & Hr'). cbv zeta in E.
  exists v'. eexists. split_and!; [exact E| |].
  - destruct (relative_append_joins (owner ++ join (cs ++ [a])) (filename separator NewPath))
      as [x ->].
    intros Heq%(f_equal length). rewrite !join_path_app in Heq.
    unfold join_path in Heq. cbn in Heq. rewrite !length_app in Heq. cbn in Heq.
    rewrite !length_app in Heq. cbn in Heq. lia.
  - intros nd' Hnd' Ht'. set (b := filename separator NewPath) in *.
    rewrite tree_find_app in Hs. apply bind_Some in Hs as (P & HP & Ha). cbn in Ha.
    destruct (child_named a (tsub P)) as [s1|] eqn:Ea; [|done]. injection Ha as ->.
    set (f := λ '(TNode l _ c ts), TNode l b c ts).
    assert (tree_find (cs ++ [b]) (tree_rename b (cs ++ [a]) t) = Some (f s)) as Hf.
    { unfold tree_rename in *. fold f in Ht' |- *. rewrite tree_modify_app in *.
      assert (tree_find cs (tree_modify (tree_modify f [a]) cs t)
              = Some (tree_modify f [a] P)) as HP'.
      { apply tree_find_modify_same; [done|]. by destruct P. }
      rewrite tree_find_app, HP'. cbn [mbind option_bind tree_find].
      pose proof (tidy_find _ _ _ _ Ht' HP') as HtP. destruct P as [l n c ts].
      cbn [tree_modify with_sub tsub] in *.
      apply child_named_split in Ea as (ts1 & ts2 & -> & Hn' & Hall).
      rewrite update_child_app in * by done. apply tidy_unfold in HtP as [Hnd _].
      assert (tname (f s) = b) as Hfb by by destruct s.
      rewrite <- Hfb at 1. rewrite child_named_distinct; [done|done|].
      rewrite elem_of_app. right. by left. }
    assert (tloc (f s) = tloc s) as Hl by by destruct s.
    rewrite <- Hl in Hnd'. by eapply LocalPathToMe_find.
Qed.
End cached_renaming.

(** ** Every sequence of requests *)

Section safety.
Context `{BoostSplitLaws}.
Variables (separator : ascii) (owner : str) (relative_append : str → str → str).

Inductive request :=
  | RAdd (Path : str)
  | RRemove (Path : str)
  | RRename (Path NewPath : str)
  | RSetCached (Path : str) (Cached : bool).

Definition perform (r : request) (v : vfs) : outcome vfs :=
  match r with
  | RAdd Path => Add separator Path v
  | RRemove Path => snd <$> Remove separator owner Path v
  | RRename Path NewPath => snd <$> Rename separator owner relative_append Path NewPath v
  | RSetCached Path Cached => snd <$> SetCached separator Path Cached v
  end.

Inductive reachable (Root : str) : vfs → Prop :=
  | reachable_new : reachable Root (new_vfs Root)
  | reachable_step v v' r : reachable Root v → perform r v = Ok v' → reachable Root v'.

(** One request on a represented tree. *)
Lemma perform_repr v t r :
  repr v t →
  match perform r v with
  | Ok v' => ∃ t', repr v' t'
  | Fault f => f = UndefinedBehaviour
               ∧ ∃ Path, r = RAdd Path ∧ add_ok (get_components separator Path) t = false
  end.
Proof.
  intros Hr. destruct r as [Path|Path|Path NewPath|Path b]; cbn [perform].
  - pose proof (Add_spec separator v t Path Hr) as HA.
    destruct (add_ok _ t) eqn:E.
    + destruct HA as (v' & -> & Hr'). eauto.
    + rewrite HA. eauto.
  - destruct (list_snoc_cases (get_components separator Path)) as [Ep|(cs & c & Ep)].
    { unfold Remove. rewrite (do_find_node_repr _ _ _ _ Hr), Ep. cbn. eauto. }
    pose proof (Remove_tree separator owner v t Path cs c Hr Ep) as HT.
    destruct (tree_find (cs ++ [c]) t); [destruct HT as (v' & -> & Hr')|rewrite HT];
      cbn; eauto.
  - destruct (decide (get_components separator Path = [])) as [Ep|Ep].
    { unfold Rename. rewrite (do_find_node_repr _ _ _ _ Hr), Ep. cbn. eauto. }
    pose proof (Rename_tree separator owner relative_append v t Path NewPath Hr Ep) as HT.
    destruct (tree_find _ t); [case_bool_decide|]; [rewrite HT| |rewrite HT]; cbn; eauto.
    destruct HT as (v' & E & Hr'). cbv zeta in E. rewrite E. cbn. eauto.
  - pose proof (SetCached_tree separator v t Path b Hr) as HT.
    destruct (get_components separator Path) as [|p ps]; [rewrite HT; cbn; eauto|].
    cbv zeta in HT. destruct (tree_find (p :: ps) t);
      [destruct HT as (v' & -> & Hr')|rewrite HT]; cbn; eauto.
Qed.

Lemma reachable_repr Root v : reachable Root v → ∃ t, repr v t.
Proof.
  induction 1 as [|v v' r Hv [t Hr] Hp]; [eexists; apply new_vfs_repr|].
  pose proof (perform_repr v t r Hr) as HP. by rewrite Hp in HP.
Qed.

(** The destructor of a represented tree completes. *)
Lemma delete_vfs_repr v t : repr v t → ∃ es, delete_vfs separator owner v = Ok es.
Proof.
  intros Hr. unfold delete_vfs. rewrite (repr_root _ _ Hr).
  destruct (delete_Node_spec separator owner t (S (size (heap v))) (heap v) None [] [])
    as (h' & -> & _); try done; [|apply Hr|apply Hr|constructor| |by eexists].
  - rewrite (repr_size _ _ Hr). lia.
  - by intros k ?%not_elem_of_nil.
Qed.

(** C5. In every state a client's tree can reach, no request dereferences a dead
    node, runs out of fuel, throws or fails an assertion, with one exception: an
    [Add] may read the path component it has already popped.  [Find], [Get],
    [Empty] and the destructor of the tree always complete. *)
Theorem requests_memory_safe Root v r :
  reachable Root v →
  match perform r v with
  | Ok v' => reachable Root v'
  | Fault f => f = UndefinedBehaviour ∧ ∃ Path, r = RAdd Path
  end
  ∧ (∀ Path c, is_ok (Find separator v Path c) = true)
  ∧ (∀ ty, is_ok (Get separator v ty) = true)
  ∧ is_ok (Empty v) = true
  ∧ is_ok (delete_vfs separator owner v) = true.
Proof.
  intros Hv. destruct (reachable_repr _ _ Hv) as [t Hr]. split_and!.
  - pose proof (perform_repr v t r Hr) as HP. destruct (perform r v) as [v'|f] eqn:E.
    + by eapply reachable_step.
    + destruct HP as (-> & Path & -> & _). eauto.
  - intros Path c. by rewrite (Find_tree _ _ _ _ _ Hr).
  - intros ty. by rewrite (Get_tree _ _ _ ty Hr).
  - unfold Empty. rewrite (repr_root _ _ Hr).
    by rewrite (deref_Some _ _ _ (repr_at_lookup _ _ _ (repr_heap _ _ Hr))).
  - by destruct (delete_vfs_repr v t Hr) as [es ->].
Qed.
End safety.
