(* ===== verification/VfsEntries.v ===== *)
(** * VfsEntries: the entries of a tree as a set of paths

    What a client can know of another client's tree: which paths there are.  [Get] lists
    the leaves; their prefixes are all the entries of the tree ([file_entries]).  Each
    operation of the tree changes that set as its notification says ([added], [removed],
    [renamed]). *)

From S2P Require Import Prelude Text Vfs VfsTree VfsAdd VfsDelete VfsPaths VfsSpec.

(** A path by its components. *)
Abbreviation path := (list str).

(** The prefixes of a path, without the empty one. *)
Fixpoint inits (cs : path) : list path :=
  match cs with [] => [] | c :: cs => [c] :: map (cons c) (inits cs) end.

Lemma elem_of_inits q cs : q ∈ inits cs ↔ q ≠ [] ∧ q `prefix_of` cs.
Proof.
  revert q. induction cs as [|c cs IH]; intros q; cbn [inits].
  { rewrite elem_of_nil. split; [done|]. by intros [? ?%prefix_nil_inv]. }
  rewrite elem_of_cons, list_elem_of_fmap. setoid_rewrite IH. split.
  - intros [->|(q' & -> & _ & Hq')]; (split; [done|]); apply prefix_cons; [apply prefix_nil|done].
  - intros [Hne Hq]. destruct q as [|c' q]; [done|].
    pose proof (prefix_cons_inv_1 _ _ _ _ Hq) as ->. apply prefix_cons_inv_2 in Hq.
    destruct q as [|c' q]; [by left|right]. by exists (c' :: q).
Qed.

(** A node under a new name: everything below it moves along. *)
Definition move (cs : path) (b : str) (q : path) : path :=
  if bool_decide (cs `prefix_of` q) then removelast cs ++ b :: drop (length cs) q else q.

Section entries.
Context `{BoostSplit}.
Variable separator : ascii.
Abbreviation comps_of := (get_components separator).

(** The entries a list of paths speaks of. *)
Definition entries (ps : list str) : gset path := list_to_set (ps ≫= λ p, inits (comps_of p)).

Definition added (Path : str) (X : gset path) : gset path := X ∪ list_to_set (inits (comps_of Path)).
Definition removed (Path : str) (X : gset path) : gset path :=
  filter (λ q, ¬ comps_of Path `prefix_of` q) X.
Definition renamed (Path NewPath : str) (X : gset path) : gset path :=
  set_map (move (comps_of Path) (filename separator NewPath)) X.

(** The entries of a tree, from what [Get] lists. *)
Definition file_entries (v : vfs) : gset path :=
  match Get separator v FILE with Ok ps => entries ps | Fault _ => ∅ end.

(** No node has two children of one name. *)
Definition distinct_siblings (v : vfs) : bool :=
  forallb (λ e, bool_decide (NoDup (map (λ l, MyName_ <$> heap v !! l) (MyChildrens_ e.2))))
    (map_to_list (heap v)).

Lemma elem_of_entries ps q :
  q ∈ entries ps ↔ ∃ p, p ∈ ps ∧ q ≠ [] ∧ q `prefix_of` comps_of p.
Proof.
  unfold entries. rewrite elem_of_list_to_set, list_elem_of_bind. setoid_rewrite elem_of_inits. naive_solver.
Qed.

Lemma distinct_siblings_repr v t :
  repr v t → distinct_siblings v = true → distinct_names t.
Proof.
  intros Hr Hd. unfold distinct_siblings in Hd. rewrite forallb_forall in Hd.
  assert (∀ t p, repr_at (heap v) p t → distinct_names t) as Hall;
    [|by eapply Hall, repr_heap].
  clear t Hr. induction t as [l n c ts IH] using tree_ind'. intros p [Hl Hts]%repr_at_unfold.
  apply distinct_names_unfold. split.
  - specialize (Hd (l, mkNode n (map tloc ts) p c)).
    rewrite <- list_elem_of_In, elem_of_map_to_list in Hd. specialize (Hd Hl).
    apply bool_decide_eq_true in Hd. cbn [snd MyChildrens_] in Hd.
    assert (map (λ l, MyName_ <$> heap v !! l) (map tloc ts) = Some <$> map tname ts) as E.
    { clear -Hts. induction Hts as [|t ts Ht Hts IH]; [done|]. cbn.
      rewrite (repr_at_lookup _ _ _ Ht). cbn. by f_equal. }
    rewrite E in Hd. by apply NoDup_fmap_1 in Hd.
  - rewrite Forall_forall in *. intros t Ht. eapply IH; [done|by apply Hts].
Qed.

(** Below every node there is a leaf. *)
Lemma leaf_below t : ∃ cs s, tree_find cs t = Some s ∧ tsub s = [].
Proof.
  induction t as [l n c ts IH] using tree_ind'. destruct ts as [|t ts].
  { by exists [], (TNode l n c []). }
  apply Forall_cons in IH as [(cs & s & Hs & Hl) _]. exists (tname t :: cs), s.
  cbn [tree_find tsub child_named]. by rewrite bool_decide_eq_true_2.
Qed.
End entries.

(** ** Renaming *)

(** Among nodes with distinct names, the nodes that paths lead to. *)
Lemma find_among ts c q :
  NoDup (map tname ts) →
  is_Some (child_named c ts ≫= tree_find q)
  ↔ ∃ t, t ∈ ts ∧ tname t = c ∧ is_Some (tree_find q t).
Proof.
  intros Hd. split.
  - destruct (child_named c ts) as [t|] eqn:E; [|by intros [? [=]]]. intros Hq. exists t.
    pose proof (child_named_tname _ _ _ E) as Hn.
    apply child_named_split in E as (ts1 & ts2 & -> & _). split; [|done].
    rewrite elem_of_app. right. left.
  - intros (t & Ht & <- & Hq). by rewrite child_named_distinct.
Qed.

Lemma tree_find_cons c q l n b ts :
  tree_find (c :: q) (TNode l n b ts) = child_named c ts ≫= tree_find q.
Proof. cbn. by destruct (child_named c ts). Qed.

Definition rename_node (b : str) : tree → tree := λ '(TNode l _ c ts), TNode l b c ts.

Lemma find_renamed_node b q t : is_Some (tree_find q (rename_node b t)) ↔ is_Some (tree_find q t).
Proof. destruct t as [l n c ts]. by destruct q. Qed.

Lemma move_nil cs b : cs ≠ [] → move cs b [] = [].
Proof. intros Hcs. unfold move. rewrite bool_decide_eq_false_2; [done|]. by intros ?%prefix_nil_inv. Qed.

Lemma move_other c cs b c' q : c ≠ c' → move (c :: cs) b (c' :: q) = c' :: q.
Proof.
  intros Hne. unfold move. rewrite bool_decide_eq_false_2; [done|]. by intros ?%prefix_cons_inv_1.
Qed.

Lemma move_one a b q : move [a] b (a :: q) = b :: q.
Proof.
  unfold move. rewrite bool_decide_eq_true_2 by (apply prefix_cons, prefix_nil). done.
Qed.

Lemma move_cons c cs b q : cs ≠ [] → move (c :: cs) b (c :: q) = c :: move cs b q.
Proof.
  intros Hcs. unfold move. rewrite prefix_cons_bool, bool_decide_eq_true_2 by done. cbn [andb].
  case_bool_decide; [|done]. cbn [removelast drop length]. by destruct cs.
Qed.

(** A renamed node, in a list of nodes with distinct names. *)
Lemma find_in_context (f : tree → tree) ts1 t ts2 c q :
  NoDup (map tname (ts1 ++ t :: ts2)) → NoDup (map tname (ts1 ++ f t :: ts2)) →
  is_Some (child_named c (ts1 ++ f t :: ts2) ≫= tree_find q)
  ↔ tname (f t) = c ∧ is_Some (tree_find q (f t))
    ∨ c ≠ tname t ∧ is_Some (child_named c (ts1 ++ t :: ts2) ≫= tree_find q).
Proof.
  intros Hd Hd'. rewrite !find_among by done.
  assert (∀ x, x ∈ ts1 ++ ts2 → tname x ≠ tname t) as Hne.
  { intros x Hx E. rewrite map_app in Hd. cbn in Hd.
    rewrite <- (Permutation_middle (map tname ts1)), NoDup_cons, <- map_app in Hd.
    destruct Hd as [Hn _]. apply Hn. rewrite <- E. by apply list_elem_of_fmap_2. }
  setoid_rewrite elem_of_app. setoid_rewrite elem_of_cons. setoid_rewrite elem_of_app in Hne.
  naive_solver.
Qed.

(** The paths of a tree after a renaming that leaves siblings with distinct names. *)
Lemma find_rename b cs a t s q :
  distinct_names t → distinct_names (tree_modify (rename_node b) (cs ++ [a]) t) →
  tree_find (cs ++ [a]) t = Some s →
  is_Some (tree_find q (tree_modify (rename_node b) (cs ++ [a]) t))
  ↔ ∃ q0, is_Some (tree_find q0 t) ∧ q = move (cs ++ [a]) b q0.
Proof.
  revert t q. induction cs as [|c' cs IH]; intros [l n k ts] q; cbn [app].
  - cbn [tree_modify with_sub]. intros [Hd _]%distinct_names_unfold [Hd' _]%distinct_names_unfold.
    rewrite tree_find_cons. destruct (child_named a ts) as [t|] eqn:E; [|done]. intros _.
    apply child_named_split in E as (ts1 & ts2 & -> & Ha & Hall).
    rewrite update_child_app in * by done. destruct q as [|c q].
    { split; [|by eexists]. intros _. exists []. split; [by eexists|]. by rewrite move_nil. }
    rewrite tree_find_cons, find_in_context by done.
    assert (tname (rename_node b t) = b) as -> by by destruct t. rewrite find_renamed_node.
    split.
    + intros [[<- Hq]|[Hc Hq]].
      * exists (a :: q). rewrite tree_find_cons, child_named_app by done. by rewrite move_one.
      * exists (c :: q). rewrite tree_find_cons, move_other by congruence. done.
    + intros ([|c0 q0] & Hq0 & E); [by rewrite move_nil in E|]. rewrite tree_find_cons in Hq0.
      destruct (decide (a = c0)) as [<-|Hne].
      * rewrite move_one in E. injection E as -> ->. left. split; [done|].
        by rewrite child_named_app in Hq0.
      * rewrite move_other in E by done. injection E as -> ->. right. split; [congruence|done].
  - intros Hd0 Hd0' Hs. cbn [tree_modify with_sub] in *.
    pose proof Hd0 as [Hd Hds]%distinct_names_unfold. pose proof Hd0' as [Hd' Hds']%distinct_names_unfold.
    rewrite tree_find_cons in Hs. destruct (child_named c' ts) as [t|] eqn:E; [|done].
    apply child_named_split in E as (ts1 & ts2 & -> & Hc' & Hall).
    rewrite update_child_app in * by done. cbn [mbind option_bind] in Hs.
    assert (distinct_names t) as Hdt by (by apply Forall_app in Hds as [_ [? _]%Forall_cons]).
    assert (distinct_names (tree_modify (rename_node b) (cs ++ [a]) t)) as Hdt'
      by (by apply Forall_app in Hds' as [_ [? _]%Forall_cons]).
    assert (tname (tree_modify (rename_node b) (cs ++ [a]) t) = c') as Hn.
    { destruct t as [l' n' k' ts']. destruct cs; by cbn. }
    assert (cs ++ [a] ≠ []) as Hne by by destruct cs.
    destruct q as [|c q].
    { split; [|by eexists]. intros _. exists []. split; [by eexists|]. by rewrite move_nil. }
    rewrite tree_find_cons, find_in_context, Hn, (IH t q Hdt Hdt' Hs) by done. split.
    + intros [[<- (q0 & Hq0 & ->)]|[Hc Hq]].
      * exists (c' :: q0). rewrite tree_find_cons, child_named_app by done. by rewrite move_cons.
      * exists (c :: q). rewrite tree_find_cons, move_other by congruence. done.
    + intros ([|c0 q0] & Hq0 & E); [by rewrite move_nil in E|]. rewrite tree_find_cons in Hq0.
      destruct (decide (c' = c0)) as [<-|Hnc].
      * rewrite move_cons in E by done. injection E as -> ->. left. split; [done|].
        exists q0. split; [|done]. by rewrite child_named_app in Hq0.
      * rewrite move_other in E by done. injection E as -> ->. right. split; [congruence|done].
Qed.

(** Tidy is: names are distinct, and plain. *)
Section plain_names.
Variable separator : ascii.

Fixpoint plain_names (t : tree) : Prop :=
  let 'TNode _ _ _ ts := t in
  foldr (λ t P, (plain separator (tname t) ∧ plain_names t) ∧ P) True ts.

Lemma plain_names_unfold l n c ts :
  plain_names (TNode l n c ts) ↔ Forall (λ t, plain separator (tname t) ∧ plain_names t) ts.
Proof. cbn. by rewrite foldr_Forall. Qed.

Lemma tidy_alt t : tidy separator t ↔ distinct_names t ∧ plain_names t.
Proof.
  induction t as [l n c ts IH] using tree_ind'.
  rewrite tidy_unfold, distinct_names_unfold, plain_names_unfold. rewrite !Forall_forall in *.
  naive_solver.
Qed.

Lemma plain_names_rename b cs t :
  plain separator b → plain_names t → plain_names (tree_modify (rename_node b) cs t).
Proof.
  intros Hb. revert t. induction cs as [|c cs IH]; intros [l n k ts]; [done|].
  cbn [tree_modify with_sub]. rewrite !plain_names_unfold. intros Hts.
  destruct (child_named c ts) as [t|] eqn:E.
  - apply child_named_split in E as (ts1 & ts2 & -> & Hn & Hall). rewrite update_child_app by done.
    apply Forall_app in Hts as [H1 [[Hp Ht] H2]%Forall_cons]. apply Forall_app. split; [done|].
    constructor; [|done]. split; [|by apply IH]. destruct t as [l' n' k' ts']. by destruct cs.
  - assert (update_child c (tree_modify (rename_node b) cs) ts = ts) as ->; [|done].
    apply child_named_None in E. clear -E. induction E as [|t ts Ht Hts IHt]; cbn; [done|].
    rewrite bool_decide_eq_false_2 by done. by f_equal.
Qed.
End plain_names.

Section operations.
Context `{BoostSplitLaws}.
Variables (separator : ascii) (owner : str).
Abbreviation comps_of := (get_components separator).

(** [v] is a tidy tree with the root of the protocol. *)
Definition listed (v : vfs) (t : tree) : Prop := wf separator v t ∧ tname t = [separator].

Lemma elem_of_file_entries v t q :
  listed v t → q ∈ file_entries separator v ↔ q ≠ [] ∧ is_Some (tree_find q t).
Proof.
  intros [Hwf Hroot]. destruct (Get_listed separator v t FILE Hwf Hroot) as (ps & E & Hel).
  unfold file_entries. rewrite E, elem_of_entries. destruct Hwf as [Hr Ht]. split.
  - intros (p & (cs & s & Hcs & Hs & _ & ->)%Hel & Hq & Hpre). split; [done|].
    rewrite get_components_join in Hpre by (by eapply tidy_find_plain).
    destruct Hpre as [k ->]. rewrite tree_find_app in Hs.
    destruct (tree_find q t); [by eexists|done].
  - intros [Hq [s Hs]]. destruct (leaf_below s) as (cs & s' & Hs' & Hl).
    assert (tree_find (q ++ cs) t = Some s') as Hf by (by rewrite tree_find_app, Hs).
    exists (join_path separator (q ++ cs)). split.
    + apply Hel. exists (q ++ cs), s'. split_and!; [by destruct q|done| |done].
      cbn. by rewrite Hl.
    + rewrite get_components_join by (by eapply tidy_find_plain). split; [done|].
      by apply prefix_app_r.
Qed.

Lemma file_entries_same v v' t t' :
  listed v t → listed v' t' → (∀ q, is_Some (tree_find q t') ↔ is_Some (tree_find q t)) →
  file_entries separator v' = file_entries separator v.
Proof.
  intros Hl Hl' Hq. apply set_eq. intros q.
  by rewrite (elem_of_file_entries v t), (elem_of_file_entries v' t'), Hq.
Qed.

Lemma is_Some_flag (o o' : option tree) : tcached <$> o = tcached <$> o' → is_Some o ↔ is_Some o'.
Proof. intros E. by rewrite <- !(fmap_is_Some tcached), E. Qed.

Lemma Add_entries v t Path v' :
  listed v t → Add separator Path v = Ok v' →
  (∃ t', listed v' t') ∧ file_entries separator v' = added separator Path (file_entries separator v).
Proof.
  intros Hl E. pose proof Hl as [Hwf Hroot]. pose proof (wf_Add separator v t Path v' Hwf E) as Hwf'.
  assert (listed v' (tree_add (next_ v) (comps_of Path) t)) as Hl'
    by (split; [done|by rewrite tree_add_tname]).
  split; [by eexists|]. apply set_eq. intros q. unfold added.
  rewrite elem_of_union, elem_of_list_to_set, elem_of_inits.
  rewrite (elem_of_file_entries v t), (elem_of_file_entries v') by done.
  pose proof (tree_find_add (next_ v) (comps_of Path) q t) as Hf.
  destruct (tree_find q (tree_add _ _ _)), (tree_find q t);
    try case_bool_decide; cbn [fmap option_fmap option_map] in Hf; try done;
    rewrite ?is_Some_alt; naive_solver.
Qed.

Lemma Remove_entries v t Path r es v' :
  listed v t → Vfs.Remove separator owner Path v = Ok (r, es, v') →
  (∃ t', listed v' t') ∧ file_entries separator v'
    = (if r then removed separator Path (file_entries separator v) else file_entries separator v)
  ∧ (r = false → v' = v).
Proof.
  intros Hl E. pose proof Hl as [[Hr Ht] Hroot].
  destruct (list_snoc_cases (comps_of Path)) as [Ep|(cs & c & Ep)].
  { unfold Vfs.Remove in E. rewrite (do_find_node_repr _ _ _ _ Hr), Ep in E.
    cbn in E. simplify_eq. split; [by exists t|done]. }
  pose proof (Remove_tree separator owner v t Path cs c Hr Ep) as HT.
  destruct (tree_find (cs ++ [c]) t) as [s|] eqn:Hs;
    [|rewrite HT in E; simplify_eq; split; [by exists t|done]].
  destruct HT as (v1 & E1 & Hr'). rewrite E in E1. simplify_eq.
  assert (∃ P, tree_find cs t = Some P) as [P HP].
  { rewrite tree_find_app in Hs. destruct (tree_find cs t); [by eexists|done]. }
  assert (listed v1 (tree_remove cs c t)) as Hl'.
  { split; [split; [done|]|].
    - eapply tidy_modify; [done..|by destruct P|apply tidy_remove_child].
    - unfold tree_remove. by rewrite (tree_modify_tname _ _ _ P) by (done || by destruct P). }
  split; [by eexists|]. split; [|done]. apply set_eq. intros q. unfold removed.
  rewrite elem_of_filter, (elem_of_file_entries v t), (elem_of_file_entries v1 _ _ Hl') by done.
  pose proof (tree_find_remove cs c q t s (tidy_distinct _ _ Ht) Hs) as Hf. rewrite Ep.
  case_bool_decide; [|apply is_Some_flag in Hf; tauto].
  destruct (tree_find q (tree_remove cs c t)); [done|]. rewrite is_Some_alt. tauto.
Qed.
Lemma Rename_entries relative_append v t Path NewPath r es v' :
  listed v t → Rename separator owner relative_append Path NewPath v = Ok (r, es, v') →
  distinct_siblings v' = true →
  (∃ t', listed v' t') ∧ file_entries separator v'
    = (if r then renamed separator Path NewPath (file_entries separator v)
       else file_entries separator v)
  ∧ (r = false → v' = v).
Proof.
  intros Hl E Hd. pose proof Hl as [[Hr Ht] Hroot].
  destruct (list_snoc_cases (comps_of Path)) as [Ep|(cs & c & Ep)].
  { unfold Rename in E. rewrite (do_find_node_repr _ _ _ _ Hr), Ep in E.
    cbn in E. simplify_eq. split; [by exists t|done]. }
  pose proof (Rename_tree separator owner relative_append v t Path NewPath Hr) as HT.
  rewrite Ep in HT. specialize (HT ltac:(by destruct cs)).
  destruct (tree_find (cs ++ [c]) t) as [s|] eqn:Hs;
    [|rewrite HT in E; simplify_eq; split; [by exists t|done]].
  case_bool_decide as Hn; [rewrite HT in E; simplify_eq; split; [by exists t|done]|].
  destruct HT as (v1 & E1 & Hr'). cbv zeta in E1. rewrite E in E1. simplify_eq.
  set (b := filename separator NewPath) in *.
  change (repr v1 (tree_modify (rename_node b) (cs ++ [c]) t)) in Hr'.
  pose proof (distinct_siblings_repr v1 _ Hr' Hd) as Hdt'.
  apply tidy_alt in Ht as [Hdt Hpt].
  assert (listed v1 (tree_modify (rename_node b) (cs ++ [c]) t)) as Hl'.
  { split; [split; [done|]|].
    - apply tidy_alt. split; [done|]. apply plain_names_rename; [|done].
      by apply filename_plain.
    - destruct t. by destruct cs. }
  split; [by eexists|]. split; [|done]. apply set_eq. intros q. unfold renamed.
  rewrite elem_of_map, Ep, (elem_of_file_entries v1 _ _ Hl').
  setoid_rewrite (elem_of_file_entries v t _ Hl). rewrite (find_rename b cs c t s q Hdt Hdt' Hs).
  fold b. split.
  - intros [Hq (q0 & Hq0 & ->)]. exists q0. split_and!; [done| |done].
    intros ->. apply Hq. apply move_nil. by destruct cs.
  - intros (q0 & -> & Hne & Hq0). split; [|by exists q0].
    unfold move. case_bool_decide; [|done]. by destruct (removelast _).
Qed.

(** Removing and renaming complete. *)
Lemma Remove_completes v t Path : listed v t → is_ok (Vfs.Remove separator owner Path v) = true.
Proof.
  intros [[Hr _] _]. pose proof (perform_repr separator owner (λ s _, s) v t (RRemove Path) Hr) as HP.
  cbn [perform] in HP. destruct (Vfs.Remove _ _ _ _); [done|]. by destruct HP as (_ & ? & [=] & _).
Qed.

Lemma Rename_completes relative_append v t Path NewPath :
  listed v t → is_ok (Rename separator owner relative_append Path NewPath v) = true.
Proof.
  intros [[Hr _] _].
  pose proof (perform_repr separator owner relative_append v t (RRename Path NewPath) Hr) as HP.
  cbn [perform] in HP. destruct (Rename _ _ _ _ _ _); [done|]. by destruct HP as (_ & ? & [=] & _).
Qed.

Lemma new_listed Root : Root = [separator] → listed (new_vfs Root) (TNode 0 Root false []).
Proof. intros ->. split; [apply wf_new|done]. Qed.

Lemma new_entries Root : Root = [separator] → file_entries separator (new_vfs Root) = ∅.
Proof.
  intros HR. apply set_eq. intros q.
  rewrite (elem_of_file_entries _ _ _ (new_listed Root HR)), elem_of_empty. split; [|done].
  intros [Hq [s Hs]]. by destruct q.
Qed.
End operations.
