(* ===== verification/VfsExamples.v ===== *)
(** * VfsExamples: the contract of the virtual file system on a concrete tree

    The tree [/a/x], [/f] with [/a/x] cached, built by the operations themselves, is
    the input at which the theorems of [VfsAdd] and [VfsSpec] are applied. *)

From S2P Require Import Prelude Text Vfs VfsTree VfsAdd VfsDelete VfsPaths VfsSpec.

#[local] Existing Instance split_def_split.
#[local] Existing Instance split_def_laws.

Definition slash : ascii := ascii_of_N 47.
Definition sample_append (p f : str) : str := p ++ [ascii_of_N 92] ++ f.

Definition ok_or (v : vfs) (m : outcome vfs) : vfs :=
  match m with Ok v => v | Fault _ => v end.

Definition v0 : vfs := new_vfs (lit "/").
Definition v1 : vfs := ok_or v0 (Add slash (lit "/a/x") v0).
Definition v2 : vfs := ok_or v1 (Add slash (lit "f") v1).
Definition v3 : vfs := ok_or v2 (snd <$> SetCached slash (lit "/a/x") true v2).

Definition t0 : tree := TNode 0 (lit "/") false [].
Definition t1 : tree := tree_add (next_ v0) (get_components slash (lit "/a/x")) t0.
Definition t2 : tree := tree_add (next_ v1) (get_components slash (lit "f")) t1.
Definition t3 : tree := tree_set_cached true [lit "a"; lit "x"] t2.

Lemma wf_v2 : wf slash v2 t2.
Proof.
  apply (wf_Add slash v1 t1 (lit "f") v2); [|reflexivity].
  apply (wf_Add slash v0 t0 (lit "/a/x") v1); [|reflexivity].
  apply wf_new.
Qed.

Lemma wf_v3 : wf slash v3 t3.
Proof.
  destruct wf_v2 as [Hr Ht].
  pose proof (SetCached_tree slash v2 t2 (lit "/a/x") true Hr) as HT.
  change (get_components slash (lit "/a/x")) with [lit "a"; lit "x"] in HT.
  cbv zeta in HT. change (tree_find [lit "a"; lit "x"] t2) with
    (Some (TNode 2 (lit "x") false [])) in HT.
  destruct HT as (v' & E & Hr'). assert (v' = v3) as ->.
  { unfold v3. by rewrite E. }
  split; [exact Hr'|]. eapply tidy_modify; [exact Ht|reflexivity|done|].
  intros _. apply tidy_unfold. split; constructor.
Qed.

Lemma repr_v1 : repr v1 t1.
Proof.
  eapply (Add_Ok slash v0 t0 (lit "/a/x") v1); [|reflexivity]. apply new_vfs_repr.
Qed.

(** [/f] is not the last child of the root, and [/f/z] is not there. *)
Lemma Add_refines_witness :
  (∃ v', Add slash (lit "/b") v1 = Ok v' ∧ repr v' (tree_add 3 [lit "b"] t1))
  ∧ Add slash (lit "/a/x") v1 = Fault UndefinedBehaviour
  ∧ Find slash v2 (lit "/f/z") false = Ok (false, false)
  ∧ Add slash (lit "/f/z") v2 = Fault UndefinedBehaviour.
Proof.
  split; [|split; [|split]].
  - exact (proj1 (Add_refines slash v1 t1 (lit "/b") repr_v1)).
  - exact (proj1 (Add_refines slash v1 t1 (lit "/a/x") repr_v1)).
  - reflexivity.
  - apply (Add_refines slash v2 t2 (lit "/f/z") (proj1 wf_v2)).
    exists [], (lit "f"), [lit "z"], t2. vm_compute. do 2 eexists. split; [reflexivity|].
    split; [reflexivity|]. split; [reflexivity|]. right. discriminate.
Defined.

Lemma Add_Find_witness : Find slash v2 (lit "//f") true = Ok (true, false).
Proof.
  rewrite (Add_Find slash v1 t1 (lit "f") v2 (lit "//f") true repr_v1);
    [reflexivity|reflexivity|discriminate].
Defined.

Lemma Get_Find_witness :
  ∃ ps, Get slash v3 FILE = Ok ps ∧ lit "/a/x" ∈ ps
        ∧ Find slash v3 (lit "/a/x") false = Ok (true, true).
Proof.
  destruct (Get_Find slash v3 t3 FILE wf_v3 eq_refl) as (ps & E & Hs & Hc).
  exists ps. assert (lit "/a/x" ∈ ps) as Hin.
  { exact (Hc [lit "a"; lit "x"] (TNode 2 (lit "x") true []) ltac:(discriminate)
             eq_refl eq_refl). }
  split; [exact E|]. split; [exact Hin|].
  destruct (Hs _ false Hin) as (_ & s & Hf & _ & HF). rewrite HF.
  injection Hf as <-. reflexivity.
Defined.

Lemma comps_a : get_components slash (lit "/a") ≠ [].
Proof. vm_compute. discriminate. Qed.

Lemma found_a c : fst <$> Find slash v3 (lit "/a") c = Ok true.
Proof. destruct c; vm_compute; reflexivity. Qed.

Lemma found_f c : fst <$> Find slash v3 (lit "f") c = Ok true.
Proof. destruct c; vm_compute; reflexivity. Qed.

Lemma Remove_Find_witness :
  ∃ es v', Remove slash (lit "me") (lit "/a") v3 = Ok (true, es, v')
    ∧ Find slash v' (lit "/a/x") true = Ok (false, true)
    ∧ Find slash v' (lit "/f") true = Ok (true, false).
Proof.
  destruct (Remove_Find slash (lit "me") v3 t3 (lit "/a") wf_v3 comps_a)
    as (r & es & v' & E & _ & Hr & HF).
  specialize (Hr true). rewrite found_a in Hr. assert (r = true) as -> by congruence.
  exists es, v'. split; [exact E|].
  split; [rewrite (HF (lit "/a/x") true)|rewrite (HF (lit "/f") true)];
    vm_compute; reflexivity.
Defined.

Lemma removed_a : ∃ es v', Remove slash (lit "me") (lit "/a") v3 = Ok (true, es, v').
Proof. eexists _, _. vm_compute. reflexivity. Qed.

Lemma Remove_local_copies_witness :
  ∃ es v', Remove slash (lit "me") (lit "/a") v3 = Ok (true, es, v')
    ∧ FsRemove (lit "me/a/x") ∈ es.
Proof.
  destruct removed_a as (es & v' & E). exists es, v'. split; [exact E|].
  apply (Remove_local_copies slash (lit "me") v3 t3 (lit "/a") true es v' wf_v3 E).
  exists [lit "x"], (TNode 2 (lit "x") true []).
  split; [exact comps_a|]. repeat split; vm_compute; reflexivity.
Defined.

Lemma SetCached_Find_witness :
  ∃ v', SetCached slash (lit "f") true v3 = Ok (true, v')
    ∧ Find slash v' (lit "/f") false = Ok (true, true)
    ∧ Find slash v' (lit "/a") false = Ok (true, false).
Proof.
  destruct (SetCached_Find slash v3 t3 (lit "f") true wf_v3) as (r & v' & E & Hr & HF).
  specialize (Hr true). rewrite found_f in Hr. assert (r = true) as -> by congruence.
  exists v'. split; [exact E|].
  split; [rewrite (HF (lit "/f") false)|rewrite (HF (lit "/a") false)];
    vm_compute; reflexivity.
Defined.

(** Renaming [/f] to [a] leaves two entries [/a]: the tree is no longer tidy. *)
Lemma Rename_refines_witness :
  ∃ v' t', Rename slash (lit "me") sample_append (lit "/f") (lit "a") v3 = Ok (true, [], v')
    ∧ repr v' t' ∧ ¬ wf slash v' t'.
Proof.
  destruct (Rename_refines slash (lit "me") sample_append v3 t3 (lit "/f") (lit "a")
              [] (lit "f") t3 (TNode 3 (lit "f") false []) wf_v3)
    as (v' & t' & E & Hr & Ht & Hwf); [vm_compute; (reflexivity || discriminate)..|].
  exists v', t'. split; [exact E|]. split; [exact Hr|].
  intros Hw. pose proof (proj1 Hwf Hw (TNode 1 (lit "a") false [TNode 2 (lit "x") true []])) as Hu.
  enough (TNode 1 (lit "a") false [TNode 2 (lit "x") true []] = TNode 3 (lit "f") false [])
    by discriminate.
  apply Hu; [|reflexivity]. right. left.
Defined.

Lemma sample_append_joins p f : ∃ c, sample_append p f = p ++ [c] ++ f.
Proof. by exists (ascii_of_N 92). Qed.

Lemma Rename_cached_copy_witness :
  ∃ v' NewLocalPath,
    Rename slash (lit "me") sample_append (lit "/a/x") (lit "y") v3
    = Ok (true, [FsRename (lit "me/a/x") NewLocalPath], v')
    ∧ NewLocalPath ≠ lit "me/a/y".
Proof.
  destruct (Rename_cached_copy slash (lit "me") sample_append sample_append_joins
              v3 t3 (lit "/a/x") (lit "y") [lit "a"] (lit "x") (TNode 2 (lit "x") true [])
              wf_v3) as (v' & p & E & Hp & _); [vm_compute; (reflexivity || discriminate)..|].
  exists v', p. split; [exact E|exact Hp].
Defined.

Lemma requests_memory_safe_witness : is_ok (Get slash v1 GENERIC) = true.
Proof.
  apply (requests_memory_safe slash (lit "me") sample_append (lit "/") v1 (RAdd (lit "/b"))).
  eapply reachable_step with (r := RAdd (lit "/a/x")); [apply reachable_new|reflexivity].
Defined.
