(* ===== verification/VfsThreads.v ===== *)
(** * VfsThreads: the tree of [VirtualFileSystemTree.h] and its spin lock

    The pool threads work on the tree of one client at the same time.  Every public
    operation but one takes the spin lock around its whole body; [Get] takes it for each
    child of the root anew, and reads the list of children - its iterator - without it.

    Each thread has a program counter, and a step is one turn of the loop of
    [SpinLock::lock], the read of the tree by a critical section, its write, the release
    of the lock, or an access of the iterator.  [Vfs] has the bodies.  An iterator of the
    list is the child it stands at: it may be used while that child is in the list. *)

From S2P Require Import Prelude Text Vfs VfsTree VfsAdd VfsDelete VfsPaths VfsSpec VfsExamples.

(** ** [SpinLock] *)

(** [locked.test_and_set()]: the old value and the new one. *)
Definition test_and_set (locked : bool) : bool * bool := (locked, true).
(** [locked.clear()] *)
Definition unlock (locked : bool) : bool := false.

Section threads.
Context `{BoostSplit}.
Variables (separator : ascii) (owner : str) (relative_append : str → str → str).

(** ** The operations that hold the lock throughout *)

Inductive operation :=
  | Updates (r : request)
  | Finds (Path : str) (Cached : bool)
  | AsksEmpty.

(** What the caller sees: the result, the reference parameter, the effects on the disk. *)
Definition returned : Type := bool * bool * list fs_effect.

Definition body (o : operation) (v : vfs) : outcome (returned * vfs) :=
  match o with
  | Updates (RAdd Path) => v ← Add separator Path v; Ok (false, false, [], v)
  | Updates (RRemove Path) => '(b, es, v) ← Remove separator owner Path v; Ok (b, false, es, v)
  | Updates (RRename Path NewPath) =>
      '(b, es, v) ← Rename separator owner relative_append Path NewPath v; Ok (b, false, es, v)
  | Updates (RSetCached Path Cached) =>
      '(b, v) ← SetCached separator Path Cached v; Ok (b, false, [], v)
  | Finds Path Cached => '(b, c) ← Find separator v Path Cached; Ok (b, c, [], v)
  | AsksEmpty => b ← Empty v; Ok (b, false, [], v)
  end.

(** ** Threads *)

Inductive pc :=
  | Idle
  | Locking (o : operation)                 (* while (locked.test_and_set()) ; *)
  | Reading (o : operation)                 (* the body begins *)
  | Writing (o : operation) (v : vfs)       (* it works on what it has read *)
  | Unlocking
  | Begins (ty : PathType)                  (* Get *)
  | Listing (ty : PathType) (CurrentPath : str) (Paths : list str) (it : option loc)
  | LockingChild (ty : PathType) (CurrentPath : str) (Paths : list str) (Child : loc)
  | ListingChild (ty : PathType) (CurrentPath : str) (Paths : list str) (Child : loc)
  | UnlockingChild (ty : PathType) (CurrentPath : str) (Paths : list str) (Child : loc)
  | Advancing (ty : PathType) (CurrentPath : str) (Paths : list str) (Child : loc)
  | Listed (Paths : list str).

Record shared_tree := mkShared {
  tree_ : vfs;
  spin_lock_ : bool;
  pcs : list pc;
  history : list (operation * returned);      (* the bodies that have run *)
}.

Definition goes_on (i : nat) (p : pc) (s : shared_tree) : shared_tree :=
  mkShared (tree_ s) (spin_lock_ s) (<[i := p]> (pcs s)) (history s).
Definition with_lock (b : bool) (s : shared_tree) : shared_tree :=
  mkShared (tree_ s) b (pcs s) (history s).
Definition with_body (o : operation) (a : returned) (v : vfs) (s : shared_tree) : shared_tree :=
  mkShared v (spin_lock_ s) (pcs s) (history s ++ [(o, a)]).

(** One turn of [lock]. *)
Definition try_lock (i : nat) (p : pc) (s : shared_tree) : shared_tree :=
  let '(was_locked, locked) := test_and_set (spin_lock_ s) in
  if was_locked : bool then with_lock locked s else goes_on i p (with_lock locked s).

Definition release (i : nat) (p : pc) (s : shared_tree) : shared_tree :=
  goes_on i p (with_lock (unlock (spin_lock_ s)) s).

(** The list of the root's children. *)
Definition children (v : vfs) : outcome (list loc) :=
  root ← deref (heap v) (root_ v); Ok (MyChildrens_ root).

(** [*it], [++it] *)
Fixpoint following (c : loc) (cs : list loc) : outcome (option loc) :=
  match cs with
  | [] => Fault UndefinedBehaviour
  | x :: cs => if bool_decide (x = c) then Ok (head cs) else following c cs
  end.

Definition run_thread (i : nat) (p : pc) (s : shared_tree) : outcome shared_tree :=
  match p with
  | Idle | Listed _ => Ok (goes_on i Idle s)
  | Locking o => Ok (try_lock i (Reading o) s)
  | Reading o => Ok (goes_on i (Writing o (tree_ s)) s)
  | Writing o v => '(a, v) ← body o v; Ok (goes_on i Unlocking (with_body o a v s))
  | Unlocking => Ok (release i Idle s)
  | Begins ty =>
      root ← deref (heap (tree_ s)) (root_ (tree_ s));
      Ok (goes_on i (Listing ty (MyName_ root) [] (head (MyChildrens_ root))) s)
  | Listing ty CurrentPath Paths None => Ok (goes_on i (Listed Paths) s)
  | Listing ty CurrentPath Paths (Some c) =>
      cs ← children (tree_ s);
      if bool_decide (c ∈ cs) then Ok (goes_on i (LockingChild ty CurrentPath Paths c) s)
      else Fault UndefinedBehaviour
  | LockingChild ty CurrentPath Paths c =>
      Ok (try_lock i (ListingChild ty CurrentPath Paths c) s)
  | ListingChild ty CurrentPath Paths c =>
      let h := heap (tree_ s) in
      '(CurrentPath, Paths) ← do_get_paths separator (S (size h)) h ty c CurrentPath Paths;
      Ok (goes_on i (UnlockingChild ty CurrentPath Paths c) s)
  | UnlockingChild ty CurrentPath Paths c => Ok (release i (Advancing ty CurrentPath Paths c) s)
  | Advancing ty CurrentPath Paths c =>
      cs ← children (tree_ s); it ← following c cs;
      Ok (goes_on i (Listing ty CurrentPath Paths it) s)
  end.

(** A thread is given an operation, or makes a step. *)
Inductive thread_event :=
  | Calls (i : nat) (o : operation)
  | CallsGet (i : nat) (ty : PathType)
  | Steps (i : nat).

Definition begin_call (i : nat) (p : pc) (s : shared_tree) : option (outcome shared_tree) :=
  match pcs s !! i with Some Idle => Some (Ok (goes_on i p s)) | _ => None end.

Definition thread_step (e : thread_event) (s : shared_tree) : option (outcome shared_tree) :=
  match e with
  | Calls i o => begin_call i (Locking o) s
  | CallsGet i ty => begin_call i (Begins ty) s
  | Steps i => match pcs s !! i with Some p => Some (run_thread i p s) | None => None end
  end.

Definition new_shared (Root : str) (n : nat) : shared_tree :=
  mkShared (new_vfs Root) false (replicate n Idle) [].

Inductive thread_reach (Root : str) (n : nat) : list thread_event → shared_tree → Prop :=
  | threads_new : thread_reach Root n [] (new_shared Root n)
  | threads_next es s e s' :
      thread_reach Root n es s → thread_step e s = Some (Ok s') →
      thread_reach Root n (es ++ [e]) s'.

(** ** What holds in every state *)

(** The threads that are between [lock] and [unlock]. *)
Definition holds (p : pc) : bool :=
  match p with
  | Reading _ | Writing _ _ | Unlocking | ListingChild _ _ _ _ | UnlockingChild _ _ _ _ => true
  | _ => false
  end.
Definition holder s i : Prop := ∃ p, pcs s !! i = Some p ∧ holds p = true.

(** The bodies that have run, one after the other, with the answers they gave. *)
Fixpoint replay (os : list (operation * returned)) (v : vfs) : option vfs :=
  match os with
  | [] => Some v
  | (o, a) :: os =>
      match body o v with
      | Ok (a', v) => if bool_decide (a' = a) then replay os v else None
      | Fault _ => None
      end
  end.

Lemma replay_app os os' v : replay (os ++ os') v = replay os v ≫= replay os'.
Proof.
  revert v. induction os as [|[o a] os IH]; intros v; [done|]. cbn.
  destruct (body o v) as [[a' v']|]; [|done]. by case_bool_decide.
Qed.

(** [perform] is [body] without what is returned. *)
Lemma body_perform r v :
  snd <$> body (Updates r) v = perform separator owner relative_append r v.
Proof.
  destruct r as [Path|Path|Path NewPath|Path c]; cbn [body perform].
  - by destruct (Add separator Path v).
  - by destruct (Remove separator owner Path v) as [[[b es] v']|].
  - by destruct (Rename separator owner relative_append Path NewPath v) as [[[b es] v']|].
  - by destruct (SetCached separator Path c v) as [[b v']|].
Qed.
End threads.

(** ** Lemmas about one step *)

Section steps.
Context `{BoostSplitLaws}.
Variables (separator : ascii) (owner : str) (relative_append : str → str → str).
Abbreviation body := (body separator owner relative_append).
Abbreviation replay := (replay separator owner relative_append).
Implicit Types (s : shared_tree) (p : pc) (v : vfs) (t : tree).

Lemma body_repr v t o :
  repr v t →
  match body o v with
  | Ok (_, v') => ∃ t', repr v' t'
  | Fault f => f = UndefinedBehaviour ∧ ∃ Path, o = Updates (RAdd Path)
  end.
Proof.
  intros Hr. destruct o as [r|Path c|].
  - pose proof (perform_repr separator owner relative_append v t r Hr) as HP.
    rewrite <- body_perform in HP. destruct (body (Updates r) v) as [[a v']|f]; [done|].
    destruct HP as (-> & Path & -> & _). eauto.
  - unfold VfsThreads.body. rewrite (Find_tree _ _ _ _ _ Hr).
    match goal with |- context [mbind _ (Ok ?r)] => destruct r as [b c'] end. cbn. eauto.
  - cbn. unfold Empty. rewrite (repr_root _ _ Hr).
    rewrite (deref_Some _ _ _ (repr_at_lookup _ _ _ (repr_heap _ _ Hr))). cbn. eauto.
Qed.

(** Who holds the lock: the flag is set exactly while somebody does. *)
Definition owned (h : option nat) s : Prop :=
  spin_lock_ s = bool_decide (is_Some h) ∧ ∀ i, holder s i ↔ h = Some i.

Lemma holder_goes_on s i p p0 b j :
  pcs s !! i = Some p0 →
  holder (goes_on i p (with_lock b s)) j ↔ if bool_decide (j = i) then holds p = true else holder s j.
Proof.
  intros Hi. pose proof (lookup_lt_Some _ _ _ Hi) as Hlt. unfold holder. cbn. case_bool_decide as E.
  - subst j. rewrite list_lookup_insert_eq by done. naive_solver.
  - by rewrite list_lookup_insert_ne.
Qed.

Lemma owned_same h s i p p0 :
  pcs s !! i = Some p0 → holds p = holds p0 → owned h s → owned h (goes_on i p s).
Proof.
  intros Hi Hp [Hl Ho]. split; [done|]. intros j.
  change (goes_on i p s) with (goes_on i p (with_lock (spin_lock_ s) s)).
  rewrite (holder_goes_on _ _ _ _ _ _ Hi), <- Ho. destruct (bool_decide_reflect (j = i)) as [->|E]; [|done].
  rewrite Hp. unfold holder. rewrite Hi. naive_solver.
Qed.

Lemma owned_locks h s i p p0 :
  pcs s !! i = Some p0 → holds p = true → owned h s → spin_lock_ s = false →
  owned (Some i) (goes_on i p (with_lock true s)).
Proof.
  intros Hi Hp [Hl Ho] Hs. split; [done|]. intros j. rewrite (holder_goes_on _ _ _ _ _ _ Hi).
  rewrite Hs in Hl. symmetry in Hl. apply bool_decide_eq_false in Hl.
  destruct (bool_decide_reflect (j = i)) as [->|E]; [naive_solver|]. rewrite Ho. split; [|congruence].
  intros ->. by destruct Hl.
Qed.

Lemma owned_releases h s i p p0 :
  pcs s !! i = Some p0 → holds p0 = true → holds p = false → owned h s →
  owned None (goes_on i p (with_lock false s)).
Proof.
  intros Hi Hp0 Hp [Hl Ho]. split; [done|]. intros j. rewrite (holder_goes_on _ _ _ _ _ _ Hi).
  assert (h = Some i) as -> by (apply Ho; by exists p0).
  destruct (bool_decide_reflect (j = i)) as [->|E]; [by rewrite Hp|].
  rewrite Ho. split; congruence.
Qed.

(** A node that is alive can be listed. *)
Lemma live_subtree h q t c :
  repr_at h q t → c ∈ locs t →
  ∃ q' u, repr_at h q' u ∧ tloc u = c ∧ (length (locs u) ≤ length (locs t))%nat.
Proof.
  revert q. induction t as [l n b ts IH] using tree_ind'. intros q Hr Hc.
  pose proof Hr as [_ Hts]%repr_at_unfold. apply locs_node in Hc as [->|(t' & Ht' & Hc)].
  { by exists q, (TNode l n b ts). }
  rewrite Forall_forall in *. destruct (IH t' Ht' _ (Hts _ Ht') Hc) as (q' & u & Hr' & E & Hle).
  exists q', u. split_and!; [done..|]. etrans; [exact Hle|]. cbn [locs length].
  apply list_elem_of_split in Ht' as (ts1 & ts2 & ->).
  rewrite flat_map_app. cbn. rewrite !length_app. lia.
Qed.

Lemma listing_live v t ty c CurrentPath Paths :
  repr v t →
  match heap v !! c with
  | Some _ => ∃ r, do_get_paths separator (S (size (heap v))) (heap v) ty c CurrentPath Paths = Ok r
  | None => do_get_paths separator (S (size (heap v))) (heap v) ty c CurrentPath Paths
            = Fault UndefinedBehaviour
  end.
Proof.
  intros Hr. destruct (heap v !! c) as [nd|] eqn:E.
  - destruct (live_subtree _ _ _ c (repr_heap _ _ Hr)) as (q & u & Hr' & <- & Hle).
    { apply (repr_dom _ _ Hr). by rewrite E. }
    eexists. eapply do_get_paths_spec; [done|]. rewrite (repr_size _ _ Hr). lia.
  - cbn. unfold deref. by rewrite E.
Qed.

Lemma children_repr v t : repr v t → children v = Ok (map tloc (tsub t)).
Proof.
  intros Hr. unfold children. rewrite (repr_root _ _ Hr).
  by rewrite (deref_Some _ _ _ (repr_at_lookup _ _ _ (repr_heap _ _ Hr))).
Qed.

Lemma following_cases c cs :
  if bool_decide (c ∈ cs)
  then ∃ it, following c cs = Ok it ∧ ∀ c', it = Some c' → c' ∈ cs
  else following c cs = Fault UndefinedBehaviour.
Proof.
  induction cs as [|x cs IH]; cbn [following]; [done|].
  destruct (bool_decide_reflect (c ∈ x :: cs)) as [Hin|Hin].
  - destruct (decide (x = c)) as [->|Hne].
    + rewrite bool_decide_eq_true_2 by done. eexists. split; [done|].
      destruct cs as [|y cs]; [done|]. intros c' [= ->]. right. left.
    + rewrite bool_decide_eq_false_2 by done.
      rewrite bool_decide_eq_true_2 in IH by (apply elem_of_cons in Hin; naive_solver).
      destruct IH as (it & -> & Hit). eexists. split; [done|]. intros c' E. right. by apply Hit.
  - apply not_elem_of_cons in Hin as [Hne Hin]. rewrite bool_decide_eq_false_2 by done.
    by rewrite bool_decide_eq_false_2 in IH.
Qed.

(** ** The invariant *)

Record threads_ok (Root : str) s : Prop := {
  tk_owner : ∃ h, owned h s;
  tk_read : ∀ i o v, pcs s !! i = Some (Writing o v) → v = tree_ s;
  tk_replay : replay (history s) (new_vfs Root) = Some (tree_ s);
  tk_tree : ∃ t, repr (tree_ s) t;
}.

Lemma new_shared_ok Root n : threads_ok Root (new_shared Root n).
Proof.
  split; cbn; [|intros i o v [? _]%lookup_replicate; done|done|eexists; apply new_vfs_repr].
  exists None. split; [done|]. intros i. split; [|done].
  intros (p & [-> _]%lookup_replicate & Hp). done.
Qed.

(** A thread goes on without writing the tree. *)
Lemma ok_moves Root s i p p0 b :
  threads_ok Root s → pcs s !! i = Some p0 →
  (∃ h, owned h (goes_on i p (with_lock b s))) →
  (∀ o v, p = Writing o v → v = tree_ s) →
  threads_ok Root (goes_on i p (with_lock b s)).
Proof.
  intros [Ho Hr Hp Ht] Hi Ho' Hw. split; [done| |done..]. cbn. intros j o v.
  intros [(<- & E & _)|[_ E]]%list_lookup_insert_Some; [by apply Hw with o|by eapply Hr].
Qed.

Lemma ok_goes_on Root s i p p0 :
  threads_ok Root s → pcs s !! i = Some p0 → holds p = holds p0 →
  (∀ o v, p = Writing o v → v = tree_ s) → threads_ok Root (goes_on i p s).
Proof.
  intros Hok Hi Hp Hw. destruct (tk_owner _ _ Hok) as [h Ho].
  change (goes_on i p s) with (goes_on i p (with_lock (spin_lock_ s) s)).
  eapply ok_moves; [done..| |done]. exists h. by eapply owned_same.
Qed.

Lemma ok_try_lock Root s i p p0 :
  threads_ok Root s → pcs s !! i = Some p0 → holds p = true →
  (∀ o v, p ≠ Writing o v) → threads_ok Root (try_lock i p s).
Proof.
  intros Hok Hi Hp Hw. destruct (tk_owner _ _ Hok) as [h Ho]. unfold try_lock. cbn.
  destruct (spin_lock_ s) eqn:El.
  - destruct s as [v b ps os]. cbn in El. subst b. exact Hok.
  - eapply ok_moves; [done..| |intros o v ->; by destruct (Hw o v)].
    exists (Some i). by eapply owned_locks.
Qed.

Lemma ok_release Root s i p p0 :
  threads_ok Root s → pcs s !! i = Some p0 → holds p0 = true → holds p = false →
  threads_ok Root (release i p s).
Proof.
  intros Hok Hi Hp0 Hp. destruct (tk_owner _ _ Hok) as [h Ho]. unfold release, unlock.
  eapply ok_moves; [done..| |by intros o v ->]. exists None. by eapply owned_releases.
Qed.

(** Nobody else can be working on the tree when a body writes it. *)
Lemma ok_writes Root s i o v a v' :
  threads_ok Root s → pcs s !! i = Some (Writing o v) → body o v = Ok (a, v') →
  threads_ok Root (goes_on i Unlocking (with_body o a v' s)).
Proof.
  intros [[h Ho] Hr Hp [t Ht]] Hi E. pose proof (Hr _ _ _ Hi) as ->. split.
  - exists h. pose proof (owned_same h s i Unlocking _ Hi eq_refl Ho) as [Hl Hh]. by split.
  - cbn. intros j o' w [(_ & ? & _)|[Hne Hj]]%list_lookup_insert_Some; [done|].
    destruct Ho as [_ Ho]. destruct Hne.
    assert (h = Some i) as -> by (apply Ho; by eexists).
    assert (Some i = Some j) as [= ->] by (apply Ho; by eexists). done.
  - cbn. rewrite replay_app, Hp. cbn. rewrite E. by rewrite bool_decide_eq_true_2.
  - pose proof (body_repr _ _ o Ht) as HB. by rewrite E in HB.
Qed.

Lemma run_thread_ok Root s i p s' :
  threads_ok Root s → pcs s !! i = Some p →
  run_thread separator owner relative_append i p s = Ok s' → threads_ok Root s'.
Proof.
  intros Hok Hi.
  destruct p as [|o|o|o v| |ty|ty CP Ps [c|]|ty CP Ps c|ty CP Ps c|ty CP Ps c|ty CP Ps c|Ps];
    cbn [run_thread].
  - intros [= <-]. by eapply ok_goes_on.
  - intros [= <-]. by eapply ok_try_lock.
  - intros [= <-]. eapply ok_goes_on; [done..|]. by intros ?? [= _ <-].
  - destruct (body o v) as [[a v']|] eqn:E; [|done]. intros [= <-]. by eapply ok_writes.
  - intros [= <-]. by eapply ok_release.
  - destruct (deref _ _) as [root|]; [|done]. intros [= <-]. by eapply ok_goes_on.
  - destruct (children _) as [cs|]; [|done]. cbn [mbind outcome_bind].
    case_bool_decide; [|done]. intros [= <-]. by eapply ok_goes_on.
  - intros [= <-]. by eapply ok_goes_on.
  - intros [= <-]. by eapply ok_try_lock.
  - destruct (do_get_paths _ _ _ _ _ _ _) as [[CP' Ps']|]; [|done]. intros [= <-]. by eapply ok_goes_on.
  - intros [= <-]. by eapply ok_release.
  - destruct (children _) as [cs|]; [|done]. cbn [mbind outcome_bind].
    destruct (following c cs) as [it|]; [|done]. intros [= <-]. by eapply ok_goes_on.
  - intros [= <-]. by eapply ok_goes_on.
Qed.

Lemma begin_call_ok Root s i p s' :
  threads_ok Root s → holds p = false → begin_call i p s = Some (Ok s') → threads_ok Root s'.
Proof.
  intros Hok Hp. unfold begin_call. destruct (pcs s !! i) as [[]|] eqn:Hi; try done.
  intros [= <-]. eapply ok_goes_on; [done..|]. by intros o v ->.
Qed.

Lemma thread_reach_ok Root n es s :
  thread_reach separator owner relative_append Root n es s → threads_ok Root s.
Proof.
  induction 1 as [|es s e s' _ IH E]; [apply new_shared_ok|].
  destruct e as [i o|i ty|i]; cbn [thread_step] in E; [by eapply begin_call_ok; [exact IH| |exact E]..|].
  destruct (pcs s !! i) as [p|] eqn:Hi; [|done]. injection E as E. by eapply run_thread_ok.
Qed.

(** A thread that does not wait for the lock changes the state, or faults. *)
Lemma goes_on_moves s s0 i p q :
  pcs s !! i = Some p → pcs s0 = pcs s → q ≠ p → goes_on i q s0 ≠ s.
Proof.
  intros Hi E Hq Es. destruct Hq. assert (pcs s !! i = Some q) as Hi'; [|congruence].
  rewrite <- Es at 1. cbn. rewrite E. apply list_lookup_insert_eq. by eapply lookup_lt_Some.
Qed.

Lemma run_thread_moves s i p :
  pcs s !! i = Some p → p ≠ Idle → spin_lock_ s = false ∨ holds p = true →
  run_thread separator owner relative_append i p s ≠ Ok s.
Proof.
  intros Hi Hne Hl.
  assert (∀ s0 q, pcs s0 = pcs s → q ≠ p → Ok (goes_on i q s0) ≠ Ok s) as Hm.
  { intros s0 q E Hq [= Es]. by eapply goes_on_moves. }
  destruct p as [|o|o|o v| |ty|ty CP Ps [c|]|ty CP Ps c|ty CP Ps c|ty CP Ps c|ty CP Ps c|Ps];
    cbn [run_thread]; try done; try by apply Hm.
  - destruct Hl as [Hl|?]; [|done]. unfold try_lock. cbn. rewrite Hl. by apply Hm.
  - destruct (body o v) as [[a v']|]; [|done]. by apply Hm.
  - destruct (deref _ _) as [root|]; [|done]. by apply Hm.
  - destruct (children _) as [cs|]; [|done]. cbn [mbind outcome_bind].
    case_bool_decide; [|done]. by apply Hm.
  - destruct Hl as [Hl|?]; [|done]. unfold try_lock. cbn. rewrite Hl. by apply Hm.
  - destruct (do_get_paths _ _ _ _ _ _ _) as [[CP' Ps']|]; [|done]. by apply Hm.
  - destruct (children _) as [cs|]; [|done]. cbn [mbind outcome_bind].
    destruct (following c cs) as [it|]; [|done]. by apply Hm.
Qed.

(** ** Iterators *)

(** The iterator of the thread stands at a child that is no longer in the list, or the
    thread is about to list a child that was deleted. *)
Definition stale (i : nat) s : bool :=
  match pcs s !! i, children (tree_ s) with
  | Some (Listing _ _ _ (Some c)), Ok cs | Some (Advancing _ _ _ c), Ok cs =>
      negb (bool_decide (c ∈ cs))
  | Some (ListingChild _ _ _ c), _ => negb (bool_decide (is_Some (heap (tree_ s) !! c)))
  | _, _ => false
  end.

(** How the next step of a thread ends the program. *)
Definition thread_fault (i : nat) s : option fault :=
  if stale i s then Some UndefinedBehaviour
  else
    match pcs s !! i with
    | Some (Writing (Updates (RAdd Path)) v) =>
        if add_undefined separator Path v then Some UndefinedBehaviour else None
    | _ => None
    end.

Lemma run_thread_faults Root s i p :
  threads_ok Root s → pcs s !! i = Some p →
  match run_thread separator owner relative_append i p s with
  | Ok _ => thread_fault i s = None
  | Fault f => thread_fault i s = Some f
  end.
Proof.
  intros [_ Hr _ [t Ht]] Hi. unfold thread_fault, stale. rewrite Hi, (children_repr _ _ Ht).
  destruct p as [|o|o|o v| |ty|ty CP Ps [c|]|ty CP Ps c|ty CP Ps c|ty CP Ps c|ty CP Ps c|Ps];
    cbn [run_thread]; try done.
  - pose proof (Hr _ _ _ Hi) as ->. pose proof (body_repr _ _ o Ht) as HB.
    destruct o as [[Path|Path|Path N|Path b]|Path b|]; cbn [VfsThreads.body].
    1: { pose proof (Add_cases separator _ _ Path Ht) as HA. unfold VfsThreads.body.
         destruct (add_undefined separator Path (tree_ s)); [by rewrite HA|].
         by destruct HA as (v' & -> & _). }
    all: destruct (body _ _) as [[a v']|f] eqn:E;
      [|by destruct HB as (_ & ? & [=])]; unfold VfsThreads.body in E; by rewrite E.
  - by rewrite (repr_root _ _ Ht),
      (deref_Some _ _ _ (repr_at_lookup _ _ _ (repr_heap _ _ Ht))).
  - rewrite (children_repr _ _ Ht). cbn [mbind outcome_bind]. by case_bool_decide.
  - pose proof (listing_live _ _ ty c CP Ps Ht) as HL.
    destruct (heap (tree_ s) !! c) as [nd|].
    + by destruct HL as [[CP' Ps'] ->].
    + by rewrite HL.
  - rewrite (children_repr _ _ Ht). cbn [mbind outcome_bind].
    pose proof (following_cases c (map tloc (tsub t))) as HF. case_bool_decide.
    + by destruct HF as (it & -> & _).
    + by rewrite HF.
Qed.

(** *** Without removals no iterator gets stale *)

Definition removes (o : operation) : bool :=
  match o with Updates (RRemove _) => true | _ => false end.

Definition doing (p : pc) : option operation :=
  match p with Locking o | Reading o | Writing o _ => Some o | _ => None end.
Definition at_child (p : pc) : option loc :=
  match p with
  | Listing _ _ _ it => it
  | LockingChild _ _ _ c | ListingChild _ _ _ c | UnlockingChild _ _ _ c | Advancing _ _ _ c =>
      Some c
  | _ => None
  end.

Definition pc_ok (cs : list loc) (p : pc) : Prop :=
  (∀ o, doing p = Some o → removes o = false) ∧ ∀ c, at_child p = Some c → c ∈ cs.

Definition listing_ok s : Prop :=
  ∃ cs, children (tree_ s) = Ok cs ∧ Forall (pc_ok cs) (pcs s).

Lemma update_child_tlocs c f ts :
  (∀ t, tloc (f t) = tloc t) → map tloc (update_child c f ts) = map tloc ts.
Proof. intros Hf. induction ts as [|t ts IH]; [done|]. cbn. case_bool_decide; cbn; congruence. Qed.

Lemma tree_modify_children f cs t :
  (∀ t, tloc (f t) = tloc t) → (∀ t, tsub (f t) = tsub t) →
  map tloc (tsub (tree_modify f cs t)) = map tloc (tsub t).
Proof.
  intros Hf Hs. destruct cs as [|c cs], t; cbn; [by rewrite Hs|].
  apply update_child_tlocs. intros t. destruct cs as [|c' cs], t; [apply Hf|done].
Qed.

Lemma tree_add_children next cs t : map tloc (tsub t) ⊆ map tloc (tsub (tree_add next cs t)).
Proof.
  destruct cs as [|c cs], t as [l n b ts]; cbn [tree_add]; [done|]. cbn [tsub].
  destruct (child_named c ts); cbn [with_sub tsub].
  - rewrite update_child_tlocs; [done|]. intros. apply tree_add_tloc.
  - intros x Hx. by right.
Qed.

Lemma perform_children r v t v' :
  repr v t → removes (Updates r) = false →
  perform separator owner relative_append r v = Ok v' →
  ∃ cs cs', children v = Ok cs ∧ children v' = Ok cs' ∧ cs ⊆ cs'.
Proof.
  intros Hr Hn. rewrite (children_repr _ _ Hr).
  enough (perform separator owner relative_append r v = Ok v' →
    v' = v ∨ ∃ t', repr v' t' ∧ map tloc (tsub t) ⊆ map tloc (tsub t')) as Hx.
  { intros [->|(t' & Hr' & Hs)]%Hx; [rewrite (children_repr _ _ Hr)|rewrite (children_repr _ _ Hr')]; eauto. }
  destruct r as [Path|Path|Path NewPath|Path b]; cbn [perform]; [|done| |].
  - intros [_ Hr']%(Add_Ok _ _ _ _ _ Hr). right. eexists. split; [exact Hr'|apply tree_add_children].
  - destruct (decide (get_components separator Path = [])) as [Ep|Ep].
    { unfold Rename. rewrite (do_find_node_repr _ _ _ _ Hr), Ep. cbn. intros [= <-]. by left. }
    pose proof (Rename_tree separator owner relative_append v t Path NewPath Hr Ep) as HT.
    destruct (tree_find _ t); [case_bool_decide|]; [rewrite HT; intros [= <-]; by left| |rewrite HT; intros [= <-]; by left].
    destruct HT as (w & E & Hr'). cbv zeta in E. rewrite E. cbn. intros [= <-]. right.
    eexists. split; [exact Hr'|]. unfold tree_rename. rewrite tree_modify_children; [done|by intros []..].
  - pose proof (SetCached_tree separator v t Path b Hr) as HT.
    destruct (get_components separator Path) as [|p ps]; [rewrite HT; intros [= <-]; by left|].
    cbv zeta in HT. destruct (tree_find (p :: ps) t); [|rewrite HT; intros [= <-]; by left].
    destruct HT as (w & -> & Hr'). cbn. intros [= <-]. right.
    eexists. split; [exact Hr'|]. unfold tree_set_cached.
    rewrite tree_modify_children; [done|by intros []..].
Qed.

Lemma body_children o v t a v' :
  repr v t → removes o = false → body o v = Ok (a, v') →
  ∃ cs cs', children v = Ok cs ∧ children v' = Ok cs' ∧ cs ⊆ cs'.
Proof.
  intros Hr Hn E. destruct o as [r|Path c|].
  - eapply perform_children; [done..|]. by rewrite <- body_perform, E.
  - cbn in E. destruct (Find _ _ _ _) as [[b c']|]; [|done]. injection E as _ <-.
    rewrite (children_repr _ _ Hr). eauto.
  - cbn in E. destruct (Empty v) as [b|]; [|done]. injection E as _ <-.
    rewrite (children_repr _ _ Hr). eauto.
Qed.

Lemma listing_moves s i p b cs :
  children (tree_ s) = Ok cs → Forall (pc_ok cs) (pcs s) → pc_ok cs p →
  listing_ok (goes_on i p (with_lock b s)).
Proof. intros E Hf Hp. exists cs. split; [done|]. by apply Forall_insert. Qed.

Lemma listing_goes_on s i p cs :
  children (tree_ s) = Ok cs → Forall (pc_ok cs) (pcs s) → pc_ok cs p →
  listing_ok (goes_on i p s).
Proof. apply (listing_moves s i p (spin_lock_ s)). Qed.

Lemma listing_try_lock s i p cs :
  children (tree_ s) = Ok cs → Forall (pc_ok cs) (pcs s) → pc_ok cs p →
  listing_ok (try_lock i p s).
Proof.
  intros E Hf Hp. unfold try_lock. cbn. destruct (spin_lock_ s); [by exists cs|].
  by eapply listing_moves.
Qed.

Lemma run_thread_listing Root s i p s' :
  threads_ok Root s → listing_ok s → pcs s !! i = Some p →
  run_thread separator owner relative_append i p s = Ok s' → listing_ok s'.
Proof.
  intros [_ Hr _ [t Ht]] (cs & Ec & Hf) Hi.
  assert (pc_ok cs p) as [Hd Hc] by (rewrite Forall_forall in Hf; by eapply Hf, list_elem_of_lookup_2).
  destruct p as [|o|o|o v| |ty|ty CP Ps [c|]|ty CP Ps c|ty CP Ps c|ty CP Ps c|ty CP Ps c|Ps];
    cbn [run_thread].
  - intros [= <-]. by eapply listing_goes_on.
  - intros [= <-]. by eapply listing_try_lock.
  - intros [= <-]. by eapply listing_goes_on.
  - pose proof (Hr _ _ _ Hi) as ->. destruct (body o _) as [[a v']|] eqn:E; [|done]. intros [= <-].
    destruct (body_children _ _ _ _ _ Ht (Hd o eq_refl) E) as (ds & cs' & Ed & Ec' & Hs).
    assert (ds = cs) as -> by congruence.
    eapply (listing_goes_on _ _ _ cs'); [exact Ec'| |done].
    eapply Forall_impl; [exact Hf|]. intros q [Hqd Hqc]. split; [done|].
    intros c Hq. by apply Hs, Hqc.
  - intros [= <-]. by eapply listing_moves.
  - unfold children in Ec. destruct (deref _ _) as [root|] eqn:Er; [|done].
    injection Ec as Ec. intros [= <-].
    eapply (listing_goes_on _ _ _ cs); [unfold children; rewrite Er; by rewrite <- Ec|done|].
    split; [done|]. cbn. rewrite Ec. intros c. destruct cs; [done|]. intros [= ->]. left.
  - rewrite Ec. cbn [mbind outcome_bind]. case_bool_decide; [|done]. intros [= <-].
    by eapply listing_goes_on.
  - intros [= <-]. by eapply listing_goes_on.
  - intros [= <-]. by eapply listing_try_lock.
  - destruct (do_get_paths _ _ _ _ _ _ _) as [[CP' Ps']|]; [|done]. intros [= <-].
    by eapply listing_goes_on.
  - intros [= <-]. by eapply listing_moves.
  - rewrite Ec. cbn [mbind outcome_bind]. pose proof (following_cases c cs) as HF.
    rewrite bool_decide_eq_true_2 in HF by by apply Hc. destruct HF as (it & -> & Hit).
    intros [= <-]. by eapply listing_goes_on.
  - intros [= <-]. by eapply listing_goes_on.
Qed.

Lemma begin_call_listing i p s s' :
  listing_ok s → at_child p = None → (∀ o, doing p = Some o → removes o = false) →
  begin_call i p s = Some (Ok s') → listing_ok s'.
Proof.
  intros (cs & Ec & Hf) Hp Hd. unfold begin_call. destruct (pcs s !! i) as [[]|]; try done.
  intros [= <-]. eapply listing_goes_on; [done..|]. split; [done|]. by rewrite Hp.
Qed.

Lemma thread_reach_listing Root n es s :
  thread_reach separator owner relative_append Root n es s →
  (∀ i o, Calls i o ∈ es → removes o = false) → listing_ok s.
Proof.
  induction 1 as [|es s e s' Hs IH E]; intros Hn.
  - exists []. split; [done|]. by apply Forall_replicate.
  - assert (listing_ok s) as Hl.
    { apply IH. intros i o Hin. apply (Hn i o), elem_of_app. by left. }
    destruct e as [i o|i ty|i]; cbn [thread_step] in E.
    + apply (begin_call_listing i (Locking o) s s'); [done..| |exact E]. intros o' [= <-].
      apply (Hn i o), elem_of_app. right. left.
    + by apply (begin_call_listing i (Begins ty) s s').
    + destruct (pcs s !! i) as [p|] eqn:Hi; [|done]. injection E as E.
      eapply run_thread_listing; [by eapply thread_reach_ok|done..].
Qed.

Lemma listing_not_stale Root s i : threads_ok Root s → listing_ok s → stale i s = false.
Proof.
  intros [_ _ _ [t Ht]] (cs & Ec & Hf). unfold stale. destruct (pcs s !! i) as [p|] eqn:Hi; [|done].
  rewrite Forall_forall in Hf. destruct (Hf p ltac:(by eapply list_elem_of_lookup_2)) as [_ Hc].
  rewrite Ec. rewrite (children_repr _ _ Ht) in Ec. injection Ec as <-.
  destruct p as [| | | | | |ty CP Ps [c|]| |ty CP Ps c| |ty CP Ps c|]; try done.
  - by rewrite bool_decide_eq_true_2 by by apply Hc.
  - assert (is_Some (heap (tree_ s) !! c)) as Hs; [|by rewrite bool_decide_eq_true_2].
    apply (repr_dom _ _ Ht). specialize (Hc c eq_refl).
    apply list_elem_of_fmap in Hc as (u & -> & Hu). destruct t as [l nm b ts].
    apply locs_node. right. exists u. split; [done|apply tloc_in_locs].
  - by rewrite bool_decide_eq_true_2 by by apply Hc.
Qed.

(** ** Theorems *)

(** C19. The spin lock does its work: whatever operations any number of threads call on a
    client's tree and however their steps interleave, at most one thread is between
    [lock] and [unlock], and the flag is set exactly while one is; the tree, and the
    answer of every operation that holds the lock throughout, are those of executing the
    operations one after the other in the order in which they held it; and there is no
    deadlock, since while some thread is in an operation there is one whose next step
    does not just turn in the loop of [lock]. *)
Theorem tree_operations_serialised Root n es s :
  thread_reach separator owner relative_append Root n es s →
  (∀ i j, holder s i → holder s j → i = j)
  ∧ (spin_lock_ s = true ↔ ∃ i, holder s i)
  ∧ replay (history s) (new_vfs Root) = Some (tree_ s)
  ∧ ((∃ i p, pcs s !! i = Some p ∧ p ≠ Idle) →
     ∃ j o, thread_step separator owner relative_append (Steps j) s = Some o ∧ o ≠ Ok s).
Proof.
  intros [[h [Hl Ho]] _ Hp _]%thread_reach_ok.
  assert (spin_lock_ s = true ↔ ∃ i, holder s i) as Hflag.
  { rewrite Hl, bool_decide_eq_true. split; intros [i Hi]; exists i; by apply Ho. }
  split_and!; [|done..|].
  - intros i j Hi%Ho Hj%Ho. congruence.
  - intros (i & p & Hi & Hne). destruct (spin_lock_ s) eqn:El.
    + destruct (proj1 Hflag eq_refl) as (j & q & Hj & Hq). exists j. cbn [thread_step].
      rewrite Hj. eexists. split; [done|]. apply run_thread_moves; [done| |by right]. by intros ->.
    + exists i. cbn [thread_step]. rewrite Hi. eexists. split; [done|].
      apply run_thread_moves; [done..|by left].
Qed.

(** C20. [Get] is not protected: it walks over the children of the root without the lock,
    which it takes for each child anew.  A step of a thread faults in exactly two cases:
    an [Add] that is undefined ([add_undefined]: the path is there already, or has a
    component that is there and is not the last child of its directory), and a [Get]
    whose iterator stands at a child another thread has deleted in the meantime - a read
    of freed memory.  As long as nobody calls [Remove] no iterator gets stale, however the
    other operations interleave with it. *)
Theorem listing_unlocked Root n es s :
  thread_reach separator owner relative_append Root n es s →
  (∀ i f, thread_step separator owner relative_append (Steps i) s = Some (Fault f)
          ↔ thread_fault i s = Some f)
  ∧ ((∀ i o, Calls i o ∈ es → removes o = false) → ∀ i, stale i s = false).
Proof.
  intros Hs. pose proof (thread_reach_ok _ _ _ _ Hs) as Hok. split.
  - intros i f. cbn [thread_step]. destruct (pcs s !! i) as [p|] eqn:Hi.
    + pose proof (run_thread_faults _ _ _ _ Hok Hi) as HF.
      destruct (run_thread _ _ _ _ _ _) as [s'|f']; rewrite HF; naive_solver.
    + unfold thread_fault, stale. by rewrite Hi.
  - intros Hn i. eapply listing_not_stale; [done|]. by eapply thread_reach_listing.
Qed.
End steps.

(** ** Witnesses: a client's file is removed while its files are being listed *)

Section witnesses.
#[local] Existing Instance split_def_split.
#[local] Existing Instance split_def_laws.

Abbreviation sample_step := (thread_step slash (lit "ann") sample_append).
Abbreviation sample_reach := (thread_reach slash (lit "ann") sample_append (lit "/") 2).

Fixpoint run_threads (es : list thread_event) (s : shared_tree) : option shared_tree :=
  match es with
  | [] => Some s
  | e :: es => match sample_step e s with Some (Ok s) => run_threads es s | _ => None end
  end.

Lemma run_threads_reach es0 es s s' :
  sample_reach es0 s → run_threads es s = Some s' → sample_reach (es0 ++ es) s'.
Proof.
  revert es0 s. induction es as [|e es IH]; intros es0 s Hs; cbn [run_threads].
  - intros [= <-]. by rewrite app_nil_r.
  - destruct (sample_step e s) as [[s1|]|] eqn:E; try done. intros HR.
    rewrite (cons_middle e), app_assoc. eapply IH; [|exact HR]. by econstructor.
Qed.

Definition whole (i : nat) (o : operation) : list thread_event := Calls i o :: replicate 4 (Steps i).
Definition race : list thread_event :=
  whole 1 (Updates (RAdd (lit "/f"))) ++ [CallsGet 0 FILE; Steps 0]
  ++ whole 1 (Updates (RRemove (lit "/f"))).
Definition raced : shared_tree :=
  match run_threads race (new_shared (lit "/") 2) with
  | Some s => s
  | None => new_shared (lit "/") 2
  end.

Lemma raced_reach : sample_reach race raced.
Proof. apply (run_threads_reach [] race (new_shared (lit "/") 2)); [constructor|reflexivity]. Qed.

Lemma listing_unlocked_witness : sample_step (Steps 0) raced = Some (Fault UndefinedBehaviour).
Proof.
  apply (listing_unlocked slash (lit "ann") sample_append (lit "/") 2 race raced raced_reach).
  reflexivity.
Defined.

Lemma tree_operations_serialised_witness :
  replay slash (lit "ann") sample_append (history raced) (new_vfs (lit "/")) = Some (tree_ raced).
Proof.
  destruct (tree_operations_serialised slash (lit "ann") sample_append (lit "/") 2 race raced
              raced_reach) as (_ & _ & Hr & _).
  exact Hr.
Defined.
End witnesses.
