(* ===== verification/Scheduler.v ===== *)
(** * Scheduler: [priority_scheduler.h], [request_scheduler.h], [scheduler_priorities.h]

    Requests are function objects of an abstract type [Func], posted with a priority
    and executed by the worker threads.  [std::priority_queue] promises that [top] is
    an element no other compares above; which of several it is stays open, so the
    queue is an interface with those laws, and an instance of it is given.  Each
    worker runs the loop of [priority_scheduler::run]; the mutex makes the part up to
    the unlock one atomic step, and the execution of the function object another. *)

From Stdlib Require Import Sorting.Sorted.
From S2P Require Import Prelude Protocol.

(** ** [std::priority_queue<A, vector<A>, comp>] *)

Class PriorityQueue (A : Type) := {
  pqueue : Type;
  pq_empty : pqueue;
  pq_push : A → pqueue → pqueue;
  pq_top : pqueue → option A;
  pq_pop : pqueue → pqueue;
  pq_elements : pqueue → list A;
}.

Class PriorityQueueLaws (A : Type) `{PriorityQueue A} (comp : A → A → bool) : Prop := {
  pq_elements_empty : pq_elements pq_empty = [];
  pq_elements_push x q : pq_elements (pq_push x q) ≡ₚ x :: pq_elements q;
  pq_top_None q : pq_top q = None ↔ pq_elements q = [];
  pq_top_max q x y : pq_top q = Some x → y ∈ pq_elements q → comp x y = false;
  pq_top_pop q x : pq_top q = Some x → pq_elements q ≡ₚ x :: pq_elements (pq_pop q);
}.

(** ** Priorities *)

Inductive scheduler_priority := very_low | low | medium | high | very_high.
#[global] Instance scheduler_priority_eq_dec : EqDecision scheduler_priority.
Proof. solve_decision. Defined.

(** The values of the enumerators, to which they convert as an executor's [int]. *)
Definition priority_value (p : scheduler_priority) : Z :=
  match p with very_low => 0%Z | low => 1%Z | medium => 2%Z | high => 3%Z | very_high => 4%Z end.

Section scheduler.
Context {Func : Type}.

Record item := mkItem { priority_ : Z; function_ : Func }.

(** [item_comp]: [a] is below [b]. *)
Definition item_comp (a b : item) : bool := (priority_ a <? priority_ b)%Z.

Context `{PriorityQueue item}.

Record priority_scheduler := mkPriorityScheduler { queue_ : pqueue; stopped_ : bool }.

(** [executor_type::post] *)
Definition executor_post (priority : Z) (f : Func) (s : priority_scheduler)
    : priority_scheduler :=
  mkPriorityScheduler (pq_push (mkItem priority f) (queue_ s)) (stopped_ s).

(** [priority_scheduler::stop] *)
Definition stop (s : priority_scheduler) : priority_scheduler :=
  mkPriorityScheduler (queue_ s) true.

(** One iteration of [run]: the condition variable keeps the thread waiting, the
    loop returns, or the top item is taken off the queue to be executed. *)
Inductive run_result :=
  | Waits
  | Returns
  | Executes (p : item) (s : priority_scheduler).

Definition run_once (s : priority_scheduler) : run_result :=
  if stopped_ s then Returns
  else match pq_top (queue_ s) with
       | None => Waits
       | Some p => Executes p (mkPriorityScheduler (pq_pop (queue_ s)) (stopped_ s))
       end.

(** A thread of the pool: in [condition_.wait], executing an item, or returned. *)
Inductive worker := Waiting | Executing (p : item) | Returned.

Record request_scheduler := mkRequestScheduler {
  no_of_threads : nat;                   (* hardware_concurrency(), possibly 0 *)
  once_flag : bool;                      (* the call_once of post was executed *)
  request_threads_ : list worker;
  scheduler_ : priority_scheduler;
}.

Definition new_request_scheduler (no_of_threads : nat) : request_scheduler :=
  mkRequestScheduler no_of_threads false [] (mkPriorityScheduler pq_empty false).

(** [request_scheduler::post]: the first call starts a [run] loop on every thread;
    the switch selects the executor constructed with the same priority. *)
Definition post (_priority : scheduler_priority) (f : Func) (s : request_scheduler)
    : request_scheduler :=
  let threads :=
    if once_flag s then request_threads_ s else replicate (no_of_threads s) Waiting in
  mkRequestScheduler (no_of_threads s) true threads
    (executor_post (priority_value _priority) f (scheduler_ s)).

Definition stop_threads (s : request_scheduler) : request_scheduler :=
  mkRequestScheduler (no_of_threads s) (once_flag s) (request_threads_ s)
    (stop (scheduler_ s)).

Definition with_worker (i : nat) (w : worker) (sch : priority_scheduler)
    (s : request_scheduler) : request_scheduler :=
  mkRequestScheduler (no_of_threads s) (once_flag s) (<[i := w]> (request_threads_ s)) sch.

(** The interleavings of the clients of the scheduler and of its threads. *)
Inductive event :=
  | Posted (p : scheduler_priority) (f : Func)
  | Started (i : nat) (p : item)
  | Finished (i : nat) (p : item)
  | Exited (i : nat)
  | Stopped.

Inductive step : request_scheduler → event → request_scheduler → Prop :=
  | step_post s p f : step s (Posted p f) (post p f s)
  | step_stop s : step s Stopped (stop_threads s)
  | step_start s i p sch :
      request_threads_ s !! i = Some Waiting →
      run_once (scheduler_ s) = Executes p sch →
      step s (Started i p) (with_worker i (Executing p) sch s)
  | step_finish s i p :
      request_threads_ s !! i = Some (Executing p) →
      step s (Finished i p) (with_worker i Waiting (scheduler_ s) s)
  | step_exit s i :
      request_threads_ s !! i = Some Waiting →
      run_once (scheduler_ s) = Returns →
      step s (Exited i) (with_worker i Returned (scheduler_ s) s).

Inductive steps : request_scheduler → list event → request_scheduler → Prop :=
  | steps_nil s : steps s [] s
  | steps_snoc s es s' e s'' : steps s es s' → step s' e s'' → steps s (es ++ [e]) s''.

(** ** What the events of a run and a state account for *)

Definition posted_of (e : event) : list item :=
  match e with Posted p f => [mkItem (priority_value p) f] | _ => [] end.
Definition started_of (e : event) : list item :=
  match e with Started _ p => [p] | _ => [] end.
Definition finished_of (e : event) : list item :=
  match e with Finished _ p => [p] | _ => [] end.
Definition executing_of (w : worker) : list item :=
  match w with Executing p => [p] | _ => [] end.

Definition queued (s : request_scheduler) : list item := pq_elements (queue_ (scheduler_ s)).
Definition executing (s : request_scheduler) : list item :=
  request_threads_ s ≫= executing_of.

(** One thread working off the queue while nothing is posted. *)
Fixpoint drain (n : nat) (s : priority_scheduler) : list item * priority_scheduler :=
  match n with
  | O => ([], s)
  | S n =>
      match run_once s with
      | Executes p s => let '(ps, s) := drain n s in (p :: ps, s)
      | _ => ([], s)
      end
  end.

(** ** Theorems *)

Context `{!PriorityQueueLaws item item_comp}.

Lemma run_once_Executes s p s' :
  run_once s = Executes p s' →
  stopped_ s = false ∧ stopped_ s' = false
  ∧ pq_elements (queue_ s) ≡ₚ p :: pq_elements (queue_ s')
  ∧ Forall (λ q, priority_ q ≤ priority_ p)%Z (pq_elements (queue_ s)).
Proof.
  unfold run_once. destruct (stopped_ s) eqn:Hst; [done|].
  destruct (pq_top (queue_ s)) as [x|] eqn:E; [|done]. intros [= <- <-]. cbn.
  split_and!; [done..|by apply pq_top_pop|].
  apply Forall_forall. intros y Hy. pose proof (pq_top_max _ _ _ E Hy) as Hc.
  unfold item_comp in Hc. apply Z.ltb_ge in Hc. done.
Qed.

Lemma run_once_progress s :
  stopped_ s = false → pq_elements (queue_ s) ≠ [] → ∃ p s', run_once s = Executes p s'.
Proof.
  intros Hst Hne. unfold run_once. rewrite Hst.
  destruct (pq_top (queue_ s)) eqn:E; [by eauto|]. by apply pq_top_None in E.
Qed.

Lemma executing_with_worker s i w w' sch :
  request_threads_ s !! i = Some w →
  executing (with_worker i w' sch s) ++ executing_of w
  ≡ₚ executing s ++ executing_of w'.
Proof.
  intros Hi. unfold executing, with_worker. cbn.
  rewrite <- (take_drop_middle _ _ _ Hi) at 2.
  rewrite insert_take_drop by (eapply lookup_lt_Some; done).
  rewrite !bind_app. cbn. solve_Permutation.
Qed.

Lemma executing_post s p f :
  (once_flag s = false → request_threads_ s = []) → executing (post p f s) = executing s.
Proof.
  intros Hf. unfold executing, post. cbn. destruct (once_flag s); [done|].
  rewrite (Hf eq_refl). cbn. induction (no_of_threads s); [done|]. by cbn.
Qed.

Lemma step_not_started s e s' :
  step s e s' → (once_flag s = false → request_threads_ s = []) →
  once_flag s' = false → request_threads_ s' = [].
Proof.
  destruct 1 as [| |? i ?? Hi|? i ? Hi|? i Hi]; cbn; intros Hn Hf; try done; try auto;
    rewrite (Hn Hf) in Hi; by rewrite lookup_nil in Hi.
Qed.

(** One step keeps the account of every item. *)
Lemma step_account s e s' :
  step s e s' → (once_flag s = false → request_threads_ s = []) →
  posted_of e ++ queued s ++ executing s ≡ₚ queued s' ++ executing s' ++ finished_of e.
Proof.
  destruct 1 as [s p f|s|s i p sch Hi Hr|s i p Hi|s i Hi Hr]; intros Hn;
    cbn [posted_of finished_of app].
  - rewrite (executing_post s p f Hn), app_nil_r. unfold queued. cbn.
    by rewrite pq_elements_push.
  - by rewrite app_nil_r.
  - apply run_once_Executes in Hr as (_ & _ & Hp & _).
    pose proof (executing_with_worker s i Waiting (Executing p) sch Hi) as He.
    cbn in He. rewrite app_nil_r in He. rewrite He. unfold queued in *. cbn.
    rewrite Hp, app_nil_r. solve_Permutation.
  - pose proof (executing_with_worker s i (Executing p) Waiting (scheduler_ s) Hi) as He.
    cbn in He. rewrite app_nil_r in He. by rewrite He.
  - pose proof (executing_with_worker s i Waiting Returned (scheduler_ s) Hi) as He.
    cbn in He. rewrite !app_nil_r in He. by rewrite He, app_nil_r.
Qed.

Lemma step_started s e s' :
  step s e s' → posted_of e ++ queued s ≡ₚ queued s' ++ started_of e.
Proof.
  destruct 1 as [s p f|s|s i p sch Hi Hr|s i p Hi|s i Hi Hr];
    cbn [posted_of started_of app]; unfold queued; cbn; rewrite ?app_nil_r; try done.
  - by rewrite pq_elements_push.
  - apply run_once_Executes in Hr as (_ & _ & Hp & _). rewrite Hp. solve_Permutation.
Qed.

Lemma steps_snoc_inv s es e s'' :
  steps s (es ++ [e]) s'' → ∃ s', steps s es s' ∧ step s' e s''.
Proof.
  remember (es ++ [e]) as es0 eqn:E. destruct 1 as [|? es' s1 e' s2 H1 H2]; [by destruct es|].
  apply app_inj_tail in E as [-> ->]. eauto.
Qed.

Lemma steps_not_started n es s :
  steps (new_request_scheduler n) es s → once_flag s = false → request_threads_ s = [].
Proof.
  remember (new_request_scheduler n) as s0 eqn:E.
  induction 1 as [|? es s1 e s2 H1 IH H2]; subst; [done|].
  eapply step_not_started; [done|by apply IH].
Qed.

Lemma steps_started n es s :
  steps (new_request_scheduler n) es s →
  (es ≫= posted_of) ≡ₚ queued s ++ (es ≫= started_of).
Proof.
  remember (new_request_scheduler n) as s0 eqn:E.
  induction 1 as [|? es s1 e s2 H1 IH H2]; subst.
  - cbn. unfold queued. cbn. by rewrite pq_elements_empty.
  - specialize (IH eq_refl). apply step_started in H2. rewrite !bind_app. cbn.
    rewrite !app_nil_r, IH, (Permutation_app_comm _ (posted_of e)).
    rewrite app_assoc, H2. solve_Permutation.
Qed.

Lemma steps_stopped s es s' :
  steps s es s' →
  stopped_ (scheduler_ s') = false ↔ stopped_ (scheduler_ s) = false ∧ Stopped ∉ es.
Proof.
  induction 1 as [|? es s1 e s2 H1 IH H2].
  - split; [intros ?; split; [done|apply not_elem_of_nil]|by intros [? _]].
  - assert (stopped_ (scheduler_ s2) = false ↔
            stopped_ (scheduler_ s1) = false ∧ Stopped ≠ e) as ->.
    { destruct H2 as [| |? i p sch Hi Hr| |]; cbn; try (split; [intros ?; by split|by intros [? _]]).
      - split; [done|by intros [_ []]].
      - apply run_once_Executes in Hr as (-> & -> & _). done. }
    rewrite IH, not_elem_of_app, list_elem_of_singleton. tauto.
Qed.

(** Whatever the threads do, no request is lost, duplicated or invented: the
    requests posted so far are those still queued, those being executed and those
    whose execution finished. *)
Theorem every_request_once n es s :
  steps (new_request_scheduler n) es s →
  (es ≫= posted_of) ≡ₚ queued s ++ executing s ++ (es ≫= finished_of).
Proof.
  remember (new_request_scheduler n) as s0 eqn:E.
  induction 1 as [|? es s1 e s2 H1 IH H2]; subst.
  - cbn. unfold queued. cbn. by rewrite pq_elements_empty.
  - specialize (IH eq_refl).
    apply step_account in H2; [|by eapply steps_not_started].
    rewrite !bind_app. cbn. rewrite !app_nil_r, IH.
    rewrite (Permutation_app_comm _ (posted_of e)).
    rewrite (assoc (++) (queued s1)), (assoc (++) (posted_of e)), H2. solve_Permutation.
Qed.

(** C38. A request is started only before the scheduler is stopped, and no request
    that waits at that moment has a higher priority: the requests posted so far are
    the one started, those started earlier and waiting ones of at most its
    priority. *)
Theorem started_is_highest n es i p s :
  steps (new_request_scheduler n) (es ++ [Started i p]) s →
  (Stopped ∉ es) ∧
  ∃ waiting, (es ≫= posted_of) ≡ₚ p :: waiting ++ (es ≫= started_of)
    ∧ Forall (λ q, priority_ q ≤ priority_ p)%Z waiting.
Proof.
  intros (s1 & H1 & H2)%steps_snoc_inv.
  inversion H2 as [| |? ? ? sch Hi Hr| |]; subst.
  apply run_once_Executes in Hr as (Hst & _ & Hp & Hmax).
  pose proof (steps_started _ _ _ H1) as Hacc. split.
  - by apply (steps_stopped _ _ _ H1).
  - exists (pq_elements (queue_ sch)). split.
    + rewrite Hacc. unfold queued. by rewrite Hp.
    + rewrite Hp in Hmax. by apply Forall_cons in Hmax as [_ ?].
Qed.

(** One thread that works off the queue while nothing is posted executes every
    queued request exactly once, in the order of their priorities, and leaves the
    queue empty. *)
Theorem drain_by_priority s :
  stopped_ s = false →
  let '(ps, s') := drain (length (pq_elements (queue_ s))) s in
  ps ≡ₚ pq_elements (queue_ s)
  ∧ StronglySorted (λ p q, priority_ q ≤ priority_ p)%Z ps
  ∧ pq_elements (queue_ s') = [].
Proof.
  intros Hst. remember (length (pq_elements (queue_ s))) as n eqn:En.
  revert s Hst En. induction n as [|n IH]; intros s Hst En; cbn [drain].
  - symmetry in En. apply length_zero_iff_nil in En. rewrite En.
    split_and!; [done|constructor|done].
  - destruct (run_once_progress s Hst) as (p & s1 & E); [by intros HE; rewrite HE in En|].
    rewrite E. apply run_once_Executes in E as (_ & Hst1 & Hp & Hmax).
    specialize (IH s1 Hst1). rewrite Hp in En, Hmax. cbn in En. specialize (IH ltac:(lia)).
    destruct (drain n s1) as [ps s2]. destruct IH as (Hps & Hsort & He).
    apply Forall_cons in Hmax as [_ Hmax].
    split_and!; [by rewrite Hps, Hp|constructor; [done|by rewrite Hps]|done].
Qed.

Lemma step_post_run s i f :
  request_threads_ s !! i = Some Waiting → stopped_ (scheduler_ s) = false →
  once_flag s = true →
  Forall (λ q, priority_ q < priority_value very_high)%Z (queued s) →
  ∃ s', steps s [Posted very_high f; Started i (mkItem 4 f); Finished i (mkItem 4 f)] s'
    ∧ request_threads_ s' !! i = Some Waiting ∧ stopped_ (scheduler_ s') = false
    ∧ once_flag s' = true ∧ queued s' ≡ₚ queued s.
Proof.
  intros Hi Hst Hof Hq.
  assert (request_threads_ (post very_high f s) !! i = Some Waiting) as Hi'.
  { unfold post. by rewrite Hof. }
  assert (queued (post very_high f s) ≡ₚ mkItem 4 f :: queued s) as Hq'.
  { unfold queued, post. cbn. by rewrite pq_elements_push. }
  destruct (run_once_progress (scheduler_ (post very_high f s))) as (p & sch & E).
  { done. } { intros HE. unfold queued in Hq' at 1. rewrite HE in Hq'.
    by apply Permutation_nil_cons in Hq'. }
  pose proof (run_once_Executes _ _ _ E) as (_ & Hst' & Hp & Hmax).
  assert (p = mkItem 4 f) as ->.
  { assert (p ∈ queued (post very_high f s)) as Hin by (unfold queued; rewrite Hp; left).
    rewrite Hq' in Hin. apply elem_of_cons in Hin as [->|Hin]; [done|].
    unfold queued in Hq' at 1. rewrite Hq' in Hmax. apply Forall_cons in Hmax as [Hmax _].
    rewrite Forall_forall in Hq. specialize (Hq _ Hin). cbn in *. lia. }
  pose proof (lookup_lt_Some _ _ _ Hi') as Hlt.
  exists (with_worker i Waiting sch (with_worker i (Executing (mkItem 4 f)) sch
            (post very_high f s))). split_and!; cbn.
  - apply (steps_snoc s [Posted very_high f; Started i (mkItem 4 f)]
             (with_worker i (Executing (mkItem 4 f)) sch (post very_high f s))).
    + apply (steps_snoc s [Posted very_high f] (post very_high f s)); [|by constructor].
      apply (steps_snoc s [] s); constructor.
    + apply (step_finish (with_worker i (Executing (mkItem 4 f)) sch (post very_high f s))).
      cbn. by rewrite list_lookup_insert_eq.
  - rewrite list_lookup_insert_eq; [done|]. by rewrite length_insert.
  - done.
  - done.
  - unfold queued at 1. cbn. apply (Permutation_cons_inv (a := mkItem 4 f)).
    by rewrite <- Hp, <- Hq'.
Qed.

Lemma steps_app s es s' es' s'' :
  steps s es s' → steps s' es' s'' → steps s (es ++ es') s''.
Proof.
  intros H1. induction 1 as [|? es' s1 e s2 H2 IH H3]; [by rewrite app_nil_r|].
  rewrite app_assoc. econstructor; [by apply IH|done].
Qed.

(** The scheduler does not protect against starvation: while requests of the
    highest priority keep arriving, any number of them is executed and no queued
    request of a lower priority is. *)
Theorem low_priority_starves s i (f : Func) k :
  request_threads_ s !! i = Some Waiting → stopped_ (scheduler_ s) = false →
  once_flag s = true →
  Forall (λ q, priority_ q < priority_value very_high)%Z (queued s) →
  ∃ es s', steps s es s' ∧ (es ≫= finished_of) = replicate k (mkItem 4 f)
    ∧ queued s' ≡ₚ queued s.
Proof.
  intros Hi Hst Hof Hq.
  enough (∃ es s', steps s es s' ∧ (es ≫= finished_of) = replicate k (mkItem 4 f)
    ∧ queued s' ≡ₚ queued s
    ∧ request_threads_ s' !! i = Some Waiting ∧ stopped_ (scheduler_ s') = false
    ∧ once_flag s' = true) by naive_solver.
  induction k as [|k (es & s1 & H1 & Hk & Hq1 & Hi1 & Hst1 & Hof1)].
  - exists [], s. split_and!; [constructor|done..].
  - destruct (step_post_run s1 i f) as (s2 & H2 & ? & ? & ? & Hq2);
      [done..|by rewrite Hq1|].
    exists (es ++ [Posted very_high f; Started i (mkItem 4 f); Finished i (mkItem 4 f)]), s2.
    split_and!; [by eapply steps_app| |by rewrite Hq2|done..].
    rewrite bind_app, Hk. cbn. symmetry. apply replicate_cons_app.
Qed.

(** Without hardware threads nothing is ever executed. *)
Lemma no_threads_no_service es s i p :
  steps (new_request_scheduler 0) es s → Started i p ∉ es.
Proof.
  intros H0. enough ((Started i p ∉ es) ∧ request_threads_ s = [] ∧ no_of_threads s = O)
    by naive_solver.
  remember (new_request_scheduler 0) as s0 eqn:E.
  induction H0 as [|? es s1 e s2 H1 IH H2]; subst; [split; [apply not_elem_of_nil|done]|].
  destruct (IH eq_refl) as (Hn & Ht & Hz). rewrite not_elem_of_app, not_elem_of_cons.
  destruct H2 as [| |? j ? ? Hi|? j ? Hi|? j Hi];
    try (by rewrite Ht in Hi; rewrite lookup_nil in Hi); cbn;
    rewrite ?Hz, ?Ht; repeat case_match; split_and!; try done; apply not_elem_of_nil.
Qed.

End scheduler.

Arguments item : clear implicits.
Arguments priority_scheduler Func {_}.
Arguments request_scheduler Func {_}.
Arguments event : clear implicits.

(** ** An implementation of the queue, for witnesses *)

Section list_queue.
Context {A : Type} (comp : A → A → bool).

(** The first element nothing else is above, and the others. *)
Fixpoint best (x : A) (l : list A) : A * list A :=
  match l with
  | [] => (x, [])
  | y :: l =>
      if comp x y then let '(b, r) := best y l in (b, x :: r)
      else let '(b, r) := best x l in (b, y :: r)
  end.

Definition list_queue : PriorityQueue A := {|
  pqueue := list A;
  pq_empty := [];
  pq_push x l := l ++ [x];
  pq_top l := match l with [] => None | x :: l => Some (fst (best x l)) end;
  pq_pop l := match l with [] => [] | x :: l => snd (best x l) end;
  pq_elements l := l;
|}.

Lemma best_perm x l : x :: l ≡ₚ fst (best x l) :: snd (best x l).
Proof.
  revert x. induction l as [|y l IH]; intros x; [done|]. cbn.
  destruct (comp x y); [specialize (IH y)|specialize (IH x)];
    destruct (best _ l) as [b r]; cbn in *.
  - rewrite IH. apply perm_swap.
  - rewrite perm_swap, IH. apply perm_swap.
Qed.

(** [comp] is a strict weak ordering: what [priority_queue] asks of it. *)
Hypothesis comp_irrefl : ∀ x, comp x x = false.
Hypothesis comp_trans_false : ∀ x y z, comp y x = false → comp z y = false → comp z x = false.
Hypothesis comp_asym : ∀ x y, comp x y = true → comp y x = false.

Lemma best_max x l : Forall (λ y, comp (fst (best x l)) y = false) (x :: l).
Proof.
  revert x. induction l as [|y l IH]; intros x; cbn.
  - constructor; [apply comp_irrefl|constructor].
  - destruct (comp x y) eqn:E; [specialize (IH y)|specialize (IH x)];
      destruct (best _ l) as [b r]; cbn in *; apply Forall_cons in IH as [H1 H2];
      repeat constructor; try done.
    + eapply comp_trans_false; [|done]. by apply comp_asym.
    + by eapply comp_trans_false.
Qed.

Lemma list_queue_laws : @PriorityQueueLaws A list_queue comp.
Proof.
  split; cbn.
  - done.
  - intros x q. by rewrite Permutation_app_comm.
  - intros []; naive_solver.
  - intros [|z q] x y; [done|]. intros [= <-] Hy.
    pose proof (best_max z q) as HF. rewrite Forall_forall in HF. by apply HF.
  - intros [|z q] x; [done|]. intros [= <-]. apply best_perm.
Qed.
End list_queue.

Lemma item_queue_laws Func : @PriorityQueueLaws (item Func) (list_queue item_comp) item_comp.
Proof.
  apply list_queue_laws; unfold item_comp; intros; rewrite ?Z.ltb_ge, ?Z.ltb_lt in *; lia.
Qed.

(** ** Witnesses: two requests, the second overtakes the first *)

Section witnesses.
#[local] Instance sample_queue : PriorityQueue (item nat) := list_queue item_comp.
#[local] Instance sample_queue_laws : PriorityQueueLaws (item nat) item_comp :=
  item_queue_laws nat.

Definition sample_scheduler : request_scheduler nat :=
  post high 2 (post medium 1 (new_request_scheduler 1)).
Definition sample_events : list (event nat) := [Posted medium 1; Posted high 2].

Lemma sample_steps : steps (new_request_scheduler 1) sample_events sample_scheduler.
Proof.
  apply (steps_snoc _ [Posted medium 1] (post medium 1 (new_request_scheduler 1)));
    [|constructor].
  apply (steps_snoc _ [] (new_request_scheduler 1)); constructor.
Qed.

Definition sample_started : request_scheduler nat :=
  with_worker 0 (Executing (mkItem 3 2)) (mkPriorityScheduler [mkItem 2 1] false)
    sample_scheduler.

Lemma sample_steps_started :
  steps (new_request_scheduler 1) (sample_events ++ [Started 0 (mkItem 3 2)]) sample_started.
Proof. eapply steps_snoc; [apply sample_steps|]. by constructor. Qed.

Lemma every_request_once_witness :
  (sample_events ≫= posted_of) ≡ₚ queued sample_scheduler ++ executing sample_scheduler.
Proof.
  pose proof (every_request_once 1 sample_events sample_scheduler sample_steps) as HE.
  rewrite app_nil_r in HE. exact HE.
Defined.

Lemma started_is_highest_witness : Stopped ∉ sample_events.
Proof.
  exact (proj1 (started_is_highest 1 sample_events 0 (mkItem 3 2) sample_started
                  sample_steps_started)).
Defined.

Lemma drain_by_priority_witness :
  fst (drain 2 (scheduler_ sample_scheduler)) = [mkItem 3 2; mkItem 2 1]
  ∧ pq_elements (queue_ (snd (drain 2 (scheduler_ sample_scheduler)))) = [].
Proof.
  split; [reflexivity|].
  exact (proj2 (proj2 (drain_by_priority (scheduler_ sample_scheduler) eq_refl))).
Defined.

Lemma low_priority_starves_witness :
  ∃ es s', steps sample_scheduler es s' ∧ (es ≫= finished_of) = replicate 7 (mkItem 4 0)
    ∧ queued s' ≡ₚ queued sample_scheduler.
Proof.
  apply (low_priority_starves sample_scheduler 0 0 7); try reflexivity.
  repeat constructor.
Defined.
End witnesses.
