(* ===== verification/MonitorSpec.v ===== *)
(** * MonitorSpec: mutual exclusion, no lost wakeup, and everything posted is executed *)

From S2P Require Import Prelude Protocol Scheduler Monitor.

Section counting.
Context {A : Type}.
Implicit Types (l : list A) (P : A → bool) (f : A → nat).

Lemma sum_cons f x l : sum_list_with f (x :: l) = (f x + sum_list_with f l)%nat.
Proof. done. Qed.
Lemma sum_insert f l i x y :
  l !! i = Some x → (sum_list_with f (<[i := y]> l) + f x = sum_list_with f l + f y)%nat.
Proof.
  revert i. induction l as [|z l IH]; intros [|i] Hi; try done.
  - injection Hi as ->. change (<[0%nat:=y]> (x :: l)) with (y :: l). rewrite !sum_cons. lia.
  - change (<[S i:=y]> (z :: l)) with (z :: <[i := y]> l). specialize (IH i Hi). rewrite !sum_cons. lia.
Qed.

Lemma count_sum P l : count P l = sum_list_with (λ x, if P x then 1 else 0)%nat l.
Proof. induction l as [|x l IH]; [done|]. rewrite count_cons, IH. done. Qed.

Lemma count_insert P l i x y :
  l !! i = Some x →
  (count P (<[i := y]> l) + (if P x then 1 else 0) = count P l + (if P y then 1 else 0))%nat.
Proof. rewrite !count_sum. apply sum_insert. Qed.

Lemma existsb_count P l : existsb P l = negb (count P l =? 0)%nat.
Proof. induction l as [|x l IH]; [done|]. cbn [existsb]. rewrite count_cons, IH. by destruct (P x). Qed.

Lemma count_zero P l : count P l = 0%nat ↔ ∀ i x, l !! i = Some x → P x = false.
Proof.
  induction l as [|x l IH]; [done|]. rewrite count_cons. split.
  - intros Hc [|i] y; cbn; [intros [= ->]; destruct (P y); [lia|done]|].
    apply IH. lia.
  - intros Hl. rewrite (Hl 0%nat x eq_refl). apply IH. intros i y Hi. by apply (Hl (S i)).
Qed.
End counting.

#[local] Arguments count : simpl never.

Section spec.
Context {Func : Type} `{PriorityQueue (item Func)} `{!PriorityQueueLaws (item Func) item_comp}.
Implicit Types (m : monitor Func) (i j : nat) (e : monitor_event Func).

(** ** The abstraction *)

Definition worker_of (pc : run_pc Func) : worker (Func := Func) :=
  match pc with
  | Locking | Holding | Looked _ | Blocked => Waiting
  | Popped p | Running p => Executing p
  | Gone => Returned
  end.

Definition abstract (n : nat) m : request_scheduler Func :=
  mkRequestScheduler n true (map worker_of (threads m)) (state m).

Lemma abstract_thread m i pc :
  map worker_of (<[i := pc]> (threads m)) = <[i := worker_of pc]> (map worker_of (threads m)).
Proof. apply list_fmap_insert. Qed.

Lemma abstract_same m i pc pc' :
  threads m !! i = Some pc → worker_of pc' = worker_of pc →
  map worker_of (<[i := pc']> (threads m)) = map worker_of (threads m).
Proof.
  intros Hi E. rewrite abstract_thread, E. apply list_insert_id.
  by rewrite list_lookup_fmap, Hi.
Qed.

Lemma abstract_lookup m i pc :
  threads m !! i = Some pc → map worker_of (threads m) !! i = Some (worker_of pc).
Proof. intros Hi. by rewrite list_lookup_fmap, Hi. Qed.

Lemma wake_worker l : map worker_of (map wake l) = map worker_of l.
Proof. rewrite map_map. apply map_ext. by intros []. Qed.

(** ** The invariant *)

Definition has_mutex (pc : run_pc Func) : bool :=
  match pc with Holding | Looked _ | Popped _ => true | _ => false end.
Definition call_has_mutex (pc : call_pc Func) : bool :=
  match pc with Inside _ | Copied _ _ | Notifies _ | Leaves => true | _ => false end.
(** Threads that will look at the queue again before they block. *)
Definition awake (pc : run_pc Func) : bool :=
  match pc with Locking | Holding | Looked _ => true | _ => false end.
(** Callers about to wake one, or all. *)
Definition will_notify (pc : call_pc Func) : bool :=
  match pc with Notifies (Post _ _) => true | _ => false end.
Definition will_notify_all (pc : call_pc Func) : bool :=
  match pc with Notifies Stop => true | _ => false end.
Definition is_gone (pc : run_pc Func) : bool := match pc with Gone => true | _ => false end.

(** What has been read in a critical section is still so. *)
Definition fresh_copies m : Prop :=
  (∀ i s, threads m !! i = Some (Looked s) → s = state m)
  ∧ (∀ j c s, callers m !! j = Some (Copied c s) → s = state m).

Local Abbreviation queue_length m := (length (pq_elements (queue_ (state m)))).

Record monitor_ok m : Prop := {
  ok_threads : ∀ i pc, threads m !! i = Some pc → has_mutex pc = true ↔ mutex_ m = Some (Thread i);
  ok_callers : ∀ j pc, callers m !! j = Some pc → call_has_mutex pc = true ↔ mutex_ m = Some (Caller j);
  ok_gone : stopped_ (state m) = false → count is_gone (threads m) = 0%nat;
  ok_wakeup : stopped_ (state m) = false → count is_blocked (threads m) ≠ 0%nat →
    (queue_length m ≤ count awake (threads m) + count will_notify (callers m))%nat;
  ok_stop : stopped_ (state m) = true → count is_blocked (threads m) ≠ 0%nat →
    count will_notify_all (callers m) ≠ 0%nat;
  ok_owner : ∀ o, mutex_ m = Some o →
    match o with
    | Thread i => is_Some (threads m !! i)
    | Caller j => is_Some (callers m !! j)
    end;
}.

(** The effect of a thread's step on the counts. *)
Lemma counts_thread m i pc pc' :
  threads m !! i = Some pc →
  (count is_gone (<[i := pc']> (threads m)) + (if is_gone pc then 1 else 0)
   = count is_gone (threads m) + (if is_gone pc' then 1 else 0))%nat
  ∧ (count is_blocked (<[i := pc']> (threads m)) + (if is_blocked pc then 1 else 0)
     = count is_blocked (threads m) + (if is_blocked pc' then 1 else 0))%nat
  ∧ (count awake (<[i := pc']> (threads m)) + (if awake pc then 1 else 0)
     = count awake (threads m) + (if awake pc' then 1 else 0))%nat.
Proof. intros Hi. split_and!; by apply count_insert. Qed.

Lemma counts_caller m j pc pc' :
  callers m !! j = Some pc →
  (count will_notify (<[j := pc']> (callers m)) + (if will_notify pc then 1 else 0)
   = count will_notify (callers m) + (if will_notify pc' then 1 else 0))%nat
  ∧ (count will_notify_all (<[j := pc']> (callers m)) + (if will_notify_all pc then 1 else 0)
     = count will_notify_all (callers m) + (if will_notify_all pc' then 1 else 0))%nat.
Proof. intros Hi. split_and!; by apply count_insert. Qed.

(** Replacing a thread, or a caller, and the mutex with it. *)
Lemma owners_thread m o i pc pc' :
  monitor_ok m → threads m !! i = Some pc →
  (o = mutex_ m ∧ has_mutex pc' = has_mutex pc)
  ∨ (mutex_ m = None ∧ o = Some (Thread i) ∧ has_mutex pc' = true)
  ∨ (mutex_ m = Some (Thread i) ∧ o = None ∧ has_mutex pc' = false) →
  (∀ k q, <[i := pc']> (threads m) !! k = Some q → has_mutex q = true ↔ o = Some (Thread k))
  ∧ (∀ j q, callers m !! j = Some q → call_has_mutex q = true ↔ o = Some (Caller j))
  ∧ (∀ o', o = Some o' → match o' with
                         | Thread k => is_Some (<[i := pc']> (threads m) !! k)
                         | Caller j => is_Some (callers m !! j)
                         end).
Proof.
  intros [Ht Hc _ _ _ Ho] Hi Hcase.
  pose proof (lookup_lt_Some _ _ _ Hi) as Hlt. pose proof (Ht i pc Hi) as Hti. split_and!.
  - intros k q Hk. destruct (decide (k = i)) as [->|Hne].
    + rewrite list_lookup_insert_eq in Hk by done. injection Hk as <-.
      destruct Hcase as [[-> E]|[(En & -> & E)|(En & -> & E)]]; rewrite E; naive_solver.
    + rewrite list_lookup_insert_ne in Hk by done. specialize (Ht k q Hk).
      destruct Hcase as [[-> E]|[(En & -> & E)|(En & -> & E)]]; rewrite ?En in *; naive_solver.
  - intros j q Hj. specialize (Hc j q Hj).
    destruct Hcase as [[-> E]|[(En & -> & E)|(En & -> & E)]]; rewrite ?En in *; naive_solver.
  - intros o' E'. destruct Hcase as [[-> E]|[(En & -> & E)|(En & -> & E)]].
    + specialize (Ho o' E'). destruct o' as [k|j]; [|done].
      destruct (decide (k = i)) as [->|Hne]; [by rewrite list_lookup_insert_eq|].
      by rewrite list_lookup_insert_ne.
    + injection E' as <-. by rewrite list_lookup_insert_eq.
    + done.
Qed.

Lemma owners_caller m o j pc pc' :
  monitor_ok m → callers m !! j = Some pc →
  (o = mutex_ m ∧ call_has_mutex pc' = call_has_mutex pc)
  ∨ (mutex_ m = None ∧ o = Some (Caller j) ∧ call_has_mutex pc' = true)
  ∨ (mutex_ m = Some (Caller j) ∧ o = None ∧ call_has_mutex pc' = false) →
  (∀ k q, threads m !! k = Some q → has_mutex q = true ↔ o = Some (Thread k))
  ∧ (∀ k q, <[j := pc']> (callers m) !! k = Some q → call_has_mutex q = true ↔ o = Some (Caller k))
  ∧ (∀ o', o = Some o' → match o' with
                         | Thread k => is_Some (threads m !! k)
                         | Caller k => is_Some (<[j := pc']> (callers m) !! k)
                         end).
Proof.
  intros [Ht Hc _ _ _ Ho] Hi Hcase.
  pose proof (lookup_lt_Some _ _ _ Hi) as Hlt. pose proof (Hc j pc Hi) as Hti. split_and!.
  - intros k q Hk. specialize (Ht k q Hk).
    destruct Hcase as [[-> E]|[(En & -> & E)|(En & -> & E)]]; rewrite ?En in *; naive_solver.
  - intros k q Hk. destruct (decide (k = j)) as [->|Hne].
    + rewrite list_lookup_insert_eq in Hk by done. injection Hk as <-.
      destruct Hcase as [[-> E]|[(En & -> & E)|(En & -> & E)]]; rewrite E; naive_solver.
    + rewrite list_lookup_insert_ne in Hk by done. specialize (Hc k q Hk).
      destruct Hcase as [[-> E]|[(En & -> & E)|(En & -> & E)]]; rewrite ?En in *; naive_solver.
  - intros o' E'. destruct Hcase as [[-> E]|[(En & -> & E)|(En & -> & E)]].
    + specialize (Ho o' E'). destruct o' as [k|k]; [done|].
      destruct (decide (k = j)) as [->|Hne]; [by rewrite list_lookup_insert_eq|].
      by rewrite list_lookup_insert_ne.
    + injection E' as <-. by rewrite list_lookup_insert_eq.
    + done.
Qed.

Lemma run_once_cases (s : priority_scheduler Func) :
  match run_once s with
  | Waits => stopped_ s = false ∧ pq_elements (queue_ s) = []
  | Returns => stopped_ s = true
  | Executes p s' => stopped_ s = false ∧ stopped_ s' = false
      ∧ length (pq_elements (queue_ s)) = S (length (pq_elements (queue_ s')))
  end.
Proof.
  destruct (run_once s) as [| |p s'] eqn:E.
  - unfold run_once in E. destruct (stopped_ s); [done|]. split; [done|]. apply pq_top_None.
    by destruct (pq_top (queue_ s)).
  - unfold run_once in E. destruct (stopped_ s); [done|]. by destruct (pq_top _).
  - apply run_once_Executes in E as (? & ? & Hp & _). by rewrite Hp.
Qed.

(** Facts about the counts, in the case of [stopped_] at hand. *)
#[local] Ltac counted :=
  intros;
  repeat match goal with
  | E : stopped_ ?s = ?b, E' : stopped_ ?s = ?b → _ |- _ => specialize (E' E)
  end; try congruence; cbn [Nat.add] in *; lia.

Lemma thread_step_ok m i m' : monitor_ok m → fresh_copies m → run_step i m = Some m' → monitor_ok m'.
Proof.
  intros Hok [Hread _]. pose proof Hok as [Ht Hc Hg Hw Hs Ho]. unfold run_step.
  destruct (threads m !! i) as [pc|] eqn:Ei; [|done]. pose proof (Ht i pc Ei) as Hti.
  pose proof (λ pc', counts_thread m i pc pc' Ei) as Hcount.
  pose proof (λ o pc', owners_thread m o i pc pc' Hok Ei) as Hown.
  destruct pc as [| |s| |p|p|]; cbn in Hti; try done.
  - destruct (mutex_ m) eqn:Em; [done|]. intros [= <-].
    destruct (Hown (Some (Thread i)) Holding) as (H1 & H2 & H3); [naive_solver|].
    specialize (Hcount Holding). cbn in Hcount. split; cbn; try done; counted.
  - intros [= <-]. destruct (Hown (mutex_ m) (Looked (state m))) as (H1 & H2 & H3); [naive_solver|].
    specialize (Hcount (Looked (state m))). cbn in Hcount. split; cbn; try done; counted.
  - rewrite (Hread i s Ei). pose proof (run_once_cases (state m)) as Hr. assert (mutex_ m = Some (Thread i)) as Em by naive_solver.
    destruct (run_once (state m)) as [| |p s']; intros [= <-].
    + destruct (Hown None Blocked) as (H1 & H2 & H3); [naive_solver|].
      specialize (Hcount Blocked). cbn in Hcount. destruct Hr as [Hr1 Hr2].
      split; cbn; try done; rewrite ?Hr1, ?Hr2; cbn; try done; counted.
    + destruct (Hown None Gone) as (H1 & H2 & H3); [naive_solver|].
      specialize (Hcount Gone). cbn in Hcount. split; cbn; try done; rewrite ?Hr; try done; counted.
    + destruct (Hown (mutex_ m) (Popped p)) as (H1 & H2 & H3); [naive_solver|].
      specialize (Hcount (Popped p)). cbn in Hcount. destruct Hr as (Hr1 & Hr2 & Hr3).
      split; cbn; try done; rewrite ?Hr2; try done; counted.
  - intros [= <-]. destruct (Hown None (Running p)) as (H1 & H2 & H3); [naive_solver|].
    specialize (Hcount (Running p)). cbn in Hcount. split; cbn; try done; counted.
  - intros [= <-]. destruct (Hown (mutex_ m) Locking) as (H1 & H2 & H3); [naive_solver|].
    specialize (Hcount Locking). cbn in Hcount. split; cbn; try done; counted.
Qed.

Lemma wakes_up_ok m i m' : monitor_ok m → wakes_up i m = Some m' → monitor_ok m'.
Proof.
  intros Hok. pose proof Hok as [Ht Hc Hg Hw Hs Ho]. unfold wakes_up.
  destruct (threads m !! i) as [[]|] eqn:Ei; try done. intros [= <-].
  destruct (owners_thread m (mutex_ m) i Blocked Locking Hok Ei) as (H1 & H2 & H3); [by left|].
  pose proof (counts_thread m i Blocked Locking Ei) as Hcount. cbn in Hcount.
  split; cbn; try done; counted.
Qed.

Lemma calls_ok m c :
  monitor_ok m → monitor_ok (mkMonitor (state m) (mutex_ m) (threads m) (callers m ++ [Enters c])).
Proof.
  intros [Ht Hc Hg Hw Hs Ho]. split; cbn; try done.
  - intros j pc Hj. apply lookup_app_Some in Hj as [Hj|[Hlen Hj]]; [by apply Hc|].
    destruct (j - length (callers m))%nat as [|[]] eqn:E; [|done..]. injection Hj as <-. split; [done|].
    intros Em. specialize (Ho _ Em) as [pc Hpc]. apply lookup_lt_Some in Hpc. lia.
  - rewrite count_app, count_cons. counted.
  - rewrite count_app, count_cons. counted.
  - intros o Em. specialize (Ho o Em). destruct o as [i|j]; [done|].
    destruct Ho as [pc Hpc]. exists pc. by apply lookup_app_l_Some.
Qed.

(** [notify_all] leaves nobody blocked. *)
Lemma wake_all_blocked (l : list (run_pc Func)) : count is_blocked (map wake l) = 0%nat.
Proof.
  apply count_zero. intros i pc Hi. apply list_lookup_fmap_Some in Hi as (q & -> & _). by destruct q.
Qed.
Lemma wake_all_gone (l : list (run_pc Func)) : count is_gone (map wake l) = count is_gone l.
Proof. induction l as [|[] l IH]; [done|..]; cbn [map wake]; by rewrite !count_cons, IH. Qed.

Lemma caller_step_ok m j who m' : monitor_ok m → fresh_copies m → caller_step j who m = Some m' → monitor_ok m'.
Proof.
  intros Hok [_ Hcopied]. pose proof Hok as [Ht Hc Hg Hw Hs Ho]. unfold caller_step.
  destruct (callers m !! j) as [pc|] eqn:Ej; [|done]. pose proof (Hc j pc Ej) as Hcj.
  pose proof (λ pc', counts_caller m j pc pc' Ej) as Hcount.
  pose proof (λ o pc', owners_caller m o j pc pc' Hok Ej) as Hown.
  destruct pc as [c|c|[p f|] s|[p f|]| |]; cbn in Hcj; try done.
  - destruct (mutex_ m) eqn:Em; [done|]. intros [= <-].
    destruct (Hown (Some (Caller j)) (Inside c)) as (H1 & H2 & H3); [naive_solver|].
    specialize (Hcount (Inside c)). cbn in Hcount. split; cbn; try done; counted.
  - intros [= <-]. destruct (Hown (mutex_ m) (Copied c (state m))) as (H1 & H2 & H3); [naive_solver|].
    specialize (Hcount (Copied c (state m))). cbn in Hcount. split; cbn; try done; counted.
  - rewrite (Hcopied j _ s Ej). intros [= <-]. destruct (Hown (mutex_ m) (Notifies (Post p f))) as (H1 & H2 & H3); [naive_solver|].
    specialize (Hcount (Notifies (Post p f))). cbn in Hcount.
    split; cbn; try done; try (counted; fail). rewrite pq_elements_push. cbn. counted.
  - rewrite (Hcopied j _ s Ej). intros [= <-]. destruct (Hown (mutex_ m) (Notifies Stop)) as (H1 & H2 & H3); [naive_solver|].
    specialize (Hcount (Notifies Stop)). cbn in Hcount. split; cbn; try done; counted.
  - specialize (Hcount Leaves). cbn in Hcount. destruct who as [i|].
    + destruct (threads m !! i) as [[]|] eqn:Ei; try done. intros [= <-].
      pose proof (counts_thread m i Blocked Locking Ei) as Hct. cbn in Hct.
      destruct (owners_thread m (mutex_ m) i Blocked Locking Hok Ei) as (H1 & H2 & H3); [by left|].
      destruct (Hown (mutex_ m) Leaves) as (H4 & H5 & H6); [naive_solver|].
      split; cbn; try done; try (counted; fail). intros [k|k] Eo; [exact (H3 (Thread k) Eo)|exact (H6 (Caller k) Eo)].
    + destruct (existsb _ _) eqn:Eb; [done|]. intros [= <-].
      rewrite existsb_count in Eb. apply negb_false_iff, Nat.eqb_eq in Eb.
      destruct (Hown (mutex_ m) Leaves) as (H1 & H2 & H3); [naive_solver|].
      split; cbn; try done; counted.
  - intros [= <-]. destruct (Hown (mutex_ m) Leaves) as (H1 & H2 & H3); [naive_solver|].
    split; cbn; try done; rewrite ?wake_all_blocked, ?wake_all_gone; try done.
    + intros k q Hk. apply list_lookup_fmap_Some in Hk as (q0 & -> & Hk). specialize (H1 k q0 Hk).
      by destruct q0.
    + intros [k|k] Eo; [|exact (H3 (Caller k) Eo)]. destruct (H3 (Thread k) Eo) as [q Hq].
      exists (wake q). by rewrite list_lookup_fmap, Hq.
  - intros [= <-]. destruct (Hown None Left) as (H1 & H2 & H3); [naive_solver|].
    specialize (Hcount Left). cbn in Hcount. split; cbn; try done; counted.
Qed.

(** A step by which nothing is read leaves the copies fresh, if it leaves the state, or
    nobody else is in a critical section. *)
Lemma fresh_thread m i pc s :
  monitor_ok m → fresh_copies m → (s = state m ∨ mutex_ m = Some (Thread i)) →
  (∀ s', pc = Looked s' → s' = s) → ∀ o,
  fresh_copies (mkMonitor s o (<[i := pc]> (threads m)) (callers m)).
Proof.
  intros Hok [Hr Hc] Hs Hpc o. split; cbn.
  - intros k s' Hk. destruct (decide (k = i)) as [->|Hne].
    + destruct (threads m !! i) as [q|] eqn:Ei.
      * rewrite list_lookup_insert_eq in Hk by by eapply lookup_lt_Some. injection Hk as ->. by apply Hpc.
      * rewrite list_insert_ge in Hk by by apply lookup_ge_None. congruence.
    + rewrite list_lookup_insert_ne in Hk by done. destruct Hs as [->|Em]; [by eapply Hr|].
      pose proof (proj1 (ok_threads _ Hok k _ Hk) eq_refl). congruence.
  - intros j c s' Hj. destruct Hs as [->|Em]; [by eapply Hc|].
    pose proof (proj1 (ok_callers _ Hok j _ Hj) eq_refl). congruence.
Qed.

Lemma fresh_caller m j pc s :
  monitor_ok m → fresh_copies m → (s = state m ∨ mutex_ m = Some (Caller j)) →
  (∀ c s', pc = Copied c s' → s' = s) → ∀ o,
  fresh_copies (mkMonitor s o (threads m) (<[j := pc]> (callers m))).
Proof.
  intros Hok [Hr Hc] Hs Hpc o. split; cbn.
  - intros i s' Hi. destruct Hs as [->|Em]; [by eapply Hr|].
    pose proof (proj1 (ok_threads _ Hok i _ Hi) eq_refl). congruence.
  - intros k c s' Hk. destruct (decide (k = j)) as [->|Hne].
    + destruct (callers m !! j) as [q|] eqn:Ej.
      * rewrite list_lookup_insert_eq in Hk by by eapply lookup_lt_Some. injection Hk as ->. by eapply Hpc.
      * rewrite list_insert_ge in Hk by by apply lookup_ge_None. congruence.
    + rewrite list_lookup_insert_ne in Hk by done. destruct Hs as [->|Em]; [by eapply Hc|].
      pose proof (proj1 (ok_callers _ Hok k _ Hk) eq_refl). congruence.
Qed.

Lemma fresh_run m i m' : monitor_ok m → fresh_copies m → run_step i m = Some m' → fresh_copies m'.
Proof.
  intros Hok Hf. unfold run_step. destruct (threads m !! i) as [pc|] eqn:Ei; [|done].
  pose proof (ok_threads _ Hok i pc Ei) as Hm.
  destruct pc as [| |s| |p|p|]; cbn in Hm; try done.
  - destruct (mutex_ m); [done|]. intros [= <-]. apply (fresh_thread m i Holding (state m)); auto; congruence.
  - intros [= <-]. apply (fresh_thread m i (Looked (state m)) (state m)); auto; congruence.
  - rewrite (proj1 Hf i s Ei). destruct (run_once (state m)) as [| |p s']; intros [= <-].
    + apply (fresh_thread m i Blocked (state m)); auto; congruence.
    + apply (fresh_thread m i Gone (state m)); auto; congruence.
    + apply (fresh_thread m i (Popped p) s'); auto; [right; naive_solver|congruence].
  - intros [= <-]. apply (fresh_thread m i (Running p) (state m)); auto; congruence.
  - intros [= <-]. apply (fresh_thread m i Locking (state m)); auto; congruence.
Qed.

Lemma fresh_wakes m o ts :
  fresh_copies m → (∀ i s, ts !! i = Some (Looked s) → threads m !! i = Some (Looked s)) →
  fresh_copies (mkMonitor (state m) o ts (callers m)).
Proof. intros [Hr Hc] Ht. split; cbn; [|done]. intros i s Hi. by eapply Hr, Ht. Qed.

Lemma looked_insert (l : list (run_pc Func)) i k s :
  <[i := Locking]> l !! k = Some (Looked s) → l !! k = Some (Looked s).
Proof. intros [(_ & [=] & _)|[_ Hk]]%list_lookup_insert_Some. done. Qed.

Lemma fresh_calling m j who m' :
  monitor_ok m → fresh_copies m → caller_step j who m = Some m' → fresh_copies m'.
Proof.
  intros Hok Hf. unfold caller_step. destruct (callers m !! j) as [pc|] eqn:Ej; [|done].
  pose proof (ok_callers _ Hok j pc Ej) as Hm.
  destruct pc as [c|c|[p f|] s|[p f|]| |]; cbn in Hm; try done.
  - destruct (mutex_ m); [done|]. intros [= <-]. apply (fresh_caller m j (Inside c) (state m)); auto; congruence.
  - intros [= <-]. apply (fresh_caller m j (Copied c (state m)) (state m)); auto; congruence.
  - intros [= <-]. eapply (fresh_caller m j (Notifies (Post p f))); auto; [right; naive_solver|congruence].
  - intros [= <-]. eapply (fresh_caller m j (Notifies Stop)); auto; [right; naive_solver|congruence].
  - assert (fresh_copies (set_caller j Leaves m)) as Hl by (apply (fresh_caller m j Leaves (state m)); auto; congruence).
    destruct who as [i|].
    + destruct (threads m !! i) as [[]|] eqn:Ei; try done. intros [= <-].
      apply (fresh_wakes (set_caller j Leaves m)); [done|]. intros k s. apply looked_insert.
    + destruct (existsb _ _); [done|]. by intros [= <-].
  - assert (fresh_copies (set_caller j Leaves m)) as Hl by (apply (fresh_caller m j Leaves (state m)); auto; congruence).
    intros [= <-]. apply (fresh_wakes (set_caller j Leaves m)); [done|]. cbn. intros i s.
    intros (q & E & Hq)%list_lookup_fmap_Some. by destruct q; inversion E; subst.
  - intros [= <-]. apply (fresh_caller m j Left (state m)); auto; congruence.
Qed.

Lemma monitor_step_ok m e m' :
  monitor_ok m → fresh_copies m → monitor_step e m = Some m' → monitor_ok m' ∧ fresh_copies m'.
Proof.
  intros Hok Hf. destruct e as [c|j who|i|i]; cbn [monitor_step]; intros E.
  - injection E as <-. split; [by apply calls_ok|]. split; cbn; [apply Hf|].
    intros j c' s [Hj|[_ Hj]]%lookup_app_Some; [by eapply Hf|].
    by destruct (j - _)%nat as [|[]].
  - split; [by eapply caller_step_ok|by eapply fresh_calling].
  - split; [by eapply thread_step_ok|by eapply fresh_run].
  - split; [by eapply wakes_up_ok|]. unfold wakes_up in E.
    destruct (threads m !! i) as [[]|]; try done. injection E as <-.
    apply (fresh_thread m i Locking (state m)); auto; congruence.
Qed.

Lemma started_ok n : monitor_ok (started n) ∧ fresh_copies (started n).
Proof.
  split; [|split; [|done]; by intros i s [[=] _]%lookup_replicate].
  split; cbn; try done.
  - by intros i pc [-> _]%lookup_replicate.
  - intros _. apply count_zero. by intros i pc [-> _]%lookup_replicate.
  - rewrite pq_elements_empty. cbn. lia.
Qed.

Lemma reach_both n es m : monitor_reach n es m → monitor_ok m ∧ fresh_copies m.
Proof.
  induction 1 as [|es m e m' _ [Hok Hf] E]; [apply started_ok|by eapply monitor_step_ok].
Qed.
Lemma reach_monitor_ok n es m : monitor_reach n es m → monitor_ok m.
Proof. intros Hr. by destruct (reach_both _ _ _ Hr). Qed.
Lemma reach_fresh n es m : monitor_reach n es m → fresh_copies m.
Proof. intros Hr. by destruct (reach_both _ _ _ Hr). Qed.

(** ** The refinement *)

(** A step of the monitor is one of the scheduler, or none. *)
Lemma step_simulates n m e m' :
  fresh_copies m → monitor_step e m = Some m' → steps (abstract n m) (emits e m) (abstract n m').
Proof.
  intros [Hread Hcopied].
  assert (∀ (s : request_scheduler Func) ev s', step s ev s' → steps s [ev] s') as one.
  { intros s ev s' Hs. apply (steps_snoc s [] s ev s'); [constructor|done]. }
  assert (∀ (s s' : request_scheduler Func), s = s' → steps s [] s') as same by (intros ? ? ->; constructor).
  destruct e as [c|j who|i|i]; cbn [monitor_step emits].
  - intros [= <-]. by apply same.
  - unfold caller_step. destruct (callers m !! j) as [[c|c|[p f|] s|[p f|]| |]|] eqn:Ej; try done.
    + destruct (mutex_ m); [done|]. intros [= <-]. by apply same.
    + intros [= <-]. by apply same.
    + rewrite (Hcopied j _ s Ej). intros [= <-]. apply one. exact (step_post (abstract n m) p f).
    + rewrite (Hcopied j _ s Ej). intros [= <-]. apply one. exact (step_stop (abstract n m)).
    + destruct who as [i|].
      * destruct (threads m !! i) as [[]|] eqn:Ei; try done. intros [= <-]. apply same.
        unfold abstract. cbn. by rewrite (abstract_same _ _ _ _ Ei).
      * destruct (existsb _ _); [done|]. intros [= <-]. by apply same.
    + intros [= <-]. apply same. unfold abstract. cbn. by rewrite wake_worker.
    + intros [= <-]. by apply same.
  - unfold run_step. destruct (threads m !! i) as [[| |s| |p|p|]|] eqn:Ei; try done.
    + destruct (mutex_ m); [done|]. intros [= <-]. apply same. unfold abstract. cbn.
      by rewrite (abstract_same _ _ _ _ Ei).
    + intros [= <-]. apply same. unfold abstract. cbn. by rewrite (abstract_same _ _ _ _ Ei).
    + rewrite (Hread i s Ei). destruct (run_once (state m)) as [| |p s'] eqn:Er; intros [= <-].
      * apply same. unfold abstract. cbn. by rewrite (abstract_same _ _ _ _ Ei).
      * apply one. pose proof (step_exit (abstract n m) i (abstract_lookup _ _ _ Ei) Er) as Hs.
        unfold with_worker in Hs. cbn in Hs. unfold abstract at 2. cbn. by rewrite abstract_thread.
      * apply one. pose proof (step_start (abstract n m) i p s' (abstract_lookup _ _ _ Ei) Er) as Hs.
        unfold with_worker in Hs. cbn in Hs. unfold abstract at 2. cbn. by rewrite abstract_thread.
    + intros [= <-]. apply same. unfold abstract. cbn. by rewrite (abstract_same _ _ _ _ Ei).
    + intros [= <-]. apply one.
      pose proof (step_finish (abstract n m) i p (abstract_lookup _ _ _ Ei)) as Hs.
      unfold with_worker in Hs. cbn in Hs. unfold abstract at 2. cbn. by rewrite abstract_thread.
  - unfold wakes_up. destruct (threads m !! i) as [[]|] eqn:Ei; try done. intros [= <-].
    apply same. unfold abstract. cbn. by rewrite (abstract_same _ _ _ _ Ei).
Qed.

(** The scheduler once its threads have been started. *)
Definition threads_started (n : nat) : request_scheduler Func :=
  mkRequestScheduler n true (replicate n Waiting) (mkPriorityScheduler pq_empty false).

Lemma abstract_reach n es m : monitor_reach n es m → steps (threads_started n) es (abstract n m).
Proof.
  induction 1 as [|es m e m' Hr IH E].
  - unfold abstract, threads_started, started. cbn.
    assert (map worker_of (replicate n Locking) = replicate n Waiting) as ->
      by (clear; induction n; cbn; congruence). constructor.
  - eapply steps_app; [exact IH|]. apply step_simulates; [by eapply reach_fresh|done].
Qed.

(** C11. The mutex makes the critical sections atomic.  A thread reads the queue, and a
    call of [post] or [stop] reads and changes it, in steps of their own, so that without
    the mutex a change worked out on an old queue would be written over a newer one.  With
    it, whatever the interleaving, with threads that block and are woken - also for no
    reason - and any number of calls at the same time, every run of the monitor is a run
    of [Scheduler], whose operations are single steps, with the same requests posted,
    started and finished in the same order. *)
Theorem monitor_refines n es m :
  monitor_reach n es m → steps (threads_started n) es (abstract n m).
Proof. apply abstract_reach. Qed.

(** Only one of the threads and callers is in a critical section. *)
Theorem mutual_exclusion n es m i j pc :
  monitor_reach n es m → threads m !! i = Some pc → has_mutex pc = true →
  (∀ k q, threads m !! k = Some q → has_mutex q = true → k = i)
  ∧ (∀ q, callers m !! j = Some q → call_has_mutex q = false).
Proof.
  intros Hr%reach_monitor_ok Hi Hh. apply (ok_threads _ Hr i pc Hi) in Hh. split.
  - intros k q Hk Hq. apply (ok_threads _ Hr k q Hk) in Hq. congruence.
  - intros q Hj. destruct (call_has_mutex q) eqn:E; [|done].
    apply (ok_callers _ Hr j q Hj) in E. congruence.
Qed.

(** ** What is left to do *)

(** The steps a thread, or a caller, can still make, with those it makes possible. *)
Definition thread_weight (pc : run_pc Func) : nat :=
  match pc with Locking => 3 | Holding => 2 | Looked _ => 1 | Blocked => 0 | Popped _ => 5 | Running _ => 4 | Gone => 0 end.
Definition call_weight (n : nat) (pc : call_pc Func) : nat :=
  match pc with
  | Enters (Post _ _) => 13 | Inside (Post _ _) => 12 | Copied (Post _ _) _ => 11 | Notifies (Post _ _) => 5
  | Enters Stop => 5 + 3 * n | Inside Stop => 4 + 3 * n | Copied Stop _ => 3 + 3 * n | Notifies Stop => 2 + 3 * n
  | Leaves => 1
  | Left => 0
  end.
Definition weight m : nat :=
  5 * queue_length m + sum_list_with thread_weight (threads m)
  + sum_list_with (call_weight (length (threads m))) (callers m).

Lemma weight_wake l :
  (sum_list_with thread_weight (map wake l) ≤ sum_list_with thread_weight l + 3 * length l)%nat.
Proof.
  induction l as [|pc l IH]; [done|]. cbn [map length]. rewrite !sum_cons.
  destruct pc; cbn [wake thread_weight]; lia.
Qed.

Lemma weight_thread m i pc pc' :
  threads m !! i = Some pc →
  (sum_list_with thread_weight (<[i := pc']> (threads m)) + thread_weight pc
   = sum_list_with thread_weight (threads m) + thread_weight pc')%nat.
Proof. apply sum_insert. Qed.

Lemma weight_caller m j pc pc' :
  callers m !! j = Some pc →
  (sum_list_with (call_weight (length (threads m))) (<[j := pc']> (callers m))
   + call_weight (length (threads m)) pc
   = sum_list_with (call_weight (length (threads m))) (callers m)
     + call_weight (length (threads m)) pc')%nat.
Proof. apply sum_insert. Qed.

(** Every step of a thread or a caller leaves less to do. *)
Lemma step_decreases m e m' :
  fresh_copies m → internal e = true → monitor_step e m = Some m' → (weight m' < weight m)%nat.
Proof.
  intros [Hread Hcopied] He. destruct e as [c|j who|i|i]; try done; cbn [monitor_step]; unfold weight.
  - unfold caller_step. destruct (callers m !! j) as [pc|] eqn:Ej; [|done].
    pose proof (λ pc', weight_caller m j pc pc' Ej) as Hw.
    destruct pc as [c|c|[p f|] s|[p f|]| |]; try done.
    + destruct (mutex_ m); [done|]. intros [= <-]. specialize (Hw (Inside c)).
      cbn -[sum_list_with Nat.mul] in *. destruct c; lia.
    + intros [= <-]. specialize (Hw (Copied c (state m))).
      cbn -[sum_list_with Nat.mul] in *. destruct c; lia.
    + rewrite (Hcopied j _ s Ej). intros [= <-]. specialize (Hw (Notifies (Post p f))). cbn -[sum_list_with Nat.mul] in *.
      rewrite pq_elements_push. cbn -[sum_list_with Nat.mul] in *. lia.
    + rewrite (Hcopied j _ s Ej). intros [= <-]. specialize (Hw (Notifies Stop)). cbn -[sum_list_with Nat.mul] in *. lia.
    + specialize (Hw Leaves). destruct who as [i|].
      * destruct (threads m !! i) as [[]|] eqn:Ei; try done. intros [= <-].
        pose proof (weight_thread m i Blocked Locking Ei) as Ht.
        cbn -[sum_list_with Nat.mul] in *. rewrite length_insert. lia.
      * destruct (existsb _ _); [done|]. intros [= <-]. cbn -[sum_list_with Nat.mul] in *. lia.
    + intros [= <-]. specialize (Hw Leaves). pose proof (weight_wake (threads m)) as Ht.
      cbn -[sum_list_with Nat.mul] in *. rewrite length_map. lia.
    + intros [= <-]. specialize (Hw Left). cbn -[sum_list_with Nat.mul] in *. lia.
  - unfold run_step. destruct (threads m !! i) as [pc|] eqn:Ei; [|done].
    pose proof (λ pc', weight_thread m i pc pc' Ei) as Hw.
    pose proof (run_once_cases (state m)) as Hr.
    destruct pc as [| |s| |p|p|]; try done.
    + destruct (mutex_ m); [done|]. intros [= <-]. specialize (Hw Holding).
      cbn -[sum_list_with Nat.mul] in *. rewrite length_insert. lia.
    + intros [= <-]. specialize (Hw (Looked (state m))).
      cbn -[sum_list_with Nat.mul] in *. rewrite length_insert. lia.
    + rewrite (Hread i s Ei). destruct (run_once (state m)) as [| |p s']; intros [= <-];
        [specialize (Hw Blocked)|specialize (Hw Gone)|specialize (Hw (Popped p))];
        cbn -[sum_list_with Nat.mul] in *; rewrite length_insert; lia.
    + intros [= <-]. specialize (Hw (Running p)). cbn -[sum_list_with Nat.mul] in *.
      rewrite length_insert. lia.
    + intros [= <-]. specialize (Hw Locking). cbn -[sum_list_with Nat.mul] in *.
      rewrite length_insert. lia.
Qed.

Lemma run_monitor_bound es m m' :
  monitor_ok m → fresh_copies m → Forall (λ e, internal e = true) es →
  run_monitor es m = Some m' → (length es ≤ weight m)%nat.
Proof.
  revert m. induction es as [|e es IH]; intros m Hok Hf; [cbn; lia|].
  intros [He Hes]%Forall_cons. cbn [run_monitor length].
  destruct (monitor_step e m) as [m1|] eqn:E; [|done]. intros Hr.
  destruct (monitor_step_ok m e m1 Hok Hf E) as [Hok1 Hf1].
  apply step_decreases in E; [|done..]. specialize (IH m1 Hok1 Hf1 Hes Hr). lia.
Qed.

(** ** When nothing moves any more *)

Definition still_now m : Prop := ∀ e, internal e = true → monitor_step e m = None.

(** A thread that has the mutex goes on, and so does a caller. *)
Lemma still_free m : monitor_ok m → still_now m → mutex_ m = None.
Proof.
  intros Hok Hs. destruct (mutex_ m) as [[i|j]|] eqn:Em; [exfalso..|done].
  - destruct (ok_owner _ Hok _ Em) as [pc Hi].
    pose proof (proj2 (ok_threads _ Hok i pc Hi) Em) as Hh.
    specialize (Hs (Runs i) eq_refl). cbn in Hs. unfold run_step in Hs. rewrite Hi in Hs.
    destruct pc as [| |s| | | |]; try done. by destruct (run_once _).
  - destruct (ok_owner _ Hok _ Em) as [pc Hj].
    pose proof (proj2 (ok_callers _ Hok j pc Hj) Em) as Hh.
    destruct (existsb is_blocked (threads m)) eqn:Eb.
    + rewrite existsb_count in Eb. apply negb_true_iff, Nat.eqb_neq in Eb.
      assert (∃ i, threads m !! i = Some Blocked) as [i Hi].
      { clear -Eb. induction (threads m) as [|pc l IH]; [done|]. rewrite count_cons in Eb.
        destruct pc; try (destruct IH as [i Hi]; [cbn in Eb; lia|by exists (S i)]). by exists 0%nat. }
      specialize (Hs (Calling j (Some i)) eq_refl). cbn in Hs. unfold caller_step in Hs.
      rewrite Hj, Hi in Hs. by destruct pc as [?|?|[]|[]| |].
    + specialize (Hs (Calling j None) eq_refl). cbn in Hs. unfold caller_step in Hs.
      rewrite Hj, Eb in Hs. by destruct pc as [?|?|[]|[]| |].
Qed.

Lemma still_thread m i pc :
  mutex_ m = None → still_now m → threads m !! i = Some pc → pc = Blocked ∨ pc = Gone.
Proof.
  intros Em Hs Hi. specialize (Hs (Runs i) eq_refl). cbn in Hs. unfold run_step in Hs.
  rewrite Hi, Em in Hs. destruct pc; try done; [|by left|by right]. by destruct (run_once _).
Qed.

Lemma still_caller m j pc :
  monitor_ok m → mutex_ m = None → still_now m → callers m !! j = Some pc → pc = Left.
Proof.
  intros Hok Em Hs Hj. specialize (Hs (Calling j None) eq_refl). cbn in Hs. unfold caller_step in Hs.
  rewrite Hj, Em in Hs. pose proof (ok_callers _ Hok j pc Hj) as Hh. rewrite Em in Hh.
  destruct pc as [?|?|??|?| |]; cbn in Hh; try done; naive_solver.
Qed.

Lemma still_cases m :
  monitor_ok m → still_now m →
  Forall (λ pc, pc = Left) (callers m)
  ∧ if stopped_ (state m) then Forall (λ pc, pc = Gone) (threads m)
    else Forall (λ pc, pc = Blocked) (threads m)
         ∧ (threads m ≠ [] → pq_elements (queue_ (state m)) = []).
Proof.
  intros Hok Hs. pose proof (still_free m Hok Hs) as Em.
  assert (Forall (λ pc, pc = Left) (callers m)) as Hleft.
  { apply Forall_lookup. intros j pc Hj. by eapply still_caller. }
  split; [done|]. pose proof (still_thread m) as Ht.
  assert (∀ P, P Left = false → count P (callers m) = 0%nat) as Hnone.
  { intros P HP. apply count_zero. intros j pc Hj. rewrite Forall_lookup in Hleft.
    by rewrite (Hleft j pc Hj). }
  destruct (stopped_ (state m)) eqn:Est.
  - apply Forall_lookup. intros i pc Hi. destruct (Ht i pc Em Hs Hi) as [->|]; [exfalso|done].
    destruct (ok_stop _ Hok Est); [|by apply Hnone]. intros Hz. rewrite count_zero in Hz.
    by specialize (Hz i _ Hi).
  - pose proof (ok_gone _ Hok Est) as Hg. rewrite count_zero in Hg.
    assert (Forall (λ pc, pc = Blocked) (threads m)) as Hb.
    { apply Forall_lookup. intros i pc Hi. destruct (Ht i pc Em Hs Hi) as [| ->]; [done|].
      by specialize (Hg i _ Hi). }
    split; [done|]. intros Hne. apply length_zero_iff_nil.
    assert (count awake (threads m) = 0%nat) as Ha.
    { apply count_zero. intros i pc Hi. rewrite Forall_lookup in Hb. by rewrite (Hb i pc Hi). }
    pose proof (ok_wakeup _ Hok Est) as Hw. rewrite Ha, (Hnone will_notify eq_refl) in Hw.
    enough (count is_blocked (threads m) ≠ 0%nat) by lia. intros Hz. rewrite count_zero in Hz.
    destruct (threads m) as [|pc l]; [done|]. apply Forall_cons in Hb as [-> _].
    by specialize (Hz 0%nat _ eq_refl).
Qed.

Lemma step_threads m e m' :
  monitor_step e m = Some m' → length (threads m') = length (threads m).
Proof.
  destruct e as [c|j who|i|i]; cbn [monitor_step]; unfold caller_step, run_step, wakes_up;
    repeat case_match; intros E; try done; injection E as <-; cbn;
    rewrite ?length_insert, ?length_map; done.
Qed.

Lemma reach_threads n es m : monitor_reach n es m → length (threads m) = n.
Proof.
  induction 1 as [|es m e m' _ IH E]; [apply length_replicate|].
  by rewrite (step_threads _ _ _ E).
Qed.

(** What has been posted, is being executed and was executed, from any state. *)
Lemma steps_account s es s' :
  once_flag s = true → steps s es s' →
  (es ≫= posted_of) ++ queued s ++ executing s
  ≡ₚ queued s' ++ executing s' ++ (es ≫= finished_of) ∧ once_flag s' = true.
Proof.
  intros Ho. induction 1 as [|? es s1 e s2 H1 IH H2]; [by rewrite app_nil_r|].
  destruct (IH Ho) as [HP Ho1]. split.
  - apply step_account in H2; [|by rewrite Ho1]. rewrite !bind_app. cbn. rewrite !app_nil_r.
    transitivity (posted_of e ++ (es ≫= posted_of) ++ queued s ++ executing s); [solve_Permutation|].
    rewrite HP. transitivity ((posted_of e ++ queued s1 ++ executing s1) ++ (es ≫= finished_of));
      [solve_Permutation|]. rewrite H2. solve_Permutation.
  - by destruct H2.
Qed.

(** C10. Nothing is forgotten: from any state the monitor reaches, its threads and its
    callers can make at most [weight] steps; when they can make none, every call has
    returned, and either the scheduler was stopped and every thread has returned, or
    all threads wait and every request that was posted has been executed to its end.
    No wakeup is lost, whichever thread [notify_one] chooses, and nobody is blocked for
    ever on the mutex. *)
Theorem monitor_drains n es m :
  monitor_reach n es m →
  (∀ run m', Forall (λ e, internal e = true) run → run_monitor run m = Some m' →
     (length run ≤ weight m)%nat)
  ∧ ((∀ e, internal e = true → monitor_step e m = None) →
     Forall (λ pc, pc = Left) (callers m)
     ∧ if stopped_ (state m) then Forall (λ pc, pc = Gone) (threads m)
       else Forall (λ pc, pc = Blocked) (threads m)
            ∧ (n ≠ 0%nat → (es ≫= posted_of) ≡ₚ (es ≫= finished_of))).
Proof.
  intros Hr. destruct (reach_both _ _ _ Hr) as [Hok Hf].
  split; [intros run m'; by apply run_monitor_bound|]. intros Hs.
  destruct (still_cases m Hok Hs) as [Hl Hcase]. split; [done|].
  destruct (stopped_ (state m)); [done|]. destruct Hcase as [Hb Hq]. split; [done|]. intros Hn.
  assert (length (threads m) = n) as Hlen by by eapply reach_threads.
  assert (threads m ≠ []) as Hne by (intros E; rewrite E in Hlen; by subst).
  destruct (steps_account (threads_started n) es _ eq_refl (abstract_reach _ _ _ Hr)) as [HP _]. revert HP.
  unfold queued, executing. cbn. rewrite (Hq Hne), pq_elements_empty. cbn.
  assert (map worker_of (threads m) ≫= executing_of = []) as ->.
  { clear -Hb. induction Hb as [|pc l -> _ IH]; [done|]. exact IH. }
  assert (replicate n (Waiting (Func := Func)) ≫= executing_of = []) as ->
    by (clear; by induction n). by rewrite app_nil_r.
Qed.

(** The events a run amounts to. *)
Fixpoint trace (run : list (monitor_event Func)) m : list (event Func) :=
  match run with
  | [] => []
  | e :: run => emits e m ++ match monitor_step e m with Some m => trace run m | None => [] end
  end.

Lemma run_monitor_reach n run es m m' :
  monitor_reach n es m → run_monitor run m = Some m' → monitor_reach n (es ++ trace run m) m'.
Proof.
  revert es m. induction run as [|e run IH]; intros es m Hm; cbn [run_monitor trace].
  - intros [= <-]. by rewrite app_nil_r.
  - destruct (monitor_step e m) as [m1|] eqn:E; [|done]. cbn. intros HR.
    rewrite (assoc (++)). apply IH; [by eapply monitor_next|done].
Qed.
End spec.

(** ** Witnesses: a thread blocks, is woken by a request and blocks again *)

Section witnesses.
#[local] Instance sample_queue : PriorityQueue (item nat) := list_queue item_comp.
#[local] Instance sample_queue_laws : PriorityQueueLaws (item nat) item_comp :=
  item_queue_laws nat.

Definition sample_run : list (monitor_event nat) :=
  [Runs 0; Runs 0; Runs 0; Calls (Post medium 7%nat); Calling 0 None; Calling 0 None;
   Calling 0 None; Calling 0 (Some 0%nat); Calling 0 None; Runs 0; Runs 0; Runs 0; Runs 0;
   Runs 0; Runs 0; Runs 0; Runs 0].
Definition sample_monitor : monitor nat := default (started 1) (run_monitor sample_run (started 1)).
Definition sample_trace : list (event nat) := trace sample_run (started 1).

Lemma sample_reach : monitor_reach 1 sample_trace sample_monitor.
Proof.
  apply (run_monitor_reach 1 sample_run [] (started 1) sample_monitor); [constructor|].
  vm_compute. reflexivity.
Qed.

Lemma monitor_refines_witness :
  steps (threads_started 1)
    [Posted medium 7%nat; Started 0 (mkItem 2 7%nat); Finished 0 (mkItem 2 7%nat)]
    (abstract 1 sample_monitor).
Proof. exact (monitor_refines 1 sample_trace sample_monitor sample_reach). Defined.

Lemma monitor_drains_witness :
  threads sample_monitor = [Blocked] ∧ (sample_trace ≫= posted_of) ≡ₚ (sample_trace ≫= finished_of).
Proof.
  destruct (monitor_drains 1 sample_trace sample_monitor sample_reach) as [_ Hd]. split; [reflexivity|].
  destruct Hd as [_ Hd].
  - intros [c|[|[|j]] who|[|[|i]]|i] He; vm_compute in He; try discriminate; try reflexivity.
  - vm_compute in Hd. destruct Hd as [_ Hd]. apply Hd. discriminate.
Defined.
End witnesses.
