(* ===== verification/UsersDb.v ===== *)
(** * UsersDb: [IUsersDB.h], [IUsersDB.cpp], [SQLiteDB.cpp]

    The account store: three operations, each a short sequence of SQL statements on the
    table [Clients], executed through the SQLAPI library on an SQLite database.  The
    library and the database are the parameter [SqlApi]; what the code relies on is
    [SqlLaws], the documented effect of the four statements on a healthy connection.
    The nicknames and passwords reach the database through [data()], that is as the C
    string at the front of the view ([c_str]). *)

From S2P Require Import Prelude Text.

(** [IUsersDB::status_code] *)
Inductive status_code :=
  | user_credentials_ok | user_not_found | user_pswd_incorrect
  | registered_succes | user_already_registered
  | user_removed | user_failed_to_remove
  | internal_error.
#[global] Instance status_code_eq_dec : EqDecision status_code.
Proof. solve_decision. Defined.

(** [IUsersDB::user] *)
Record user := mkUser { nickname : str; password : str }.

(** [IUsersDB::to_string] *)
Definition status_to_string (code : status_code) : str :=
  match code with
  | user_credentials_ok => lit "User credentials ok"
  | user_not_found => lit "User wasn't found"
  | user_pswd_incorrect => lit "User password is not correct"
  | registered_succes => lit "User was registered with succes"
  | user_already_registered => lit "User is already registered"
  | user_removed => lit "User was removed successfully"
  | user_failed_to_remove => lit "User was not removed"
  | internal_error => lit "Internal error"
  end.

(** The statements of [SQLiteDB.cpp], with the values bound to their parameters. *)
Inductive statement :=
  | select_nickname_password (nickname : str)
  | select_nickname (nickname : str)
  | insert_client (nickname password : str)
  | delete_client (nickname : str).

(** What an [SACommand] reports after [Execute]. *)
Record command_result := mkResult {
  isExecuted : bool;
  isResultSet : bool;
  fetched : list (str * str);         (* the rows FetchNext walks through *)
  RowsAffected : Z;
}.

Class SqlApi := {
  database : Type;
  isConnected : database → bool;
  isAlive : database → bool;
  Execute : statement → database → outcome (command_result * database);
}.

(** The laws: [rows] is the content of [Clients]; on a healthy connection the
    statements succeed and have their SQL meaning. *)
Class SqlLaws `{SqlApi} := {
  rows : database → list (str * str);
  healthy : database → Prop;
  healthy_connected db : healthy db → isConnected db = true ∧ isAlive db = true;
  select_np_spec db n : healthy db →
    ∃ db' k, Execute (select_nickname_password n) db
             = Ok (mkResult true true (filter (λ r, r.1 = n) (rows db)) k, db')
      ∧ healthy db' ∧ rows db' = rows db;
  select_n_spec db n : healthy db →
    ∃ db' k fs, Execute (select_nickname n) db = Ok (mkResult true true fs k, db')
      ∧ fs.*1 = (filter (λ r, r.1 = n) (rows db)).*1
      ∧ healthy db' ∧ rows db' = rows db;
  insert_spec db n p : healthy db →
    ∃ db' b, Execute (insert_client n p) db = Ok (mkResult true b [] 1, db')
      ∧ healthy db' ∧ rows db' = rows db ++ [(n, p)];
  delete_spec db n : healthy db →
    ∃ db' b, Execute (delete_client n) db
             = Ok (mkResult true b []
                     (Z.of_nat (length (filter (λ r, r.1 = n) (rows db)))), db')
      ∧ healthy db' ∧ rows db' = filter (λ r, r.1 ≠ n) (rows db);
}.

(** The library reports failures by exceptions and in no other way. *)
Class SqlThrows `{SqlApi} : Prop :=
  execute_throws : ∀ st db f, Execute st db = Fault f → f = Thrown.

Section operations.
Context `{SqlApi}.
Implicit Types (u : user) (db : database).

(** [catch (SAException const&)] and [catch (...)]: both return [internal_error].
    The database is then as it was before the operation: a statement that throws has
    no effect, and the one statement that can precede it is a [select]. *)
Definition catching (body : outcome (status_code * database)) db
    : outcome (status_code * database) :=
  match body with Fault Thrown => Ok (internal_error, db) | m => m end.

(** [SQLiteDB::retrieve_user]: [FetchNext] positions on the first row, whose second
    column is compared with the whole password view. *)
Definition retrieve_user u db : outcome (status_code * database) :=
  catching
    (if negb (isConnected db) || negb (isAlive db) then Ok (internal_error, db)
     else
       '(command, db) ← Execute (select_nickname_password (c_str (nickname u))) db;
       if negb (isExecuted command) then Ok (internal_error, db)
       else if negb (isResultSet command) then Ok (user_not_found, db)
       else match fetched command with
            | row :: _ =>
                if bool_decide (password u = c_str row.2)
                then Ok (user_credentials_ok, db)
                else Ok (user_pswd_incorrect, db)
            | [] => Ok (user_not_found, db)
            end) db.

(** [SQLiteDB::register_user] *)
Definition register_user u db : outcome (status_code * database) :=
  catching
    (if negb (isConnected db) || negb (isAlive db) then Ok (internal_error, db)
     else
       '(retrieveCommand, db) ← Execute (select_nickname (c_str (nickname u))) db;
       if negb (isExecuted retrieveCommand) then Ok (internal_error, db)
       else if negb (isResultSet retrieveCommand) then Ok (internal_error, db)
       else match fetched retrieveCommand with
            | _ :: _ => Ok (user_already_registered, db)
            | [] =>
                '(insertCommand, db) ←
                  Execute (insert_client (c_str (nickname u)) (c_str (password u))) db;
                if negb (isExecuted insertCommand) then Ok (internal_error, db)
                else if bool_decide (RowsAffected insertCommand = 0%Z)
                then Ok (internal_error, db)
                else Ok (registered_succes, db)
            end) db.

(** [SQLiteDB::erase_user] *)
Definition erase_user u db : outcome (status_code * database) :=
  catching
    (if negb (isConnected db) || negb (isAlive db) then Ok (internal_error, db)
     else
       '(command, db) ← Execute (delete_client (c_str (nickname u))) db;
       if negb (isExecuted command) then Ok (internal_error, db)
       else if bool_decide (RowsAffected command = 0%Z) then Ok (user_failed_to_remove, db)
       else Ok (user_removed, db)) db.

(** The statuses each operation may return, from the comments of [IUsersDB.h]. *)
Definition retrieve_statuses :=
  [internal_error; user_not_found; user_pswd_incorrect; user_credentials_ok].
Definition register_statuses :=
  [internal_error; user_already_registered; registered_succes].
Definition erase_statuses := [internal_error; user_failed_to_remove; user_removed].

Definition returns_one_of (l : list status_code) (m : outcome (status_code * database)) :=
  match m with Ok (code, _) => code ∈ l | Fault f => f ≠ Thrown end.

Lemma catching_returns l body db :
  internal_error ∈ l →
  (∀ code db', body = Ok (code, db') → code ∈ l) → returns_one_of l (catching body db).
Proof.
  intros Hi Hb. destruct body as [[code db']|[]]; cbn; [by eapply Hb|done..].
Qed.

(** Case analysis on the steps of an operation that returned. *)
Ltac operation_cases :=
  apply catching_returns; [by left|]; intros code db' Hb;
  repeat (case_match; outcome_inv; try done);
  repeat match goal with
         | H : (let '(_, _) := ?x in _) = Ok _ |- _ => destruct x
         | H : (if ?b then _ else _) = Ok _ |- _ => destruct b
         | H : match ?l with [] => _ | _ => _ end = Ok _ |- _ => destruct l
         | _ => progress outcome_inv
         end;
  unfold retrieve_statuses, register_statuses, erase_statuses; set_solver.

(** Whatever the database does, an operation lets no exception escape, as its
    [noexcept] promises, and returns one of the statuses its interface documents. *)
Lemma retrieve_returns u db : returns_one_of retrieve_statuses (retrieve_user u db).
Proof. operation_cases. Qed.

Lemma register_returns u db : returns_one_of register_statuses (register_user u db).
Proof. operation_cases. Qed.

Lemma erase_returns u db : returns_one_of erase_statuses (erase_user u db).
Proof. operation_cases. Qed.

(** When the library only throws, an operation always returns. *)
Lemma operations_return `{!SqlThrows} u db :
  is_ok (retrieve_user u db) = true ∧ is_ok (register_user u db) = true
  ∧ is_ok (erase_user u db) = true.
Proof.
  unfold retrieve_user, register_user, erase_user, catching.
  split_and!; repeat (case_match; try done);
  repeat match goal with
  | H : (?m ≫= _) = Fault _ |- _ =>
      destruct m as [[? ?]|] eqn:?; cbn [mbind outcome_bind] in H
  | E : Execute _ _ = Fault _ |- _ => apply execute_throws in E
  | H : (if ?b then _ else _) = Fault _ |- _ => destruct b
  | H : match ?l with [] => _ | _ => _ end = Fault _ |- _ => destruct l
  end; congruence.
Qed.

End operations.

(** ** Refinement of a finite map from nicknames to passwords *)

Section refinement.
Context `{SqlLaws}.
Implicit Types (u : user) (db : database) (m : gmap str str).

(** The table lists the map: one row per nickname. *)
Definition stores db m : Prop := healthy db ∧ rows db ≡ₚ map_to_list m.

Definition spec_retrieve u m : status_code :=
  match m !! c_str (nickname u) with
  | None => user_not_found
  | Some p => if bool_decide (password u = c_str p) then user_credentials_ok
              else user_pswd_incorrect
  end.
Definition spec_register u m : status_code * gmap str str :=
  match m !! c_str (nickname u) with
  | Some _ => (user_already_registered, m)
  | None => (registered_succes, <[c_str (nickname u) := c_str (password u)]> m)
  end.
Definition spec_erase u m : status_code * gmap str str :=
  match m !! c_str (nickname u) with
  | Some _ => (user_removed, base.delete (c_str (nickname u)) m)
  | None => (user_failed_to_remove, m)
  end.

Lemma filter_map_to_list m n :
  filter (λ r : str * str, r.1 = n) (map_to_list m)
  ≡ₚ match m !! n with Some p => [(n, p)] | None => [] end.
Proof.
  destruct (m !! n) as [p|] eqn:E.
  - rewrite <- (insert_delete_id m n p E), map_to_list_insert by apply lookup_delete_eq.
    rewrite filter_cons_True by done. rewrite filter_none; [done|].
    apply Forall_forall. intros [k v] Hk%elem_of_map_to_list. cbn. intros ->.
    by rewrite lookup_delete_eq in Hk.
  - rewrite filter_none; [done|].
    apply Forall_forall. intros [k v] Hk%elem_of_map_to_list. cbn. intros ->. congruence.
Qed.

Lemma stores_filter db m n :
  stores db m →
  filter (λ r : str * str, r.1 = n) (rows db)
  = match m !! n with Some p => [(n, p)] | None => [] end.
Proof.
  intros [_ Hr]. pose proof (filter_map_to_list m n) as Hf. rewrite <- Hr in Hf.
  destruct (m !! n); [by apply Permutation_singleton_r in Hf|by apply Permutation_nil_r in Hf].
Qed.

Lemma stores_alive db m : stores db m → negb (isConnected db) || negb (isAlive db) = false.
Proof. intros [Hh _]. destruct (healthy_connected db Hh) as [-> ->]. done. Qed.

Lemma retrieve_spec u db m :
  stores db m →
  ∃ db', retrieve_user u db = Ok (spec_retrieve u m, db') ∧ stores db' m.
Proof.
  intros Hs. unfold retrieve_user, spec_retrieve. rewrite (stores_alive _ _ Hs).
  destruct (select_np_spec db (c_str (nickname u)) (proj1 Hs)) as (db' & k & E & Hh & Hr).
  rewrite E. cbn. rewrite (stores_filter _ _ _ Hs). exists db'.
  assert (stores db' m) by (split; [done|rewrite Hr; apply Hs]).
  destruct (m !! _); cbn; [case_bool_decide|]; done.
Qed.

Lemma register_spec u db m :
  stores db m →
  ∃ db', register_user u db = Ok ((spec_register u m).1, db')
    ∧ stores db' (spec_register u m).2.
Proof.
  intros Hs. unfold register_user, spec_register. rewrite (stores_alive _ _ Hs).
  destruct (select_n_spec db (c_str (nickname u)) (proj1 Hs))
    as (db' & k & fs & E & Hfs & Hh & Hr).
  rewrite E. cbn. rewrite (stores_filter _ _ _ Hs) in Hfs.
  assert (stores db' m) as Hs' by (split; [done|rewrite Hr; apply Hs]).
  destruct (m !! c_str (nickname u)) eqn:Em; destruct fs as [|f fs]; try done.
  - exists db'. split; [done|exact Hs'].
  - destruct (insert_spec db' (c_str (nickname u)) (c_str (password u)) Hh)
      as (db2 & b & E2 & Hh2 & Hr2).
    exists db2. cbn [fetched]. rewrite E2. split; [done|]. split; [done|].
    rewrite Hr2. cbn [snd]. rewrite map_to_list_insert by done.
    rewrite (proj2 Hs'). by rewrite Permutation_app_comm.
Qed.

Lemma filter_ne_map_to_list m n :
  filter (λ r : str * str, r.1 ≠ n) (map_to_list m) ≡ₚ map_to_list (base.delete n m).
Proof.
  assert (∀ m' : gmap str str, m' !! n = None →
    filter (λ r : str * str, r.1 ≠ n) (map_to_list m') = map_to_list m') as Hn.
  { intros m' E. apply filter_all, Forall_forall. intros [k v] Hk%elem_of_map_to_list.
    cbn. congruence. }
  destruct (m !! n) as [p|] eqn:E.
  - rewrite <- (insert_delete_id m n p E) at 1.
    rewrite map_to_list_insert by apply lookup_delete_eq.
    rewrite filter_cons_False by (by intros []). by rewrite Hn by apply lookup_delete_eq.
  - by rewrite delete_id, Hn.
Qed.

Lemma erase_spec u db m :
  stores db m →
  ∃ db', erase_user u db = Ok ((spec_erase u m).1, db') ∧ stores db' (spec_erase u m).2.
Proof.
  intros Hs. unfold erase_user, spec_erase. rewrite (stores_alive _ _ Hs).
  destruct (delete_spec db (c_str (nickname u)) (proj1 Hs)) as (db' & b & E & Hh & Hr).
  rewrite E. cbn. exists db'.
  assert (stores db' (base.delete (c_str (nickname u)) m)) as Hs'.
  { split; [done|]. rewrite Hr, <- filter_ne_map_to_list. by rewrite (proj2 Hs). }
  rewrite (stores_filter _ _ _ Hs).
  destruct (m !! c_str (nickname u)) eqn:Em; cbn; [by split|].
  split; [done|]. by rewrite delete_id in Hs'.
Qed.

(** C23. On a healthy database the three operations refine a finite map from
    nicknames to passwords: each returns the status the map determines and leaves the
    table storing the map's new value. *)
Theorem users_db_refines u db m :
  stores db m →
  (∃ db', retrieve_user u db = Ok (spec_retrieve u m, db') ∧ stores db' m)
  ∧ (∃ db', register_user u db = Ok ((spec_register u m).1, db')
            ∧ stores db' (spec_register u m).2)
  ∧ (∃ db', erase_user u db = Ok ((spec_erase u m).1, db')
            ∧ stores db' (spec_erase u m).2).
Proof. intros. split_and!; eauto using retrieve_spec, register_spec, erase_spec. Qed.

(** A nickname registered once can sign in with its password, and with no other,
    until it is erased - provided the password has no NUL character: the text after
    it is not stored, and then no signing in with that password succeeds. *)
Theorem register_retrieve u db m db' p :
  stores db m → m !! c_str (nickname u) = None →
  register_user u db = Ok (registered_succes, db') →
  ∃ db'', retrieve_user (mkUser (nickname u) p) db'
          = Ok (if bool_decide (p = c_str (password u))
                then user_credentials_ok else user_pswd_incorrect, db'')
    ∧ (p = password u → p = c_str (password u) ↔ NUL ∉ p).
Proof.
  intros Hs Hn HR. destruct (register_spec u db m Hs) as (db1 & E & Hs1).
  rewrite HR in E. injection E as _ <-. unfold spec_register in Hs1. rewrite Hn in Hs1.
  destruct (retrieve_spec (mkUser (nickname u) p) db' _ Hs1) as (db2 & E & _).
  exists db2. rewrite E. unfold spec_retrieve. cbn. rewrite lookup_insert_eq.
  rewrite (c_str_id (c_str (password u))) by apply c_str_no_nul. split; [done|].
  intros ->. split; [intros ->; apply c_str_no_nul|intros; by rewrite c_str_id].
Qed.
End refinement.

(** ** A concrete database, for witnesses *)

Definition sample_execute (st : statement) (db : list (str * str))
    : outcome (command_result * list (str * str)) :=
  match st with
  | select_nickname_password n =>
      Ok (mkResult true true (filter (λ r, r.1 = n) db) 0, db)
  | select_nickname n => Ok (mkResult true true (filter (λ r, r.1 = n) db) 0, db)
  | insert_client n p => Ok (mkResult true false [] 1, db ++ [(n, p)])
  | delete_client n =>
      Ok (mkResult true false [] (Z.of_nat (length (filter (λ r, r.1 = n) db))),
          filter (λ r, r.1 ≠ n) db)
  end.

Definition sample_sql : SqlApi := {|
  database := list (str * str);
  isConnected := λ _, true;
  isAlive := λ _, true;
  Execute := sample_execute;
|}.

Definition sample_sql_laws : @SqlLaws sample_sql.
Proof.
  refine (@Build_SqlLaws sample_sql (λ db, db) (λ _, True) _ _ _ _ _); cbn; eauto 10.
Defined.

Definition ann : user := mkUser (lit "ann") (lit "pw").

Lemma stores_empty : @stores sample_sql sample_sql_laws [] ∅.
Proof. split; [exact I|]. by rewrite map_to_list_empty. Qed.

Lemma users_db_refines_witness :
  ∃ db', @register_user sample_sql ann [] = Ok (registered_succes, db').
Proof.
  destruct (@users_db_refines sample_sql sample_sql_laws ann [] ∅ stores_empty)
    as (_ & (db' & E & _) & _).
  exists db'. exact E.
Defined.

Lemma register_retrieve_witness :
  ∃ db'', @retrieve_user sample_sql ann [(lit "ann", lit "pw")]
          = Ok (user_credentials_ok, db'').
Proof.
  destruct (@register_retrieve sample_sql sample_sql_laws ann [] ∅
              [(lit "ann", lit "pw")] (lit "pw") stores_empty eq_refl eq_refl)
    as (db'' & E & _).
  exists db''. exact E.
Defined.
