(* ===== verification/Transfer.v ===== *)
(** * Transfer: the file delivers and receivers

    [abstract_file_deliver.h], [stream_file_deliver.cpp],
    [compressed_mode_file_deliver.cpp], [abstract_file_receiver.h],
    [stream_mode_file_receiver.cpp], [compressed_mode_file_receiver.cpp].

    A transfer is a chain of completion handlers, each of which starts at most one
    further operation.  The handlers are functions from the completion they receive to
    the operation they start; [..._deliver] and [..._receive] run the chain against an
    environment, the parameters of the section: the file on disk (class
    [AsyncWindowsFileIO] of the sibling project) and the TLS socket (Boost.Asio).  The
    laws of the environment are what their documentation promises of a composed
    operation. *)

From S2P Require Import Prelude Text Protocol.

(** The classes of [error_code] the handlers distinguish. *)
Inductive io_error := no_error | eof | other_error.
#[global] Instance io_error_eq_dec : EqDecision io_error.
Proof. solve_decision. Defined.

Definition failed (e : io_error) : bool := negb (bool_decide (e = no_error)).

(** [AbstractFileDeliver::KB500] *)
Definition KB500 : nat := Z.to_nat 512000.

(** The operation a deliver's handler starts, or the call of [CleanUpHandler_]. *)
Inductive deliver_op := AsyncReadFile | AsyncWriteSocket (data : str) | CleanUp.

(** The operation a receiver's handler starts, or the completion handler's call. *)
Inductive receive_op := AsyncReadSocket (n : Z) | AsyncWriteFile (data : str)
  | Complete (Success : bool).

(** ** The environment *)

Class Transport := {
  file_read : nat → str → io_error * str;        (* buffer size, rest of the file *)
  file_write : str → str → io_error;             (* written so far, data *)
  socket_read : Z → str → io_error * str;        (* buffer size, bytes still to come *)
  socket_write : str → str → io_error * nat;     (* sent so far, data: bytes accepted *)
}.

(** Reading a file makes progress, and reports the end with the last bytes; an
    operation on the socket that transfers fewer bytes than asked reports an error. *)
Class TransportLaws `{Transport} : Prop := {
  file_read_ok n rest : (0 < n)%nat →
    match file_read n rest with
    | (no_error, c) => c ≠ [] ∧ (length c ≤ n)%nat ∧ c `prefix_of` rest
    | (eof, c) => c = rest ∧ (length c ≤ n)%nat
    | (other_error, _) => True
    end;
  socket_read_full n rest : 0 ≤ n ≤ Z.of_nat (length rest) →
    socket_read n rest = (no_error, take (Z.to_nat n) rest);
  socket_read_short n rest : Z.of_nat (length rest) < n →
    ∃ e, e ≠ no_error ∧ socket_read n rest = (e, rest);
  socket_write_ok sent data :
    match socket_write sent data with
    | (no_error, n) => n = length data
    | (_, n) => (n ≤ length data)%nat
    end;
}.

(** The environment works: no operation fails other than by reaching the end. *)
Class Faultless `{Transport} : Prop := {
  file_read_faultless n rest : (file_read n rest).1 ≠ other_error;
  file_write_faultless written data : file_write written data = no_error;
  socket_write_faultless sent data : (socket_write sent data).1 = no_error;
}.

(** [AbstractCompressor]: [decompress] throws on a corrupt chunk. *)
Class Compressor := {
  compress : str → str;
  decompress : str → outcome str;
}.

(** ** Stream mode *)

Section stream.
Context `{Transport}.

(** [StreamModeFileDeliver::handle_read]; the result includes [DoneFlag]. *)
Definition stream_deliver_handle_read (error : io_error) (Buffer : str) (DoneFlag : bool)
    : deliver_op * bool :=
  if negb (failed error) || (bool_decide (error = eof) && bool_decide (0 < length Buffer)%nat)
  then (AsyncWriteSocket Buffer, if bool_decide (error = eof) then true else DoneFlag)
  else (CleanUp, DoneFlag).

(** [StreamModeFileDeliver::handle_write] *)
Definition stream_deliver_handle_write (error : io_error) (DoneFlag : bool) : deliver_op :=
  if negb (failed error) then if DoneFlag then CleanUp else AsyncReadFile
  else CleanUp.

(** The chain that [Start] begins: the bytes sent when [CleanUpHandler_] is called. *)
Fixpoint stream_deliver (fuel : nat) (rest sent : str) (DoneFlag : bool) : outcome str :=
  match fuel with
  | O => Fault OutOfFuel
  | S fuel =>
      let '(error, bytes) := file_read KB500 rest in
      match stream_deliver_handle_read error bytes DoneFlag with
      | (AsyncWriteSocket data, DoneFlag) =>
          let '(error, n) := socket_write sent data in
          let sent := sent ++ take n data in
          match stream_deliver_handle_write error DoneFlag with
          | AsyncReadFile => stream_deliver fuel (drop (length bytes) rest) sent DoneFlag
          | _ => Ok sent
          end
      | _ => Ok sent
      end
  end.

Context `{Protocol}.

(** [BytesWrottedToDisck == FileSize ? OnSuccess() : OnError()] *)
Definition check_size (BytesWrotted FileSize : Z) : receive_op :=
  Complete (bool_decide (BytesWrotted = FileSize)).

(** [StreamModeFileReceiver::handle_read] *)
Definition stream_receive_handle_read (error : io_error) (Buffer : str)
    (BytesWrotted FileSize : Z) : receive_op :=
  if negb (failed error) || bool_decide (0 < length Buffer)%nat
  then AsyncWriteFile Buffer
  else check_size BytesWrotted FileSize.

(** [StreamModeFileReceiver::handle_write]; the result includes the byte count. *)
Definition stream_receive_handle_write (error : io_error) (bytes_transferred : nat)
    (BytesWrotted : Z) : receive_op * Z :=
  if negb (failed error)
  then (AsyncReadSocket (Z.of_nat MAX_COMPRESSED_SEGMENT_LENGTH),
        u64 (BytesWrotted + Z.of_nat bytes_transferred))
  else (Complete false, BytesWrotted).

(** The chain that [Start] begins: whether the completion handler is called with
    success, and the file on disk. *)
Fixpoint stream_receive (fuel : nat) (incoming written : str) (BytesWrotted FileSize : Z)
    : outcome (bool * str) :=
  match fuel with
  | O => Fault OutOfFuel
  | S fuel =>
      let '(error, bytes) :=
        socket_read (Z.of_nat MAX_COMPRESSED_SEGMENT_LENGTH) incoming in
      match stream_receive_handle_read error bytes BytesWrotted FileSize with
      | AsyncWriteFile data =>
          let error := file_write written data in
          match stream_receive_handle_write error (length data) BytesWrotted with
          | (AsyncReadSocket _, BytesWrotted) =>
              stream_receive fuel (drop (length bytes) incoming) (written ++ data)
                BytesWrotted FileSize
          | (Complete Success, _) => Ok (Success, written)
          | (AsyncWriteFile _, _) => Ok (false, written)
          end
      | Complete Success => Ok (Success, written)
      | AsyncReadSocket _ => Ok (false, written)
      end
  end.
End stream.

(** ** Compressed mode *)

Section compressed.
Context `{Transport} `{Compressor} `{Protocol}.

(** The chunk header: [setw(COMPRESSED_CHUNK_HEADER_LENGTH) << setfill('0')]. *)
Definition chunk_header (CompressedChunk : str) : str :=
  setw_fill0 COMPRESSED_CHUNK_HEADER_LENGTH (Z.of_nat (length CompressedChunk)).

(** [CompressedModeFileDeliver::handle_read]: compresses, writes the header
    synchronously and starts writing the chunk.  The result includes the bytes sent
    and [DoneFlag]. *)
Definition compressed_deliver_handle_read (error : io_error) (Buffer : str) (sent : str)
    (DoneFlag : bool) : deliver_op * str * bool :=
  if negb (failed error) || (bool_decide (error = eof) && bool_decide (0 < length Buffer)%nat)
  then
    let DoneFlag := if bool_decide (error = eof) then true else DoneFlag in
    let CompressedChunk := compress Buffer in
    let compr_len := chunk_header CompressedChunk in
    let '(ec, n) := socket_write sent compr_len in
    let sent := sent ++ take n compr_len in
    if failed ec then (CleanUp, sent, DoneFlag)
    else (AsyncWriteSocket CompressedChunk, sent, DoneFlag)
  else (CleanUp, sent, DoneFlag).

(** [CompressedModeFileDeliver::handle_write] *)
Definition compressed_deliver_handle_write (error : io_error) (DoneFlag : bool)
    : deliver_op :=
  if negb (failed error) then if DoneFlag then CleanUp else AsyncReadFile
  else CleanUp.

Fixpoint compressed_deliver (fuel : nat) (rest sent : str) (DoneFlag : bool)
    : outcome str :=
  match fuel with
  | O => Fault OutOfFuel
  | S fuel =>
      let '(error, bytes) := file_read KB500 rest in
      match compressed_deliver_handle_read error bytes sent DoneFlag with
      | (AsyncWriteSocket data, sent, DoneFlag) =>
          let '(error, n) := socket_write sent data in
          let sent := sent ++ take n data in
          match compressed_deliver_handle_write error DoneFlag with
          | AsyncReadFile => compressed_deliver fuel (drop (length bytes) rest) sent DoneFlag
          | _ => Ok sent
          end
      | (_, sent, _) => Ok sent
      end
  end.

(** The end of [Start] and of [handle_write]: read a header synchronously, then start
    reading a chunk of the length it announces.  [asio::buffer(Buffer, n)] takes [n]
    as [size_t] and covers at most the array. *)
Definition read_chunk_header (incoming : str) (BytesWrotted FileSize : Z)
    : outcome (receive_op * str) :=
  let '(ec, header) :=
    socket_read (Z.of_nat COMPRESSED_CHUNK_HEADER_LENGTH) incoming in
  let incoming := drop (length header) incoming in
  if failed ec then Ok (check_size BytesWrotted FileSize, incoming)
  else
    n ← atoll header;
    Ok (AsyncReadSocket (Z.min (u64 n) (Z.of_nat MAX_COMPRESSED_SEGMENT_LENGTH)), incoming).

(** [CompressedModeFileReceiver::handle_read] *)
Definition compressed_receive_handle_read (error : io_error) (Buffer : str)
    (BytesWrotted FileSize : Z) : receive_op :=
  if negb (failed error) || bool_decide (0 < length Buffer)%nat
  then match decompress Buffer with
       | Ok DecompressedChunk => AsyncWriteFile DecompressedChunk
       | Fault _ => check_size BytesWrotted FileSize
       end
  else check_size BytesWrotted FileSize.

(** [CompressedModeFileReceiver::handle_write] *)
Definition compressed_receive_handle_write (error : io_error) (bytes_transferred : nat)
    (incoming : str) (BytesWrotted FileSize : Z) : outcome (receive_op * str * Z) :=
  if negb (failed error) then
    let BytesWrotted := u64 (BytesWrotted + Z.of_nat bytes_transferred) in
    '(op, incoming) ← read_chunk_header incoming BytesWrotted FileSize;
    Ok (op, incoming, BytesWrotted)
  else Ok (check_size BytesWrotted FileSize, incoming, BytesWrotted).

(** The chain from a pending operation on. *)
Fixpoint compressed_receive (fuel : nat) (op : receive_op) (incoming written : str)
    (BytesWrotted FileSize : Z) : outcome (bool * str) :=
  match fuel with
  | O => Fault OutOfFuel
  | S fuel =>
      match op with
      | Complete Success => Ok (Success, written)
      | AsyncReadSocket n =>
          let '(error, bytes) := socket_read n incoming in
          compressed_receive fuel
            (compressed_receive_handle_read error bytes BytesWrotted FileSize)
            (drop (length bytes) incoming) written BytesWrotted FileSize
      | AsyncWriteFile data =>
          let error := file_write written data in
          let written := if failed error then written else written ++ data in
          '(op, incoming, BytesWrotted) ←
            compressed_receive_handle_write error (length data) incoming
              BytesWrotted FileSize;
          compressed_receive fuel op incoming written BytesWrotted FileSize
      end
  end.

(** [CompressedModeFileReceiver::Start] *)
Definition compressed_receive_start (fuel : nat) (incoming : str) (FileSize : Z)
    : outcome (bool * str) :=
  '(op, incoming) ← read_chunk_header incoming 0 FileSize;
  compressed_receive fuel op incoming [] 0 FileSize.
End compressed.
