(* ===== verification/TransferSpec.v ===== *)
(** * TransferSpec: what a file transfer guarantees

    Stream mode: every chain of handlers ends, sends a prefix of the file whatever
    fails, and reproduces the file when nothing fails.  Compressed mode: the receiver
    ends and stays within its buffer for arbitrary bytes from the network, and
    reproduces the file the deliver sends. *)

From S2P Require Import Prelude Text Protocol Transfer.

Lemma failed_false e : failed e = false ↔ e = no_error.
Proof. unfold failed. case_bool_decide; naive_solver. Qed.

Lemma failed_true e : failed e = true ↔ e ≠ no_error.
Proof. unfold failed. case_bool_decide; naive_solver. Qed.

Lemma KB500_pos : (0 < KB500)%nat.
Proof. unfold KB500. lia. Qed.

Lemma prefix_drop_app {A} (c rest : list A) :
  c `prefix_of` rest → c ++ drop (length c) rest = rest.
Proof. intros [k ->]. by rewrite drop_app_length. Qed.

Lemma prefix_app_drop {A} (c d rest : list A) :
  c `prefix_of` rest → d `prefix_of` drop (length c) rest → (c ++ d) `prefix_of` rest.
Proof. intros Hc Hd. rewrite <- (prefix_drop_app c rest Hc). by apply prefix_app. Qed.

Lemma take_prefix {A} n (l : list A) : take n l `prefix_of` l.
Proof. exists (drop n l). by rewrite take_drop. Qed.

(** ** Stream mode *)

Section stream.
Context `{TransportLaws} `{Protocol}.

Lemma deliver_handle_read_cases e c d :
  stream_deliver_handle_read e c d =
  match e with
  | no_error => (AsyncWriteSocket c, d)
  | eof => match c with [] => (CleanUp, d) | _ => (AsyncWriteSocket c, true) end
  | other_error => (CleanUp, d)
  end.
Proof. by destruct e, c. Qed.

Lemma deliver_handle_write_cases e d :
  stream_deliver_handle_write e d =
  match e with no_error => if d then CleanUp else AsyncReadFile | _ => CleanUp end.
Proof. by destruct e. Qed.

(** One round of the deliver's chain: what it sends, and whether it goes on. *)
Lemma stream_round rest sent :
  ∃ c, c `prefix_of` rest
    ∧ ((∀ fuel, stream_deliver (S fuel) rest sent false = Ok (sent ++ c))
       ∧ (Faultless → c = rest)
       ∨ c ≠ [] ∧ ∀ fuel, stream_deliver (S fuel) rest sent false
           = stream_deliver fuel (drop (length c) rest) (sent ++ c) false).
Proof.
  pose proof (file_read_ok KB500 rest KB500_pos) as Hr.
  pose proof (λ F, @file_read_faultless _ F KB500 rest) as Hf.
  cbn [stream_deliver]. destruct (file_read KB500 rest) as [er c].
  rewrite deliver_handle_read_cases.
  assert (∀ data, data `prefix_of` rest → data ≠ [] →
    take (socket_write sent data).2 data `prefix_of` rest ∧
    match (socket_write sent data).1 with
    | no_error => take (socket_write sent data).2 data = data
    | _ => ¬ Faultless
    end) as Hw.
  { intros data Hd _. split; [by etrans; [apply take_prefix|]|].
    pose proof (socket_write_ok sent data) as Hok.
    pose proof (λ F, @socket_write_faultless _ F sent data) as Hwf.
    destruct (socket_write sent data) as [[] n]; cbn in *.
    - by rewrite firstn_all2 by lia.
    - intros F. by specialize (Hwf F).
    - intros F. by specialize (Hwf F). }
  destruct er.
  - destruct Hr as (Hne & _ & Hp). specialize (Hw c Hp Hne).
    destruct (socket_write sent c) as [ew n]; cbn in Hw. destruct Hw as [Hpt Hw].
    exists (take n c). split; [done|]. setoid_rewrite deliver_handle_write_cases.
    destruct ew; [right; by rewrite Hw|left; done..].
  - destruct Hr as [-> _]. destruct rest as [|x rest].
    { exists []. split; [done|]. left. by rewrite app_nil_r. }
    specialize (Hw (x :: rest) ltac:(done) ltac:(done)).
    destruct (socket_write sent (x :: rest)) as [ew n]; cbn [fst snd] in Hw.
    destruct Hw as [Hpt Hw]. exists (take n (x :: rest)). split; [done|].
    setoid_rewrite deliver_handle_write_cases. left. split; [by destruct ew|].
    by destruct ew.
  - exists []. split; [apply prefix_nil|]. left. rewrite app_nil_r. split; [done|].
    intros F. by destruct (Hf F).
Qed.

Lemma stream_deliver_spec fuel rest sent :
  (length rest < fuel)%nat →
  ∃ out, stream_deliver fuel rest sent false = Ok (sent ++ out) ∧ out `prefix_of` rest
    ∧ (Faultless → out = rest).
Proof.
  revert rest sent. induction fuel as [|fuel IH]; intros rest sent Hl; [lia|].
  destruct (stream_round rest sent) as (c & Hp & [[E Hf]|[Hne E]]).
  - exists c. by rewrite E.
  - rewrite E. destruct (IH (drop (length c) rest) (sent ++ c)) as (out & Eo & Hpo & Hfo).
    { rewrite length_drop. pose proof (prefix_length _ _ Hp).
      assert (length c ≠ 0)%nat by (by intros ?%length_zero_iff_nil). lia. }
    exists (c ++ out). rewrite Eo, app_assoc. split; [done|].
    split; [by apply prefix_app_drop|].
    intros F. rewrite (Hfo F). by apply prefix_drop_app.
Qed.

(** Delivering a file in stream mode always ends, after at most one round per
    byte and one more; whatever fails on the way, the bytes sent are a prefix of the
    file, and when nothing fails they are the file. *)
Theorem stream_deliver_total file :
  ∃ sent, stream_deliver (S (length file)) file [] false = Ok sent
    ∧ sent `prefix_of` file ∧ (Faultless → sent = file).
Proof. apply (stream_deliver_spec (S (length file)) file []). lia. Qed.

Hypothesis buffer_pos : (0 < MAX_COMPRESSED_SEGMENT_LENGTH)%nat.

Lemma receive_handle_read_cases e c B FileSize :
  stream_receive_handle_read e c B FileSize =
  if failed e && bool_decide (c = []) then check_size B FileSize else AsyncWriteFile c.
Proof. unfold stream_receive_handle_read. by destruct (failed e), c. Qed.

(** One round of the receiver's chain. *)
Lemma stream_receive_round incoming :
  ∃ c, c `prefix_of` incoming ∧ (c = [] → incoming = []) ∧
    ∀ fuel written B FileSize,
      stream_receive (S fuel) incoming written B FileSize =
      (if bool_decide (c = []) then Ok (bool_decide (B = FileSize), written)
       else if failed (file_write written c) then Ok (false, written)
       else stream_receive fuel (drop (length c) incoming) (written ++ c)
              (u64 (B + Z.of_nat (length c))) FileSize).
Proof.
  set (n := Z.of_nat MAX_COMPRESSED_SEGMENT_LENGTH).
  destruct (decide (n ≤ Z.of_nat (length incoming))) as [Hn|Hn].
  - exists (take (Z.to_nat n) incoming).
    assert (length (take (Z.to_nat n) incoming) ≠ 0)%nat as Hc
      by (rewrite length_take; lia).
    split; [apply take_prefix|]. split; [intros E; by rewrite E in Hc|].
    intros fuel written B FileSize. cbn [stream_receive]. fold n.
    rewrite socket_read_full, receive_handle_read_cases by lia.
    rewrite bool_decide_eq_false_2, andb_false_r by (intros E; by rewrite E in Hc).
    unfold stream_receive_handle_write. by destruct (failed (file_write _ _)).
  - destruct (socket_read_short n incoming ltac:(lia)) as (e & He & E).
    exists incoming. split; [done|]. split; [done|].
    intros fuel written B FileSize. cbn [stream_receive]. fold n. rewrite E.
    rewrite receive_handle_read_cases, (proj2 (failed_true e) He). cbn [andb].
    case_bool_decide; [done|].
    unfold stream_receive_handle_write. by destruct (failed (file_write _ _)).
Qed.

Lemma stream_receive_spec fuel incoming written B FileSize :
  (length incoming < fuel)%nat → in_u64 B →
  ∃ ok file, stream_receive fuel incoming written B FileSize = Ok (ok, written ++ file)
    ∧ file `prefix_of` incoming
    ∧ (ok = true → file = incoming ∧ u64 (B + Z.of_nat (length incoming)) = FileSize)
    ∧ (Faultless → file = incoming
       ∧ ok = bool_decide (u64 (B + Z.of_nat (length incoming)) = FileSize)).
Proof.
  revert incoming written B. induction fuel as [|fuel IH]; intros incoming written B Hl HB;
    [lia|].
  destruct (stream_receive_round incoming) as (c & Hp & Hnil & E). rewrite E.
  case_bool_decide as Hc.
  - rewrite (Hnil Hc). exists (bool_decide (B = FileSize)), [].
    assert (u64 (B + Z.of_nat (length (A := ascii) [])) = B) as -> by
      (cbn; rewrite Z.add_0_r; by apply u64_id).
    rewrite app_nil_r. split; [done|]. split; [apply prefix_nil|].
    split; [by intros ?%bool_decide_eq_true|done].
  - destruct (failed _) eqn:Ef.
    + exists false, []. rewrite app_nil_r. split_and!; [done|apply prefix_nil|done|].
      intros F. rewrite file_write_faultless in Ef. done.
    + destruct (IH (drop (length c) incoming) (written ++ c) (u64 (B + Z.of_nat (length c))))
        as (ok & file & Eo & Hpo & Hok & Hfo); [|apply u64_range|].
      { rewrite length_drop. pose proof (prefix_length _ _ Hp).
        assert (length c ≠ 0)%nat by (by intros ?%length_zero_iff_nil). lia. }
      assert (u64 (u64 (B + Z.of_nat (length c)) + Z.of_nat (length (drop (length c) incoming)))
        = u64 (B + Z.of_nat (length incoming))) as Hsum.
      { unfold u64. rewrite Zplus_mod_idemp_l. f_equal.
        rewrite <- (prefix_drop_app c incoming Hp) at 2. rewrite length_app. lia. }
      rewrite Hsum in Hok, Hfo. exists ok, (c ++ file). rewrite Eo, app_assoc.
      pose proof (prefix_drop_app c incoming Hp) as Hd.
      split_and!; [done|by apply prefix_app_drop| |].
      * intros [-> ?]%Hok. done.
      * intros F. destruct (Hfo F) as [-> ?]. done.
Qed.

(** C26. Receiving a file in stream mode always ends; whatever fails, the file on disk
    is a prefix of what the sender sent.  Success is reported only when everything
    sent was written and its length, modulo 2^64, is the announced size; and then it
    is reported when no write fails. *)
Theorem stream_receive_total incoming FileSize :
  ∃ ok file, stream_receive (S (length incoming)) incoming [] 0 FileSize = Ok (ok, file)
    ∧ file `prefix_of` incoming
    ∧ (ok = true → file = incoming ∧ u64 (Z.of_nat (length incoming)) = FileSize)
    ∧ (Faultless → file = incoming
       ∧ ok = bool_decide (u64 (Z.of_nat (length incoming)) = FileSize)).
Proof.
  apply (stream_receive_spec (S (length incoming)) incoming [] 0); [lia|].
  split; [lia|reflexivity].
Qed.
End stream.

(** ** Compressed mode *)

(** What a compressed chunk must satisfy to travel: it decompresses to the original,
    its length fits the header field and the receiver's buffer. *)
Class CompressorLaws `{Compressor} `{Protocol} : Prop := {
  decompress_compress c : decompress (compress c) = Ok c;
  compress_fits c : (length c ≤ KB500)%nat →
    Z.of_nat (length (compress c)) < 10 ^ Z.of_nat COMPRESSED_CHUNK_HEADER_LENGTH
    ∧ (length (compress c) ≤ MAX_COMPRESSED_SEGMENT_LENGTH)%nat;
}.

Section compressed.
Context `{TransportLaws} `{Compressor} `{Protocol}.

(** The header field has at least one digit, and its number fits [long long]. *)
Hypothesis header_pos : (0 < COMPRESSED_CHUNK_HEADER_LENGTH)%nat.
Hypothesis header_short : (COMPRESSED_CHUNK_HEADER_LENGTH ≤ 18)%nat.

Lemma read_chunk_header_spec incoming B FileSize :
  ∃ op incoming', read_chunk_header incoming B FileSize = Ok (op, incoming')
    ∧ (op = check_size B FileSize
       ∨ ∃ n, op = AsyncReadSocket n ∧ 0 ≤ n ≤ Z.of_nat MAX_COMPRESSED_SEGMENT_LENGTH
              ∧ (length incoming' < length incoming)%nat).
Proof.
  unfold read_chunk_header. set (h := Z.of_nat COMPRESSED_CHUNK_HEADER_LENGTH).
  destruct (decide (h ≤ Z.of_nat (length incoming))) as [Hh|Hh].
  - rewrite socket_read_full by lia. cbn [failed].
    destruct (atoll_short (take (Z.to_nat h) incoming)) as [n En].
    { rewrite length_take. lia. }
    rewrite (proj2 (failed_false no_error) eq_refl), En. cbn.
    eexists _, _. split; [done|]. right. eexists. split; [done|].
    pose proof (u64_range n) as [? ?]. split; [lia|].
    rewrite length_drop, length_take. lia.
  - destruct (socket_read_short h incoming ltac:(lia)) as (e & He & ->).
    rewrite (proj2 (failed_true e) He). eexists _, _. split; [done|]. by left.
Qed.

Definition op_cost (op : receive_op) (incoming : str) : nat :=
  match op with
  | Complete _ => 1
  | AsyncWriteFile _ => 2 * length incoming + 2
  | AsyncReadSocket _ => 2 * length incoming + 3
  end.

Lemma compressed_receive_ends fuel op incoming written B FileSize :
  (op_cost op incoming ≤ fuel)%nat → B = u64 (Z.of_nat (length written)) →
  (∀ ok, op = Complete ok → op = check_size B FileSize) →
  ∃ ok file, compressed_receive fuel op incoming written B FileSize = Ok (ok, file)
    ∧ (ok = true → u64 (Z.of_nat (length file)) = FileSize).
Proof.
  revert op incoming written B. induction fuel as [|fuel IH];
    intros op incoming written B Hf HB Hop; [destruct op; cbn in Hf; lia|].
  destruct op as [n|data|ok]; cbn [compressed_receive].
  - destruct (socket_read n incoming) as [e bytes].
    apply IH; [|done|].
    + cbn in Hf. unfold compressed_receive_handle_read, check_size.
      repeat case_match; cbn; rewrite ?length_drop; lia.
    + unfold compressed_receive_handle_read. repeat case_match; naive_solver.
  - unfold compressed_receive_handle_write. destruct (failed (file_write written data)) eqn:Ef.
    + cbn. apply IH; [cbn in *; lia|done|done].
    + cbn.
      destruct (read_chunk_header_spec incoming (u64 (B + Z.of_nat (length data))) FileSize)
        as (op & incoming' & E & Hcase).
      rewrite E. cbn. apply IH.
      * cbn in Hf. destruct Hcase as [->|(n & -> & _ & Hl)]; cbn; lia.
      * rewrite HB, length_app. unfold u64. rewrite Zplus_mod_idemp_l. f_equal. lia.
      * destruct Hcase as [->|(n & -> & _)]; [done|]. by intros ? [=].
  - exists ok, written. split; [done|]. intros ->. specialize (Hop true eq_refl).
    injection Hop as Hop. symmetry in Hop. apply bool_decide_eq_true in Hop. congruence.
Qed.

(** C25. Whatever bytes the sender of a compressed file sends - corrupt headers,
    negative lengths, chunks that do not decompress - the receiver's chain ends, never
    reads more than its buffer holds, and reports success only when the file it wrote
    has the announced size modulo 2^64. *)
Theorem compressed_receive_safe incoming FileSize :
  (∃ ok file, compressed_receive_start (2 * length incoming + 3) incoming FileSize
              = Ok (ok, file)
     ∧ (ok = true → u64 (Z.of_nat (length file)) = FileSize))
  ∧ ∀ pending B, ∃ op rest, read_chunk_header pending B FileSize = Ok (op, rest)
     ∧ ∀ n, op = AsyncReadSocket n → 0 ≤ n ≤ Z.of_nat MAX_COMPRESSED_SEGMENT_LENGTH.
Proof.
  split.
  - unfold compressed_receive_start.
    destruct (read_chunk_header_spec incoming 0 FileSize) as (op & rest & E & Hcase).
    rewrite E. cbn [mbind outcome_bind]. apply compressed_receive_ends; [|done|].
    + destruct Hcase as [->|(n & -> & _ & Hl)]; cbn; lia.
    + destruct Hcase as [->|(n & -> & _)]; [done|]. by intros ? [=].
  - intros pending B. destruct (read_chunk_header_spec pending B FileSize)
      as (op & rest & E & Hcase).
    exists op, rest. split; [done|]. intros n ->.
    destruct Hcase as [?|(n' & [= ->] & ? & _)]; [done|done].
Qed.

(** A chunk as it travels. *)
Definition frame (c : str) : str := chunk_header (compress c) ++ compress c.

Context `{!CompressorLaws}.

Lemma chunk_header_length c :
  (length c ≤ KB500)%nat →
  length (chunk_header (compress c)) = COMPRESSED_CHUNK_HEADER_LENGTH.
Proof.
  intros Hc. destruct (compress_fits c Hc) as [Hf _].
  apply length_setw_fill0; [lia|done].
Qed.

Lemma compress_length_small c :
  (length c ≤ KB500)%nat → 0 ≤ Z.of_nat (length (compress c)) < 2 ^ 63.
Proof.
  intros Hc. destruct (compress_fits c Hc) as [Hf _].
  assert (10 ^ Z.of_nat COMPRESSED_CHUNK_HEADER_LENGTH ≤ 10 ^ 18)
    by (apply Z.pow_le_mono_r; lia).
  lia.
Qed.

(** The header of a well-formed chunk announces the chunk. *)
Lemma read_frame_header c wire B FileSize :
  (length c ≤ KB500)%nat →
  read_chunk_header (frame c ++ wire) B FileSize
  = Ok (AsyncReadSocket (Z.of_nat (length (compress c))), compress c ++ wire).
Proof.
  intros Hc. pose proof (chunk_header_length c Hc) as Hh.
  pose proof (compress_length_small c Hc) as Hsm.
  destruct (compress_fits c Hc) as [_ Hm].
  unfold read_chunk_header, frame. rewrite <- app_assoc.
  rewrite socket_read_full by (rewrite length_app; lia).
  rewrite (proj2 (failed_false no_error) eq_refl).
  rewrite <- Hh, Nat2Z.id, take_app_length, drop_app_length.
  unfold chunk_header. rewrite atoll_setw_fill0 by lia. cbn [mbind outcome_bind].
  rewrite u64_id by (unfold in_u64, two64; lia). by rewrite Z.min_l by lia.
Qed.

(** From a header on: the chunks are decompressed and written in order. *)
Lemma compressed_receive_frames `{!Faultless} fuel chunks written B FileSize :
  Forall (λ c, length c ≤ KB500)%nat chunks → (2 * length chunks < fuel)%nat →
  in_u64 B →
  ('(op, incoming) ← read_chunk_header (concat (map frame chunks)) B FileSize;
   compressed_receive fuel op incoming written B FileSize)
  = Ok (bool_decide (u64 (B + Z.of_nat (length (concat chunks))) = FileSize),
        written ++ concat chunks).
Proof.
  intros Hc. revert fuel written B. induction Hc as [|c chunks Hc Hcs IH];
    intros fuel written B Hf HB; cbn [map concat].
  - unfold read_chunk_header.
    destruct (socket_read_short (Z.of_nat COMPRESSED_CHUNK_HEADER_LENGTH) [])
      as (e & He & ->); [cbn; lia|].
    rewrite (proj2 (failed_true e) He). destruct fuel; [lia|]. cbn.
    by rewrite Z.add_0_r, u64_id, app_nil_r.
  - rewrite read_frame_header by done. cbn [mbind outcome_bind].
    destruct fuel as [|[|fuel]]; [cbn in Hf; lia..|].
    cbn [compressed_receive]. rewrite socket_read_full by (rewrite length_app; lia).
    rewrite Nat2Z.id, take_app_length, drop_app_length.
    unfold compressed_receive_handle_read.
    rewrite (proj2 (failed_false no_error) eq_refl), decompress_compress. cbn [negb orb].
    rewrite file_write_faultless. unfold compressed_receive_handle_write.
    rewrite (proj2 (failed_false no_error) eq_refl). cbn [negb].
    specialize (IH fuel (written ++ c) (u64 (B + Z.of_nat (length c)))).
    rewrite outcome_bind_assoc. etrans; [|etrans; [apply IH|]].
    + by destruct (read_chunk_header _ _ _) as [[]|].
    + cbn in Hf. lia.
    + apply u64_range.
    + unfold u64. rewrite Zplus_mod_idemp_l, length_app, <- app_assoc. do 3 f_equal.
      apply bool_decide_ext. by rewrite Nat2Z.inj_add, Z.add_assoc.
Qed.

(** One round of the compressed deliver when nothing fails. *)
Lemma compressed_deliver_spec `{!Faultless} fuel rest sent :
  (length rest < fuel)%nat →
  ∃ chunks, concat chunks = rest ∧ Forall (λ c, length c ≤ KB500)%nat chunks
    ∧ (length chunks ≤ length rest)%nat
    ∧ compressed_deliver fuel rest sent false = Ok (sent ++ concat (map frame chunks)).
Proof.
  assert (∀ sent data, socket_write sent data = (no_error, length data)) as Hw.
  { intros s data. pose proof (socket_write_ok s data) as Hok.
    pose proof (socket_write_faultless s data) as Hf.
    destruct (socket_write s data) as [[] n]; cbn in *; by subst. }
  revert rest sent. induction fuel as [|fuel IH]; intros rest sent Hl; [lia|].
  cbn [compressed_deliver]. pose proof (file_read_ok KB500 rest KB500_pos) as Hr.
  pose proof (file_read_faultless KB500 rest) as Hf.
  unfold compressed_deliver_handle_read, compressed_deliver_handle_write.
  destruct (file_read KB500 rest) as [[] c]; [| |done].
  - destruct Hr as (Hne & Hlc & Hp). cbn [negb orb andb failed].
    rewrite (proj2 (failed_false no_error) eq_refl). cbn [negb orb].
    rewrite !Hw, (proj2 (failed_false no_error) eq_refl), !firstn_all. cbn [negb].
    rewrite bool_decide_eq_false_2, Hw, firstn_all by done.
    rewrite (proj2 (failed_false no_error) eq_refl). cbn [negb].
    destruct (IH (drop (length c) rest) ((sent ++ chunk_header (compress c)) ++ compress c))
      as (chunks & Hcat & Hall & Hn & E).
    { rewrite length_drop. pose proof (prefix_length _ _ Hp).
      assert (length c ≠ 0)%nat by (by intros ?%length_zero_iff_nil). lia. }
    exists (c :: chunks). cbn [concat map length]. rewrite Hcat, prefix_drop_app by done.
    split_and!; [done|by constructor| |].
    + rewrite length_drop in Hn. pose proof (prefix_length _ _ Hp).
      assert (length c ≠ 0)%nat by (by intros ?%length_zero_iff_nil). lia.
    + rewrite E. unfold frame. by rewrite <- !app_assoc.
  - destruct Hr as [-> Hlc]. destruct rest as [|x rest].
    { exists []. cbn. split_and!; [done..|]. by rewrite app_nil_r. }
    rewrite (proj2 (failed_true eof) ltac:(done)). cbn [negb orb].
    rewrite !bool_decide_eq_true_2 by (done || (cbn; lia)). cbn [andb].
    rewrite !Hw, (proj2 (failed_false no_error) eq_refl), !firstn_all. cbn [negb].
    rewrite Hw, firstn_all, (proj2 (failed_false no_error) eq_refl). cbn [negb].
    exists [x :: rest]. cbn [concat map length]. rewrite !app_nil_r. unfold frame.
    split_and!; [done|constructor; [exact Hlc|constructor]|lia|by rewrite <- !app_assoc].
Qed.

(** C24. Compressed round trip: when nothing fails, delivering a file ends, the bytes
    it puts on the wire are the compressed chunks of the file behind their length
    headers, and a receiver that is fed these bytes writes exactly the file and
    reports success exactly when the announced size is its length modulo 2^64. *)
Theorem compressed_round_trip `{!Faultless} file FileSize :
  ∃ chunks wire,
    concat chunks = file
    ∧ compressed_deliver (S (length file)) file [] false = Ok wire
    ∧ wire = concat (map frame chunks)
    ∧ compressed_receive_start (2 * length file + 1) wire FileSize
      = Ok (bool_decide (u64 (Z.of_nat (length file)) = FileSize), file).
Proof.
  destruct (compressed_deliver_spec (S (length file)) file [] ltac:(lia))
    as (chunks & Hcat & Hall & Hn & E).
  exists chunks, (concat (map frame chunks)). split_and!; [done..|].
  unfold compressed_receive_start.
  rewrite (compressed_receive_frames _ chunks [] 0 FileSize) by (done || lia).
  by rewrite Hcat.
Qed.
End compressed.

(** ** Witnesses *)

Definition sample_transport : Transport := {|
  file_read n rest :=
    if bool_decide (n ≤ length rest)%nat then (no_error, take n rest) else (eof, rest);
  file_write _ _ := no_error;
  socket_read n rest :=
    if bool_decide (n ≤ Z.of_nat (length rest)) then (no_error, take (Z.to_nat n) rest)
    else (eof, rest);
  socket_write _ data := (no_error, length data);
|}.

#[local] Existing Instance sample_transport.
#[local] Existing Instance sample_protocol.

#[local] Instance sample_transport_laws : TransportLaws.
Proof.
  split; cbn [file_read socket_read socket_write sample_transport]; intros.
  - case_bool_decide.
    + split_and!; [|rewrite length_take; lia|apply take_prefix].
      intros E. assert (length (take n rest) = 0)%nat as El by (by rewrite E).
      rewrite length_take in El. lia.
    + split; [done|lia].
  - by rewrite bool_decide_eq_true_2 by lia.
  - exists eof. split; [done|]. by rewrite bool_decide_eq_false_2 by lia.
  - done.
Qed.

#[local] Instance sample_faultless : Faultless.
Proof.
  split; [|done..]. intros n rest. cbn. by case_bool_decide.
Qed.

(** The identity is a compressor: its chunks fit a header of six digits. *)
#[local] Instance sample_compressor : Compressor := {|
  compress c := c; decompress c := Ok c |}.

#[local] Instance sample_compressor_laws : CompressorLaws.
Proof.
  split; [done|]. intros c Hc. unfold KB500 in Hc.
  change (Z.of_nat COMPRESSED_CHUNK_HEADER_LENGTH) with 6.
  change MAX_COMPRESSED_SEGMENT_LENGTH with (Z.to_nat 600000).
  change (compress c) with c. change (10 ^ 6) with 1000000. lia.
Qed.

Definition sample_file : str := lit "abc".

Lemma stream_deliver_total_witness :
  stream_deliver (S (length sample_file)) sample_file [] false = Ok sample_file.
Proof.
  destruct (stream_deliver_total sample_file) as (sent & E & _ & HF).
  rewrite (HF sample_faultless) in E. exact E.
Defined.

Lemma sample_buffer_pos : (0 < MAX_COMPRESSED_SEGMENT_LENGTH)%nat.
Proof. change MAX_COMPRESSED_SEGMENT_LENGTH with (Z.to_nat 600000). lia. Qed.

Lemma stream_receive_total_witness :
  stream_receive (S (length sample_file)) sample_file [] 0 3 = Ok (true, sample_file).
Proof.
  destruct (stream_receive_total sample_buffer_pos sample_file 3) as (ok & file & E & _ & _ & HF).
  destruct (HF sample_faultless) as [-> ->]. exact E.
Defined.

Lemma sample_header : (0 < COMPRESSED_CHUNK_HEADER_LENGTH ≤ 18)%nat.
Proof. change COMPRESSED_CHUNK_HEADER_LENGTH with 6%nat. lia. Qed.

Lemma compressed_receive_safe_witness :
  ∃ ok file, compressed_receive_start 19 (lit "-00007xy") 7 = Ok (ok, file).
Proof.
  destruct (compressed_receive_safe (proj1 sample_header) (proj2 sample_header)
              (lit "-00007xy") 7) as [(ok & file & E & _) _].
  exists ok, file. exact E.
Defined.

Lemma compressed_round_trip_witness :
  ∃ wire, compressed_deliver 4 sample_file [] false = Ok wire
    ∧ compressed_receive_start 7 wire 3 = Ok (true, sample_file).
Proof.
  destruct (compressed_round_trip (proj1 sample_header) (proj2 sample_header)
              sample_file 3) as (chunks & wire & _ & E & _ & R).
  exists wire. split; [exact E|exact R].
Defined.
