(* ===== verification/StdMap.v ===== *)
(** * StdMap: [std::map] with integer keys

    The server keeps its connections (a [std::set] ordered by address), the shared
    buffers, the backed-up requests and the transactions in ordered containers and
    walks through them in key order.  A container is its list of entries; [emplace]
    inserts in order and does nothing when the key is there, [operator\[\]] inserts a
    default value, [erase] reports how many entries it removed. *)

From S2P Require Import Prelude Text.

Abbreviation stdmap V := (list (Z * V)).

Section stdmap.
Context {V : Type}.
Implicit Types (m : stdmap V) (k : Z) (v : V).

Fixpoint m_find k m : option V :=
  match m with
  | [] => None
  | (k', v) :: m => if bool_decide (k = k') then Some v else m_find k m
  end.

(** Insertion before the first greater key. *)
Fixpoint m_insert k v m : stdmap V :=
  match m with
  | [] => [(k, v)]
  | (k', v') :: m' =>
      if bool_decide (k < k') then (k, v) :: m else (k', v') :: m_insert k v m'
  end.

Definition m_emplace k v m : stdmap V :=
  match m_find k m with Some _ => m | None => m_insert k v m end.

Definition m_erase k m : stdmap V := filter (λ e, e.1 ≠ k) m.

(** [it->second = f(it->second)] for the entry with key [k]. *)
Definition m_update k (f : V → V) m : stdmap V :=
  map (λ e, if bool_decide (e.1 = k) then (e.1, f e.2) else e) m.

(** [m\[k\]], with [d] the value-initialised element. *)
Definition m_index k (d : V) m : V * stdmap V :=
  match m_find k m with Some v => (v, m) | None => (d, m_insert k d m) end.

(** [find_if] in key order. *)
Definition m_find_if (P : V → bool) m : option (Z * V) :=
  list_find (λ e, P e.2 = true) m ≫= λ ie, Some ie.2.

Definition keys m : list Z := m.*1.

Lemma m_find_if_elem P m k v : m_find_if P m = Some (k, v) → (k, v) ∈ m.
Proof.
  unfold m_find_if. destruct (list_find _ m) as [[i e]|] eqn:E; [|done].
  cbn. intros [= ->]. apply list_find_Some in E as (Hi & _). by eapply list_elem_of_lookup_2.
Qed.

Lemma m_find_elem k v m : m_find k m = Some v → (k, v) ∈ m.
Proof.
  induction m as [|[k' v'] m IH]; [done|]. cbn. case_bool_decide; [|right; auto].
  intros [= <-]. subst. left.
Qed.

Lemma m_find_None k m : m_find k m = None ↔ k ∉ keys m.
Proof.
  induction m as [|[k' v'] m IH]; cbn; [split; [intros _; apply not_elem_of_nil|done]|].
  rewrite not_elem_of_cons. case_bool_decide; naive_solver.
Qed.

Lemma m_find_NoDup k v m : NoDup (keys m) → (k, v) ∈ m → m_find k m = Some v.
Proof.
  induction m as [|[k' v'] m IH]; cbn; [by intros _ ?%elem_of_nil|].
  rewrite NoDup_cons, elem_of_cons. intros [Hn Hd] [[= <- <-]|Hin].
  - by rewrite bool_decide_eq_true_2.
  - case_bool_decide; [|auto]. subst. destruct Hn. apply list_elem_of_fmap.
    by exists (k', v).
Qed.

Lemma m_insert_perm k v m : m_insert k v m ≡ₚ (k, v) :: m.
Proof.
  induction m as [|[k' v'] m IH]; cbn; [done|]. case_bool_decide; [done|].
  rewrite IH. apply perm_swap.
Qed.

Lemma m_find_insert k v m k' :
  m_find k m = None →
  m_find k' (m_insert k v m) = if bool_decide (k' = k) then Some v else m_find k' m.
Proof.
  induction m as [|[k1 v1] m IH]; cbn; [done|].
  destruct (decide (k = k1)) as [->|Hne]; [by rewrite bool_decide_eq_true_2|].
  rewrite (bool_decide_eq_false_2 _ Hne). intros Hn.
  destruct (bool_decide (k < k1)); cbn; [done|]. rewrite (IH Hn).
  repeat case_bool_decide; congruence.
Qed.

Lemma m_find_emplace k v m k' :
  m_find k m = None →
  m_find k' (m_emplace k v m) = if bool_decide (k' = k) then Some v else m_find k' m.
Proof. intros Hn. unfold m_emplace. rewrite Hn. by apply m_find_insert. Qed.

Lemma m_emplace_perm k v m : m_find k m = None → m_emplace k v m ≡ₚ (k, v) :: m.
Proof. intros Hn. unfold m_emplace. rewrite Hn. apply m_insert_perm. Qed.

Lemma m_find_erase k m k' :
  m_find k' (m_erase k m) = if bool_decide (k' = k) then None else m_find k' m.
Proof.
  unfold m_erase. induction m as [|[k1 v1] m IH]; [by cbn; case_bool_decide|].
  destruct (decide (k1 = k)) as [->|Hne].
  - rewrite filter_cons_False by naive_solver. rewrite IH. cbn [m_find].
    repeat case_bool_decide; congruence.
  - rewrite filter_cons_True by done. cbn [m_find]. rewrite IH. repeat case_bool_decide; congruence.
Qed.

Lemma m_erase_absent k m : m_find k m = None → m_erase k m = m.
Proof.
  intros Hn%m_find_None. apply filter_all, Forall_forall. intros [k' v] Hin Heq.
  cbn in Heq. subst. destruct Hn. apply list_elem_of_fmap. by exists (k, v).
Qed.

Lemma m_erase_insert k v m : m_find k m = None → m_erase k (m_insert k v m) = m.
Proof.
  intros Hn. induction m as [|[k' v'] m IH]; cbn [m_insert].
  - unfold m_erase. by rewrite filter_cons_False by (by intros []).
  - cbn in Hn. destruct (decide (k = k')) as [->|H1];
      [by rewrite bool_decide_eq_true_2 in Hn|].
    rewrite (bool_decide_eq_false_2 _ H1) in Hn. specialize (IH Hn).
    destruct (bool_decide (k < k')); unfold m_erase in *.
    + rewrite filter_cons_False by (by intros []). rewrite filter_cons_True by (cbn; congruence).
      f_equal. apply m_erase_absent, Hn.
    + rewrite filter_cons_True by (cbn; congruence). by rewrite IH.
Qed.

Lemma m_find_update k f m k' :
  m_find k' (m_update k f m)
  = if bool_decide (k' = k) then f <$> m_find k' m else m_find k' m.
Proof.
  induction m as [|[k1 v1] m IH]; cbn; [by case_bool_decide|]. unfold m_update in *.
  rewrite IH. repeat case_bool_decide; cbn; try case_bool_decide; cbn in *; congruence.
Qed.

Lemma m_update_id k f m v :
  NoDup (keys m) → m_find k m = Some v → f v = v → m_update k f m = m.
Proof.
  intros Hn Hf E. unfold m_update. rewrite <- (map_id m) at 2. apply map_ext_in.
  intros [k' v'] Hin. cbn. destruct (bool_decide_reflect (k' = k)) as [->|]; [|done].
  apply list_elem_of_In, m_find_NoDup in Hin; [|done]. congruence.
Qed.

Lemma m_update_update k f g m : m_update k f (m_update k g m) = m_update k (λ v, f (g v)) m.
Proof.
  unfold m_update. rewrite map_map. apply map_ext. intros [k' v]. cbn.
  destruct (bool_decide_reflect (k' = k)) as [->|E]; cbn; [by rewrite bool_decide_eq_true_2|].
  by rewrite bool_decide_eq_false_2.
Qed.

Lemma keys_update k f m : keys (m_update k f m) = keys m.
Proof.
  unfold keys, m_update. induction m as [|[k1 v1] m IH]; [done|]. cbn.
  rewrite IH. by case_bool_decide.
Qed.

Lemma keys_erase_NoDup k m : NoDup (keys m) → NoDup (keys (m_erase k m)).
Proof.
  unfold keys, m_erase. induction m as [|[k1 v1] m IH]; [done|]. cbn [fmap list_fmap].
  rewrite NoDup_cons. intros [Hn Hd]. destruct (decide (k1 = k)) as [->|Hne].
  - rewrite filter_cons_False by (by intros []). auto.
  - rewrite filter_cons_True by done. cbn. constructor; [|auto].
    intros ((k' & v') & -> & Hin)%list_elem_of_fmap. apply list_elem_of_filter in Hin as [_ Hin].
    destruct Hn. apply list_elem_of_fmap. by exists (k', v').
Qed.

Lemma keys_emplace_NoDup k v m : NoDup (keys m) → NoDup (keys (m_emplace k v m)).
Proof.
  intros Hd. unfold m_emplace. destruct (m_find k m) eqn:E; [done|]. unfold keys.
  rewrite m_insert_perm. cbn. constructor; [by apply m_find_None|done].
Qed.
Lemma elem_of_m_update (f : V → V) a b x m :
  (b, x) ∈ m_update a f m → ∃ y, (b, y) ∈ m ∧ x = if bool_decide (b = a) then f y else y.
Proof.
  unfold m_update. intros ([k y] & E & Hin)%list_elem_of_fmap. cbn in E.
  case_bool_decide; injection E as -> ->; exists y; by case_bool_decide.
Qed.

Lemma elem_of_m_erase a b x m : (b, x) ∈ m_erase a m ↔ b ≠ a ∧ (b, x) ∈ m.
Proof. unfold m_erase. by rewrite list_elem_of_filter. Qed.

Lemma elem_of_m_emplace a b x y m :
  m_find a m = None → (b, x) ∈ m_emplace a y m ↔ (b, x) = (a, y) ∨ (b, x) ∈ m.
Proof. intros Hf. by rewrite m_emplace_perm, elem_of_cons. Qed.

Lemma elem_of_keys k m : k ∈ keys m ↔ ∃ v, (k, v) ∈ m.
Proof.
  unfold keys. rewrite list_elem_of_fmap. split.
  - intros ([k' v] & -> & Hin). by exists v.
  - intros [v Hin]. by exists (k, v).
Qed.

Lemma elem_of_keys_erase a k m : k ∈ keys (m_erase a m) ↔ k ≠ a ∧ k ∈ keys m.
Proof. rewrite !elem_of_keys. setoid_rewrite elem_of_m_erase. naive_solver. Qed.

(** With each key once, the entries are determined by what is found. *)
Lemma m_find_perm m m' :
  NoDup (keys m) → NoDup (keys m') → (∀ k, m_find k m = m_find k m') → m ≡ₚ m'.
Proof.
  intros Hm Hm' E. apply NoDup_Permutation; [by eapply NoDup_fmap_1..|].
  intros [k v]. split; intros Hin.
  - apply m_find_elem. rewrite <- E. by apply m_find_NoDup.
  - apply m_find_elem. rewrite E. by apply m_find_NoDup.
Qed.

Lemma m_erase_perm k v m : NoDup (keys m) → m_find k m = Some v → m ≡ₚ (k, v) :: m_erase k m.
Proof.
  intros Hd Hf. apply m_find_perm; [done| |].
  - unfold keys. cbn. constructor; [|by apply keys_erase_NoDup].
    intros [[] _]%elem_of_keys_erase. done.
  - intros j. cbn [m_find]. rewrite m_find_erase. case_bool_decide; [congruence|done].
Qed.
End stdmap.

#[global] Arguments m_update : simpl never.
#[global] Arguments m_emplace : simpl never.
#[global] Arguments m_erase : simpl never.
#[global] Arguments m_index : simpl never.
#[global] Arguments m_find_if : simpl never.
