(* ===== verification/BackupRequests.v ===== *)
(** * BackupRequests: [backup_requests_manager.h], [backup_requests_manager.cpp]

    The clients that wait for a file the server has asked its owner for: an entry per
    transaction with the file, the waiting requests and a timer.  A [weak_ptr] is the
    address of the connection; whether it can be locked is asked of the state at the
    moment.  [simple_timer] belongs to a sibling project: what matters here is whether
    it runs, so an entry records that, and a timer can fire only while it runs. *)

From S2P Require Import Prelude Text Protocol StdMap.

Inductive timer := Idle | Ticking | Halted.
#[global] Instance timer_eq_dec : EqDecision timer.
Proof. solve_decision. Defined.

(** [DownloadInfo::Request] *)
Record Request := mkRequest {
  WeakConnection : Z;
  RequestedCompression : compression;
  RequestID : str;
}.

Record DownloadInfo := mkDownloadInfo {
  FileOwner : str;
  FilePath : str;
  Requests : list Request;
}.

Definition AddRequest (c : Z) (compr : compression) (id : str) (info : DownloadInfo)
    : DownloadInfo :=
  mkDownloadInfo (FileOwner info) (FilePath info)
    (mkRequest c compr id :: Requests info).

(** [weak_ptr::lock] *)
Definition lock (alive : Z → bool) (c : Z) : option Z := if alive c then Some c else None.

(** [RemoveRequest]: the locked pointers are compared, so an expired argument removes
    the requests of every expired connection. *)
Definition RemoveRequest (alive : Z → bool) (c : Z) (info : DownloadInfo) : DownloadInfo :=
  mkDownloadInfo (FileOwner info) (FilePath info)
    (filter (λ r, lock alive (WeakConnection r) ≠ lock alive c) (Requests info)).

Definition GetLocalPath (info : DownloadInfo) : str := FileOwner info ++ FilePath info.

(** [requests_map] *)
Definition requests_map : Type := stdmap (DownloadInfo * timer).

(** The value-initialised entry of [operator\[\]]. *)
Definition default_backup : DownloadInfo * timer := (mkDownloadInfo [] [] [], Idle).

Definition start_timer (e : DownloadInfo * timer) : DownloadInfo * timer := (e.1, Ticking).
Definition stop_timer (e : DownloadInfo * timer) : DownloadInfo * timer := (e.1, Halted).

(** [BackupAndStartTimer], up to the handler, which is the expiry of the entry. *)
Definition BackupAndStartTimer (id : Z) (info : DownloadInfo) (m : requests_map)
    : requests_map :=
  m_update id start_timer (m_emplace id (info, Idle) m).

(** [IsRequestIDValid]: the file and its owner, and the map with the timer stopped. *)
Definition IsRequestIDValid (id : Z) (m : requests_map)
    : option (str * str) * requests_map :=
  match m_find id m with
  | Some (info, _) => (Some (FilePath info, FileOwner info), m_update id stop_timer m)
  | None => (None, m)
  end.

(** [Remove]: the timer of an entry [operator\[\]] has just created is null. *)
Definition BackupRemove (id : Z) (m : requests_map) : outcome (nat * requests_map) :=
  match m_find id m with
  | Some _ => Ok (1%nat, m_erase id m)
  | None => Fault UndefinedBehaviour
  end.

(** [IsDownloadPending]: the first entry for the file takes the request. *)
Definition is_for (owner name : str) (e : DownloadInfo * timer) : bool :=
  bool_decide (FileOwner e.1 = owner) && bool_decide (FilePath e.1 = name).

Definition IsDownloadPending (owner name : str) (c : Z) (compr : compression) (id : str)
    (m : requests_map) : bool * requests_map :=
  match m_find_if (is_for owner name) m with
  | Some (k, _) => (true, m_update k (λ e, (AddRequest c compr id e.1, e.2)) m)
  | None => (false, m)
  end.

Section for_each.
Context {S : Type} (get : S → requests_map) (set : requests_map → S → S)
  (alive : S → Z → bool).

(** [DownloadInfo::ForEach]: [f] for the requests whose connection still exists. *)
Definition ForEach (f : Request → M S unit) (info : DownloadInfo) : M S unit :=
  for_each (λ r s, if alive s (WeakConnection r) then f r s else Ok (tt, s))
    (Requests info).

(** [ForEachAndRemoveWrapper] *)
Definition ForEachAndRemoveWrapper (id : Z) (f : Request → M S unit) : M S unit := λ s,
  let '((info, _), m) := m_index id default_backup (get s) in
  '(_, s) ← ForEach f info (set m s);
  Ok (tt, set (m_erase id (get s)) s).
End for_each.

(** The timers of the entries that are waiting for an answer run. *)
Definition waiting_on (id : Z) (m : requests_map) : list Request :=
  match m_find id m with Some (info, _) => Requests info | None => [] end.

(** ** Lemmas *)

Lemma m_find_if_Some {V} (P : V → bool) (m : stdmap V) k v :
  NoDup (keys m) → m_find_if P m = Some (k, v) → m_find k m = Some v ∧ P v = true.
Proof.
  intros Hd. unfold m_find_if. destruct (list_find _ m) as [[i e]|] eqn:E; [|done].
  cbn. intros [= ->]. apply list_find_Some in E as (Hi & HP & _).
  split; [|done]. apply m_find_NoDup; [done|]. by eapply list_elem_of_lookup_2.
Qed.

Lemma m_find_if_None {V} (P : V → bool) (m : stdmap V) :
  m_find_if P m = None ↔ ∀ k v, (k, v) ∈ m → P v = false.
Proof.
  unfold m_find_if. destruct (list_find _ m) as [[i e]|] eqn:E; cbn.
  - split; [done|]. intros Hn. apply list_find_Some in E as (Hi & HP & _).
    destruct e as [k v]. apply list_elem_of_lookup_2 in Hi. cbn in HP.
    by rewrite (Hn k v Hi) in HP.
  - split; [|done]. intros _ k v Hin. apply list_find_None in E.
    rewrite Forall_forall in E. specialize (E _ Hin). cbn in E.
    by destruct (P v).
Qed.

(** A backed-up request is stored with its timer running. *)
Lemma m_find_backup id info (m : requests_map) j :
  m_find id m = None →
  m_find j (BackupAndStartTimer id info m)
  = if bool_decide (j = id) then Some (info, Ticking) else m_find j m.
Proof.
  intros Hn. unfold BackupAndStartTimer. rewrite m_find_update, m_find_emplace by done.
  by case_bool_decide.
Qed.

(** [IsDownloadPending] adds the request to the entry it finds, which is for the file. *)
Lemma pending_entry owner name c compr id (m : requests_map) k e :
  NoDup (keys m) → m_find_if (is_for owner name) m = Some (k, e) →
  m_find k m = Some e ∧ FileOwner e.1 = owner ∧ FilePath e.1 = name
  ∧ ∀ j, m_find j (m_update k (λ e, (AddRequest c compr id e.1, e.2)) m)
         = if bool_decide (j = k) then Some (AddRequest c compr id e.1, e.2) else m_find j m.
Proof.
  intros Hd E. destruct (m_find_if_Some _ _ _ _ Hd E) as [Hf HP]. unfold is_for in HP.
  apply andb_true_iff in HP as [Ho Hp]. apply bool_decide_eq_true in Ho, Hp.
  split_and!; [done..|]. intros j. rewrite m_find_update. case_bool_decide; [|done].
  subst j. by rewrite Hf.
Qed.
