(* ===== verification/DownloadManager.v ===== *)
(** * DownloadManager: [download_manager.h], [download_manager.cpp]

    The second listening socket of the server, over which files travel.  A transaction
    is announced to a client with a number; the client connects, says whether it comes
    to send or to receive and for which number, and the matching receiver or deliver is
    started on its socket.  The disk is a parameter of each operation ([disk], what the
    calls of [std::filesystem] and [CreateFile] answer at that moment), a socket is a
    number with what its first operations do ([peer]), and [NDEBUG] says whether [assert]
    is compiled out: the release configuration of the project defines it, the debug
    configuration does not. *)

From S2P Require Import Prelude Text Protocol StdMap BackupRequests.

Record disk := mkDisk {
  file_size : str → option Z;                (* None: the error code is set *)
  opens_for_reading : str → bool;            (* CreateFile(GENERIC_READ, OPEN_EXISTING) *)
  opens_for_writing : str → bool;            (* CreateFile(GENERIC_WRITE, CREATE_ALWAYS) *)
  creates_parents : str → bool;              (* false: create_directories throws *)
}.

(** The socket of a peer of the second port, and what is done on it while a transfer is
    started: [write_some] of the start byte (the bytes it wrote, [None] when it throws)
    and [read] of the first chunk header of a compressed transfer (whether it succeeds). *)
Record peer := mkPeer {
  peer_socket : Z;
  start_byte_written : option nat;
  first_header_read : bool;
}.

(** [AbstractFileReceiver]: its mode, file, announced size and socket, and the data
    [Handler] its completion handler captured. *)
Record receiver {Handler : Type} := mkReceiver {
  receiver_mode : compression;
  receiver_file : str;
  receiver_size : Z;
  receiver_socket : option Z;
  receiver_handler : Handler;
}.
Arguments receiver : clear implicits.
Arguments mkReceiver {Handler}.

(** [AbstractFileDeliver] *)
Record deliver := mkDeliver {
  deliver_mode : compression;
  deliver_file : str;
  deliver_socket : option Z;
}.

Section download_manager.
Context {Handler : Type}.

(** A receiver pointer may be null.  [start_bytes] lists the sockets on which
    START_TRANSMISSION_BYTE was written. *)
Record download_manager := mkDownloadManager {
  download_transactions_ : stdmap (option (receiver Handler) * timer);
  upload_transactions_ : stdmap (deliver * timer);
  upload_transactions_id_counter_ : Z;
  start_bytes : list Z;
}.

Definition new_download_manager : download_manager := mkDownloadManager [] [] 1 [].

Definition with_downloads m (dm : download_manager) : download_manager :=
  mkDownloadManager m (upload_transactions_ dm) (upload_transactions_id_counter_ dm)
    (start_bytes dm).
Definition with_uploads m (dm : download_manager) : download_manager :=
  mkDownloadManager (download_transactions_ dm) m (upload_transactions_id_counter_ dm)
    (start_bytes dm).

(** [GetSupportedCompressionsEnum] *)
Definition GetSupportedCompressionsEnum : list compression := [zlib; gzip].

(** [GetSupportedCompressionsStr] *)
Definition GetSupportedCompressionsStr `{Protocol} : list str := [ZLIB; GZIP].

(** [GetSslVersion] *)
Definition GetSslVersion `{Protocol} : ssl_version := sslv23.

(** ** Downloads: a client sends a file to the server *)

(** The receiver [BeginDownloadTransaction] creates: none for a compression other than
    [nocompression] and [zlib]. *)
Definition make_receiver (Compression : compression) (FileName : str) (FileSize : Z)
    (h : Handler) : option (receiver Handler) :=
  match Compression with
  | nocompression => Some (mkReceiver nocompression FileName FileSize None h)
  | zlib => Some (mkReceiver zlib FileName FileSize None h)
  | _ => None
  end.

Definition BeginDownloadTransaction (d : disk) (ID : Z) (FileName : str) (FileSize : Z)
    (Compression : compression) (h : Handler) (dm : download_manager)
    : outcome (bool * download_manager) :=
  if negb (creates_parents d FileName) then Fault Thrown
  else if negb (opens_for_writing d FileName) then Ok (false, dm)
  else
    let FileReceiver := make_receiver Compression FileName FileSize h in
    let m := m_emplace ID (FileReceiver, Idle) (download_transactions_ dm) in
    Ok (true, with_downloads (m_update ID (λ e, (e.1, Ticking)) m) dm).

(** [CloseDownloadTransaction]: [Close()] on the receiver, which uses its socket. *)
Definition CloseDownloadTransaction (ID : Z) (dm : download_manager) : outcome unit :=
  match m_find ID (download_transactions_ dm) with
  | None => Ok tt
  | Some (Some r, _) =>
      match receiver_socket r with Some _ => Ok tt | None => Fault UndefinedBehaviour end
  | Some (None, _) => Fault UndefinedBehaviour
  end.

Definition EndDownloadTransaction (ID : Z) (dm : download_manager)
    : nat * download_manager :=
  (match m_find ID (download_transactions_ dm) with Some _ => 1%nat | None => 0%nat end,
   with_downloads (m_erase ID (download_transactions_ dm)) dm).

(** [write_some(START_TRANSMISSION_BYTE) == 1], the expression of an [assert]; what it
    throws can not leave the [noexcept] function around it. *)
Definition write_start_byte (sock : peer) : M download_manager bool := λ dm,
  match start_byte_written sock with
  | None => Fault Thrown
  | Some n =>
      Ok ((n =? 1)%nat,
          mkDownloadManager (download_transactions_ dm) (upload_transactions_ dm)
            (upload_transactions_id_counter_ dm)
            (start_bytes dm ++ (if (n =? 0)%nat then [] else [peer_socket sock])))
  end.

Definition set_receiver_socket (sock : Z) (r : receiver Handler) : receiver Handler :=
  mkReceiver (receiver_mode r) (receiver_file r) (receiver_size r) (Some sock)
    (receiver_handler r).

(** [Start] of a receiver, under [download_mutex_].  In compressed mode it reads the first
    header on the spot; when that fails it calls its completion handler, which begins with
    [CloseDownloadTransaction]: that locks the mutex this thread holds already. *)
Definition start_receiver (sock : peer) (r : receiver Handler) : outcome unit :=
  match receiver_mode r with
  | zlib => if first_header_read sock then Ok tt else Fault UndefinedBehaviour
  | _ => Ok tt
  end.

Definition TryStartDownloadTransaction (NDEBUG : bool) (ID : Z) (sock : peer)
    (dm : download_manager) : outcome download_manager :=
  match m_find ID (download_transactions_ dm) with
  | None => Ok dm
  | Some (FileReceiver, _) =>
      let dm := with_downloads
        (m_update ID (λ e, (e.1, Halted)) (download_transactions_ dm)) dm in
      '(_, dm) ← cassert NDEBUG (write_start_byte sock) dm;
      match FileReceiver with
      | None => Fault UndefinedBehaviour
      | Some r =>
          let r := set_receiver_socket (peer_socket sock) r in
          _ ← start_receiver sock r;
          Ok (with_downloads
                (m_update ID (λ e, (Some r, e.2)) (download_transactions_ dm)) dm)
      end
  end.

(** ** Uploads: a client receives a file from the server *)

(** 100 MB: smaller files are sent uncompressed. *)
Definition UPLOAD_COMPRESSION_THRESHOLD : Z := 104857600.

Definition upload_compression (FileSize : Z) (SupportedCompression : compression)
    : compression :=
  if bool_decide (UPLOAD_COMPRESSION_THRESHOLD < FileSize)
  then if bool_decide (SupportedCompression = zlib) then SupportedCompression
       else nocompression
  else nocompression.

(** [BeginUploadTransaction]: the result, the new value of [SupportedCompression] and
    of [TransactionID].  The timer of the entry is created and never started. *)
Definition BeginUploadTransaction (d : disk) (Path : str)
    (SupportedCompression : compression) (TransactionID : Z) (dm : download_manager)
    : bool * compression * Z * download_manager :=
  match file_size d Path with
  | None => (false, SupportedCompression, TransactionID, dm)
  | Some FileSize =>
      if bool_decide (FileSize = 0) then (false, SupportedCompression, TransactionID, dm)
      else if negb (opens_for_reading d Path)
      then (false, SupportedCompression, TransactionID, dm)
      else
        let compr := upload_compression FileSize SupportedCompression in
        let id := upload_transactions_id_counter_ dm in
        (true, compr, id,
         mkDownloadManager (download_transactions_ dm)
           (m_emplace id (mkDeliver compr Path None, Idle) (upload_transactions_ dm))
           (u64 (id + 1)) (start_bytes dm))
  end.

Definition EndUploadTransaction (ID : Z) (dm : download_manager) : nat * download_manager :=
  (match m_find ID (upload_transactions_ dm) with Some _ => 1%nat | None => 0%nat end,
   with_uploads (m_erase ID (upload_transactions_ dm)) dm).

Definition TryStartUploadTransaction (ID : Z) (sock : Z) (dm : download_manager)
    : download_manager :=
  match m_find ID (upload_transactions_ dm) with
  | None => dm
  | Some (FileDeliver, _) =>
      with_uploads
        (m_update ID
           (λ _, (mkDeliver (deliver_mode FileDeliver) (deliver_file FileDeliver) (Some sock),
                  Halted))
           (upload_transactions_ dm)) dm
  end.

(** The [CleanUpHandler] of a deliver: [assert(EndUploadTransaction(ID))]. *)
Definition upload_clean_up (NDEBUG : bool) (ID : Z) : M download_manager unit :=
  cassert NDEBUG (λ dm, let '(n, dm) := EndUploadTransaction ID dm in
                        Ok (negb (n =? 0)%nat, dm)).

(** ** [TemporarySession] *)

Definition NEWLINE : ascii := ascii_of_N 10.

(** [std::getline] *)
Fixpoint getline (s : str) : str :=
  match s with
  | [] => []
  | c :: s => if bool_decide (c = NEWLINE) then [] else c :: getline s
  end.

Context `{Protocol} `{BoostSplit}.

(** [tokens\[i\]], without a bounds check. *)
Definition read_token (tokens : list str) (i : nat) : outcome str :=
  match tokens !! i with Some t => Ok t | None => Fault UndefinedBehaviour end.

(** [TryInitTransaction]: [ready] is whether the future was ready in time, [None] the
    result false; the [try] block turns what [stoull] throws into false. *)
Definition TryInitTransaction (ready : bool) (TempBuffer : str)
    : outcome (option (str * Z)) :=
  if negb ready then Ok None
  else
    let Message := getline TempBuffer in
    let tokens := boost_split (λ chr, bool_decide (chr = DOWNLOAD_TRANSACTION_DELIM_CHR))
                    Message in
    if negb (bool_decide (length tokens = 2%nat)) then Ok None
    else
      HelloType ← read_token tokens SENDER_RECEIVER_POSITION_DWNLD;
      id ← read_token tokens DOWNLOAD_TRANSACTION_ID_POS;
      match stoull id with
      | Ok TransactionID => Ok (Some (HelloType, TransactionID))
      | Fault _ => Ok None
      end.

(** [HandleHandshake] *)
Definition HandleHandshake (NDEBUG : bool) (error : bool) (ready : bool) (TempBuffer : str)
    (sock : peer) (dm : download_manager) : outcome download_manager :=
  if error then Ok dm
  else
    hello ← TryInitTransaction ready TempBuffer;
    match hello with
    | None => Ok dm
    | Some (HelloType, TransactionID) =>
        if bool_decide (HelloType = RECEIVER_CODE_STR)
        then Ok (TryStartUploadTransaction TransactionID (peer_socket sock) dm)
        else if bool_decide (HelloType = SENDER_CODE_STR)
        then TryStartDownloadTransaction NDEBUG TransactionID sock dm
        else Ok dm
    end.
End download_manager.
Arguments download_manager : clear implicits.

(** ** Uploads get fresh numbers *)

(** The two fields of a greeting are where the protocol says. *)
Class HelloLaws `{Protocol} : Prop := {
  type_position : (SENDER_RECEIVER_POSITION_DWNLD < 2)%nat;
  number_position : (DOWNLOAD_TRANSACTION_ID_POS < 2)%nat;
}.

Section theorems.
Context {Handler : Type}.
Implicit Types (dm : download_manager Handler).

(** The numbers in use are below the counter. *)
Definition uploads_wf dm : Prop :=
  NoDup (keys (upload_transactions_ dm))
  ∧ Forall (λ id, id < upload_transactions_id_counter_ dm) (keys (upload_transactions_ dm)).

Lemma upload_counter_unused dm :
  uploads_wf dm → m_find (upload_transactions_id_counter_ dm) (upload_transactions_ dm) = None.
Proof.
  intros [_ Hb]. apply m_find_None. intros Hin. rewrite Forall_forall in Hb.
  specialize (Hb _ Hin). lia.
Qed.

(** The upload chooses a compression the deliver exists for, zlib only for a large
    file and when the client asked for it. *)
Lemma upload_compression_spec size c :
  upload_compression size c =
  if bool_decide (UPLOAD_COMPRESSION_THRESHOLD < size ∧ c = zlib) then zlib
  else nocompression.
Proof.
  unfold upload_compression. repeat case_bool_decide; naive_solver.
Qed.

Lemma keys_insert_upload id v (m : stdmap (deliver * timer)) :
  m_find id m = None → keys (m_emplace id v m) ≡ₚ id :: keys m.
Proof. intros Hn. unfold keys. by rewrite m_emplace_perm. Qed.

(** An upload transaction that begins gets a number no other upload has, for as
    long as the 64-bit counter has not wrapped: the client that presents the number
    receives this file and no other, the transactions in progress are untouched, and
    zlib is chosen exactly for a file over 100 MB when the client asked for it.  It is
    refused exactly when the file is missing, empty or cannot be opened. *)
Theorem upload_begins_fresh d Path c T dm :
  uploads_wf dm → 0 ≤ upload_transactions_id_counter_ dm < two64 - 1 →
  let '(ok, c', id, dm') := BeginUploadTransaction d Path c T dm in
  (ok = true ↔ ∃ size, file_size d Path = Some size ∧ size ≠ 0
                       ∧ opens_for_reading d Path = true)
  ∧ (ok = false → c' = c ∧ id = T ∧ dm' = dm)
  ∧ (ok = true →
     uploads_wf dm' ∧ m_find id (upload_transactions_ dm) = None
     ∧ m_find id (upload_transactions_ dm') = Some (mkDeliver c' Path None, Idle)
     ∧ (∀ j, j ≠ id → m_find j (upload_transactions_ dm') = m_find j (upload_transactions_ dm))
     ∧ (∀ size, file_size d Path = Some size →
          c' = if bool_decide (UPLOAD_COMPRESSION_THRESHOLD < size ∧ c = zlib)
               then zlib else nocompression)
     ∧ ∀ sock, m_find id (upload_transactions_ (TryStartUploadTransaction id sock dm'))
               = Some (mkDeliver c' Path (Some sock), Halted)).
Proof.
  intros Hwf Hc. pose proof (upload_counter_unused dm Hwf) as Hun.
  unfold BeginUploadTransaction. destruct (file_size d Path) as [size|] eqn:Es.
  2: { split_and!; [|done..]. split; [done|by intros (? & ? & _)]. }
  case_bool_decide as H0; [split_and!; [|done..]; naive_solver|].
  destruct (opens_for_reading d Path) eqn:Eo; cbn [negb];
    [|split_and!; [|done..]; naive_solver].
  split_and!; [naive_solver|done|]. intros _.
  set (id := upload_transactions_id_counter_ dm) in *.
  cbn [upload_transactions_ upload_transactions_id_counter_].
  assert (u64 (id + 1) = id + 1) as Hid by (apply u64_id; split; lia).
  split_and!; [split|done| | | |].
  - by apply keys_emplace_NoDup, (proj1 Hwf).
  - cbn [upload_transactions_ upload_transactions_id_counter_].
    rewrite keys_insert_upload, Hid by done. constructor; [lia|].
    destruct Hwf as [_ Hb]. eapply Forall_impl; [exact Hb|]. cbn. intros x. fold id. lia.
  - rewrite m_find_emplace by done. by rewrite bool_decide_eq_true_2.
  - intros j Hj. rewrite m_find_emplace by done. by rewrite bool_decide_eq_false_2.
  - intros s [= <-]. apply upload_compression_spec.
  - intros sock. unfold TryStartUploadTransaction. cbn [upload_transactions_].
    rewrite m_find_emplace, bool_decide_eq_true_2 by done.
    unfold with_uploads. cbn [upload_transactions_].
    rewrite m_find_update, m_find_emplace by done. by rewrite !bool_decide_eq_true_2.
Qed.

(** How starting a transaction with this receiver on this socket ends the program: in a
    debug build the start byte has to be written. *)
Definition start_fault (NDEBUG : bool) (sock : peer) (r : option (receiver Handler)) : option fault :=
  match (if NDEBUG then None
         else match start_byte_written sock with
              | None => Some Thrown
              | Some n => if (n =? 1)%nat then None else Some AssertionFailed
              end) with
  | Some f => Some f
  | None =>
      match r with
      | None => Some UndefinedBehaviour
      | Some r =>
          if bool_decide (receiver_mode r = zlib) && negb (first_header_read sock)
          then Some UndefinedBehaviour else None
      end
  end.

Lemma start_receiver_cases sock (r : receiver Handler) :
  start_receiver sock (set_receiver_socket (peer_socket sock) r)
  = if bool_decide (receiver_mode r = zlib) && negb (first_header_read sock)
    then Fault UndefinedBehaviour else Ok tt.
Proof. unfold start_receiver. cbn. by destruct (receiver_mode r), (first_header_read sock). Qed.

Lemma start_existing_download NDEBUG ID sock dm (r : option (receiver Handler)) t :
  m_find ID (download_transactions_ dm) = Some (r, t) →
  match start_fault NDEBUG sock r with
  | Some f => TryStartDownloadTransaction NDEBUG ID sock dm = Fault f
  | None => ∃ r0 dm', r = Some r0
      ∧ TryStartDownloadTransaction NDEBUG ID sock dm = Ok dm'
      ∧ download_transactions_ dm'
        = m_update ID (λ e, (Some (set_receiver_socket (peer_socket sock) r0), e.2))
            (m_update ID (λ e, (e.1, Halted)) (download_transactions_ dm))
      ∧ start_bytes dm' = start_bytes dm ++ (if NDEBUG then [] else [peer_socket sock])
  end.
Proof.
  intros Hf. unfold TryStartDownloadTransaction, start_fault, cassert. rewrite Hf. cbv zeta.
  destruct NDEBUG; cbn [mbind outcome_bind].
  - destruct r as [r|]; [|done]. rewrite start_receiver_cases.
    destruct (bool_decide _ && _); cbn [mbind outcome_bind]; [done|].
    eexists r, _. split_and!; [done..|]. cbn. by rewrite app_nil_r.
  - unfold write_start_byte. rewrite M_bind_unfold.
    destruct (start_byte_written sock) as [[|[|n]]|]; try done. cbn [Nat.eqb].
    destruct r as [r|]; [|done]. cbn [mbind outcome_bind]. rewrite start_receiver_cases.
    destruct (bool_decide _ && _); cbn [mbind outcome_bind]; [done|].
    by eexists r, _.
Qed.

Lemma start_download_uploads NDEBUG ID sock dm dm' :
  TryStartDownloadTransaction NDEBUG ID sock dm = Ok dm' →
  upload_transactions_ dm' = upload_transactions_ dm.
Proof.
  unfold TryStartDownloadTransaction. destruct (m_find ID _) as [[r t]|]; [|by intros [= <-]].
  cbv zeta. destruct (cassert _ _ _) as [[u dm1]|] eqn:E; [|done]. cbn [mbind outcome_bind].
  assert (upload_transactions_ dm1 = upload_transactions_ dm) as E1.
  { revert E. unfold cassert. destruct NDEBUG; [by intros [= _ <-]|].
    rewrite M_bind_unfold. unfold write_start_byte.
    destruct (start_byte_written sock) as [k|]; [|done]. destruct (k =? 1)%nat; [|done].
    by intros [= _ <-]. }
  destruct r as [r|]; [|done]. destruct (start_receiver _ _); [|done]. by intros [= <-].
Qed.

(** Starting a download transaction that began: with a stream or zlib receiver it
    starts on the client's socket, with the timer stopped; with any other compression
    - gzip, which the server offers - the receiver is a null pointer and starting it
    is undefined behaviour.  So it is when the first header of a compressed transfer can
    not be read: the completion handler, called on the spot, locks the mutex that is
    held.  The byte that tells the client to go ahead is sent only by a debug build,
    which stops when it is not written; the release build drops it with the assertion. *)
Theorem download_start NDEBUG d ID FileName FileSize c (h : Handler) dm dm' sock :
  m_find ID (download_transactions_ dm) = None →
  BeginDownloadTransaction d ID FileName FileSize c h dm = Ok (true, dm') →
  match TryStartDownloadTransaction NDEBUG ID sock dm' with
  | Ok dm'' =>
      (c = nocompression ∨ c = zlib ∧ first_header_read sock = true)
      ∧ m_find ID (download_transactions_ dm'')
        = Some (Some (mkReceiver c FileName FileSize (Some (peer_socket sock)) h), Halted)
      ∧ CloseDownloadTransaction ID dm'' = Ok tt
      ∧ start_bytes dm'' = start_bytes dm ++ (if NDEBUG then [] else [peer_socket sock])
  | Fault f =>
      f = UndefinedBehaviour ∧ c ≠ nocompression ∧ (c = zlib → first_header_read sock = false)
      ∨ NDEBUG = false ∧ start_byte_written sock ≠ Some 1%nat
  end.
Proof.
  intros Hn. unfold BeginDownloadTransaction.
  destruct (creates_parents d FileName); cbn; [|done].
  destruct (opens_for_writing d FileName); cbn; [|done]. intros [= <-].
  set (dm1 := with_downloads _ dm).
  assert (m_find ID (download_transactions_ dm1)
          = Some (make_receiver c FileName FileSize h, Ticking)) as H1.
  { cbn. rewrite m_find_update, m_find_emplace by done. by rewrite bool_decide_eq_true_2. }
  pose proof (start_existing_download NDEBUG ID sock dm1 _ Ticking H1) as Hs.
  destruct (start_fault NDEBUG sock (make_receiver c FileName FileSize h)) as [f|] eqn:Ef.
  - rewrite Hs. unfold start_fault in Ef. revert Ef.
    destruct NDEBUG; [|destruct (start_byte_written sock) as [[|[|n]]|]];
      try (intros _; right; done).
    all: left; revert Ef; destruct c; cbn; try done; destruct (first_header_read sock); cbn;
      intros [= <-]; done.
  - destruct Hs as (r & dm2 & Er & -> & Hd & Hb).
    assert (m_find ID (download_transactions_ dm2)
            = Some (Some (set_receiver_socket (peer_socket sock) r), Halted)) as H2.
    { rewrite Hd, !m_find_update, H1. by rewrite !bool_decide_eq_true_2. }
    unfold CloseDownloadTransaction. rewrite H2. unfold start_fault in Ef. rewrite Er in Ef.
    assert (bool_decide (receiver_mode r = zlib) && negb (first_header_read sock) = false) as Hz.
    { revert Ef. repeat case_match; congruence. }
    destruct c; simplify_eq/=; split_and!; try done; [by left|right; split; [done|]].
    by destruct (first_header_read sock).
Qed.

(** Every receiver exists. *)
Definition receivers_exist dm : Prop :=
  ∀ id r t, m_find id (download_transactions_ dm) = Some (r, t) → r ≠ None.

Context `{Protocol} `{BoostSplitLaws}.

Lemma TryInitTransaction_total ready TempBuffer :
  (SENDER_RECEIVER_POSITION_DWNLD < 2)%nat → (DOWNLOAD_TRANSACTION_ID_POS < 2)%nat →
  ∃ hello, TryInitTransaction ready TempBuffer = Ok hello.
Proof.
  intros Hs Hi. unfold TryInitTransaction. destruct ready; cbn; [|eauto].
  case_bool_decide as Hl; cbn; [|eauto].
  destruct (boost_split _ (getline TempBuffer)) as [|a [|b [|? ?]]]; try done.
  assert (∀ i, (i < 2)%nat → ∃ t, read_token [a; b] i = Ok t) as Ht.
  { intros i Hi2. destruct i as [|[|i]]; [eexists; reflexivity..|lia]. }
  destruct (Ht _ Hs) as [t1 ->], (Ht _ Hi) as [t2 ->]. cbn.
  destruct (stoull t2); eauto.
Qed.

(** Whatever bytes a peer of the download port sends as its greeting, handling the
    handshake completes in a release build, unless the greeting names a download
    transaction whose receiver is null, or is a compressed one whose first header can not
    be read. *)
Theorem handshake_safe error ready TempBuffer sock dm :
  (SENDER_RECEIVER_POSITION_DWNLD < 2)%nat → (DOWNLOAD_TRANSACTION_ID_POS < 2)%nat →
  receivers_exist dm → first_header_read sock = true →
  ∃ dm', HandleHandshake true error ready TempBuffer sock dm = Ok dm'.
Proof.
  intros Hs Hi Hr Hh. unfold HandleHandshake. destruct error; [eauto|].
  destruct (TryInitTransaction_total ready TempBuffer Hs Hi) as [[[ty id]|] ->]; cbn; [|eauto].
  case_bool_decide; [eauto|]. case_bool_decide; [|eauto].
  destruct (m_find id (download_transactions_ dm)) as [[r t]|] eqn:E.
  - pose proof (start_existing_download true id sock dm r t E) as Hst.
    destruct r as [r|]; [|by destruct (Hr _ _ _ E)].
    unfold start_fault in Hst. rewrite Hh, andb_false_r in Hst.
    destruct Hst as (r0 & dm' & _ & -> & _). eauto.
  - unfold TryStartDownloadTransaction. rewrite E. eauto.
Qed.

Lemma getline_app s rest : NEWLINE ∉ s → getline (s ++ NEWLINE :: rest) = s.
Proof.
  induction s as [|c s IH]; cbn [getline app]; [by rewrite bool_decide_eq_true_2|].
  rewrite not_elem_of_cons. intros [Hc Hs]. rewrite bool_decide_eq_false_2 by done.
  by rewrite IH.
Qed.

(** The greeting of a client, its role and the transaction number it was given
    separated by the delimiter, is read back as that role and that number, whatever
    follows the line. *)
Theorem hello_round_trip role id rest :
  SENDER_RECEIVER_POSITION_DWNLD = 0%nat → DOWNLOAD_TRANSACTION_ID_POS = 1%nat →
  DOWNLOAD_TRANSACTION_DELIM_CHR ∉ role → NEWLINE ∉ role →
  DOWNLOAD_TRANSACTION_DELIM_CHR ≠ NEWLINE →
  (∀ d, 0 ≤ d < 10 → digit_char d ≠ DOWNLOAD_TRANSACTION_DELIM_CHR) →
  in_u64 id →
  TryInitTransaction true
    (role ++ [DOWNLOAD_TRANSACTION_DELIM_CHR] ++ to_string id ++ [NEWLINE] ++ rest)
  = Ok (Some (role, id)).
Proof.
  intros Hp0 Hp1 Hrd Hrn Hdn Hdig Hid.
  pose proof (to_string_digits id (proj1 Hid)) as Hds. unfold all_digits in Hds.
  assert (NEWLINE ∉ to_string id) as Hnl.
  { intros Hin. rewrite Forall_forall in Hds. destruct (Hds _ Hin) as (d & Hd & E).
    unfold digit_char, NEWLINE in E. apply (f_equal N_of_ascii) in E.
    rewrite !N_ascii_embedding in E by lia. lia. }
  unfold TryInitTransaction. cbn [negb].
  replace (role ++ [DOWNLOAD_TRANSACTION_DELIM_CHR] ++ to_string id ++ [NEWLINE] ++ rest)
    with ((role ++ DOWNLOAD_TRANSACTION_DELIM_CHR :: to_string id) ++ NEWLINE :: rest)
    by (by rewrite <- app_assoc).
  rewrite getline_app by (rewrite not_elem_of_app, not_elem_of_cons; naive_solver).
  rewrite split_token_sep; [|apply Forall_forall|by apply bool_decide_eq_true].
  - rewrite split_token; [|apply Forall_forall].
    + cbn [length]. rewrite bool_decide_eq_true_2 by done. rewrite Hp0, Hp1.
      change (read_token [role; to_string id] 0) with (Ok role).
      change (read_token [role; to_string id] 1) with (Ok (to_string id)).
      cbn [negb mbind outcome_bind]. by rewrite stoull_to_string.
    + intros c Hc. rewrite Forall_forall in Hds. destruct (Hds _ Hc) as (d & Hd & ->).
      by apply bool_decide_eq_false, Hdig.
  - intros c Hc. apply bool_decide_eq_false. by intros ->.
Qed.
End theorems.

(** ** Witnesses *)

#[local] Existing Instance split_def_split.
#[local] Existing Instance split_def_laws.
#[local] Existing Instance sample_protocol.

Definition sample_disk : disk :=
  mkDisk (λ _, Some 10) (λ _, true) (λ _, true) (λ _, true).
Definition sample_peer (sock : Z) : peer := mkPeer sock (Some 1%nat) true.
Definition sample_dm : download_manager unit := new_download_manager.

Lemma sample_uploads_wf : uploads_wf sample_dm.
Proof. split; constructor. Qed.

Definition sample_uploading : download_manager unit :=
  mkDownloadManager [] [(1, (mkDeliver nocompression (lit "f") None, Idle))] 2 [].

Lemma sample_upload :
  BeginUploadTransaction sample_disk (lit "f") zlib 0 sample_dm
  = (true, nocompression, 1, sample_uploading).
Proof. vm_compute. reflexivity. Qed.

Lemma sample_counter : 0 ≤ upload_transactions_id_counter_ sample_dm < two64 - 1.
Proof. vm_compute. split; [discriminate|reflexivity]. Qed.

Lemma upload_begins_fresh_witness :
  m_find 1 (upload_transactions_ (TryStartUploadTransaction 1 9 sample_uploading))
  = Some (mkDeliver nocompression (lit "f") (Some 9), Halted).
Proof.
  pose proof (upload_begins_fresh sample_disk (lit "f") zlib 0 sample_dm sample_uploads_wf
                sample_counter) as HU.
  rewrite sample_upload in HU. destruct HU as (_ & _ & HU).
  destruct (HU eq_refl) as (_ & _ & _ & _ & _ & Hs). exact (Hs 9).
Defined.

Definition sample_begun (c : compression) : download_manager unit :=
  with_downloads [(5, (make_receiver c (lit "f") 3 tt, Ticking))] sample_dm.

(** A gzip transfer: the client that connects makes the server dereference null. *)
Lemma download_start_witness :
  TryStartDownloadTransaction true 5 (sample_peer 8) (sample_begun gzip) = Fault UndefinedBehaviour
  ∧ start_bytes <$> TryStartDownloadTransaction true 5 (sample_peer 8) (sample_begun zlib) = Ok []
  ∧ TryStartDownloadTransaction true 5 (mkPeer 8 None false) (sample_begun zlib) = Fault UndefinedBehaviour.
Proof.
  split; [|split; reflexivity].
  pose proof (download_start true sample_disk 5 (lit "f") 3 gzip tt sample_dm
                (sample_begun gzip) (sample_peer 8) eq_refl eq_refl) as HD.
  destruct (TryStartDownloadTransaction true 5 (sample_peer 8) (sample_begun gzip)) as [dm|f].
  - destruct HD as [[HD|[HD _]] _]; discriminate HD.
  - destruct HD as [[-> _]|[HD _]]; [reflexivity|discriminate HD].
Defined.

Lemma handshake_safe_witness :
  ∃ dm', HandleHandshake true false true (lit "S:5junk") (sample_peer 8) (sample_begun zlib) = Ok dm'.
Proof.
  apply handshake_safe; [cbn; lia..| |done].
  intros id r t. unfold sample_begun. cbn. case_bool_decide; [|done].
  intros [= <- <-]. done.
Defined.

Lemma hello_round_trip_witness :
  TryInitTransaction true
    (lit "R" ++ [DOWNLOAD_TRANSACTION_DELIM_CHR] ++ to_string 42 ++ [NEWLINE] ++ lit "x")
  = Ok (Some (lit "R", 42)).
Proof.
  apply (hello_round_trip (lit "R") 42 (lit "x")); try reflexivity; try discriminate.
  - by intros [?|?%elem_of_nil]%elem_of_cons.
  - by intros [?|?%elem_of_nil]%elem_of_cons.
  - intros d Hd E. unfold digit_char in E. apply (f_equal N_of_ascii) in E.
    rewrite N_ascii_embedding in E by lia. vm_compute (N_of_ascii _) in E. lia.
  - split; [discriminate|reflexivity].
Defined.
