(* ===== verification/Manager.v ===== *)
(** * Manager: [connection_manager.h], [connection_manager.cpp] and the connections it owns

    The state is everything the connection manager keeps: the connections with their
    clients, the buffers shared between several writes, the count of processing
    clients, the backed-up download requests and the download manager.  A connection
    is known by its address; [connections_] is a set of pointers, so it is walked in
    address order.  A [weak_ptr] expires when its connection leaves the set: every
    asynchronous operation of a connection keeps only a weak pointer.  The critical
    sections and the handlers that contain them are atomic here.

    Writes are recorded in the order they are started ([sent]); a shared write is in
    [unfinished] until its completion handler runs.  Effects on the local disk are
    recorded in [disk_log]. *)

From S2P Require Import Prelude Text Protocol Validators Vfs StdMap BackupRequests DownloadManager.

(** [fsp::impl::server::models::client] *)
Record client := mkClient {
  nickname_ : str;
  state_ : State;
  remote_file_system_ : vfs;
}.

(** [connection], as far as the manager sees it *)
Record connection := mkConnection {
  client_ : client;
  conn_stopped : bool;
}.

(** What a connection was asked to write. *)
Inductive write :=
  | Write (message : outbound)
  | SharedWrite (BufferID : Z).
#[global] Instance write_eq_dec : EqDecision write.
Proof. solve_decision. Defined.

Inductive disk_effect :=
  | TreeEffect (e : fs_effect)
  | RemoveAll (directory : str).
#[global] Instance disk_effect_eq_dec : EqDecision disk_effect.
Proof. solve_decision. Defined.

(** What the completion handler of a download captures. *)
Record download_handler := mkHandler {
  h_request : Z;
  h_owner : str;
  h_path : str;
}.

Record manager := mkManager {
  connections_ : stdmap connection;
  shared_storage_ : stdmap (outbound * Z);
  processing_counter_ : Z;
  backup_requests_ : requests_map;
  download_manager_ : download_manager download_handler;
  SharedStorageIDCounter : Z;
  DownloadTransactionsIDCounter : Z;
  sent : list (Z * write);
  unfinished : list (Z * Z);
  disk_log : list disk_effect;
}.

(** [connection_manager::connection_manager] and the static counters *)
Definition new_manager : manager :=
  mkManager [] [] 0 [] new_download_manager 0 1 [] [] [].

(** ** Field updates *)

Definition on_connections f (s : manager) : manager :=
  mkManager (f (connections_ s)) (shared_storage_ s) (processing_counter_ s)
    (backup_requests_ s) (download_manager_ s) (SharedStorageIDCounter s)
    (DownloadTransactionsIDCounter s) (sent s) (unfinished s) (disk_log s).
Definition on_storage f (s : manager) : manager :=
  mkManager (connections_ s) (f (shared_storage_ s)) (processing_counter_ s)
    (backup_requests_ s) (download_manager_ s) (SharedStorageIDCounter s)
    (DownloadTransactionsIDCounter s) (sent s) (unfinished s) (disk_log s).
Definition set_processing_counter n (s : manager) : manager :=
  mkManager (connections_ s) (shared_storage_ s) n
    (backup_requests_ s) (download_manager_ s) (SharedStorageIDCounter s)
    (DownloadTransactionsIDCounter s) (sent s) (unfinished s) (disk_log s).
Definition set_backup m (s : manager) : manager :=
  mkManager (connections_ s) (shared_storage_ s) (processing_counter_ s)
    m (download_manager_ s) (SharedStorageIDCounter s)
    (DownloadTransactionsIDCounter s) (sent s) (unfinished s) (disk_log s).
Definition set_downloads dm (s : manager) : manager :=
  mkManager (connections_ s) (shared_storage_ s) (processing_counter_ s)
    (backup_requests_ s) dm (SharedStorageIDCounter s)
    (DownloadTransactionsIDCounter s) (sent s) (unfinished s) (disk_log s).
Definition set_storage_id n (s : manager) : manager :=
  mkManager (connections_ s) (shared_storage_ s) (processing_counter_ s)
    (backup_requests_ s) (download_manager_ s) n
    (DownloadTransactionsIDCounter s) (sent s) (unfinished s) (disk_log s).
Definition set_transactions_id n (s : manager) : manager :=
  mkManager (connections_ s) (shared_storage_ s) (processing_counter_ s)
    (backup_requests_ s) (download_manager_ s) (SharedStorageIDCounter s)
    n (sent s) (unfinished s) (disk_log s).
Definition on_sent ws (s : manager) : manager :=
  mkManager (connections_ s) (shared_storage_ s) (processing_counter_ s)
    (backup_requests_ s) (download_manager_ s) (SharedStorageIDCounter s)
    (DownloadTransactionsIDCounter s) (sent s ++ ws) (unfinished s) (disk_log s).
Definition on_unfinished f (s : manager) : manager :=
  mkManager (connections_ s) (shared_storage_ s) (processing_counter_ s)
    (backup_requests_ s) (download_manager_ s) (SharedStorageIDCounter s)
    (DownloadTransactionsIDCounter s) (sent s) (f (unfinished s)) (disk_log s).
Definition on_disk es (s : manager) : manager :=
  mkManager (connections_ s) (shared_storage_ s) (processing_counter_ s)
    (backup_requests_ s) (download_manager_ s) (SharedStorageIDCounter s)
    (DownloadTransactionsIDCounter s) (sent s) (unfinished s) (disk_log s ++ es).

Definition with_state st (c : connection) : connection :=
  mkConnection (mkClient (nickname_ (client_ c)) st (remote_file_system_ (client_ c)))
    (conn_stopped c).
Definition with_nickname nick (c : connection) : connection :=
  mkConnection (mkClient nick (state_ (client_ c)) (remote_file_system_ (client_ c)))
    (conn_stopped c).
Definition with_tree v (c : connection) : connection :=
  mkConnection (mkClient (nickname_ (client_ c)) (state_ (client_ c)) v) (conn_stopped c).
Definition with_stopped (c : connection) : connection :=
  mkConnection (client_ c) true.

Definition is_processing (c : connection) : bool :=
  bool_decide (state_ (client_ c) = processing).
Definition has_nickname nick (c : connection) : bool :=
  bool_decide (nickname_ (client_ c) = nick).

(** ** Connections *)

(** [!weak_ptr.expired()] *)
Definition alive (s : manager) (a : Z) : bool :=
  match m_find a (connections_ s) with Some _ => true | None => false end.

(** [connection->...] through a locked pointer *)
Definition conn (a : Z) : M manager connection := λ s,
  match m_find a (connections_ s) with
  | Some c => Ok (c, s)
  | None => Fault UndefinedBehaviour
  end.

Definition on_conn (a : Z) f : M manager unit := modify (on_connections (m_update a f)).

(** [connection::start_write] *)
Definition start_write (a : Z) (m : outbound) : M manager unit :=
  modify (on_sent [(a, Write m)]).

(** [connection::start_shared_write] *)
Definition start_shared_write (a : Z) (BufferID : Z) : M manager unit :=
  modify (λ s, on_unfinished (λ l, l ++ [(a, BufferID)])
                 (on_sent [(a, SharedWrite BufferID)] s)).

Section manager.
Context `{Protocol} `{BoostSplit}.

(** [connection::connection] and [client::client] *)
Definition new_connection : connection :=
  mkConnection (mkClient [] connected (new_vfs PATH_ROOT)) false.

(** [connection_manager::start] for a connection at address [a] *)
Definition start (a : Z) : M manager unit :=
  modify (on_connections (m_emplace a new_connection)).

(** [isLogged] *)
Definition isLogged (nickname : str) (s : manager) : bool :=
  match m_find_if (has_nickname nickname) (connections_ s) with
  | Some _ => true
  | None => false
  end.

(** [stop_all], after the scheduler was stopped *)
Definition stop_all : M manager unit :=
  modify (λ s, set_processing_counter 0 (on_connections (λ _, []) s)).

(** The loop that hands a stored buffer to the processing connections [P] accepts. *)
Definition share (BufferID : Z) (P : connection → bool) : M manager unit := λ s,
  for_each (λ e, if is_processing e.2 && P e.2 then start_shared_write e.1 BufferID
                 else mret tt) (connections_ s) s.

(** [++SharedStorageIDCounter; shared_storage_.emplace(...)]: the new identifier. *)
Definition store_shared (Buffer : outbound) (count : Z) : M manager Z := λ s,
  let id := u64 (SharedStorageIDCounter s + 1) in
  Ok (id, on_storage (m_emplace id (Buffer, count)) (set_storage_id id s)).

(** [notify_disconnection] *)
Definition notify_disconnection (a : Z) : M manager unit :=
  c ← conn a;
  let st := state_ (client_ c) in
  let nick := nickname_ (client_ c) in
  let LogOutNotification :=
    StringNotificationMessage notifications.USER_LOGGED_OUT [(headers.FileOwner, nick)] None in
  _ ← modify (on_connections (m_erase a));
  early_return ←
    (if bool_decide (st = processing) then
       _ ← modify (λ s, set_processing_counter (u64 (processing_counter_ s - 1)) s);
       n ← gets processing_counter_;
       if bool_decide (n = 0) then mret true
       else
         id ← store_shared LogOutNotification n;
         _ ← share id (λ _, true);
         mret false
     else mret false);
  if early_return : bool then mret tt
  else modify (on_disk [RemoveAll nick]).

(** [connection::stop]; the connection object, which nothing else owns once it left
    the set, is destroyed at the end, and its tree with it. *)
Definition stop (a : Z) : M manager unit :=
  c ← conn a;
  if conn_stopped c then mret tt
  else
    _ ← on_conn a with_stopped;
    _ ← notify_disconnection a;
    es ← lift (delete_vfs PATH_SEPARATOR_CHR (nickname_ (client_ c))
                 (remote_file_system_ (client_ c)));
    modify (on_disk (map TreeEffect es)).

(** [notify_shared_write_done]: [operator\[\]] creates the entry when it is missing. *)
Definition notify_shared_write_done (NDEBUG : bool) (BufferID : Z) : M manager unit :=
  _ ← modify (on_storage (λ m,
        let '(_, m) := m_index BufferID (C_StaticAllocatedString [], 0) m in
        m_update BufferID (λ e, (e.1, u64 (e.2 - 1))) m));
  e ← gets (λ s, m_find BufferID (shared_storage_ s));
  match e with
  | Some (_, 0) =>
      cassert NDEBUG (λ s,
        Ok (match m_find BufferID (shared_storage_ s) with Some _ => true | None => false end,
            on_storage (m_erase BufferID) s))
  | _ => mret tt
  end.

(** The completion handler of the last part of a shared write: it does nothing when the
    connection is gone. *)
Definition shared_write_done (NDEBUG : bool) (a BufferID : Z) : M manager unit := λ s,
  let s := on_unfinished (remove_one (a, BufferID)) s in
  if alive s a then notify_shared_write_done NDEBUG BufferID s else Ok (tt, s).

(** [do_notify] *)
Definition do_notify (Notifier : str) (Notification : outbound) : M manager unit :=
  n ← gets processing_counter_;
  if bool_decide (n = 1) then mret tt
  else
    id ← store_shared Notification (u64 (n - 1));
    share id (λ c, negb (has_nickname Notifier c)).

Definition notify_file_add (FileName : str) (a : Z) : M manager unit :=
  c ← conn a;
  let nick := nickname_ (client_ c) in
  do_notify nick
    (StringNotificationMessage notifications.USER_ADDED_NEW_FILE
       [(headers.FileOwner, nick); (headers.FileName, FileName)] None).

Definition notify_path_removed (FilePath : str) (a : Z) : M manager unit :=
  c ← conn a;
  let nick := nickname_ (client_ c) in
  do_notify nick
    (StringNotificationMessage notifications.USER_DELETED_FILE
       [(headers.FileOwner, nick); (headers.FileName, FilePath)] None).

Definition notify_path_renamed (OldFilePath NewName : str) (a : Z) : M manager unit :=
  c ← conn a;
  let nick := nickname_ (client_ c) in
  do_notify nick
    (StringNotificationMessage notifications.USER_RENAMED_FILE
       [(headers.FileOwner, nick); (headers.FileName, OldFilePath);
        (headers.FileNewName, NewName)] None).

(** The notification [notify_files_registration] builds for the other users. *)
Definition registration_notification (c : client) : outcome outbound :=
  empty ← Empty (remote_file_system_ c);
  if empty : bool then
    Ok (StringNotificationMessage notifications.USER_REGISTERED_FILES
          [(headers.FileOwner, nickname_ c)] None)
  else
    Paths ← Get PATH_SEPARATOR_CHR (remote_file_system_ c) FILE;
    let FilesBody := build_body_list Paths CSV_LIST in
    Ok (StringNotificationMessage notifications.USER_REGISTERED_FILES
          [(headers.FileOwner, nickname_ c);
           (headers.ContentLength, to_string (Z.of_nat (length FilesBody)));
           (headers.ContentType, CSV_LIST)] (Some FilesBody)).

(** The loop of [notify_files_registration]: collects the files of the processing
    clients and hands each of them the shared buffer.  [Get] puts the paths in front
    of those already listed under the nickname. *)
Fixpoint collect_and_share (BufferID : Z) (cs : stdmap connection)
    (FileSystemsOfUsers : gmap str (list str)) : M manager (gmap str (list str)) :=
  match cs with
  | [] => mret FileSystemsOfUsers
  | (a, c) :: cs =>
      if is_processing c then
        Paths ← lift (Get PATH_SEPARATOR_CHR (remote_file_system_ (client_ c)) FILE);
        let key := c_str (nickname_ (client_ c)) in
        let known := default [] (FileSystemsOfUsers !! key) in
        _ ← start_shared_write a BufferID;
        collect_and_share BufferID cs (<[key := Paths ++ known]> FileSystemsOfUsers)
      else collect_and_share BufferID cs FileSystemsOfUsers
  end.

(** [notify_files_registration] *)
Definition notify_files_registration (a : Z) : M manager unit :=
  c ← conn a;
  SharedBuffer ← lift (registration_notification (client_ c));
  _ ← modify (λ s, set_processing_counter (u64 (processing_counter_ s + 1)) s);
  n ← gets processing_counter_;
  if bool_decide (n = 1) then on_conn a (with_state processing)
  else
    id ← store_shared SharedBuffer (u64 (n - 1));
    cs ← gets connections_;
    FileSystemsOfUsers ← collect_and_share id cs ∅;
    let FilesOfUsersBody := build_body_map FileSystemsOfUsers in
    _ ← start_write a
          (StringNotificationMessage notifications.FILES_OF_OTHER_USERS
             [(headers.ContentLength, to_string (Z.of_nat (length FilesOfUsersBody)));
              (headers.ContentType, CSV_MAP)] (Some FilesOfUsersBody));
    on_conn a (with_state processing).

(** ** Downloads *)

(** [GetCompression]: the first compression of the server the user has too. *)
Definition GetCompression (Compressions : list compression) : compression :=
  match Compressions with
  | [] => nocompression
  | _ =>
      match list_find (λ ServerCompr, ServerCompr ∈ Compressions)
              GetSupportedCompressionsEnum with
      | Some (_, ServerCompr) => ServerCompr
      | None => nocompression
      end
  end.

(** [CSVCompressions] of the manager: joined, without the last character. *)
Definition CSVCompressions (Compressions : list str) : str :=
  removelast (Compressions ≫= λ c, c ++ CSV_DELIMITER_STR).

Definition deny (a : Z) (ReqID : str) : M manager unit :=
  start_write a (reply responses.DOWNLOAD_DENY ReqID).

(** [GetDownloadDenyHandler] *)
Definition GetDownloadDenyHandler (r : Request) : M manager unit :=
  deny (WeakConnection r) (RequestID r).

Variable port : Z.                       (* download_manager_.GetPort() *)

(** [DeliverFileFromLocalStorage] *)
Definition DeliverFileFromLocalStorage (d : disk) (a : Z) (compr : compression)
    (ReqID LocalFilePath : str) : M manager unit := λ s,
  let FileSize := file_size d LocalFilePath in
  let '(ok, compr, TransactionID, dm) :=
    BeginUploadTransaction d LocalFilePath compr 0 (download_manager_ s) in
  let s := set_downloads dm s in
  match ok, FileSize with
  | true, Some size =>
      start_write a
        (StringReplyMessage responses.DOWNLOAD_FILE_QUERRY_APPROVED ReqID
           [(headers.FileSize, to_string size);
            (headers.DownloadPort, to_string port);
            (headers.DownloadTransactionID, to_string TransactionID);
            (headers.Compressions, Compression compr)]) s
  | _, _ => deny a ReqID s
  end.

(** [ForEachAndRemoveWrapper] on the manager's requests *)
Definition for_each_and_remove (id : Z) (f : Request → M manager unit) : M manager unit :=
  ForEachAndRemoveWrapper backup_requests_ set_backup alive id f.

(** [connection_manager::DownloadQuerry] *)
Record DownloadQuerry := mkDownloadQuerry {
  q_QuerryID : str;
  q_FileOwner : str;
  q_FilePath : str;
  q_SslVersion : ssl_version;
  q_Compressions : list compression;
}.

(** The owner's connection, when it has the file, and the file's flag. *)
Definition find_owner (owner path : str) (s : manager) : outcome (option (Z * bool)) :=
  match m_find_if (has_nickname owner) (connections_ s) with
  | None => Ok None
  | Some (a, c) =>
      '(found, cached) ←
        Find PATH_SEPARATOR_CHR (remote_file_system_ (client_ c)) path false;
      Ok (if found : bool then Some (a, cached) else None)
  end.

(** [resolve_download_file_querry] *)
Definition resolve_download_file_querry (d : disk) (q : DownloadQuerry) (a : Z)
    : M manager unit :=
  if negb (bool_decide (GetSslVersion = q_SslVersion q))
  then start_write a (reply responses.SSL_VERSION_INCOMPATIBLE (q_QuerryID q))
  else
    owner ← (λ s, r ← find_owner (q_FileOwner q) (q_FilePath q) s; Ok (r, s));
    match owner with
    | None => deny a (q_QuerryID q)
    | Some (OwnerConnection, cached) =>
        let SupportedCompression := GetCompression (q_Compressions q) in
        if cached : bool then
          DeliverFileFromLocalStorage d a SupportedCompression (q_QuerryID q)
            (q_FileOwner q ++ q_FilePath q)
        else
          pending ← (λ s,
            let '(pending, m) :=
              IsDownloadPending (q_FileOwner q) (q_FilePath q) a SupportedCompression
                (q_QuerryID q) (backup_requests_ s) in
            Ok (pending, set_backup m s));
          if pending : bool then mret tt
          else
            _ ← modify (λ s, set_transactions_id (u64 (DownloadTransactionsIDCounter s + 1)) s);
            id ← gets DownloadTransactionsIDCounter;
            _ ← start_write OwnerConnection
                  (StringQuerryMessage (to_string id) querries.DOWNLOAD_FILE
                     [(headers.FileName, q_FilePath q);
                      (headers.SslVersion, Version GetSslVersion);
                      (headers.Compressions, CSVCompressions GetSupportedCompressionsStr)]);
            let info := AddRequest a SupportedCompression (q_QuerryID q)
                          (mkDownloadInfo (q_FileOwner q) (q_FilePath q) []) in
            modify (λ s, set_backup (BackupAndStartTimer id info (backup_requests_ s)) s)
    end.

(** [SetFileToCached]: the call of [SetCached] is the expression of an [assert]. *)
Definition SetFileToCached (NDEBUG : bool) (owner path : str) : M manager unit := λ s,
  match m_find_if (has_nickname owner) (connections_ s) with
  | None => Ok (tt, s)
  | Some (a, c) =>
      cassert NDEBUG (λ s,
        '(ok, v) ← SetCached PATH_SEPARATOR_CHR path true (remote_file_system_ (client_ c));
        Ok (ok, on_connections (m_update a (with_tree v)) s)) s
  end.

(** [NotifyFileDownload] *)
Definition NotifyFileDownload (owner : str) (ID : Z) (compr : compression)
    : M manager bool := λ s,
  match m_find_if (has_nickname owner) (connections_ s) with
  | None => Ok (false, s)
  | Some (a, _) =>
      '(_, s) ← start_write a
        (StringNotificationMessage notifications.USER_REQUESTED_FILE_DOWNLOAD
           [(headers.DownloadTransactionID, to_string ID);
            (headers.DownloadPort, to_string port);
            (headers.Compressions, Compression compr)] None) s;
      Ok (true, s)
  end.

(** [resolve_download_reply] *)
Definition resolve_download_reply (d : disk) (Reply : message) : M manager unit :=
  RequestID ← lift (stoull (header Reply headers.CommandId));
  let compr := GetCompression (CSVCompressions_of_text (header Reply headers.Compressions)) in
  if negb (bool_decide (header Reply headers.ReplyCode
                        = response_text responses.DOWNLOAD_FILE_QUERRY_APPROVED))
  then mret tt
  else
    valid ← (λ s, let '(r, m) := IsRequestIDValid RequestID (backup_requests_ s) in
                  Ok (r, set_backup m s));
    match valid with
    | None => mret tt
    | Some (path, owner) =>
        size ← lift (stoull (header Reply headers.FileSize));
        begun ← (λ s,
          '(ok, dm) ← BeginDownloadTransaction d RequestID (owner ++ path) size compr
                        (mkHandler RequestID owner path) (download_manager_ s);
          Ok (ok, set_downloads dm s));
        if begun : bool then
          _ ← NotifyFileDownload owner RequestID compr;
          mret tt
        else for_each_and_remove RequestID GetDownloadDenyHandler
    end.

(** [assert(EndDownloadTransaction(ID))] *)
Definition assert_end_download (NDEBUG : bool) (ID : Z) : M manager unit :=
  cassert NDEBUG (λ s,
    let '(n, dm) := EndDownloadTransaction ID (download_manager_ s) in
    Ok (negb (n =? 0)%nat, set_downloads dm s)).

(** The handler a receiver calls when its file is complete or failed
    ([InternalDownloadCompletionHandlerWrapper] around the handler of
    [resolve_download_reply]). *)
Definition download_completed (NDEBUG : bool) (d : disk) (ID : Z) (h : download_handler)
    (Succes : bool) : M manager unit :=
  _ ← (λ s, _ ← CloseDownloadTransaction ID (download_manager_ s); Ok (tt, s));
  _ ← (if Succes then
         _ ← SetFileToCached NDEBUG (h_owner h) (h_path h);
         for_each_and_remove (h_request h) (λ r,
           DeliverFileFromLocalStorage d (WeakConnection r) (RequestedCompression r)
             (RequestID r) (h_owner h ++ h_path h))
       else for_each_and_remove (h_request h) GetDownloadDenyHandler);
  assert_end_download NDEBUG ID.

(** The timer of a download transaction expires. *)
Definition download_timer_expired (NDEBUG : bool) (ID : Z) : M manager unit :=
  _ ← for_each_and_remove ID GetDownloadDenyHandler;
  assert_end_download NDEBUG ID.

(** The timer of a backed-up request expires. *)
Definition backup_timer_expired (ID : Z) : M manager unit :=
  for_each_and_remove ID GetDownloadDenyHandler.
End manager.
