(* ===== verification/Handler.v ===== *)
(** * Handler: [server_side_handler.h], [server_side_handler.cpp] and [connection::read_action]

    The path of a request: a parsed message is validated and confirmed by the
    connection that read it ([read_action]), turned into a function object and posted
    with a priority ([handle_message], [resolve_querry]), and later executed by a
    worker ([do_...]).  A function object is a [job]: which member function it calls,
    with the values it captured and the weak pointer to the connection. *)

From S2P Require Import Prelude Text Protocol Validators Vfs StdMap BackupRequests.
From S2P Require Import DownloadManager UsersDb Scheduler Manager.

(** [server_side_handler::DownloadInfo] *)
Record download_request := mkDownloadRequest {
  d_RequestID : str;
  d_FileOwner : str;
  d_FilePath : str;
  d_SslVersion : str;
  d_Compressions : str;
}.

Inductive task :=
  | do_signin (RequestID login password : str)
  | do_signup (RequestID login password : str)
  | do_push_files (RequestID : str) (PathsList : list str)
  | do_delete_account (RequestID : str)
  | do_logout
  | do_add_file (RequestID FileName : str)
  | do_remove_path (RequestID PathName : str)
  | do_remame_path (RequestID OldFilePath NewName : str)
  | do_download_file (downloadInfo : download_request).

Record job := mkJob { job_connection : Z; job_task : task }.

Section dispatch.
Context `{Protocol}.
Implicit Types (Request : message) (a : Z).

(** [QuerryType == querries::X] on the value of the header *)
Definition is_querry Request (q : querries.t) : bool :=
  bool_decide (header Request headers.QuerryType = querry_text q).

(** [resolve_querry]: the posts, in the order of the tests. *)
Definition resolve_querry Request a : list (scheduler_priority * job) :=
  let hdr := header Request in
  (if is_querry Request querries.DOWNLOAD_FILE then
     [(medium, mkJob a (do_download_file
         (mkDownloadRequest (hdr headers.CommandId) (hdr headers.FileOwner)
            (hdr headers.FileName) (hdr headers.SslVersion) (hdr headers.Compressions))))]
   else [])
  ++ (if is_querry Request querries.ADD_FILE then
        [(medium, mkJob a (do_add_file (hdr headers.CommandId) (hdr headers.FileName)))]
      else [])
  ++ (if is_querry Request querries.REMOVE_PATH then
        [(high, mkJob a (do_remove_path (hdr headers.CommandId) (hdr headers.FileName)))]
      else [])
  ++ (if is_querry Request querries.RENAME_PATH then
        [(high, mkJob a (do_remame_path (hdr headers.CommandId) (hdr headers.FileName)
                           (hdr headers.FileNewName)))]
      else []).

(** [handle_message] *)
Definition handle_message Request a : list (scheduler_priority * job) :=
  let hdr := header Request in
  if is_command Request commands.SIGNIN then
    [(high, mkJob a (do_signin (hdr headers.CommandId) (hdr headers.Nickname)
                       (hdr headers.Password)))]
  else if is_command Request commands.SIGNUP then
    [(high, mkJob a (do_signup (hdr headers.CommandId) (hdr headers.Nickname)
                       (hdr headers.Password)))]
  else if is_command Request commands.PUSH_FILES then
    [(medium, mkJob a (do_push_files (hdr headers.CommandId) (body Request)))]
  else if is_command Request commands.QUERRY then resolve_querry Request a
  else if is_command Request commands.DELETE_ACCOUNT then
    [(low, mkJob a (do_delete_account (hdr headers.CommandId)))]
  else if is_command Request commands.LOGOUT then [(very_high, mkJob a do_logout)]
  else [].

(** [cmd_priorities] of [protocol_impl.h], which nothing uses *)
Definition cmd_priorities (c : commands.t) : option scheduler_priority :=
  match c with
  | commands.SIGNIN => Some high
  | commands.SIGNUP => Some high
  | commands.DELETE_ACCOUNT => Some low
  | commands.LOGOUT => Some very_high
  | commands.PUSH_FILES => Some medium
  | commands.UPDATE_FILE_LIST_NOTIFICATION => Some high
  | commands.USER_LOGGED_OUT_NOTIFICATION => Some very_high
  | commands.REMOVE_FILES => Some medium
  | commands.DOWNLOAD_FILE => Some low
  | commands.REPLY_NOTIFICATION => Some very_low
  | _ => None
  end.
End dispatch.

(** ** Execution *)

Section handlers.
Context `{Protocol} `{BoostSplit} `{SqlApi}.
(** [filesystem::path(p).relative_path().append(f)], the download port *)
Variables (relative_append : str → str → str) (port : Z).

(** The manager, the users database, and the posted function objects. *)
Record server := mkServer {
  mgr : manager;
  users_db : database;
  posted : list (scheduler_priority * job);
}.

(** Operations of one part, on the whole. *)
Definition in_mgr {A} (m : M manager A) : M server A := λ s,
  '(x, m) ← m (mgr s); Ok (x, mkServer m (users_db s) (posted s)).
Definition in_db {A} (f : database → outcome (A * database)) : M server A := λ s,
  '(x, db) ← f (users_db s); Ok (x, mkServer (mgr s) db (posted s)).

Definition answer (a : Z) (code : responses.t) (RequestID : str) : M server unit :=
  in_mgr (start_write a (reply code RequestID)).

(** [client().nickname(login); client().state().store(logged)] *)
Definition log_in (a : Z) (login : str) : M server unit :=
  in_mgr (on_conn a (λ c, with_state logged (with_nickname login c))).

Definition run_signin (a : Z) (RequestID login password : str) : M server unit :=
  code ← in_db (retrieve_user (mkUser login password));
  match code with
  | user_credentials_ok =>
      already ← in_mgr (gets (isLogged login));
      if already : bool then answer a responses.USER_ALREADY_LOGGED RequestID
      else
        _ ← log_in a login;
        answer a responses.LOGIN_SUCCESSFULL RequestID
  | user_not_found => answer a responses.NICKNAME_INCORRECT RequestID
  | user_pswd_incorrect => answer a responses.PASSWORD_INCORRECT RequestID
  | internal_error => answer a responses.INTERNAL_SERVER_ERR RequestID
  | _ => mret tt
  end.

Definition run_signup (a : Z) (RequestID login password : str) : M server unit :=
  code ← in_db (register_user (mkUser login password));
  match code with
  | registered_succes =>
      _ ← log_in a login;
      answer a responses.REGISTERING_SUCCESSFULL RequestID
  | user_already_registered => answer a responses.USER_ALREADY_REGISTERED RequestID
  | internal_error => answer a responses.INTERNAL_SERVER_ERR RequestID
  | _ => mret tt
  end.

Definition run_delete_account (a : Z) (RequestID : str) : M server unit :=
  c ← in_mgr (conn a);
  code ← in_db (erase_user (mkUser (nickname_ (client_ c)) []));
  match code with
  | user_removed => answer a responses.DELETING_ACCOUNT_SUCCESSFULL RequestID
  | user_failed_to_remove => answer a responses.REMOVE_ACCOUNT_FAILED RequestID
  | internal_error => answer a responses.INTERNAL_SERVER_ERR RequestID
  | _ => mret tt
  end.

(** The files of [do_push_files], up to the first [Add] that does not complete. *)
Fixpoint add_all (Paths : list str) (v : vfs) : vfs * option fault :=
  match Paths with
  | [] => (v, None)
  | Path :: Paths =>
      match Add PATH_SEPARATOR_CHR Path v with
      | Ok v => add_all Paths v
      | Fault f => (v, Some f)
      end
  end.

(** [catch (...)]: an exception is answered, anything else is not caught. *)
Definition caught (a : Z) (RequestID : str) (f : fault) : M server unit :=
  match f with
  | Thrown => answer a responses.INTERNAL_SERVER_ERR RequestID
  | _ => raise f
  end.

Definition run_push_files (a : Z) (RequestID : str) (Paths : list str) : M server unit :=
  c ← in_mgr (conn a);
  let '(v, fault) := add_all Paths (remote_file_system_ (client_ c)) in
  _ ← in_mgr (on_conn a (with_tree v));
  match fault with
  | Some f => caught a RequestID f
  | None =>
      _ ← answer a responses.PUSH_FILES_SUCCESS RequestID;
      in_mgr (notify_files_registration a)
  end.

Definition run_add_file (a : Z) (RequestID FileName : str) : M server unit :=
  c ← in_mgr (conn a);
  match Add PATH_SEPARATOR_CHR FileName (remote_file_system_ (client_ c)) with
  | Fault f => caught a RequestID f
  | Ok v =>
      _ ← in_mgr (on_conn a (with_tree v));
      _ ← answer a responses.ADD_FILE_SUCCESSFULL RequestID;
      in_mgr (notify_file_add FileName a)
  end.

Definition run_remove_path (a : Z) (RequestID PathName : str) : M server unit :=
  c ← in_mgr (conn a);
  match Vfs.Remove PATH_SEPARATOR_CHR (nickname_ (client_ c)) PathName
          (remote_file_system_ (client_ c)) with
  | Fault f => caught a RequestID f
  | Ok (removed, effects, v) =>
      _ ← in_mgr (on_conn a (with_tree v));
      _ ← in_mgr (modify (on_disk (map TreeEffect effects)));
      if removed : bool then
        _ ← answer a responses.REMOVE_FILE_SUCCESSFULL RequestID;
        in_mgr (notify_path_removed PathName a)
      else answer a responses.REMOVE_FILE_FAILED RequestID
  end.

Definition run_remame_path (a : Z) (RequestID OldFilePath NewName : str)
    : M server unit :=
  c ← in_mgr (conn a);
  match Rename PATH_SEPARATOR_CHR (nickname_ (client_ c)) relative_append OldFilePath NewName
          (remote_file_system_ (client_ c)) with
  | Fault f => caught a RequestID f
  | Ok (renamed, effects, v) =>
      _ ← in_mgr (on_conn a (with_tree v));
      _ ← in_mgr (modify (on_disk (map TreeEffect effects)));
      if renamed : bool then
        _ ← answer a responses.RENAME_FILE_SUCCESSFULL RequestID;
        in_mgr (notify_path_renamed OldFilePath NewName a)
      else answer a responses.RENAME_FILE_FAILED RequestID
  end.

Definition run_download_file (d : disk) (a : Z) (i : download_request) : M server unit :=
  in_mgr (resolve_download_file_querry port d
    (mkDownloadQuerry (d_RequestID i) (d_FileOwner i) (d_FilePath i)
       (Version_of_text (d_SslVersion i)) (CSVCompressions_of_text (d_Compressions i))) a).

(** A worker executes a function object: nothing when the connection has expired. *)
Definition execute (d : disk) (j : job) : M server unit := λ s,
  let a := job_connection j in
  if alive (mgr s) a then
    match job_task j with
    | do_signin r l p => run_signin a r l p s
    | do_signup r l p => run_signup a r l p s
    | do_push_files r l => run_push_files a r l s
    | do_delete_account r => run_delete_account a r s
    | do_logout => in_mgr (stop a) s
    | do_add_file r f => run_add_file a r f s
    | do_remove_path r f => run_remove_path a r f s
    | do_remame_path r o n => run_remame_path a r o n s
    | do_download_file i => run_download_file d a i s
    end
  else Ok (tt, s).

(** [request_scheduler::post] of each function object *)
Definition post_all (js : list (scheduler_priority * job)) : M server unit :=
  modify (λ s, mkServer (mgr s) (users_db s) (posted s ++ js)).

(** [connection::read_action] on a parsed message; [deadline_.stop()] concerns only
    the timer of the connection. *)
Definition read_action (d : disk) (msg : message) (a : Z) : M server unit :=
  if is_command msg commands.HEARTBEAT then
    in_mgr (start_write a (C_StaticAllocatedString HEARTBEAT_MESSAGE))
  else
    c ← in_mgr (conn a);
    match basic_validate msg with
    | Some result => answer a result CMD_ID_WHEN_NO_CMDID_PRESENT
    | None =>
        match transition_validate msg (state_ (client_ c)) with
        | Some result => answer a result (header msg headers.CommandId)
        | None =>
            match semantic_validate msg with
            | Some result => answer a result (header msg headers.CommandId)
            | None =>
                if is_command msg commands.REPLY then
                  in_mgr (resolve_download_reply port d msg)
                else
                  match confirm msg with
                  | Some result =>
                      _ ← answer a result (header msg headers.CommandId);
                      post_all (handle_message msg a)
                  | None => raise UndefinedBehaviour      (* SetReplyCode(nullptr) *)
                  end
            end
        end
    end.
End handlers.
