(* ===== verification/Connection.v ===== *)
(** * Connection: [connection.h], [connection.cpp]

    The asynchronous loops of a connection: the three ways a buffer is written, each a
    chain of [async_send] calls that carries an offset from one completion to the next,
    and the reaction to a chunk of received bytes.  What a connection does with a
    message it has parsed is [read_action] of [Handler]; what the manager does when a
    shared buffer has been written is [notify_shared_write_done] of [Manager].

    The socket is the sequence of the completions of its operations.  The message
    parser and the buffer the bytes arrive in belong to the sibling project and are the
    classes [MessageParser] and [MutableBuffer]. *)

From S2P Require Import Prelude Text Protocol Validators Vfs StdMap BackupRequests.
From S2P Require Import DownloadManager UsersDb Scheduler Manager Handler.

(** ** Writing *)

(** How an [async_send] completes. *)
Inductive completion :=
  | SendError
  | BytesTransferred (n : nat).

(** How the chain ends: [Waiting] when there is no further completion yet. *)
Inductive write_end := Waiting | Stopped | Written.
#[global] Instance write_end_eq_dec : EqDecision write_end.
Proof. solve_decision. Defined.

(** The bytes the socket took from [size] bytes at [data + offset], and the end. *)
Fixpoint send_from (NDEBUG : bool) (data : str) (OffsetFromWhereToWrite : nat)
    (cs : list completion) : outcome (str * write_end) :=
  if negb NDEBUG && negb (OffsetFromWhereToWrite <? length data)%nat
  then Fault AssertionFailed
  else
    match cs with
    | [] => Ok ([], Waiting)
    | SendError :: _ => Ok ([], Stopped)
    | BytesTransferred n :: cs =>
        let now := take n (drop OffsetFromWhereToWrite data) in
        let Offset := (OffsetFromWhereToWrite + n)%nat in
        if (Offset =? length data)%nat then Ok (now, Written)
        else
          '(later, e) ← send_from NDEBUG data Offset cs;
          Ok (now ++ later, e)
    end.

(** [start_shared_write], [async_shared_write]: the view stays valid while the buffer is
    in the shared storage.  On [Written] the manager is notified, on [Stopped] the
    connection stops itself. *)
Definition async_shared_write (NDEBUG : bool) (BufferView : str) (cs : list completion)
    : outcome (str * write_end) :=
  send_from NDEBUG BufferView 0 cs.

(** [start_write(string&)], [async_write(string&, size_t)]: the address is taken before
    the string is moved into the handler, so it is that of the moved-to string only when
    the characters are on the heap.  [sso_capacity] is the number of characters a string
    holds in itself. *)
Definition async_write (sso_capacity : nat) (NDEBUG : bool) (Buffer : str)
    (cs : list completion) : outcome (str * write_end) :=
  if (length Buffer <=? sso_capacity)%nat then
    if negb NDEBUG && (length Buffer =? 0)%nat then Fault AssertionFailed
    else Fault UndefinedBehaviour
  else send_from NDEBUG Buffer 0 cs.

(** [start_write] and [async_write] of a C string with static storage: the length is
    [strlen]. *)
Definition async_write_static (NDEBUG : bool) (C_StaticAllocatedString : str)
    (cs : list completion) : outcome (str * write_end) :=
  send_from NDEBUG (c_str C_StaticAllocatedString) 0 cs.

(** What a stream socket promises: a completion without error reports at least one byte
    and at most those that were left. *)
Fixpoint completions_ok (left : nat) (cs : list completion) : Prop :=
  match cs with
  | BytesTransferred n :: cs => (1 ≤ n ≤ left)%nat ∧ completions_ok (left - n) cs
  | _ => True
  end.

(** The bytes taken so far, and whether the chain has come to an end. *)
Lemma send_from_spec NDEBUG data off cs :
  (off < length data)%nat → completions_ok (length data - off) cs →
  ∃ bs e, send_from NDEBUG data off cs = Ok (bs, e)
    ∧ bs `prefix_of` drop off data
    ∧ (e = Written ↔ bs = drop off data)
    ∧ (SendError ∉ cs → (length data - off ≤ length cs)%nat → e = Written).
Proof.
  revert off. induction cs as [|c cs IH]; intros off Hoff Hok.
  - assert (drop off data ≠ []) as Hne.
    { intros E. apply (f_equal length) in E. rewrite length_drop in E. cbn in E. lia. }
    exists [], Waiting. cbn [send_from]. rewrite (proj2 (Nat.ltb_lt _ _) Hoff), andb_false_r.
    split_and!; [done|apply prefix_nil| |intros _ Hl; cbn in Hl; lia].
    split; [done|]. intros E. by rewrite <- E in Hne.
  - cbn [send_from]. rewrite (proj2 (Nat.ltb_lt _ _) Hoff), andb_false_r.
    assert (drop off data ≠ []) as Hne.
    { intros E. apply (f_equal length) in E. rewrite length_drop in E. cbn in E. lia. }
    destruct c as [|n].
    + exists [], Stopped. split_and!; [done|apply prefix_nil| |].
      * split; [done|]. intros E. by rewrite <- E in Hne.
      * intros Hn. destruct Hn. left.
    + destruct Hok as [Hn Hok]. destruct (Nat.eqb_spec (off + n) (length data)) as [E|Hneq].
      * exists (take n (drop off data)), Written.
        rewrite take_ge by (rewrite length_drop; lia). by split_and!.
      * destruct (IH (off + n)%nat) as (bs & e & E & Hp & He & Hw); [lia| |].
        { by replace (length data - (off + n))%nat with (length data - off - n)%nat by lia. }
        rewrite E. exists (take n (drop off data) ++ bs), e. split; [done|].
        rewrite <- drop_drop in Hp, He.
        pose proof (take_drop n (drop off data)) as Ecut. split_and!.
        -- rewrite <- Ecut at 2. by apply prefix_app.
        -- rewrite He. rewrite <- Ecut at 3. split; [by intros ->|apply app_inv_head].
        -- intros Hse Hl. apply Hw; [by intros ?; apply Hse; right|]. cbn in Hl. lia.
Qed.

(** C28. A write loop transmits its buffer, in order and without repetition: whatever
    the sizes of the partial sends, what was sent is a prefix of the buffer, the write
    is reported complete exactly when all of it was sent, the assertion on the offset
    never fails, and if the socket keeps accepting bytes the write does complete.  For
    the owned strings this needs more characters than a string holds in itself; with
    fewer the address given to the socket does not point to the buffer any more. *)
Theorem write_loops_transmit sso NDEBUG data cs :
  let transmits (r : outcome (str * write_end)) (data : str) :=
    ∃ bs e, r = Ok (bs, e) ∧ bs `prefix_of` data ∧ (e = Written ↔ bs = data)
      ∧ (SendError ∉ cs → (length data ≤ length cs)%nat → e = Written) in
  data ≠ [] → completions_ok (length data) cs →
  transmits (async_shared_write NDEBUG data cs) data
  ∧ (NUL ∉ data → transmits (async_write_static NDEBUG data cs) data)
  ∧ (if (sso <? length data)%nat then transmits (async_write sso NDEBUG data cs) data
     else async_write sso NDEBUG data cs = Fault UndefinedBehaviour).
Proof.
  intros transmits Hne Hok.
  assert (0 < length data)%nat as Hlen by (destruct data; [done|cbn; lia]).
  assert (transmits (send_from NDEBUG data 0 cs) data) as HT.
  { destruct (send_from_spec NDEBUG data 0 cs Hlen) as (bs & e & E & HH).
    { by rewrite Nat.sub_0_r. } rewrite Nat.sub_0_r, drop_0 in HH. by exists bs, e. }
  split_and!; [done| |].
  - intros Hnul. unfold async_write_static. by rewrite c_str_id.
  - unfold async_write. destruct (Nat.ltb_spec sso (length data)).
    + by rewrite (proj2 (Nat.leb_gt (length data) sso)) by lia.
    + rewrite (proj2 (Nat.leb_le (length data) sso)) by lia.
      by rewrite (proj2 (Nat.eqb_neq (length data) 0)), andb_false_r by lia.
Qed.

Lemma write_loops_transmit_witness :
  async_write 1 false (lit "abc") (replicate 3 (BytesTransferred 1))
  = Ok (lit "abc", Written).
Proof.
  destruct (write_loops_transmit 1 false (lit "abc") (replicate 3 (BytesTransferred 1)))
    as (_ & _ & bs & e & E & _ & He & Hw); [discriminate|cbn; lia|].
  assert (e = Written) as Ee.
  { apply Hw; [|cbn; lia].
    intros [H _]%elem_of_replicate. discriminate H. }
  rewrite E. rewrite (proj1 He Ee), Ee. reflexivity.
Defined.

(** ** Reading *)

Inductive parse_result := good | bad | indeterminate.

(** [message_parser] with the message it fills. *)
Class MessageParser `{Protocol} := {
  parser : Type;
  parse : parser → str → parse_result * nat * parser;  (* the result, the bytes consumed *)
  message_buffer : parser → message;
  clear : parser → parser;                             (* message_buffer_.clear() *)
}.

(** [mutable_buffer] *)
Class MutableBuffer := {
  mutable_buffer : Type;
  received : str → mutable_buffer;                     (* current_size(BytesTransferred) *)
  can_read : mutable_buffer → bool;
  unread : mutable_buffer → str;                       (* begin_read_iter, end_read_iter *)
  consume : nat → mutable_buffer → mutable_buffer;
}.

(** The buffer is a queue of bytes. *)
Class BufferLaws `{MutableBuffer} : Prop := {
  unread_received bs : unread (received bs) = bs;
  unread_consume n b : unread (consume n b) = drop n (unread b);
  can_read_unread b : can_read b = bool_decide (unread b ≠ []);
}.

Section reading.
Context `{MessageParser} `{MutableBuffer} `{BoostSplit} `{SqlApi}.
(** The download port, the disk, and [std::stoi] of the setting
    [SEC_TO_W8_ON_INCOMPLETE_MSG]. *)
Variables (port : Z) (d : disk) (incomplete_message_timeout : outcome Z).

(** [read_indeterminate] starts the deadline, whose handler holds a pointer obtained
    from [weak_from_this()] inside the constructor: it has expired from the start, and
    the handler does nothing. *)
Definition read_indeterminate : M server unit := _ ← lift incomplete_message_timeout; mret tt.

(** The reply to bytes that are no message. *)
Definition syntactic_error (a : Z) : M server unit :=
  answer a responses.SYNTACTIC_ERROR CMD_ID_WHEN_NO_CMDID_PRESENT.

(** The loop of the completion handler of [start_read], and the parser it leaves.  Nothing
    bounds the number of its iterations, as the parser decides how many bytes each of them
    takes: the fuel is how many there may be. *)
Fixpoint read_loop (fuel : nat) (a : Z) (b : mutable_buffer) (p : parser)
    (SyntacticErrorSentBefore : bool) : M server parser :=
  match fuel with
  | O => raise OutOfFuel
  | S fuel =>
      if can_read b then
        let '(result, iter, p) := parse p (unread b) in
        let b := consume iter b in
        match result with
        | good =>
            _ ← read_action port d (message_buffer p) a;
            read_loop fuel a b (clear p) false
        | bad =>
            _ ← (if SyntacticErrorSentBefore then mret tt else syntactic_error a);
            read_loop fuel a b (clear p) true
        | indeterminate =>
            _ ← read_indeterminate;
            mret p
        end
      else mret p
  end.

(** The completion handler of [start_read] for a connection that exists: [None] is an
    error of the socket. *)
Definition read_completed (fuel : nat) (a : Z) (bytes : option str) (p : parser) : M server parser :=
  match bytes with
  | Some bytes => read_loop fuel a (received bytes) p false
  | None => _ ← in_mgr (stop a); mret p
  end.

(** ** What the bytes contain *)

Inductive event :=
  | Message (m : message)
  | Malformed
  | Incomplete.

(** The events of a chunk of bytes, and the parser after them. *)
Inductive parses : parser → str → list event → parser → Prop :=
  | parses_end p : parses p [] [] p
  | parses_good p bs n p1 evs p' :
      bs ≠ [] → parse p bs = (good, n, p1) → parses (clear p1) (drop n bs) evs p' →
      parses p bs (Message (message_buffer p1) :: evs) p'
  | parses_bad p bs n p1 evs p' :
      bs ≠ [] → parse p bs = (bad, n, p1) → parses (clear p1) (drop n bs) evs p' →
      parses p bs (Malformed :: evs) p'
  | parses_indeterminate p bs n p1 :
      bs ≠ [] → parse p bs = (indeterminate, n, p1) → parses p bs [Incomplete] p1.

(** A run of malformed pieces counts once. *)
Fixpoint collapse (before : bool) (evs : list event) : list event :=
  match evs with
  | [] => []
  | Malformed :: evs => if before then collapse true evs else Malformed :: collapse true evs
  | e :: evs => e :: collapse false evs
  end.

Definition react (a : Z) (e : event) : M server unit :=
  match e with
  | Message m => read_action port d m a
  | Malformed => syntactic_error a
  | Incomplete => read_indeterminate
  end.

Lemma read_loop_parses `{!BufferLaws} a p bs evs p' :
  parses p bs evs p' →
  ∀ fuel b before s, unread b = bs → (length evs < fuel)%nat →
    read_loop fuel a b p before s
    = (for_each (react a) (collapse before evs) ≫= λ _, mret p') s.
Proof.
  induction 1 as [p|p bs n p1 evs p' Hne E Hp IH|p bs n p1 evs p' Hne E Hp IH|p bs n p1 Hne E];
    intros [|fuel] b before s Hb Hf; try (cbn in Hf; lia); cbn [read_loop]; rewrite can_read_unread, Hb.
  - done.
  - rewrite bool_decide_eq_true_2, E by done. cbn [collapse for_each].
    rewrite M_bind_assoc, !M_bind_unfold. cbn [react].
    destruct (read_action _ _ _ _ s) as [[x s1]|]; [|done].
    apply IH; [by rewrite unread_consume, Hb|]. cbn in Hf. lia.
  - rewrite bool_decide_eq_true_2, E by done. cbn [collapse]. cbn in Hf.
    destruct before; cbn [for_each].
    + rewrite M_bind_unfold. cbn [mret M_ret]. apply IH; [by rewrite unread_consume, Hb|lia].
    + rewrite M_bind_assoc, !M_bind_unfold. cbn [react].
      destruct (syntactic_error a s) as [[x s1]|]; [|done].
      apply IH; [by rewrite unread_consume, Hb|lia].
  - rewrite bool_decide_eq_true_2, E by done. cbn [collapse for_each react].
    rewrite M_bind_assoc, !M_bind_unfold.
    by destruct (read_indeterminate s) as [[x s1]|].
Qed.

(** A loop that ends has taken the bytes apart. *)
Lemma read_loop_ends `{!BufferLaws} fuel a b p before s x :
  read_loop fuel a b p before s = Ok x → ∃ evs p', parses p (unread b) evs p'.
Proof.
  revert b p before s. induction fuel as [|fuel IH]; intros b p before s; cbn [read_loop]; [done|].
  rewrite can_read_unread. destruct (decide (unread b = [])) as [Hb|Hne].
  { intros _. exists [], p. rewrite Hb. constructor. }
  rewrite bool_decide_eq_true_2 by done.
  destruct (parse p (unread b)) as [[r n] p1] eqn:E. destruct r; rewrite M_bind_unfold.
  - destruct (read_action _ _ _ _ s) as [[y s1]|]; [|done]. intros (evs & p' & Hp)%IH.
    rewrite unread_consume in Hp. eexists _, p'. by eapply parses_good.
  - match goal with |- context [match ?o with _ => _ end] => destruct o as [[y s1]|]; [|done] end.
    intros (evs & p' & Hp)%IH.
    rewrite unread_consume in Hp. eexists _, p'. by eapply parses_bad.
  - intros _. exists [Incomplete], p1. by eapply parses_indeterminate.
Qed.

(** The bytes determine what they contain. *)
Lemma parses_det p bs evs p1 evs' p2 :
  parses p bs evs p1 → parses p bs evs' p2 → evs = evs' ∧ p1 = p2.
Proof.
  intros Hp. revert evs' p2.
  induction Hp as [p|p bs n p1 evs p' Hne E Hp IH|p bs n p1 evs p' Hne E Hp IH|p bs n p1 Hne E];
    intros evs' p2 Hp'; inversion Hp' as [|? ? n2 q evs2 ? ? E2 Hq|? ? n2 q evs2 ? ? E2 Hq|? ? n2 q ? E2];
    subst; try done; rewrite E in E2; try discriminate E2; injection E2 as <- <-.
  - by destruct (IH _ _ Hq) as [-> ->].
  - by destruct (IH _ _ Hq) as [-> ->].
  - done.
Qed.

(** C29. What a chunk of received bytes does, whatever the parser is.  If the parser takes
    the bytes apart ([parses], into messages, malformed pieces and perhaps an incomplete
    end, which is then what they contain), the loop of the handler ends after one iteration
    for each of them, having acted on every complete message in the order of the bytes,
    answered each run of malformed pieces once, and armed the deadline when the last message
    is incomplete, whose beginning the parser keeps.  And only then: a loop that completes
    has taken the bytes apart, so that a parser that reports messages without consuming
    anything keeps the handler for ever - the code relies on the parser here. *)
Theorem received_bytes_handled `{!BufferLaws} a bytes p s :
  (∀ evs p', parses p bytes evs p' →
     (∀ fuel, (length evs < fuel)%nat →
        read_completed fuel a (Some bytes) p s
        = (for_each (react a) (collapse false evs) ≫= λ _, mret p') s)
     ∧ ∀ evs' p'', parses p bytes evs' p'' → evs' = evs ∧ p'' = p')
  ∧ ∀ fuel x, read_completed fuel a (Some bytes) p s = Ok x → ∃ evs p', parses p bytes evs p'.
Proof.
  split.
  - intros evs p' Hp. split.
    + intros fuel Hf. apply (read_loop_parses _ _ _ _ _ Hp); [apply unread_received|done].
    + intros evs' p'' Hp'. by apply (parses_det p bytes evs' p'' evs p').
  - intros fuel x E. apply read_loop_ends in E as (evs & p' & Hp).
    rewrite unread_received in Hp. by exists evs, p'.
Qed.

(** A parser that consumes something of every complete or malformed piece takes any bytes
    apart, into at most as many pieces as there are bytes. *)
Lemma parses_total p bs :
  (∀ p bs r n p', parse p bs = (r, n, p') → bs ≠ [] → r ≠ indeterminate → (1 ≤ n)%nat) →
  ∃ evs p', parses p bs evs p' ∧ (length evs ≤ length bs)%nat.
Proof.
  intros Hprogress. remember (length bs) as k eqn:Ek. revert p bs Ek.
  induction (lt_wf k) as [k _ IH]. intros p bs ->.
  destruct (decide (bs = [])) as [->|Hne]; [by exists [], p; split; [constructor|]|].
  assert (1 ≤ length bs)%nat as Hlen by (destruct bs; [done|cbn; lia]).
  destruct (parse p bs) as [[r n] p1] eqn:E. destruct r.
  3: { exists [Incomplete], p1. split; [by eapply parses_indeterminate|done]. }
  all: assert (1 ≤ n)%nat as Hn by (by apply (Hprogress _ _ _ _ _ E)).
  all: destruct (IH (length (drop n bs))) with (p := clear p1) (bs := drop n bs)
         as (evs & p' & Hp & Hl); [rewrite length_drop; lia|done|].
  all: rewrite length_drop in Hl.
  - exists (Message (message_buffer p1) :: evs), p'. split; [by eapply parses_good|cbn; lia].
  - exists (Malformed :: evs), p'. split; [by eapply parses_bad|cbn; lia].
Qed.
End reading.

(** ** Witness: a parser whose messages are single characters *)

#[local] Existing Instance split_def_split.
#[local] Existing Instance sample_protocol.
#[local] Existing Instance sample_sql.

Definition sample_parse (p : bool) (bs : str) : parse_result * nat * bool :=
  match bs with
  | c :: _ =>
      if decide (c = ascii_of_N 104) then (good, 1%nat, p)      (* h *)
      else if decide (c = ascii_of_N 105) then (indeterminate, length bs, true)
      else (bad, 1%nat, p)
  | [] => (indeterminate, 0%nat, p)
  end.

#[local] Instance sample_parser : MessageParser := {|
  parser := bool;
  parse := sample_parse;
  message_buffer := λ _, mk_message (lit "HEARTBEAT") [] [];
  clear := λ _, false;
|}.

#[local] Instance sample_buffer : MutableBuffer := {|
  mutable_buffer := str;
  received := λ bs, bs;
  can_read := λ b, bool_decide (b ≠ []);
  unread := λ b, b;
  consume := λ n b, drop n b;
|}.

#[local] Instance sample_buffer_laws : BufferLaws.
Proof. by split. Qed.

Definition any_disk : disk := mkDisk (λ _, None) (λ _, false) (λ _, false) (λ _, true).
Definition fresh_parser : parser := false.
Definition idle_server : server := mkServer new_manager ([] : list (str * str)) [].

(** Two malformed characters, a heartbeat, one more and an incomplete message: two
    errors and one heartbeat are written. *)
Definition heartbeat : message := mk_message (lit "HEARTBEAT") [] [].

Lemma sample_parses :
  parses fresh_parser (lit "xxhxi") [Malformed; Malformed; Message heartbeat; Malformed; Incomplete] true.
Proof.
  do 2 (eapply (parses_bad _ _ 1); [discriminate|reflexivity|]).
  refine (parses_good _ _ 1 false [Malformed; Incomplete] true _ _ _); [discriminate|reflexivity|].
  eapply (parses_bad _ _ 1); [discriminate|reflexivity|].
  eapply (parses_indeterminate _ _ 1); [discriminate|reflexivity].
Qed.

Lemma received_bytes_handled_witness :
  read_completed 80 any_disk (Ok 30) 6 7 (Some (lit "xxhxi")) fresh_parser idle_server
  = (for_each (react 80 any_disk (Ok 30) 7) [Malformed; Message heartbeat; Malformed; Incomplete]
       ≫= λ _, mret true) idle_server
  ∧ match read_completed 80 any_disk (Ok 30) 6 7 (Some (lit "xxhxi")) fresh_parser idle_server with
    | Ok (_, s') => length (sent (mgr s')) = 3%nat
    | Fault _ => False
    end.
Proof.
  destruct (received_bytes_handled 80 any_disk (Ok 30) 7 (lit "xxhxi") fresh_parser idle_server)
    as [Hp _]. split; [|vm_compute; reflexivity].
  apply (proj1 (Hp _ _ sample_parses)). cbn. lia.
Defined.
