(* ===== verification/ManagerSpec.v ===== *)
(** * ManagerSpec: notifications and shared buffers

    A notification for several clients is stored once, with the number of writes that
    use it; the completion of each write decrements the number, and the last one frees
    the buffer.  The theorems say who is notified, that no buffer is freed while a
    write still reads it, and when it is freed. *)

From S2P Require Import Prelude Text Protocol Validators Vfs StdMap BackupRequests.
From S2P Require Import DownloadManager Manager.

(** The writes that still use a buffer, and the number stored with it. *)
Definition pending (id : Z) (s : manager) : Z :=
  Z.of_nat (length (filter (λ w, w.2 = id) (unfinished s))).
Definition remaining (id : Z) (s : manager) : Z :=
  match m_find id (shared_storage_ s) with Some (_, n) => n | None => 0 end.

Definition processing_conns (s : manager) : stdmap connection :=
  filter (λ e, is_processing e.2 = true) (connections_ s).
Definition processing_count (s : manager) : Z := Z.of_nat (length (processing_conns s)).

(** The manager after a buffer was handed to the connections [rs]. *)
Definition shared_with (id : Z) (rs : list Z) (s : manager) : manager :=
  on_unfinished (λ l, l ++ map (λ a, (a, id)) rs)
    (on_sent (map (λ a, (a, SharedWrite id)) rs) s).

Lemma shared_with_nil id s : shared_with id [] s = s.
Proof. destruct s. unfold shared_with, on_unfinished, on_sent. cbn. by rewrite !app_nil_r. Qed.

Lemma shared_with_app id rs1 rs2 s :
  shared_with id rs2 (shared_with id rs1 s) = shared_with id (rs1 ++ rs2) s.
Proof.
  destruct s. unfold shared_with, on_unfinished, on_sent. cbn.
  by rewrite !map_app, !app_assoc.
Qed.

Lemma pending_shared_with id rs s j :
  pending j (shared_with id rs s)
  = pending j s + (if bool_decide (j = id) then Z.of_nat (length rs) else 0).
Proof.
  unfold pending, shared_with. cbn. rewrite filter_app, length_app.
  assert (length (filter (λ w : Z * Z, w.2 = j) (map (λ a, (a, id)) rs))
          = if bool_decide (j = id) then length rs else 0%nat) as ->.
  { induction rs as [|r rs IH]; [by case_bool_decide|]. cbn [map].
    destruct (decide (id = j)) as [->|Hne].
    - rewrite filter_cons_True by done. cbn [length].
      rewrite IH, bool_decide_eq_true_2 by done. done.
    - rewrite filter_cons_False by done. rewrite IH, !bool_decide_eq_false_2 by congruence.
      done. }
  case_bool_decide; lia.
Qed.

Section sharing.
Context `{Protocol} `{BoostSplit}.

(** The connections a loop over [connections_] hands a buffer to. *)
Definition recipients (P : connection → bool) (m : stdmap connection) : list Z :=
  keys (filter (λ e, is_processing e.2 && P e.2 = true) m).

Lemma share_spec id P s :
  share id P s = Ok (tt, shared_with id (recipients P (connections_ s)) s).
Proof.
  unfold share, recipients. generalize (connections_ s) as m. intros m. revert s.
  induction m as [|[a c] m IH]; intros s; [by rewrite shared_with_nil|].
  cbn [for_each]. rewrite M_bind_unfold. cbn [fst snd].
  destruct (is_processing c && P c) eqn:E.
  - rewrite filter_cons_True by done. cbn [keys fmap list_fmap fst].
    change (start_shared_write a id s) with (Ok (tt, shared_with id [a] s)).
    cbv beta iota. rewrite IH, shared_with_app. done.
  - rewrite filter_cons_False by (cbn; congruence). apply IH.
Qed.

Lemma recipients_le P s :
  (length (recipients P (connections_ s)) ≤ length (processing_conns s))%nat.
Proof.
  unfold recipients, processing_conns, keys. rewrite length_fmap.
  induction (connections_ s) as [|e m IH]; [done|].
  destruct (is_processing e.2) eqn:E1, (P e.2) eqn:E2;
    rewrite ?(filter_cons_True (λ e, is_processing e.2 = true)) by done;
    rewrite ?(filter_cons_False (λ e, is_processing e.2 = true)) by congruence;
    rewrite ?(filter_cons_True (λ e, is_processing e.2 && P e.2 = true)) by (by rewrite E1, E2);
    rewrite ?(filter_cons_False (λ e, is_processing e.2 && P e.2 = true))
      by (rewrite E1, E2; done); cbn; lia.
Qed.

(** ** The invariant *)

Record shared_ok (s : manager) : Prop := {
  ok_connections : NoDup (keys (connections_ s));
  ok_counter : processing_count s ≤ processing_counter_ s < two64;
  ok_ids : 0 ≤ SharedStorageIDCounter s
           ∧ Forall (λ id, id ≤ SharedStorageIDCounter s) (keys (shared_storage_ s));
  ok_remaining : ∀ id, pending id s ≤ remaining id s < two64;
}.

(** The 64-bit counters have room for one more. *)
Definition no_wrap (s : manager) : Prop :=
  processing_counter_ s < two64 - 1 ∧ SharedStorageIDCounter s < two64 - 1.

(** The buffers of [s] are used in [s'] as they were. *)
Definition extends (s s' : manager) : Prop :=
  SharedStorageIDCounter s ≤ SharedStorageIDCounter s'
  ∧ ∀ j, j ≤ SharedStorageIDCounter s →
      pending j s' = pending j s ∧ remaining j s' = remaining j s.

#[global] Instance extends_preorder : PreOrder extends.
Proof.
  split; [split; [done|by intros]|].
  intros s1 s2 s3 [H1 E1] [H2 E2]. split; [lia|]. intros j Hj.
  destruct (E1 j Hj) as [<- <-]. apply E2. lia.
Qed.

Lemma pending_nonneg id s : 0 ≤ pending id s.
Proof. unfold pending. lia. Qed.

(** Storing a buffer for at least as many writes as are then started. *)
Lemma store_and_share s buf n rs id s1 :
  shared_ok s → SharedStorageIDCounter s < two64 - 1 → Z.of_nat (length rs) ≤ n < two64 →
  store_shared buf n s = Ok (id, s1) →
  id = SharedStorageIDCounter s + 1
  ∧ (shared_ok (shared_with id rs s1) ∧ extends s (shared_with id rs s1))
  ∧ m_find id (shared_storage_ s) = None
  ∧ m_find id (shared_storage_ s1) = Some (buf, n)
  ∧ connections_ s1 = connections_ s ∧ sent s1 = sent s ∧ unfinished s1 = unfinished s
  ∧ processing_counter_ s1 = processing_counter_ s.
Proof.
  intros [Hk Hc [Hi0 Hi] Hr] Hw Hn. unfold store_shared.
  rewrite u64_id by (split; lia). intros [= <- <-].
  set (id := SharedStorageIDCounter s + 1).
  assert (m_find id (shared_storage_ s) = None) as Hf.
  { apply m_find_None. intros Hin. rewrite Forall_forall in Hi. specialize (Hi _ Hin). lia. }
  assert (pending id s = 0) as Hp.
  { specialize (Hr id). unfold remaining in Hr. rewrite Hf in Hr.
    pose proof (pending_nonneg id s). lia. }
  split; [done|]. split; [|split_and!; [done| |done..]].
  - assert (∀ j, j ≠ id →
      pending j (shared_with id rs (on_storage (m_emplace id (buf, n)) (set_storage_id id s)))
      = pending j s
      ∧ remaining j (shared_with id rs (on_storage (m_emplace id (buf, n)) (set_storage_id id s)))
        = remaining j s) as Hold.
    { intros j Hj. rewrite pending_shared_with, bool_decide_eq_false_2 by done.
      unfold remaining. cbn. rewrite m_find_emplace by done.
      rewrite bool_decide_eq_false_2 by done. unfold pending. cbn. split; [lia|done]. }
    split; [|split; [unfold id in *; cbn; lia|intros j Hj; apply Hold; lia]].
    constructor; [done|done| |].
    + cbn. split; [lia|]. unfold keys. rewrite m_emplace_perm by done. cbn.
      constructor; [lia|]. eapply Forall_impl; [exact Hi|]. cbn. lia.
    + intros j. destruct (decide (j = id)) as [->|Hj];
        [|destruct (Hold j Hj) as [-> ->]; apply Hr].
      rewrite pending_shared_with, bool_decide_eq_true_2 by done.
      change (pending id (on_storage (m_emplace id (buf, n)) (set_storage_id id s)))
        with (pending id s).
      unfold remaining. cbn. rewrite m_find_emplace, bool_decide_eq_true_2 by done. lia.
  - cbn. rewrite m_find_emplace by done. by rewrite bool_decide_eq_true_2.
Qed.

(** ** Counting the processing connections *)

Lemma processing_count_perm s s' :
  connections_ s ≡ₚ connections_ s' → processing_count s = processing_count s'.
Proof. intros Hp. unfold processing_count, processing_conns. by rewrite Hp. Qed.

Lemma processing_count_nonneg s : 0 ≤ processing_count s.
Proof. unfold processing_count. lia. Qed.

Definition count_processing (m : stdmap connection) : nat :=
  length (filter (λ e, is_processing e.2 = true) m).

Lemma count_processing_cons a c m :
  count_processing ((a, c) :: m) = ((if is_processing c then 1 else 0) + count_processing m)%nat.
Proof.
  unfold count_processing. destruct (is_processing c) eqn:E.
  - by rewrite filter_cons_True.
  - by rewrite filter_cons_False by (cbn; congruence).
Qed.

Lemma count_processing_update a f m :
  NoDup (keys m) →
  (∀ c, m_find a m = Some c → is_processing (f c) = is_processing c) →
  count_processing (m_update a f m) = count_processing m.
Proof.
  intros Hd Hf. unfold m_update.
  assert (∀ c, (a, c) ∈ m → is_processing (f c) = is_processing c) as Hf'
    by (intros c Hc; by apply Hf, m_find_NoDup).
  clear Hd Hf. induction m as [|[b c] m IH]; [done|]. cbn [map fst snd].
  assert (count_processing (map (λ e, if bool_decide (e.1 = a) then (e.1, f e.2) else e) m)
          = count_processing m) as IH' by (apply IH; intros c' Hc'; apply Hf'; by right).
  case_bool_decide; rewrite !count_processing_cons, IH'; [|done].
  subst b. rewrite (Hf' c); [done|left].
Qed.

Lemma count_processing_update_le a f m :
  NoDup (keys m) → (count_processing (m_update a f m) ≤ S (count_processing m))%nat.
Proof.
  induction m as [|[b c] m IH]; [unfold m_update; cbn; lia|].
  intros Hd. apply NoDup_cons in Hd as [Hn Hd].
  change (m_update a f ((b, c) :: m))
    with ((if bool_decide (b = a) then (b, f c) else (b, c)) :: m_update a f m).
  case_bool_decide as E; rewrite !count_processing_cons; [|specialize (IH Hd); lia].
  subst b. rewrite (count_processing_update a f m Hd).
  - destruct (is_processing c), (is_processing (f c)); lia.
  - intros c' Hc'%m_find_elem. destruct Hn. apply list_elem_of_fmap. by exists (a, c').
Qed.

Lemma count_processing_erase a c m :
  NoDup (keys m) → m_find a m = Some c →
  count_processing m = ((if is_processing c then 1 else 0) + count_processing (m_erase a m))%nat.
Proof.
  induction m as [|[b c'] m IH]; [done|]. intros Hd Hf. apply NoDup_cons in Hd as [Hn Hd].
  cbn [m_find] in Hf. rewrite count_processing_cons. unfold m_erase.
  case_bool_decide as E.
  - injection Hf as ->. subst b. rewrite filter_cons_False by (by intros []).
    fold (m_erase a m). rewrite m_erase_absent; [done|]. by apply m_find_None.
  - rewrite filter_cons_True by (cbn; congruence). fold (m_erase a m).
    rewrite count_processing_cons, (IH Hd Hf). lia.
Qed.

Lemma processing_count_eq s : processing_count s = Z.of_nat (count_processing (connections_ s)).
Proof. done. Qed.

(** The invariant looks at no more than these fields. *)
Lemma shared_ok_frame s s' :
  shared_ok s → NoDup (keys (connections_ s')) →
  processing_count s' ≤ processing_counter_ s' < two64 →
  SharedStorageIDCounter s' = SharedStorageIDCounter s →
  shared_storage_ s' = shared_storage_ s → unfinished s' = unfinished s →
  shared_ok s' ∧ extends s s'.
Proof.
  intros [Hk Hc Hi Hr] Hk' Hc' Hid Hst Hu. split.
  - constructor; [done|done|by rewrite Hid, Hst|].
    intros id. unfold pending, remaining. rewrite Hst, Hu. apply Hr.
  - split; [lia|]. intros j _. unfold pending, remaining. by rewrite Hst, Hu.
Qed.

(** ** The operations preserve the invariant *)

Lemma start_ok a s u s' :
  m_find a (connections_ s) = None → shared_ok s → start a s = Ok (u, s') → shared_ok s' ∧ extends s s'.
Proof.
  intros Hf Hok [= _ <-]. eapply shared_ok_frame; [exact Hok| | |done..].
  - apply keys_emplace_NoDup, Hok.
  - unfold processing_count, processing_conns. cbn [connections_ on_connections].
    rewrite m_emplace_perm by done. rewrite filter_cons_False by done. apply Hok.
Qed.

(** The notifier itself is not among the recipients. *)
Lemma recipients_others a c nick m :
  (a, c) ∈ m → is_processing c = true → has_nickname nick c = true →
  (S (length (recipients (λ c, negb (has_nickname nick c)) m)) ≤ count_processing m)%nat.
Proof.
  intros Hin Hp Hn. unfold recipients, keys. rewrite length_fmap.
  assert (∀ m', length (filter (λ e : Z * connection,
    is_processing e.2 && negb (has_nickname nick e.2) = true) m') ≤ count_processing m')%nat as Hle.
  { intros m'. induction m' as [|[b c'] m' IH]; [done|]. rewrite count_processing_cons.
    destruct (decide (is_processing c' && negb (has_nickname nick c') = true)) as [E|E].
    - rewrite filter_cons_True by done. apply andb_true_iff in E as [-> _]. cbn. lia.
    - rewrite filter_cons_False by done. lia. }
  apply elem_of_Permutation in Hin as [m' Hm].
  assert (count_processing m = count_processing ((a, c) :: m')) as ->
    by (unfold count_processing; by rewrite Hm).
  rewrite Hm, filter_cons_False by (cbn; rewrite Hp, Hn; done).
  rewrite count_processing_cons, Hp. specialize (Hle m'). lia.
Qed.

Lemma do_notify_ok a c msg s u s' :
  m_find a (connections_ s) = Some c → is_processing c = true →
  shared_ok s → no_wrap s → do_notify (nickname_ (client_ c)) msg s = Ok (u, s') →
  shared_ok s' ∧ extends s s'.
Proof.
  intros Hf Hp Hok Hw. unfold do_notify. rewrite M_bind_unfold. cbn [gets].
  case_bool_decide as Hn; [intros [= _ <-]; by split|]. rewrite M_bind_unfold.
  destruct (store_shared msg _ s) as [[id s1]|] eqn:E; [|done].
  rewrite share_spec. intros [= _ <-].
  pose proof (ok_counter s Hok) as Hc. rewrite processing_count_eq in Hc.
  assert (connections_ s1 = connections_ s) as Hcs by (by injection E as _ <-).
  eapply (store_and_share s); [done|apply Hw| |exact E]. rewrite Hcs.
  pose proof (recipients_others a c (nickname_ (client_ c)) (connections_ s)
    (m_find_elem _ _ _ Hf) Hp ltac:(by apply bool_decide_eq_true)) as Hl.
  rewrite u64_id by (split; lia). lia.
Qed.

(** [notify_disconnection] on a connection of the set. *)
Lemma notify_disconnection_ok a s u s' :
  shared_ok s → no_wrap s → notify_disconnection a s = Ok (u, s') → shared_ok s' ∧ extends s s'.
Proof.
  intros Hok Hw. unfold notify_disconnection. rewrite M_bind_unfold. unfold conn.
  destruct (m_find a (connections_ s)) as [c|] eqn:Hf; [|done].
  rewrite M_bind_unfold. cbn [modify]. set (s1 := on_connections (m_erase a) s).
  pose proof (count_processing_erase a c _ (ok_connections s Hok) Hf) as Hcount.
  pose proof (ok_counter s Hok) as Hc. rewrite processing_count_eq in Hc.
  assert (NoDup (keys (connections_ s1))) as Hk1 by apply keys_erase_NoDup, Hok.
  unfold is_processing in Hcount. rewrite M_bind_unfold.
  destruct (decide (state_ (client_ c) = processing)) as [Hst|Hst];
    [rewrite (bool_decide_eq_true_2 _ Hst) in *|rewrite (bool_decide_eq_false_2 _ Hst) in *].
  - rewrite M_bind_unfold. cbn [modify]. set (s2 := set_processing_counter _ s1).
    assert (processing_counter_ s2 = processing_counter_ s - 1) as Hc2
      by (cbn; rewrite u64_id by (split; lia); done).
    assert (shared_ok s2 ∧ extends s s2) as [Hok2 Hex2].
    { eapply shared_ok_frame; [exact Hok|exact Hk1| |done..].
      rewrite Hc2, processing_count_eq.
      change (connections_ s2) with (m_erase a (connections_ s)). lia. }
    rewrite M_bind_unfold. cbn [gets]. case_bool_decide as Hz; [intros [= _ <-]; by split|].
    rewrite M_bind_unfold. destruct (store_shared _ _ s2) as [[id s3]|] eqn:E; [|done].
    rewrite M_bind_unfold, share_spec. cbn. intros [= _ <-].
    assert (connections_ s3 = connections_ s2) as Hcs by (by injection E as _ <-).
    set (s4 := shared_with id (recipients (λ _, true) (connections_ s3)) s3).
    assert (shared_ok s4 ∧ extends s2 s4) as [Hok4 Hex4];
      [|split; [by destruct Hok4|by transitivity s2; [|transitivity s4]]].
    eapply (store_and_share s2); [exact Hok2|apply Hw| |exact E].
    rewrite Hcs. pose proof (recipients_le (λ _, true) s2) as Hl.
    pose proof (ok_counter s2 Hok2) as Hc2'. unfold processing_count in Hc2'. lia.
  - cbn. intros [= _ <-]. eapply shared_ok_frame; [exact Hok|exact Hk1| |done..].
    rewrite processing_count_eq.
    change (connections_ (on_disk _ _)) with (m_erase a (connections_ s)). cbn. lia.
Qed.

Lemma on_conn_ok a f s u s' :
  (∀ c, m_find a (connections_ s) = Some c → is_processing (f c) = is_processing c) →
  shared_ok s → on_conn a f s = Ok (u, s') → shared_ok s' ∧ extends s s'.
Proof.
  intros Hf Hok [= _ <-]. eapply shared_ok_frame; [exact Hok| | |done..].
  - cbn [connections_ on_connections]. rewrite keys_update. apply Hok.
  - rewrite processing_count_eq. cbn [connections_ on_connections].
    rewrite count_processing_update; [apply Hok|apply Hok|done].
Qed.

Lemma stop_ok a s u s' :
  shared_ok s → no_wrap s → stop a s = Ok (u, s') → shared_ok s' ∧ extends s s'.
Proof.
  intros Hok Hw. unfold stop. rewrite M_bind_unfold. unfold conn.
  destruct (m_find a (connections_ s)) as [c|] eqn:Hf; [|done].
  destruct (conn_stopped c); [intros [= _ <-]; by split|].
  rewrite M_bind_unfold. destruct (on_conn a with_stopped s) as [[u1 s1]|] eqn:E1; [|done].
  assert (shared_ok s1 ∧ extends s s1) as [Hok1 Hex1]
    by (eapply on_conn_ok; [|exact Hok|exact E1]; intros ? _; reflexivity).
  assert (no_wrap s1) as Hw1 by (by injection E1 as _ <-).
  rewrite M_bind_unfold. destruct (notify_disconnection a s1) as [[u2 s2]|] eqn:E2; [|done].
  destruct (notify_disconnection_ok _ _ _ _ Hok1 Hw1 E2) as [Hok2 Hex2].
  rewrite M_bind_unfold. unfold lift. destruct (delete_vfs _ _ _) as [es|]; [|done].
  cbn. intros [= _ <-]. split; [by destruct Hok2|].
  by transitivity s1; [|transitivity s2].
Qed.

Lemma collect_and_share_spec id cs acc s g s' :
  collect_and_share id cs acc s = Ok (g, s') →
  s' = shared_with id (recipients (λ _, true) cs) s.
Proof.
  revert acc s. induction cs as [|[a c] cs IH]; intros acc s; cbn [collect_and_share].
  - intros [= _ <-]. by rewrite shared_with_nil.
  - unfold recipients. destruct (is_processing c) eqn:E.
    + rewrite M_bind_unfold. unfold lift. destruct (Get _ _ _) as [ps|]; [|done].
      rewrite M_bind_unfold.
      change (start_shared_write a id s) with (Ok (tt, shared_with id [a] s)).
      cbv beta iota. intros ->%IH. rewrite shared_with_app.
      rewrite filter_cons_True by (cbn; by rewrite E). done.
    + intros ->%IH. rewrite filter_cons_False by (cbn; by rewrite E). done.
Qed.

Lemma notify_files_registration_ok a s u s' :
  shared_ok s → no_wrap s → notify_files_registration a s = Ok (u, s') → shared_ok s' ∧ extends s s'.
Proof.
  intros Hok Hw. unfold notify_files_registration. rewrite M_bind_unfold. unfold conn.
  destruct (m_find a (connections_ s)) as [c|] eqn:Hf; [|done].
  rewrite M_bind_unfold. unfold lift at 1. destruct (registration_notification _) as [buf|];
    [|done].
  rewrite M_bind_unfold. cbn [modify]. set (s1 := set_processing_counter _ s).
  pose proof (ok_counter s Hok) as Hc. pose proof (processing_count_nonneg s) as Hp.
  assert (processing_counter_ s1 = processing_counter_ s + 1) as Hc1
    by (cbn; rewrite u64_id by (destruct Hw; split; lia); done).
  assert (∀ s2, shared_ok s2 → processing_count s2 < processing_counter_ s2 →
    ∀ u s3, on_conn a (with_state processing) s2 = Ok (u, s3) →
    shared_ok s3 ∧ extends s2 s3) as Hfinal.
  { intros s2 Hok2 Hlt ? s3 [= _ <-]. eapply shared_ok_frame; [exact Hok2| | |done..].
    - cbn [connections_ on_connections]. rewrite keys_update. apply Hok2.
    - pose proof (count_processing_update_le a (with_state processing) (connections_ s2)
        (ok_connections s2 Hok2)) as Hle.
      rewrite processing_count_eq in *. pose proof (ok_counter s2 Hok2).
      cbn [connections_ on_connections processing_counter_]. lia. }
  rewrite M_bind_unfold. cbn [gets].
  assert (processing_count s1 = processing_count s) as Hp1 by done.
  assert (shared_ok s1 ∧ extends s s1) as [Hok1 Hex1].
  { eapply shared_ok_frame; [exact Hok|apply Hok| |done..].
    rewrite Hc1, Hp1. destruct Hw. lia. }
  case_bool_decide as H1.
  { intros HF. destruct (Hfinal s1 Hok1 ltac:(rewrite Hc1, Hp1; lia) _ _ HF) as [Hok' Hex'].
    split; [done|by transitivity s1]. }
  rewrite M_bind_unfold. destruct (store_shared buf _ s1) as [[id s2]|] eqn:E; [|done].
  rewrite M_bind_unfold. cbn [gets].
  rewrite M_bind_unfold. destruct (collect_and_share id _ ∅ s2) as [[g s3]|] eqn:E3; [|done].
  apply collect_and_share_spec in E3 as ->.
  assert (u64 (processing_counter_ s1 - 1) = processing_counter_ s) as Hn
    by (rewrite Hc1, u64_id by (split; lia); lia).
  rewrite Hn in E.
  assert (connections_ s2 = connections_ s) as Hcs by (by injection E as _ <-).
  rewrite Hcs. pose proof (recipients_le (λ _, true) s) as Hl.
  destruct (store_and_share s1 buf (processing_counter_ s)
    (recipients (λ _, true) (connections_ s)) id s2 Hok1)
    as (_ & [Hok2 Hex2] & _ & _ & _ & _ & _ & Hpc);
    [apply Hw|unfold processing_count in Hc; lia|done|].
  rewrite M_bind_unfold. cbn [start_write modify]. intros HF.
  eapply Hfinal in HF as [Hok' Hex']; [split; [done|]| |].
  - transitivity s1; [done|]. transitivity (shared_with id (recipients (λ _, true)
      (connections_ s)) s2); [done|exact Hex'].
  - by destruct Hok2.
  - assert (processing_count s2 = processing_count s) as Hp2
      by (unfold processing_count, processing_conns; by rewrite Hcs).
    change (processing_count s2 < processing_counter_ s2). rewrite Hp2, Hpc, Hc1. lia.
Qed.

(** A write that is not finished finds its buffer. *)
Lemma unfinished_stored s a id :
  shared_ok s → (a, id) ∈ unfinished s →
  ∃ buf n, m_find id (shared_storage_ s) = Some (buf, n) ∧ 0 < n ∧ pending id s ≤ n.
Proof.
  intros Hok Hin. pose proof (ok_remaining s Hok id) as Hr.
  assert (0 < pending id s) as Hp.
  { unfold pending. apply elem_of_Permutation in Hin as [l Hl]. rewrite Hl.
    rewrite filter_cons_True by done. cbn [length]. lia. }
  unfold remaining in Hr. destruct (m_find id (shared_storage_ s)) as [[buf n]|]; [|lia].
  exists buf, n. split; [done|]. lia.
Qed.

Lemma pending_done s a id j :
  (a, id) ∈ unfinished s →
  pending j (on_unfinished (remove_one (a, id)) s)
  = pending j s - (if bool_decide (j = id) then 1 else 0).
Proof.
  intros Hin. unfold pending. cbn [unfinished on_unfinished].
  rewrite (remove_one_perm _ _ Hin) at 2. case_bool_decide as E.
  - rewrite filter_cons_True by (cbn; congruence). cbn [length]. lia.
  - rewrite filter_cons_False by (cbn; congruence). lia.
Qed.

(** What the completion of a shared write does to the storage. *)
Lemma notify_shared_write_done_spec NDEBUG id s buf n :
  m_find id (shared_storage_ s) = Some (buf, n) → 0 < n < two64 →
  notify_shared_write_done NDEBUG id s
  = Ok (tt, on_storage (λ m,
        if bool_decide (n = 1) && negb NDEBUG
        then m_erase id (m_update id (λ e, (e.1, u64 (e.2 - 1))) m)
        else m_update id (λ e, (e.1, u64 (e.2 - 1))) m) s).
Proof.
  intros Hf Hn. unfold notify_shared_write_done. rewrite M_bind_unfold. cbn [modify].
  set (dec := λ e : outbound * Z, (e.1, u64 (e.2 - 1))).
  match goal with |- context[on_storage ?f s] =>
    assert (on_storage f s = on_storage (m_update id dec) s) as -> end.
  { unfold on_storage. f_equal. unfold m_index. by rewrite Hf. }
  assert (m_find id (m_update id dec (shared_storage_ s)) = Some (buf, n - 1)) as Hu.
  { rewrite m_find_update, Hf, bool_decide_eq_true_2 by done.
    cbn [fmap option_fmap option_map]. unfold dec. cbn [fst snd].
    by rewrite u64_id by (split; lia). }
  rewrite M_bind_unfold. cbn [gets shared_storage_ on_storage]. rewrite Hu.
  destruct (decide (n = 1)) as [->|Hne].
  - rewrite (bool_decide_eq_true_2 (1 = 1)) by done. change (1 - 1) with 0 in *.
    destruct NDEBUG; [done|]. unfold cassert. rewrite M_bind_unfold.
    cbn [shared_storage_ on_storage]. by rewrite Hu.
  - rewrite (bool_decide_eq_false_2 (n = 1)) by done. cbn [andb].
    destruct (n - 1) eqn:E; [lia|done|done].
Qed.

Lemma shared_write_done_ok NDEBUG a id s u s' :
  shared_ok s → (a, id) ∈ unfinished s → shared_write_done NDEBUG a id s = Ok (u, s') →
  shared_ok s'.
Proof.
  intros Hok Hin. destruct (unfinished_stored s a id Hok Hin) as (buf & n & Hf & Hn & Hp).
  pose proof (ok_remaining s Hok) as Hr. pose proof (Hr id) as Hrid.
  unfold remaining in Hrid. rewrite Hf in Hrid.
  unfold shared_write_done. set (s1 := on_unfinished (remove_one (a, id)) s).
  assert (∀ j, pending j s1 = pending j s - (if bool_decide (j = id) then 1 else 0)) as Hp1
    by (intros j; by apply pending_done).
  destruct (alive s1 a) eqn:Ea.
  - rewrite (notify_shared_write_done_spec NDEBUG id s1 buf n Hf ltac:(lia)).
    intros [= _ <-]. constructor; [apply Hok|apply Hok| |].
    + destruct (ok_ids s Hok) as [Hi0 Hi]. split; [done|]. cbn [shared_storage_ on_storage].
      destruct (_ && _).
      * rewrite Forall_forall in *. intros k Hk. apply Hi.
        rewrite <- (keys_update id (λ e, (e.1, u64 (e.2 - 1))) (shared_storage_ s)).
        unfold keys in *. apply list_elem_of_fmap in Hk as (e & -> & He).
        apply list_elem_of_filter in He as [_ He]. apply list_elem_of_fmap. by exists e.
      * by rewrite keys_update.
    + intros j. specialize (Hr j).
      change (pending j (on_storage _ s1)) with (pending j s1). rewrite Hp1.
      unfold remaining in *. cbn [shared_storage_ on_storage].
      assert (pending j s - (if bool_decide (j = id) then 1 else 0)
        ≤ match m_find j (m_update id (λ e, (e.1, u64 (e.2 - 1))) (shared_storage_ s)) with
          | Some (_, k) => k | None => 0 end < two64) as Hu.
      { rewrite m_find_update. case_bool_decide as Ej; [|lia].
        subst j. rewrite Hf. cbn [fmap option_fmap option_map fst snd].
        rewrite u64_id by (split; lia). lia. }
      destruct (bool_decide (n = 1) && negb NDEBUG) eqn:Eb; [|exact Hu].
      apply andb_true_iff in Eb as [En _]. apply bool_decide_eq_true in En.
      rewrite m_find_erase. case_bool_decide as Ej; [|exact Hu]. subst j.
      pose proof (pending_nonneg id s). lia.
  - intros [= _ <-]. constructor; [apply Hok..|]. intros j. specialize (Hr j).
    change (remaining j s1) with (remaining j s). rewrite Hp1. case_bool_decide; lia.
Qed.

(** ** Reachable managers *)

(** What the rest of the server does to the manager's notification machinery, in any
    order; [m_client] are the changes of a client that do not make it a processing
    one (signing in, changes of its tree). *)
Inductive mstep (NDEBUG : bool) : manager → manager → Prop :=
  | m_start a s s' :
      m_find a (connections_ s) = None → start a s = Ok (tt, s') → mstep NDEBUG s s'
  | m_stop a s s' : no_wrap s → stop a s = Ok (tt, s') → mstep NDEBUG s s'
  | m_register a s s' :
      no_wrap s → notify_files_registration a s = Ok (tt, s') → mstep NDEBUG s s'
  | m_notify a c msg s s' :
      no_wrap s → m_find a (connections_ s) = Some c → is_processing c = true →
      do_notify (nickname_ (client_ c)) msg s = Ok (tt, s') → mstep NDEBUG s s'
  | m_client a f s s' :
      (∀ c, m_find a (connections_ s) = Some c → is_processing (f c) = is_processing c) →
      on_conn a f s = Ok (tt, s') → mstep NDEBUG s s'
  | m_write a m s s' : start_write a m s = Ok (tt, s') → mstep NDEBUG s s'
  | m_done a id s s' :
      (a, id) ∈ unfinished s → shared_write_done NDEBUG a id s = Ok (tt, s') →
      mstep NDEBUG s s'.

Lemma mstep_ok NDEBUG s s' : shared_ok s → mstep NDEBUG s s' → shared_ok s'.
Proof.
  intros Hok. destruct 1 as [a s s' Hf E|a s s' Hw E|a s s' Hw E|a c msg s s' Hw Hf Hp E
                            |a f s s' Hf E|a m s s' E|a id s s' Hin E].
  - by eapply start_ok.
  - by eapply stop_ok.
  - by eapply notify_files_registration_ok.
  - by eapply do_notify_ok.
  - by eapply on_conn_ok.
  - injection E as <-. by destruct Hok.
  - by eapply shared_write_done_ok.
Qed.

Lemma new_manager_ok : shared_ok new_manager.
Proof.
  split; cbn; [constructor|done|split; [done|constructor]|done].
Qed.

Lemma msteps_ok NDEBUG s s' : shared_ok s → rtc (mstep NDEBUG) s s' → shared_ok s'.
Proof. intros Hok. induction 1; eauto using mstep_ok. Qed.

(** In every state the manager reaches, in a debug or a release build, whatever
    clients connect, register, send notifications or disappear while writes are in
    progress, a shared write that is not finished reads a buffer that is still stored:
    no buffer is freed while it is in use, and its counter never underflows. *)
Theorem shared_buffers_safe NDEBUG s a id :
  rtc (mstep NDEBUG) new_manager s → (a, id) ∈ unfinished s →
  ∃ buf n, m_find id (shared_storage_ s) = Some (buf, n) ∧ 0 < n ∧ pending id s ≤ n.
Proof.
  intros Hs. apply unfinished_stored. eapply msteps_ok; [apply new_manager_ok|done].
Qed.

(** A buffer that more writes are counted for than are going on. *)
Definition leaked (id : Z) (s : manager) : Prop :=
  shared_ok s ∧ id ≤ SharedStorageIDCounter s ∧ pending id s < remaining id s.

Lemma shared_write_done_result NDEBUG a id s u s' :
  shared_ok s → (a, id) ∈ unfinished s → shared_write_done NDEBUG a id s = Ok (u, s') →
  SharedStorageIDCounter s' = SharedStorageIDCounter s
  ∧ (∀ j, pending j s' = pending j s - (if bool_decide (j = id) then 1 else 0))
  ∧ ∀ j, m_find j (shared_storage_ s')
         = if bool_decide (j = id) && alive s a
           then if bool_decide (remaining id s = 1) && negb NDEBUG then None
                else (λ e, (e.1, e.2 - 1)) <$> m_find j (shared_storage_ s)
           else m_find j (shared_storage_ s).
Proof.
  intros Hok Hin. destruct (unfinished_stored s a id Hok Hin) as (buf & n & Hf & Hn & Hp).
  pose proof (ok_remaining s Hok id) as Hrid. unfold remaining in *. rewrite Hf in *.
  unfold shared_write_done. set (s1 := on_unfinished (remove_one (a, id)) s).
  assert (∀ j, pending j s1 = pending j s - (if bool_decide (j = id) then 1 else 0)) as Hp1
    by (intros j; by apply pending_done).
  change (alive s1 a) with (alive s a). destruct (alive s a).
  - rewrite (notify_shared_write_done_spec NDEBUG id s1 buf n Hf ltac:(lia)).
    intros [= _ <-]. split_and!; [done|done|]. intros j. rewrite andb_true_r.
    cbn [shared_storage_ on_storage].
    assert (m_find j (m_update id (λ e : outbound * Z, (e.1, u64 (e.2 - 1))) (shared_storage_ s))
      = if bool_decide (j = id) then Some (buf, n - 1) else m_find j (shared_storage_ s)) as Hu.
    { rewrite m_find_update. case_bool_decide; [|done]. subst j. rewrite Hf.
      cbn [fmap option_fmap option_map fst snd]. by rewrite u64_id by (split; lia). }
    destruct (bool_decide (n = 1) && negb NDEBUG).
    + rewrite m_find_erase. change (shared_storage_ s1) with (shared_storage_ s). rewrite Hu.
      by case_bool_decide.
    + change (shared_storage_ s1) with (shared_storage_ s). rewrite Hu.
      case_bool_decide; [|done]. subst j. by rewrite Hf.
  - intros [= _ <-]. split_and!; [done|done|]. intros j. by rewrite andb_false_r.
Qed.

Lemma leaked_mstep NDEBUG id s s' : leaked id s → mstep NDEBUG s s' → leaked id s'.
Proof.
  intros (Hok & Hid & Hlt) Hstep. pose proof (mstep_ok _ _ _ Hok Hstep) as Hok'.
  assert (extends s s' → leaked id s') as Hext.
  { intros [Hle He]. destruct (He id Hid) as [Ep Er]. split; [done|]. lia. }
  destruct Hstep as [a s s' Hf E|a s s' Hw E|a s s' Hw E|a c msg s s' Hw Hf Hp E
                    |a f s s' Hf E|a m s s' E|a j s s' Hin E].
  - apply Hext. by eapply start_ok.
  - apply Hext. by eapply stop_ok.
  - apply Hext. by eapply notify_files_registration_ok.
  - apply Hext. by eapply do_notify_ok.
  - apply Hext. by eapply on_conn_ok.
  - apply Hext. by injection E as <-.
  - destruct (shared_write_done_result _ _ _ _ _ _ Hok Hin E) as (Hc & Hp & Hf).
    split; [done|]. split; [lia|]. rewrite (Hp id). specialize (Hf id).
    pose proof (pending_nonneg id s) as H1.
    unfold remaining in *. rewrite Hf. destruct (decide (id = j)) as [<-|Hne].
    + assert (0 < pending id s) as H2.
      { unfold pending. apply elem_of_Permutation in Hin as [l Hl]. rewrite Hl.
        rewrite filter_cons_True by done. cbn [length]. lia. }
      rewrite bool_decide_eq_true_2 by done. cbn [andb].
      destruct (alive s a); [|lia].
      destruct (m_find id (shared_storage_ s)) as [[buf n]|]; [|lia].
      rewrite bool_decide_eq_false_2 by lia. cbn. lia.
    + rewrite bool_decide_eq_false_2 by done. cbn [andb]. lia.
Qed.

(** A client that disappears in the middle of a shared write leaks the buffer: its
    completion handler finds the weak pointer expired and does not count the write,
    and from then on the buffer stays stored whatever happens. *)
Theorem lost_reader_leaks NDEBUG s a id s1 s2 :
  rtc (mstep NDEBUG) new_manager s → (a, id) ∈ unfinished s → alive s a = false →
  shared_write_done NDEBUG a id s = Ok (tt, s1) → rtc (mstep NDEBUG) s1 s2 →
  m_find id (shared_storage_ s2) ≠ None.
Proof.
  intros Hs Hin Ha E Hs2.
  assert (shared_ok s) as Hok by (eapply msteps_ok; [apply new_manager_ok|done]).
  assert (id ≤ SharedStorageIDCounter s) as Hid.
  { destruct (unfinished_stored s a id Hok Hin) as (buf & n & Hf%m_find_elem & _).
    destruct (ok_ids s Hok) as [_ Hi]. rewrite Forall_forall in Hi. apply Hi.
    apply list_elem_of_fmap. by exists (id, (buf, n)). }
  destruct (shared_write_done_result _ _ _ _ _ _ Hok Hin E) as (Hc & Hp & Hf).
  assert (leaked id s1) as Hl.
  { split; [by eapply shared_write_done_ok|]. split; [lia|]. rewrite (Hp id).
    unfold remaining. rewrite (Hf id), Ha, andb_false_r.
    rewrite bool_decide_eq_true_2 by done.
    pose proof (ok_remaining s Hok id) as Hr. unfold remaining in Hr. lia. }
  assert (leaked id s2) as (Hok2 & _ & Hlt).
  { clear -Hl Hs2. induction Hs2; eauto using leaked_mstep. }
  unfold remaining in Hlt. pose proof (pending_nonneg id s2).
  destruct (m_find id (shared_storage_ s2)); [done|lia].
Qed.

(** The completion of a shared write of a live connection: a debug build counts it
    and frees the buffer with the last one; a release build counts it, but never frees
    a buffer, because the call that erases it is the expression of an [assert]. *)
Theorem shared_write_completes NDEBUG s a id s1 :
  rtc (mstep NDEBUG) new_manager s → (a, id) ∈ unfinished s → alive s a = true →
  shared_write_done NDEBUG a id s = Ok (tt, s1) →
  ∃ buf n, m_find id (shared_storage_ s) = Some (buf, n)
    ∧ m_find id (shared_storage_ s1)
      = (if bool_decide (n = 1) && negb NDEBUG then None else Some (buf, n - 1))
    ∧ pending id s1 = pending id s - 1
    ∧ ∀ j, j ≠ id → m_find j (shared_storage_ s1) = m_find j (shared_storage_ s).
Proof.
  intros Hs Hin Ha E.
  assert (shared_ok s) as Hok by (eapply msteps_ok; [apply new_manager_ok|done]).
  destruct (unfinished_stored s a id Hok Hin) as (buf & n & Hf & Hn & Hp).
  destruct (shared_write_done_result _ _ _ _ _ _ Hok Hin E) as (_ & Hpd & Hfd).
  exists buf, n. split; [done|]. rewrite (Hpd id), (Hfd id).
  rewrite bool_decide_eq_true_2, Ha by done. cbn [andb]. unfold remaining. rewrite Hf.
  split_and!; [by destruct (_ && _)|done|].
  intros j Hj. by rewrite (Hfd j), bool_decide_eq_false_2.
Qed.

(** ** Who is notified *)

(** The processing connections other than [a]. *)
Definition others (a : Z) (s : manager) : list Z :=
  keys (filter (λ e, is_processing e.2 = true ∧ e.1 ≠ a) (connections_ s)).

Lemma length_others a c s :
  NoDup (keys (connections_ s)) → m_find a (connections_ s) = Some c →
  is_processing c = true →
  S (length (others a s)) = count_processing (connections_ s).
Proof.
  intros Hd Hf Hp. rewrite (count_processing_erase a c _ Hd Hf), Hp.
  unfold others, keys, count_processing, m_erase. rewrite length_fmap, list_filter_filter.
  cbn. do 2 f_equal.
Qed.

(** A notification of a processing client with a nickname of its own reaches
    exactly the other processing clients, each once and in the order of the set, as one
    buffer stored with the number of its readers; with no other processing client
    nothing is stored or sent. *)
Theorem notification_reaches_others s a c msg :
  shared_ok s → no_wrap s → processing_counter_ s = processing_count s →
  m_find a (connections_ s) = Some c → is_processing c = true →
  (∀ b c', (b, c') ∈ connections_ s → is_processing c' = true →
           nickname_ (client_ c') = nickname_ (client_ c) → b = a) →
  ∃ s', do_notify (nickname_ (client_ c)) msg s = Ok (tt, s')
    ∧ connections_ s' = connections_ s
    ∧ match others a s with
      | [] => s' = s
      | rs =>
          let id := SharedStorageIDCounter s + 1 in
          sent s' = sent s ++ map (λ b, (b, SharedWrite id)) rs
          ∧ unfinished s' = unfinished s ++ map (λ b, (b, id)) rs
          ∧ m_find id (shared_storage_ s') = Some (msg, Z.of_nat (length rs))
          ∧ m_find id (shared_storage_ s) = None
      end.
Proof.
  intros Hok Hw Hcnt Hf Hp Huniq.
  pose proof (length_others a c s (ok_connections s Hok) Hf Hp) as Hlen.
  rewrite processing_count_eq in Hcnt. pose proof (ok_counter s Hok) as Hc.
  assert (recipients (λ c', negb (has_nickname (nickname_ (client_ c)) c')) (connections_ s)
          = others a s) as Hrs.
  { unfold recipients, others. f_equal. apply filter_ext_in. intros [b c'] Hin. cbn.
    rewrite andb_true_iff, negb_true_iff. unfold has_nickname.
    rewrite bool_decide_eq_false. split.
    - intros [Hp' Hn]. split; [done|]. intros ->. apply Hn.
      apply (m_find_NoDup _ _ _ (ok_connections s Hok)) in Hin. congruence.
    - intros [Hp' Hb]. split; [done|]. intros Hn. by apply Hb, (Huniq b c'). }
  unfold do_notify. rewrite M_bind_unfold. cbn [gets]. case_bool_decide as H1.
  - assert (others a s = []) as -> by (apply length_zero_iff_nil; lia). by exists s.
  - rewrite M_bind_unfold. rewrite Hcnt, u64_id by (split; lia).
    destruct (store_shared msg (Z.of_nat (count_processing (connections_ s)) - 1) s)
      as [[id s1]|] eqn:E; [|done].
    destruct (store_and_share s msg (Z.of_nat (count_processing (connections_ s)) - 1)
      (others a s) id s1 Hok (proj2 Hw) ltac:(lia) E)
      as (-> & _ & Hnone & Hst & Hcs & Hse & Hun & _).
    rewrite share_spec, Hcs, Hrs. eexists. split; [done|]. split; [done|].
    destruct (others a s) as [|r rs]; [cbn in Hlen; lia|].
    cbn [shared_with on_unfinished on_sent sent unfinished shared_storage_].
    rewrite Hse, Hun, Hst. split_and!; [done..| |done].
    do 2 f_equal. rewrite <- Hlen. cbn [length]. lia.
Qed.

Lemma recipients_erase a m :
  recipients (λ _, true) (m_erase a m)
  = keys (filter (λ e, is_processing e.2 = true ∧ e.1 ≠ a) m).
Proof.
  unfold recipients, m_erase. rewrite list_filter_filter. f_equal. apply list_filter_iff.
  intros e. by rewrite andb_true_r.
Qed.

(** C27. A disconnection, on every branch: the connection leaves the set; if it was
    processing the counter of processing clients goes down by one, and its departure is
    written to every other processing client, from one buffer stored with the new value
    of the counter; the directory with the local copies of its files is removed - except
    when the client was processing and the counter was one: then the early return skips
    the removal and nothing is stored.  If the counter was exact (two registrations that
    were posted together make it too large) it stays so, and the exception is the departure
    of the last processing client. *)
Theorem disconnection_cases s a c :
  shared_ok s → no_wrap s → m_find a (connections_ s) = Some c →
  let nick := nickname_ (client_ c) in
  let id := SharedStorageIDCounter s + 1 in
  let early := is_processing c && bool_decide (processing_counter_ s = 1) in
  ∃ s', notify_disconnection a s = Ok (tt, s')
    ∧ connections_ s' = m_erase a (connections_ s)
    ∧ processing_counter_ s' = processing_counter_ s - (if is_processing c then 1 else 0)
    ∧ sent s' = sent s ++ (if is_processing c then map (λ b, (b, SharedWrite id)) (others a s) else [])
    ∧ disk_log s' = disk_log s ++ (if early then [] else [RemoveAll nick])
    ∧ (if is_processing c && negb early then
         m_find id (shared_storage_ s')
         = Some (StringNotificationMessage notifications.USER_LOGGED_OUT
                   [(headers.FileOwner, nick)] None, processing_counter_ s - 1)
       else shared_storage_ s' = shared_storage_ s)
    ∧ (processing_counter_ s = processing_count s →
       processing_counter_ s' = processing_count s'
       ∧ (early = true ↔ is_processing c = true ∧ others a s = [])).
Proof.
  intros Hok Hw Hf. cbv zeta.
  pose proof (count_processing_erase a c _ (ok_connections s Hok) Hf) as Hcount.
  pose proof (ok_counter s Hok) as Hc. rewrite processing_count_eq in Hc.
  unfold notify_disconnection. rewrite M_bind_unfold. unfold conn. rewrite Hf.
  rewrite M_bind_unfold. cbn [modify]. set (s1 := on_connections (m_erase a) s).
  rewrite M_bind_unfold.
  change (bool_decide (state_ (client_ c) = processing)) with (is_processing c).
  destruct (is_processing c) eqn:Hp; cbn [andb].
  2: { cbn. eexists. split; [done|]. cbn. rewrite app_nil_r, Z.sub_0_r. split_and!; try done.
       intros Hex. rewrite (processing_count_eq s) in Hex. rewrite processing_count_eq.
       change (connections_ (on_disk _ s1)) with (m_erase a (connections_ s)). split; [lia|naive_solver]. }
  pose proof (length_others a c s (ok_connections s Hok) Hf Hp) as Hlen.
  rewrite M_bind_unfold. cbn [modify]. set (s2 := set_processing_counter _ s1).
  assert (processing_counter_ s2 = processing_counter_ s - 1) as Hc2
    by (cbn; rewrite u64_id by (split; lia); lia).
  assert (processing_count s2 = Z.of_nat (length (others a s))) as Hp2.
  { rewrite processing_count_eq. change (connections_ s2) with (m_erase a (connections_ s)). lia. }
  rewrite M_bind_unfold. cbn [gets]. rewrite Hc2.
  assert (processing_counter_ s = processing_count s →
    processing_counter_ s2 = processing_count s2) as Hexact.
  { rewrite (processing_count_eq s), Hp2, Hc2. lia. }
  destruct (decide (processing_counter_ s = 1)) as [H1|H1].
  - rewrite !bool_decide_eq_true_2 by lia. cbn [negb].
    assert (others a s = []) as Ho by (apply length_zero_iff_nil; lia).
    exists s2. rewrite Ho. cbn [map]. rewrite !app_nil_r. split_and!; try done.
    intros Hex. split; [by apply Hexact|done].
  - rewrite !bool_decide_eq_false_2 by lia. cbn [negb]. rewrite M_bind_unfold.
    destruct (store_shared _ _ s2) as [[id s3]|] eqn:E; [|done].
    assert (shared_ok s2) as Hok2.
    { eapply shared_ok_frame; [exact Hok|apply keys_erase_NoDup, Hok| |done..]. rewrite Hc2, Hp2. lia. }
    assert (Z.of_nat (length (others a s)) ≤ processing_counter_ s - 1 < two64) as Hlt by lia.
    destruct (store_and_share s2 _ _ (others a s) id s3 Hok2 (proj2 Hw) Hlt E)
      as (-> & _ & _ & Hst & Hcs & Hse & _ & Hpc).
    rewrite M_bind_unfold, share_spec, Hcs.
    change (connections_ s2) with (m_erase a (connections_ s)).
    rewrite recipients_erase. fold (others a s). cbn. eexists. split; [done|].
    cbn. rewrite Hcs, Hse, Hpc. split_and!; try done.
    + by injection E as _ <-.
    + intros Hex. specialize (Hexact Hex). split.
      { unfold processing_count, processing_conns in *. cbn. by rewrite Hcs, <- Hexact. }
      split; [done|]. intros [_ Ho]. rewrite Hp2, Ho in Hexact. cbn [length] in Hexact. lia.
Qed.
End sharing.

(** ** Witnesses: two clients register their files, the first one disappears *)

#[local] Existing Instance split_def_split.
#[local] Existing Instance sample_protocol.

Definition run_or (m : M manager unit) (s : manager) : manager :=
  match m s with Ok (_, s') => s' | Fault _ => s end.

Definition name_client (nick : str) (c : connection) : connection :=
  with_state logged (with_nickname nick c).

Definition w1 : manager := run_or (start 10) new_manager.
Definition w2 : manager := run_or (start 20) w1.
Definition w3 : manager := run_or (on_conn 10 (name_client (lit "ann"))) w2.
Definition w4 : manager := run_or (on_conn 20 (name_client (lit "bob"))) w3.
Definition w5 : manager := run_or (notify_files_registration 10) w4.
(** Ann is told that Bob registered: a shared write on connection 10. *)
Definition w6 : manager := run_or (notify_files_registration 20) w5.
Definition w7 : manager := run_or (stop 10) w6.
Definition w8 : manager := run_or (shared_write_done false 10 1) w7.

Lemma connected_not_processing m a nick c :
  Forall (λ e, is_processing e.2 = false) m → m_find a m = Some c →
  is_processing (name_client nick c) = is_processing c.
Proof.
  intros Hm Hf%m_find_elem. rewrite Forall_forall in Hm.
  specialize (Hm _ Hf). cbn [snd] in Hm. by rewrite Hm.
Qed.

Lemma reach_w6 NDEBUG : rtc (mstep NDEBUG) new_manager w6.
Proof.
  apply (rtc_l _ _ w1); [by apply (m_start _ 10); vm_compute|].
  apply (rtc_l _ _ w2); [by apply (m_start _ 20); vm_compute|].
  apply (rtc_l _ _ w3).
  { apply (m_client _ 10 (name_client (lit "ann"))); [|by vm_compute].
    intros c. apply connected_not_processing. by repeat constructor. }
  apply (rtc_l _ _ w4).
  { apply (m_client _ 20 (name_client (lit "bob"))); [|by vm_compute].
    intros c. apply connected_not_processing. by repeat constructor. }
  apply (rtc_l _ _ w5); [by apply (m_register _ 10); vm_compute|].
  apply (rtc_l _ _ w6); [by apply (m_register _ 20); vm_compute|].
  apply rtc_refl.
Qed.

Lemma reach_w7 NDEBUG : rtc (mstep NDEBUG) new_manager w7.
Proof.
  apply (rtc_r _ w6); [apply reach_w6|]. by apply (m_stop _ 10); vm_compute.
Qed.

Lemma shared_buffers_safe_witness :
  ∃ buf n, m_find 1 (shared_storage_ w6) = Some (buf, n) ∧ 0 < n ∧ pending 1 w6 ≤ n.
Proof.
  apply (shared_buffers_safe false w6 10 1 (reach_w6 false)). vm_compute. left.
Defined.

Lemma lost_reader_leaks_witness : m_find 1 (shared_storage_ w8) ≠ None.
Proof.
  apply (lost_reader_leaks false w7 10 1 w8 w8 (reach_w7 false));
    [vm_compute; left|vm_compute; reflexivity|vm_compute; reflexivity|apply rtc_refl].
Defined.

Lemma shared_write_completes_witness :
  m_find 1 (shared_storage_ (run_or (shared_write_done false 10 1) w6)) = None
  ∧ m_find 1 (shared_storage_ (run_or (shared_write_done true 10 1) w6)) ≠ None.
Proof.
  split.
  - destruct (shared_write_completes false w6 10 1 (run_or (shared_write_done false 10 1) w6)
                (reach_w6 false)) as (buf & n & Hf & E & _);
      [vm_compute; left|vm_compute; reflexivity|vm_compute; reflexivity|].
    rewrite E. vm_compute in Hf. injection Hf as <- <-. reflexivity.
  - vm_compute. discriminate.
Defined.

Lemma w6_ok : shared_ok w6.
Proof. eapply msteps_ok; [apply new_manager_ok|apply (reach_w6 false)]. Qed.

Lemma w6_no_wrap : no_wrap w6.
Proof. split; vm_compute; reflexivity. Qed.

Definition bob : connection :=
  match m_find 20 (connections_ w6) with Some c => c | None => new_connection end.

Lemma bob_found : m_find 20 (connections_ w6) = Some bob.
Proof. vm_compute. reflexivity. Qed.

Lemma w6_nicknames b c :
  (b, c) ∈ connections_ w6 → is_processing c = true →
  nickname_ (client_ c) = nickname_ (client_ bob) → b = 20.
Proof.
  intros Hin _. vm_compute in Hin.
  repeat (apply elem_of_cons in Hin as [Hin|Hin]; [injection Hin as -> ->; by vm_compute|]).
  by apply elem_of_nil in Hin.
Qed.

Lemma notification_reaches_others_witness :
  ∃ s', do_notify (lit "bob") (C_StaticAllocatedString []) w6 = Ok (tt, s')
    ∧ sent s' = sent w6 ++ [(10, SharedWrite 2)].
Proof.
  destruct (notification_reaches_others w6 20 bob (C_StaticAllocatedString []) w6_ok
              w6_no_wrap) as (s' & E & _ & Hs);
    [vm_compute; reflexivity|exact bob_found|vm_compute; reflexivity|exact w6_nicknames|].
  exists s'. split; [exact E|exact (proj1 Hs)].
Defined.

Lemma disconnection_cases_witness :
  ∃ s', notify_disconnection 20 w6 = Ok (tt, s')
    ∧ disk_log s' = disk_log w6 ++ [RemoveAll (lit "bob")].
Proof.
  destruct (disconnection_cases w6 20 bob w6_ok w6_no_wrap bob_found)
    as (s' & E & _ & _ & _ & Hd & _).
  exists s'. split; [exact E|exact Hd].
Defined.
