(* ===== verification/ManagerFrame.v ===== *)
(** * ManagerFrame: what the operations of the manager leave alone *)

From S2P Require Import Prelude Hoare Text Protocol Validators Vfs StdMap BackupRequests.
From S2P Require Import DownloadManager Manager ManagerSpec.

(** ** Kinds of replies *)

(** The request has been accepted and posted. *)
Definition accepted_code (c : responses.t) : bool :=
  bool_decide (c ∈ [responses.SIGNIN_CMD_ACCEPTED; responses.SIGNUP_CMD_ACCEPTED;
    responses.DELETE_ACCOUNT_CMD_ACCEPTED; responses.LOGOUT_CMD_ACCEPTED;
    responses.PUSH_FILES_CMD_ACCEPTED; responses.QUERRY_CMD_ACCEPTED]).

(** The request has been executed, and this is how it ended. *)
Definition final_code (c : responses.t) : bool :=
  bool_decide (c ∈ [responses.USER_ALREADY_LOGGED; responses.LOGIN_SUCCESSFULL;
    responses.NICKNAME_INCORRECT; responses.PASSWORD_INCORRECT; responses.INTERNAL_SERVER_ERR;
    responses.REGISTERING_SUCCESSFULL; responses.USER_ALREADY_REGISTERED;
    responses.DELETING_ACCOUNT_SUCCESSFULL; responses.REMOVE_ACCOUNT_FAILED;
    responses.PUSH_FILES_SUCCESS; responses.ADD_FILE_SUCCESSFULL;
    responses.REMOVE_FILE_SUCCESSFULL; responses.REMOVE_FILE_FAILED;
    responses.RENAME_FILE_SUCCESSFULL; responses.RENAME_FILE_FAILED;
    responses.SSL_VERSION_INCOMPATIBLE; responses.DOWNLOAD_DENY;
    responses.DOWNLOAD_FILE_QUERRY_APPROVED]).

Section frame.
Context `{Protocol} `{BoostSplit}.
Variables (port : Z) (d : disk).
Implicit Types (g : manager).

(** The connections and the shared buffers are as before. *)
Record undisturbed g g' : Prop := {
  same_connections : connections_ g' = connections_ g;
  same_counter : processing_counter_ g' = processing_counter_ g;
  same_storage_id : SharedStorageIDCounter g' = SharedStorageIDCounter g;
  same_storage : shared_storage_ g' = shared_storage_ g;
  same_unfinished : unfinished g' = unfinished g;
}.

#[global] Instance undisturbed_preorder : PreOrder undisturbed.
Proof. split; [by split|]. intros g1 g2 g3 [] []. split; congruence. Qed.

(** Only the writes, the uploads and the disk may differ. *)
Record still g g' : Prop := {
  still_undisturbed : undisturbed g g';
  still_backup : backup_requests_ g' = backup_requests_ g;
  still_number : DownloadTransactionsIDCounter g' = DownloadTransactionsIDCounter g;
  still_downloads : download_transactions_ (download_manager_ g')
                    = download_transactions_ (download_manager_ g);
}.

#[global] Instance still_preorder : PreOrder still.
Proof.
  split; [by split|]. intros g1 g2 g3 [] []. split; [by transitivity g2|congruence..].
Qed.

Lemma still_start_write a m : preserves still (start_write a m).
Proof. by intros s x s' [= <- <-]. Qed.

Lemma still_conn a : preserves still (conn a).
Proof. intros s x s'. unfold conn. destruct (m_find _ _); [|done]. by intros [= <- <-]. Qed.

Lemma still_deny_handler r : preserves still (GetDownloadDenyHandler r).
Proof. apply still_start_write. Qed.

Lemma still_deliver a compr r path :
  preserves still (DeliverFileFromLocalStorage port d a compr r path).
Proof.
  intros s x s'. unfold DeliverFileFromLocalStorage.
  destruct (BeginUploadTransaction _ _ _ _ _) as [[[ok c'] T] dm] eqn:E.
  assert (download_transactions_ dm = download_transactions_ (download_manager_ s)) as Ed.
  { revert E. unfold BeginUploadTransaction. repeat case_match; by intros [= <- <- <- <-]. }
  intros E'. transitivity (set_downloads dm s); [done|].
  destruct ok, (file_size d path); by eapply still_start_write.
Qed.

End frame.

#[export] Hint Resolve still_start_write still_conn still_deny_handler still_deliver : preserves.
