(* ===== verification/DownloadSpec.v ===== *)
(** * DownloadSpec: no download request is lost

    The life of a download request inside the connection manager: it is answered at
    once, or it waits in the backed-up requests under the number the owner was asked
    with; and when that number is settled - the file arrived, the transfer failed, a
    timer expired - every waiting connection that still exists is answered. *)

From S2P Require Import Prelude Hoare Text Protocol Validators Vfs StdMap BackupRequests.
From S2P Require Import DownloadManager Manager ManagerSpec ManagerFrame.

(** A reply that ends the request [r]. *)
Definition answers_request (r : Request) (w : Z * write) : Prop :=
  ∃ code additional, final_code code = true ∧
    w = (WeakConnection r, Write (StringReplyMessage code (RequestID r) additional)).

Lemma answers_reply r code hs :
  final_code code = true →
  answers_request r (WeakConnection r, Write (StringReplyMessage code (RequestID r) hs)).
Proof. by exists code, hs. Qed.

(** The waiting requests whose connection still exists. *)
Definition reachable (s : manager) (id : Z) : list Request :=
  filter (λ r, alive s (WeakConnection r) = true) (waiting_on id (backup_requests_ s)).

(** Every number in use is used once and was given by the counter. *)
Definition numbered (s : manager) : Prop :=
  NoDup (keys (backup_requests_ s))
  ∧ Forall (λ k, 0 ≤ k ≤ DownloadTransactionsIDCounter s) (keys (backup_requests_ s))
  ∧ 0 ≤ DownloadTransactionsIDCounter s.

(** The counter is not about to wrap around. *)
Definition counter_in_range (s : manager) : Prop :=
  DownloadTransactionsIDCounter s < two64 - 1.

(** [f r] starts one write, which answers [r], and leaves the connections and the
    backed-up requests alone. *)
Definition answering (f : Request → M manager unit) : Prop :=
  ∀ r s, ∃ s' w, f r s = Ok (tt, s') ∧ sent s' = sent s ++ [w] ∧ answers_request r w
    ∧ connections_ s' = connections_ s ∧ backup_requests_ s' = backup_requests_ s.

Section downloads.
Context `{Protocol} `{BoostSplit}.
Variables (port : Z) (d : disk) (NDEBUG : bool).
Implicit Types (s : manager) (a : Z).

Lemma alive_connections s s' :
  connections_ s' = connections_ s → ∀ a, alive s' a = alive s a.
Proof. intros E a. unfold alive. by rewrite E. Qed.

Lemma deny_answering : answering GetDownloadDenyHandler.
Proof. intros r s. eexists _, _. split_and!; [done..|by apply answers_reply|done|done]. Qed.

(** [DeliverFileFromLocalStorage] answers with the approval or with the refusal. *)
Lemma deliver_spec a compr id path s :
  ∃ s' code hs, final_code code = true ∧
    DeliverFileFromLocalStorage port d a compr id path s = Ok (tt, s')
    ∧ sent s' = sent s ++ [(a, Write (StringReplyMessage code id hs))]
    ∧ connections_ s' = connections_ s ∧ backup_requests_ s' = backup_requests_ s
    ∧ DownloadTransactionsIDCounter s' = DownloadTransactionsIDCounter s.
Proof.
  unfold DeliverFileFromLocalStorage.
  destruct (BeginUploadTransaction _ _ _ _ _) as [[[[] c'] T] dm];
    [destruct (file_size d path)|]; eexists _, _, _; (split; [|by split_and!]); done.
Qed.

Lemma deliver_answering path :
  answering (λ r, DeliverFileFromLocalStorage port d (WeakConnection r)
                    (RequestedCompression r) (RequestID r) path).
Proof.
  intros r s.
  destruct (deliver_spec (WeakConnection r) (RequestedCompression r) (RequestID r) path s)
    as (s' & code & hs & Hfin & E & Hs & Hc & Hb & _).
  eexists s', _. split_and!; [done|done|by apply answers_reply|done|done].
Qed.

Lemma for_each_answering f l s :
  answering f →
  ∃ s' ws,
    for_each (λ r s, if alive s (WeakConnection r) then f r s else Ok (tt, s)) l s
      = Ok (tt, s')
    ∧ sent s' = sent s ++ ws
    ∧ Forall2 answers_request (filter (λ r, alive s (WeakConnection r) = true) l) ws
    ∧ connections_ s' = connections_ s ∧ backup_requests_ s' = backup_requests_ s.
Proof.
  intros Hf. revert s. induction l as [|r l IH]; intros s.
  { exists s, []. split_and!; [done|by rewrite app_nil_r|constructor|done|done]. }
  cbn [for_each]. rewrite M_bind_unfold. destruct (alive s (WeakConnection r)) eqn:Ea.
  - destruct (Hf r s) as (s1 & w & E & Hs & Ha & Hc & Hb). rewrite E.
    destruct (IH s1) as (s' & ws & E' & Hs' & Ha' & Hc' & Hb'). exists s', (w :: ws).
    split_and!; [done|by rewrite Hs', Hs, <- app_assoc| |congruence|congruence].
    rewrite filter_cons_True by done. constructor; [done|].
    rewrite (filter_ext_in _ (λ r, alive s1 (WeakConnection r) = true)); [exact Ha'|].
    intros x _. by rewrite (alive_connections _ _ Hc).
  - destruct (IH s) as (s' & ws & E' & HH). exists s', ws. split; [exact E'|].
    by rewrite filter_cons_False by (by rewrite Ea).
Qed.

(** [ForEachAndRemoveWrapper] with such a function. *)
Lemma for_each_and_remove_spec f id s :
  answering f →
  ∃ s' ws, for_each_and_remove id f s = Ok (tt, s')
    ∧ sent s' = sent s ++ ws ∧ Forall2 answers_request (reachable s id) ws
    ∧ connections_ s' = connections_ s
    ∧ backup_requests_ s' = m_erase id (backup_requests_ s).
Proof.
  intros Hf. unfold for_each_and_remove, ForEachAndRemoveWrapper, ForEach, m_index,
    reachable, waiting_on.
  destruct (m_find id (backup_requests_ s)) as [[info t]|] eqn:E.
  - destruct (for_each_answering f (Requests info) (set_backup (backup_requests_ s) s) Hf)
      as (s' & ws & E' & Hs & Ha & Hc & Hb).
    rewrite E'. cbn. eexists _, ws. split; [done|]. cbn. by rewrite Hb.
  - cbn. exists (set_backup (m_erase id (m_insert id default_backup (backup_requests_ s)))
                  (set_backup (m_insert id default_backup (backup_requests_ s)) s)), [].
    split_and!; [done|by rewrite app_nil_r|constructor|done|].
    cbn. by rewrite m_erase_insert, m_erase_absent.
Qed.

Lemma set_cached_spec owner path s s' :
  SetFileToCached NDEBUG owner path s = Ok (tt, s') →
  sent s' = sent s ∧ backup_requests_ s' = backup_requests_ s
  ∧ ∀ a, alive s' a = alive s a.
Proof.
  unfold SetFileToCached, cassert. destruct (m_find_if _ _) as [[b c]|]; [|by intros [= <-]].
  destruct NDEBUG; [by intros [= <-]|]. rewrite M_bind_unfold.
  destruct (SetCached _ _ _ _) as [[ok v]|]; [|done]. cbn.
  destruct ok; [|done]. intros [= <-]. split_and!; [done..|]. intros a.
  unfold alive. cbn. rewrite m_find_update.
  case_bool_decide; [|done]. by destruct (m_find a (connections_ s)).
Qed.

Lemma assert_end_frame id s s' :
  assert_end_download NDEBUG id s = Ok (tt, s') →
  sent s' = sent s ∧ backup_requests_ s' = backup_requests_ s.
Proof.
  unfold assert_end_download, cassert. destruct NDEBUG; [by intros [= <-]|].
  rewrite M_bind_unfold. destruct (EndDownloadTransaction _ _) as [n dm]. cbn.
  destruct (n =? 0)%nat; [done|]. by intros [= <-].
Qed.

(** A settled number: the waiting connections were answered once each, in the order
    they are kept, nothing else was written, and only this entry is gone. *)
Definition settled (id : Z) s s' : Prop :=
  ∃ ws, sent s' = sent s ++ ws ∧ Forall2 answers_request (reachable s id) ws
    ∧ ∀ j, m_find j (backup_requests_ s')
           = if bool_decide (j = id) then None else m_find j (backup_requests_ s).

Lemma for_each_and_remove_settles f id s s0 s' :
  answering f → for_each_and_remove id f s0 = Ok (tt, s') →
  sent s0 = sent s → backup_requests_ s0 = backup_requests_ s →
  (∀ a, alive s0 a = alive s a) → settled id s s'.
Proof.
  intros Hf E Hs Hb Ha. destruct (for_each_and_remove_spec f id s0 Hf)
    as (s1 & ws & E1 & Hs1 & Ha1 & _ & Hb1).
  rewrite E in E1. injection E1 as <-. exists ws. split_and!.
  - by rewrite Hs1, Hs.
  - unfold reachable in *. rewrite Hb in Ha1.
    rewrite (filter_ext_in _ (λ r, alive s0 (WeakConnection r) = true)); [exact Ha1|].
    intros r _. by rewrite Ha.
  - intros j. by rewrite Hb1, m_find_erase, Hb.
Qed.

Lemma settled_after id s s1 s2 :
  settled id s s1 → sent s2 = sent s1 → backup_requests_ s2 = backup_requests_ s1 →
  settled id s s2.
Proof. intros (ws & Hs & Ha & Hb) E1 E2. exists ws. by rewrite E1, E2. Qed.

Lemma completed_settles h Succes s s' :
  download_completed port NDEBUG d (h_request h) h Succes s = Ok (tt, s') →
  settled (h_request h) s s'.
Proof.
  unfold download_completed. rewrite M_bind_unfold.
  destruct (CloseDownloadTransaction _ _) as [[]|]; [|done]. cbn [mbind outcome_bind].
  rewrite M_bind_unfold. destruct Succes.
  - rewrite M_bind_unfold. destruct (SetFileToCached _ _ _ s) as [[[] s2]|] eqn:E2; [|done].
    destruct (for_each_and_remove _ _ s2) as [[[] s3]|] eqn:E3; [|done]. intros E4.
    apply set_cached_spec in E2 as (? & ? & ?). apply assert_end_frame in E4 as [? ?].
    eapply settled_after; [|done..]. by eapply for_each_and_remove_settles;
      [apply deliver_answering|exact E3|..].
  - destruct (for_each_and_remove _ _ s) as [[[] s3]|] eqn:E3; [|done]. intros E4.
    apply assert_end_frame in E4 as [? ?]. eapply settled_after; [|done..].
    by eapply for_each_and_remove_settles; [apply deny_answering|exact E3|..].
Qed.

(** When a download is settled every client that waits for the file and is still
    connected receives exactly one reply, under the number of its own request, and the
    requests are forgotten; no other client is written to and no other waiting request
    is touched.  This holds when the owner does not reply in time, when the transfer
    does not start in time, when the file has arrived and when it failed to arrive; the
    first always completes, the second too in a release build. *)
Theorem waiting_requests_answered h s :
  let id := h_request h in
  (∃ s', backup_timer_expired id s = Ok (tt, s') ∧ settled id s s')
  ∧ (∀ s', download_timer_expired NDEBUG id s = Ok (tt, s') → settled id s s')
  ∧ (NDEBUG = true → ∃ s', download_timer_expired NDEBUG id s = Ok (tt, s'))
  ∧ (∀ Succes s', download_completed port NDEBUG d id h Succes s = Ok (tt, s') →
                  settled id s s').
Proof.
  intros id. destruct (for_each_and_remove_spec _ id s deny_answering)
    as (s1 & ws & E1 & _).
  pose proof (for_each_and_remove_settles _ id s s s1 deny_answering E1 eq_refl eq_refl
                (λ _, eq_refl)) as Hset.
  split_and!.
  - by exists s1.
  - intros s'. unfold download_timer_expired. rewrite M_bind_unfold, E1.
    intros [? ?]%assert_end_frame. by eapply settled_after.
  - intros ->. exists s1. unfold download_timer_expired. by rewrite M_bind_unfold, E1.
  - intros Succes s'. apply completed_settles.
Qed.

(** ** A request arrives *)

Lemma numbered_ext s s' :
  keys (backup_requests_ s') = keys (backup_requests_ s) →
  DownloadTransactionsIDCounter s' = DownloadTransactionsIDCounter s →
  numbered s → numbered s'.
Proof. intros Ek En (Hd & Hk & Hn). split_and!; by rewrite ?Ek, ?En. Qed.

Lemma backup_fresh s :
  numbered s → counter_in_range s → let id := u64 (DownloadTransactionsIDCounter s + 1) in
  id = DownloadTransactionsIDCounter s + 1 ∧ m_find id (backup_requests_ s) = None.
Proof.
  intros (_ & Hk & Hn) Hc. red in Hc. cbn. rewrite u64_id by (split; lia). split; [done|].
  apply m_find_None. intros Hin. rewrite Forall_forall in Hk. specialize (Hk _ Hin). lia.
Qed.

(** The query [q] of the connection [a] was answered, with the final reply to its own
    number, and the waiting requests are as before. *)
Definition answered (q : DownloadQuerry) a s s' : Prop :=
  ∃ w, sent s' = sent s ++ [w]
    ∧ answers_request (mkRequest a (GetCompression (q_Compressions q)) (q_QuerryID q)) w
    ∧ backup_requests_ s' = backup_requests_ s.

(** It waits for the file it asked for, in front of those that already waited; if none did,
    the connection [o] has just been asked for the file under the number it waits under. *)
Definition waits (q : DownloadQuerry) a o s s' : Prop :=
  ∃ id info,
    m_find id (backup_requests_ s')
      = Some (info, match m_find id (backup_requests_ s) with Some e => e.2 | None => Ticking end)
    ∧ FileOwner info = q_FileOwner q ∧ FilePath info = q_FilePath q
    ∧ Requests info = mkRequest a (GetCompression (q_Compressions q)) (q_QuerryID q)
                      :: waiting_on id (backup_requests_ s)
    ∧ (∀ j, j ≠ id → m_find j (backup_requests_ s') = m_find j (backup_requests_ s))
    ∧ match m_find id (backup_requests_ s) with
      | Some _ => sent s' = sent s
      | None => ∃ hs, (headers.FileName, q_FilePath q) ∈ hs
          ∧ sent s' = sent s ++ [(o, Write (StringQuerryMessage (to_string id)
                                              querries.DOWNLOAD_FILE hs))]
      end.

Definition answered_or_waits (q : DownloadQuerry) a s s' : Prop :=
  answered q a s s' ∨ ∃ o, waits q a o s s'.

(** What becomes of a query when [owner] is the result of [find_owner]: it waits exactly
    when it can be served, the file is there and the server has no copy. *)
Definition querry_outcome (q : DownloadQuerry) a (owner : option (Z * bool)) s s' : Prop :=
  if bool_decide (GetSslVersion = q_SslVersion q) then
    match owner with
    | Some (o, false) => waits q a o s s'
    | _ => answered q a s s'
    end
  else answered q a s s'.

Lemma querry_outcome_cases q a owner s s' :
  querry_outcome q a owner s s' → answered_or_waits q a s s'.
Proof.
  unfold querry_outcome, answered_or_waits.
  destruct (bool_decide _); [|auto]. destruct owner as [[o []]|]; eauto.
Qed.

(** The last step: the owner is asked and the request backed up under a new number. *)
Lemma forwarded q a o s :
  numbered s → counter_in_range s →
  let id := u64 (DownloadTransactionsIDCounter s + 1) in
  let info := AddRequest a (GetCompression (q_Compressions q)) (q_QuerryID q)
                (mkDownloadInfo (q_FileOwner q) (q_FilePath q) []) in
  ∀ s' hs, (headers.FileName, q_FilePath q) ∈ hs →
    sent s' = sent s ++ [(o, Write (StringQuerryMessage (to_string id)
                                      querries.DOWNLOAD_FILE hs))] →
    backup_requests_ s' = BackupAndStartTimer id info (backup_requests_ s) →
    waits q a o s s'.
Proof.
  intros Hwf Hc id info s' hs Hin Hs Hb.
  destruct (backup_fresh s Hwf Hc) as [_ Hn].
  fold id in Hn. exists id, info. rewrite Hb. unfold waiting_on. rewrite Hn.
  split_and!; try done.
  - by rewrite m_find_backup, bool_decide_eq_true_2.
  - intros j Hj. by rewrite m_find_backup, bool_decide_eq_false_2.
  - by exists hs.
Qed.

(** The query on every branch; the search of the owner's tree has to complete. *)
Lemma querry_spec q a s r :
  numbered s → counter_in_range s → find_owner (q_FileOwner q) (q_FilePath q) s = Ok r →
  ∃ s', resolve_download_file_querry port d q a s = Ok (tt, s')
    ∧ querry_outcome q a r s s' ∧ undisturbed s s'
    ∧ download_transactions_ (download_manager_ s')
      = download_transactions_ (download_manager_ s) ∧ numbered s'.
Proof.
  intros Hwf Hc Ho. unfold resolve_download_file_querry, querry_outcome.
  destruct (bool_decide _); cbn [negb].
  2: { eexists. split; [done|]. split; [|by split_and!]. eexists.
       split_and!; [done|by apply (answers_reply (mkRequest _ _ _))|done]. }
  rewrite M_bind_unfold. cbn beta. rewrite Ho. cbn [mbind outcome_bind].
  destruct r as [[o cached]|].
  2: { eexists. split; [done|]. split; [|by split_and!]. eexists.
       split_and!; [done|by apply (answers_reply (mkRequest _ _ _))|done]. }
  destruct cached.
  { destruct (deliver_spec a (GetCompression (q_Compressions q)) (q_QuerryID q)
                (q_FileOwner q ++ q_FilePath q) s) as (s' & code & hs & Hfin & E & Hs & _ & Hb & Hn).
    pose proof (still_deliver port d _ _ _ _ _ _ _ E) as [].
    exists s'. split; [done|]. split; [|by split_and!; [..|apply (numbered_ext s); [rewrite Hb| |]]].
    eexists. split_and!; [done|by apply (answers_reply (mkRequest _ _ _))|done]. }
  rewrite M_bind_unfold. unfold IsDownloadPending.
  destruct (m_find_if _ _) as [[k e]|] eqn:E.
  - destruct (pending_entry _ _ a (GetCompression (q_Compressions q)) (q_QuerryID q) _ _ _
                (proj1 Hwf) E) as (Hf & Hfo & Hfp & Hj).
    eexists. split; [done|]. split; [|by split_and!; [..|apply (numbered_ext s); [apply keys_update| |]]].
    exists k, (AddRequest a (GetCompression (q_Compressions q)) (q_QuerryID q) e.1).
    cbn. rewrite Hj, bool_decide_eq_true_2, Hf by done. unfold waiting_on. rewrite Hf.
    destruct e as [info t]. split_and!; [done..| |done].
    intros j Hne. by rewrite Hj, bool_decide_eq_false_2.
  - destruct (backup_fresh s Hwf Hc) as [Eid Hn].
    eexists. split; [done|]. split; [by eapply (forwarded q a o s Hwf Hc); cbn; [left|..]|].
    split; [done|]. split; [done|]. split_and!; (cbn [backup_requests_ set_backup on_sent set_transactions_id];
            unfold BackupAndStartTimer; rewrite ?keys_update).
    + apply keys_emplace_NoDup, Hwf.
    + unfold keys. rewrite m_emplace_perm by done. cbn. rewrite Eid.
      destruct Hwf as (_ & Hk & Hnn). red in Hc. constructor; [lia|].
      eapply Forall_impl; [exact Hk|]. cbn. lia.
    + apply u64_range.
Qed.
End downloads.

(** ** Witnesses: Bob asks for a file Ann has registered *)

#[local] Existing Instance split_def_split.
#[local] Existing Instance sample_protocol.

Definition empty_disk : disk := mkDisk (λ _, None) (λ _, false) (λ _, false) (λ _, true).

(** [w6], after Ann has added the file. *)
Definition with_file : manager :=
  match Add PATH_SEPARATOR_CHR (lit "/f") (new_vfs PATH_ROOT) with
  | Ok v => run_or (on_conn 10 (with_tree v)) w6
  | Fault _ => w6
  end.
Definition bobs_querry : DownloadQuerry :=
  mkDownloadQuerry (lit "5") (lit "ann") (lit "/f") (sslv23 : bool) [zlib].
Definition asked : manager :=
  run_or (resolve_download_file_querry 80 empty_disk bobs_querry 20) with_file.

Lemma waiting_requests_answered_witness :
  ∃ s' code hs, backup_timer_expired 2 asked = Ok (tt, s')
    ∧ sent s' = sent asked ++ [(20, Write (StringReplyMessage code (lit "5") hs))].
Proof.
  assert (reachable asked 2 = [mkRequest 20 zlib (lit "5")]) as Hr
    by (vm_compute; reflexivity).
  destruct (waiting_requests_answered 80 empty_disk true
              (mkHandler 2 (lit "ann") (lit "/f")) asked) as ((s' & E & ws & Hs & Ha & _) & _).
  cbn [h_request] in *. rewrite Hr in Ha.
  inversion Ha as [|r w rs ws' (code & hs & _ & ->) Hnil]; subst.
  inversion Hnil; subst. exists s', code, hs. split; [exact E|exact Hs].
Defined.
