(* ===== verification/ManagerInv.v ===== *)
(** * ManagerInv: what every operation of the manager preserves

    The invariant of the connection manager and, operation by operation, that it is
    preserved and that the operation completes.  An operation is sorted by what it
    leaves alone: [calm] operations touch neither the connections nor the shared
    buffers. *)

From S2P Require Import Prelude Hoare Text Protocol Validators Vfs VfsTree VfsAdd VfsDelete.
From S2P Require Import VfsPaths VfsSpec StdMap.
From S2P Require Import BackupRequests DownloadManager Manager ManagerSpec ManagerFrame.
From S2P Require Import DownloadSpec.

(** ** Calm operations *)

Section calm.
Context `{Protocol} `{BoostSplit}.
Variables (NDEBUG : bool) (port : Z) (d : disk).
Implicit Types (g : manager).

(** The transaction has a receiver with a socket. *)
Definition has_socket (id : Z) g : Prop :=
  ∃ r t sock, m_find id (download_transactions_ (download_manager_ g)) = Some (Some r, t)
              ∧ receiver_socket r = Some sock.

(** The backed-up requests stay numbered, and a release build never takes a started
    receiver away. *)
Definition kept g g' : Prop :=
  (numbered g → numbered g') ∧ (NDEBUG = true → ∀ id, has_socket id g → has_socket id g').

Record calm g g' : Prop := {
  calm_undisturbed : undisturbed g g';
  calm_kept : kept g g';
}.

#[global] Instance kept_preorder : PreOrder kept.
Proof. split; [by split|]. intros g1 g2 g3 [A1 B1] [A2 B2]. split; auto. Qed.

#[global] Instance calm_preorder : PreOrder calm.
Proof.
  split; [by split|]. intros g1 g2 g3 [] []. split; by transitivity g2.
Qed.

Lemma kept_fields g g' :
  keys (backup_requests_ g') = keys (backup_requests_ g) →
  DownloadTransactionsIDCounter g' = DownloadTransactionsIDCounter g →
  download_transactions_ (download_manager_ g')
  = download_transactions_ (download_manager_ g) → kept g g'.
Proof.
  intros E1 E2 E3. split; [by apply numbered_ext|].
  intros _ id. unfold has_socket. by rewrite E3.
Qed.

Lemma still_kept g g' : still g g' → kept g g'.
Proof. intros [_ ]. apply kept_fields; congruence. Qed.

Lemma still_calm g g' : still g g' → calm g g'.
Proof. intros Hs. split; [apply Hs|by apply still_kept]. Qed.

Lemma calm_for_each_and_remove id f :
  (∀ r, preserves still (f r)) → preserves calm (for_each_and_remove id f).
Proof.
  intros Hf s x s'. unfold for_each_and_remove, ForEachAndRemoveWrapper, ForEach.
  destruct (m_index id default_backup (backup_requests_ s)) as [[info t] m] eqn:Em.
  destruct (for_each _ _ _) as [[[] s1]|] eqn:E; [|done]. cbn. intros [= <- <-].
  assert (still (set_backup m s) s1) as Hc.
  { eapply (preserves_for_each still); [|exact E].
    intros r s2 y s3. destruct (alive _ _); [apply Hf|by intros [= <- <-]]. }
  assert (m_erase id m = m_erase id (backup_requests_ s)) as Ee.
  { apply (f_equal snd) in Em. cbn [snd] in Em. subst m. unfold m_index.
    destruct (m_find id _) eqn:Ef; [done|]. cbn [snd].
    by rewrite m_erase_insert, m_erase_absent. }
  destruct Hc as [[? ? ? ? ?] Hb Hn Hd]. split; [done|]. split.
  - intros (Hnd & Hk & Hnn). unfold numbered. cbn [backup_requests_ set_backup DownloadTransactionsIDCounter].
    rewrite Hb. cbn [backup_requests_ set_backup]. rewrite Ee, Hn.
    split_and!; [by apply keys_erase_NoDup| |done]. rewrite Forall_forall in *. intros k Hin. apply Hk.
    by apply elem_of_keys_erase in Hin as [_ Hin].
  - intros _ j. unfold has_socket. cbn [download_manager_ set_backup]. by rewrite Hd.
Qed.

Lemma calm_start_write a m : preserves calm (start_write a m).
Proof. eapply preserves_impl; [apply still_calm|apply still_start_write]. Qed.

Lemma calm_conn a : preserves calm (conn a).
Proof. eapply preserves_impl; [apply still_calm|apply still_conn]. Qed.

Lemma calm_deliver a compr r path :
  preserves calm (DeliverFileFromLocalStorage port d a compr r path).
Proof. eapply preserves_impl; [apply still_calm|apply still_deliver]. Qed.

#[local] Hint Resolve calm_start_write calm_conn calm_deliver calm_for_each_and_remove
  still_deny_handler still_deliver still_start_write : preserves.

(** The rest of the download handlers. *)
Lemma calm_valid id :
  preserves calm (λ s, let '(r, m) := IsRequestIDValid id (backup_requests_ s) in
                       Ok (r, set_backup m s)).
Proof.
  intros s x s'. unfold IsRequestIDValid.
  destruct (m_find id _) as [[info t]|]; intros [= <- <-]; (split; [done|]);
    apply kept_fields; try done. apply keys_update.
Qed.

Lemma calm_begin ID FileName FileSize c h :
  preserves calm (λ s,
    '(ok, dm) ← BeginDownloadTransaction d ID FileName FileSize c h (download_manager_ s);
    Ok (ok, set_downloads dm s)).
Proof.
  intros s x s'. unfold BeginDownloadTransaction.
  destruct (negb _); [done|]. destruct (negb _).
  { cbn. intros [= <- <-]. by apply still_calm. }
  cbn. intros [= <- <-]. split; [done|]. split; [by apply numbered_ext|].
  intros _ id (r & t & sock & Hf & Hs). unfold has_socket. cbn [download_manager_ set_downloads].
  unfold with_downloads. cbn [download_transactions_]. rewrite m_find_update.
  set (m := download_transactions_ (download_manager_ s)) in *.
  assert (m_find id (m_emplace ID (make_receiver c FileName FileSize h, Idle) m)
          = Some (Some r, t)) as Hm.
  { unfold m_emplace. destruct (m_find ID m) eqn:E; [done|]. rewrite m_find_insert by done.
    case_bool_decide; congruence. }
  rewrite Hm. case_bool_decide; cbn; eauto.
Qed.

Lemma calm_NotifyFileDownload owner ID c : preserves calm (NotifyFileDownload port owner ID c).
Proof.
  intros s x s'. unfold NotifyFileDownload. destruct (m_find_if _ _) as [[a c']|];
    [|by intros [= <- <-]]. destruct (start_write _ _ s) as [[[] s1]|] eqn:E; [|done].
  cbn. intros [= <- <-]. by eapply calm_start_write.
Qed.

Lemma calm_reply msg : preserves calm (resolve_download_reply port d msg).
Proof.
  unfold resolve_download_reply. apply preserves_bind; [apply _|preserves|]. intros RequestID.
  cbv zeta. destruct (negb _); [preserves|].
  apply preserves_bind; [apply _|apply calm_valid|]. intros [[path owner]|]; [|preserves].
  apply preserves_bind; [apply _|preserves|]. intros size.
  apply preserves_bind; [apply _|apply calm_begin|]. intros [];
    [|by apply calm_for_each_and_remove, still_deny_handler].
  apply preserves_bind; [apply _|apply calm_NotifyFileDownload|preserves].
Qed.

Lemma calm_assert_end ID : preserves calm (assert_end_download NDEBUG ID).
Proof.
  unfold assert_end_download, cassert. destruct NDEBUG eqn:HN; [preserves|].
  apply preserves_bind; [apply _| |intros []; preserves].
  intros s x s'. destruct (EndDownloadTransaction _ _) as [n dm]. intros [= <- <-].
  split; [done|]. split; [by apply numbered_ext|]. by rewrite HN.
Qed.

Lemma calm_timer_expired ID : preserves calm (download_timer_expired NDEBUG ID).
Proof.
  unfold download_timer_expired. apply preserves_bind; [apply _| |intros []; apply calm_assert_end].
  by apply calm_for_each_and_remove, still_deny_handler.
Qed.

Lemma calm_backup_expired ID : preserves calm (backup_timer_expired ID).
Proof. by apply calm_for_each_and_remove, still_deny_handler. Qed.
End calm.

(** ** Clients *)

Section clients.
Context `{Protocol} `{BoostSplitLaws}.
Implicit Types (g : manager) (C : list Z).

Definition tree_ok (v : vfs) : Prop := ∃ t, repr v t.
Definition tree_of (c : connection) : vfs := remote_file_system_ (client_ c).

(** Every client's tree is well-formed. *)
Definition trees_ok g : Prop := ∀ a c, (a, c) ∈ connections_ g → tree_ok (tree_of c).

(** [C] are the connections that have registered files: every processing connection is
    one of them, and the count of processing clients is at least their number. *)
Record counted_ok C g : Prop := {
  counted_nodup : NoDup C;
  counted_there : ∀ a, a ∈ C → a ∈ keys (connections_ g);
  counted_processing : ∀ a c, (a, c) ∈ connections_ g → is_processing c = true → a ∈ C;
  counted_bound : Z.of_nat (length C) ≤ processing_counter_ g;
}.

Lemma undisturbed_trees g g' : undisturbed g g' → trees_ok g → trees_ok g'.
Proof. intros [E _ _ _ _] Ht a c. rewrite E. apply Ht. Qed.

Lemma undisturbed_counted C g g' : undisturbed g g' → counted_ok C g → counted_ok C g'.
Proof. intros [E1 E2 _ _ _] []. split; rewrite ?E1, ?E2; auto. Qed.

Lemma undisturbed_shared g g' : undisturbed g g' → shared_ok g → shared_ok g'.
Proof.
  intros [E1 E2 E3 E4 E5] Hok. eapply shared_ok_frame; [exact Hok| | |done..].
  - rewrite E1. apply Hok.
  - rewrite processing_count_eq, E1, E2, <- processing_count_eq. apply Hok.
Qed.

(** Replacing the client of one connection. *)
Lemma on_conn_trees a f g :
  trees_ok g → (∀ c, m_find a (connections_ g) = Some c → tree_ok (tree_of (f c))) →
  NoDup (keys (connections_ g)) →
  trees_ok (on_connections (m_update a f) g).
Proof.
  intros Ht Hf Hd b c (c0 & Hin & ->)%elem_of_m_update.
  case_bool_decide as E; [subst b|by eapply Ht]. by apply Hf, m_find_NoDup.
Qed.

Lemma on_conn_counted C a f g :
  counted_ok C g → (∀ c, is_processing (f c) = true → is_processing c = true) →
  counted_ok C (on_connections (m_update a f) g).
Proof.
  intros [Hn Ht Hp Hb] Hf. split; cbn [connections_ on_connections processing_counter_];
    rewrite ?keys_update; try done.
  intros b c (c0 & Hin & ->)%elem_of_m_update. case_bool_decide; intros Hc; eauto.
Qed.

(** A client that is no longer processing leaves the count too high, never too low. *)
Lemma on_conn_shared a f g :
  shared_ok g → (∀ c, is_processing (f c) = true → is_processing c = true) →
  shared_ok (on_connections (m_update a f) g).
Proof.
  intros Hok Hf. eapply shared_ok_frame; [exact Hok| | |done..].
  - cbn [connections_ on_connections]. rewrite keys_update. apply Hok.
  - rewrite processing_count_eq. cbn [connections_ on_connections processing_counter_].
    pose proof (ok_counter g Hok) as Hc. rewrite processing_count_eq in Hc.
    assert (count_processing (m_update a f (connections_ g))
            ≤ count_processing (connections_ g))%nat; [|lia].
    generalize (connections_ g) as m. intros m. unfold m_update.
    induction m as [|[b c] m IH]; [done|]. cbn [map fst snd].
    case_bool_decide; rewrite !count_processing_cons; [|lia].
    specialize (Hf c). destruct (is_processing (f c)), (is_processing c); lia || naive_solver.
Qed.

(** ** Signing off *)

Lemma notify_disconnection_total a c g :
  m_find a (connections_ g) = Some c →
  ∃ g', notify_disconnection a g = Ok (tt, g')
    ∧ connections_ g' = m_erase a (connections_ g)
    ∧ processing_counter_ g'
      = (if is_processing c then u64 (processing_counter_ g - 1) else processing_counter_ g)
    ∧ backup_requests_ g' = backup_requests_ g
    ∧ DownloadTransactionsIDCounter g' = DownloadTransactionsIDCounter g
    ∧ download_manager_ g' = download_manager_ g.
Proof.
  intros Hf. unfold notify_disconnection. rewrite M_bind_unfold. unfold conn. rewrite Hf.
  unfold is_processing.
  destruct (bool_decide (state_ (client_ c) = processing)) eqn:Ep; cbn;
    [|eexists; by split_and!].
  rewrite !M_bind_unfold. cbn [modify]. rewrite !M_bind_unfold. cbn [modify].
  rewrite M_bind_unfold. cbn [gets].
  match goal with |- context [bool_decide (?n = 0)] => destruct (bool_decide (n = 0)) end;
    [eexists; by split_and!|].
  rewrite M_bind_unfold. unfold store_shared. cbv beta zeta. rewrite M_bind_unfold, share_spec.
  eexists. by split_and!.
Qed.
(** ** The tree operations that always complete *)

Lemma Find_ok v Path c : tree_ok v → ∃ r, Find PATH_SEPARATOR_CHR v Path c = Ok r.
Proof. intros [t Hr]. rewrite (Find_tree _ _ _ _ _ Hr). eauto. Qed.

Lemma Get_ok v ty : tree_ok v → ∃ ps, Get PATH_SEPARATOR_CHR v ty = Ok ps.
Proof. intros [t Hr]. rewrite (Get_tree _ _ _ ty Hr). eauto. Qed.

Lemma Empty_ok v : tree_ok v → ∃ b, Empty v = Ok b.
Proof.
  intros [t Hr]. unfold Empty. rewrite (repr_root _ _ Hr).
  rewrite (deref_Some _ _ _ (repr_at_lookup _ _ _ (repr_heap _ _ Hr))). eauto.
Qed.

Lemma delete_vfs_ok owner v : tree_ok v → ∃ es, delete_vfs PATH_SEPARATOR_CHR owner v = Ok es.
Proof. intros [t Hr]. by eapply delete_vfs_repr. Qed.

Lemma new_tree_ok : tree_ok (tree_of new_connection).
Proof. eexists. apply new_vfs_repr. Qed.

Lemma m_find_tree g a c : trees_ok g → m_find a (connections_ g) = Some c → tree_ok (tree_of c).
Proof. intros Ht Hf%m_find_elem. by eapply Ht. Qed.

(** ** Stopping a connection *)

Lemma m_erase_update {V} a (f : V → V) (m : stdmap V) : m_erase a (m_update a f m) = m_erase a m.
Proof.
  unfold m_erase, m_update. induction m as [|[b x] m IH]; [done|]. cbn [map fst snd].
  destruct (decide (b = a)) as [->|Hne].
  - rewrite (bool_decide_eq_true_2 (a = a)) by done.
    rewrite !filter_cons_False by (by intros []). apply IH.
  - rewrite (bool_decide_eq_false_2 (b = a)) by done.
    rewrite !filter_cons_True by done. by rewrite IH.
Qed.

Lemma stop_total a c g :
  m_find a (connections_ g) = Some c → trees_ok g →
  ∃ g', stop a g = Ok (tt, g')
    ∧ connections_ g' = (if conn_stopped c then connections_ g else m_erase a (connections_ g))
    ∧ processing_counter_ g'
      = (if negb (conn_stopped c) && is_processing c then u64 (processing_counter_ g - 1)
         else processing_counter_ g)
    ∧ backup_requests_ g' = backup_requests_ g
    ∧ DownloadTransactionsIDCounter g' = DownloadTransactionsIDCounter g
    ∧ download_manager_ g' = download_manager_ g.
Proof.
  intros Hf Ht. unfold stop. rewrite M_bind_unfold. unfold conn at 1. rewrite Hf.
  destruct (conn_stopped c) eqn:Es; [eexists; by split_and!|].
  rewrite M_bind_unfold. unfold on_conn. cbn [modify].
  set (g1 := on_connections (m_update a with_stopped) g).
  assert (m_find a (connections_ g1) = Some (with_stopped c)) as Hf1.
  { unfold g1. cbn. by rewrite m_find_update, Hf, bool_decide_eq_true_2. }
  destruct (notify_disconnection_total a _ g1 Hf1) as (g2 & E & Hc & Hn & Hb & Hi & Hd).
  rewrite M_bind_unfold, E.
  destruct (delete_vfs_ok (nickname_ (client_ c)) _ (m_find_tree _ _ _ Ht Hf)) as [es Ees].
  rewrite M_bind_unfold. unfold lift, tree_of in *. rewrite Ees. eexists. split; [done|].
  cbn [connections_ processing_counter_ on_disk backup_requests_ DownloadTransactionsIDCounter
    download_manager_]. rewrite Hc, Hn, Hb, Hi, Hd. split_and!; try done.
  unfold g1. cbn [connections_ on_connections]. by rewrite m_erase_update.
Qed.

(** ** Registering files *)

Lemma collect_total id cs acc g :
  (∀ a c, (a, c) ∈ cs → tree_ok (tree_of c)) →
  ∃ r g', collect_and_share id cs acc g = Ok (r, g').
Proof.
  revert acc g. induction cs as [|[a c] cs IH]; intros acc g Ht; cbn [collect_and_share]; [eauto|].
  assert (∀ b c', (b, c') ∈ cs → tree_ok (tree_of c')) as Ht' by (intros b c' Hin; eapply Ht; by right).
  destruct (is_processing c); [|by apply IH].
  destruct (Get_ok (tree_of c) FILE) as [ps E]; [eapply Ht; left|].
  rewrite M_bind_unfold. unfold lift, tree_of in *. rewrite E. rewrite M_bind_unfold.
  by apply IH.
Qed.

Lemma registration_notification_ok c :
  tree_ok (remote_file_system_ c) → ∃ m, registration_notification c = Ok m.
Proof.
  intros Ht. unfold registration_notification.
  destruct (Empty_ok _ Ht) as [[] ->]; [cbn; eauto|].
  destruct (Get_ok _ FILE Ht) as [ps ->]. cbn. eauto.
Qed.

Lemma registration_total a c g :
  m_find a (connections_ g) = Some c → trees_ok g →
  ∃ g', notify_files_registration a g = Ok (tt, g')
    ∧ connections_ g' = m_update a (with_state processing) (connections_ g)
    ∧ processing_counter_ g' = u64 (processing_counter_ g + 1)
    ∧ backup_requests_ g' = backup_requests_ g
    ∧ DownloadTransactionsIDCounter g' = DownloadTransactionsIDCounter g
    ∧ download_manager_ g' = download_manager_ g.
Proof.
  intros Hf Ht. unfold notify_files_registration. rewrite M_bind_unfold. unfold conn. rewrite Hf.
  destruct (registration_notification_ok (client_ c)) as [msg Em];
    [apply (m_find_tree g a c Ht Hf)|].
  rewrite M_bind_unfold. unfold lift at 1. rewrite Em. rewrite M_bind_unfold. cbn [modify].
  rewrite M_bind_unfold. cbn [gets].
  match goal with |- context [bool_decide (?n = 1)] => destruct (bool_decide (n = 1)) end;
    [eexists; by split_and!|].
  rewrite M_bind_unfold. unfold store_shared. cbv beta zeta. rewrite M_bind_unfold. cbn [gets].
  rewrite M_bind_unfold.
  match goal with |- context [collect_and_share ?id ?cs ?acc ?s] =>
    destruct (collect_total id cs acc s) as (r & g2 & E) end; [exact Ht|].
  rewrite E. apply collect_and_share_spec in E as ->. eexists. by split_and!.
Qed.

(** ** Notifications *)

Lemma do_notify_total nickname msg g :
  ∃ g', do_notify nickname msg g = Ok (tt, g')
    ∧ connections_ g' = connections_ g ∧ processing_counter_ g' = processing_counter_ g
    ∧ backup_requests_ g' = backup_requests_ g
    ∧ DownloadTransactionsIDCounter g' = DownloadTransactionsIDCounter g
    ∧ download_manager_ g' = download_manager_ g.
Proof.
  unfold do_notify. rewrite M_bind_unfold. cbn [gets].
  destruct (bool_decide _); [eexists; by split_and!|].
  rewrite M_bind_unfold. unfold store_shared. cbv beta zeta. rewrite share_spec.
  eexists. by split_and!.
Qed.

(** The recipients of a notification, when its author has registered. *)
Lemma recipients_counted C a c g :
  counted_ok C g → NoDup (keys (connections_ g)) → m_find a (connections_ g) = Some c → a ∈ C →
  Z.of_nat (length (recipients (λ c', negb (has_nickname (nickname_ (client_ c)) c'))
                      (connections_ g))) ≤ processing_counter_ g - 1.
Proof.
  intros [HC Hthere Hp Hb] Hk Hf Ha.
  set (rs := recipients _ _).
  assert (NoDup (a :: rs)) as Hnd.
  { constructor.
    - unfold rs, recipients. intros ([b c'] & E & Hin)%list_elem_of_fmap. cbn in E. subst b.
      apply list_elem_of_filter in Hin as [Hc' Hin]. cbn in Hc'.
      apply (m_find_NoDup _ _ _ Hk) in Hin. rewrite Hf in Hin. injection Hin as <-.
      apply andb_true_iff in Hc' as [_ Hc']. unfold has_nickname in Hc'.
      by rewrite bool_decide_eq_true_2 in Hc'.
    - unfold rs, recipients, keys. eapply sublist_NoDup; [exact Hk|].
      apply (fmap_sublist fst), sublist_filter. }
  assert (a :: rs ⊆+ C) as Hsub.
  { apply NoDup_submseteq; [done|]. intros b [->|Hin]%elem_of_cons; [done|].
    unfold rs, recipients in Hin. apply list_elem_of_fmap in Hin as ([b' c'] & -> & Hin).
    apply list_elem_of_filter in Hin as [Hc' Hin]. cbn in Hc'.
    apply andb_true_iff in Hc' as [Hc' _]. by eapply Hp. }
  apply submseteq_length in Hsub. cbn in Hsub. lia.
Qed.

Lemma do_notify_shared C a c msg g u g' :
  shared_ok g → no_wrap g → counted_ok C g → m_find a (connections_ g) = Some c → a ∈ C →
  do_notify (nickname_ (client_ c)) msg g = Ok (u, g') → shared_ok g'.
Proof.
  intros Hok Hw HC Hf Ha. unfold do_notify. rewrite M_bind_unfold. cbn [gets].
  case_bool_decide as Hn; [by intros [= _ <-]|]. rewrite M_bind_unfold.
  destruct (store_shared msg _ g) as [[id g1]|] eqn:E; [|done].
  rewrite share_spec. intros [= _ <-].
  assert (connections_ g1 = connections_ g) as Hcs by (by injection E as _ <-).
  pose proof (recipients_counted C a c g HC (ok_connections g Hok) Hf Ha) as Hl.
  pose proof (ok_counter g Hok) as Hc.
  eapply (store_and_share g); [done|apply Hw| |exact E]. rewrite Hcs.
  rewrite u64_id by (split; lia). lia.
Qed.
End clients.

(** ** The invariant of the manager *)

Section invariant.
Context `{Protocol} `{BoostSplitLaws}.
Variables (NDEBUG : bool) (port : Z) (d : disk).
Implicit Types (g : manager) (C : list Z).

Record mgr_ok C g : Prop := {
  mo_shared : shared_ok g;
  mo_counted : counted_ok C g;
  mo_trees : trees_ok g;
  mo_numbered : numbered g;
}.

(** The counters have room for one more. *)
Definition ready g : Prop := no_wrap g ∧ counter_in_range g.

(** What an operation leaves, that may add to, or take from, the connections that have
    registered: some list covers them and is not longer than the count. *)
Record evolved C g g' : Prop := {
  ev_shared : shared_ok g';
  ev_trees : trees_ok g';
  ev_numbered : numbered g';
  ev_sockets : NDEBUG = true → ∀ id, has_socket id g → has_socket id g';
  ev_keys : ∀ b, b ∈ keys (connections_ g') → b ∈ keys (connections_ g);
  ev_covered : ∃ D, NoDup D ∧ (∀ b, b ∈ C → b ∈ keys (connections_ g') → b ∈ D)
    ∧ (∀ b c, (b, c) ∈ connections_ g' → is_processing c = true → b ∈ D)
    ∧ Z.of_nat (length D) ≤ processing_counter_ g';
}.

(** An operation that keeps the registered connections as they are; it may be followed
    by another. *)
Record stays C g g' : Prop := {
  st_ok : mgr_ok C g';
  st_ready : ready g → ready g';
  st_sockets : NDEBUG = true → ∀ id, has_socket id g → has_socket id g';
  st_keys : keys (connections_ g') = keys (connections_ g);
}.

Lemma stays_evolved C g g' : stays C g g' → evolved C g g'.
Proof.
  intros [[Hs Hc Ht Hn] _ Hk He]. split; try done; [by rewrite He|].
  exists C. destruct Hc. by split_and!.
Qed.

Lemma stays_trans C g g1 g2 : stays C g g1 → stays C g1 g2 → stays C g g2.
Proof. intros [] []. split; auto; congruence. Qed.

Lemma stays_then C g g1 g2 : stays C g g1 → evolved C g1 g2 → evolved C g g2.
Proof. intros [? ? ? He] []. split; auto. intros b Hb. rewrite <- He. auto. Qed.

Lemma same_sockets g g' :
  download_manager_ g' = download_manager_ g → ∀ id, has_socket id g → has_socket id g'.
Proof. intros E id. unfold has_socket. by rewrite E. Qed.

(** Operations that do not touch connections and buffers. *)
Lemma undisturbed_stays C g g' :
  mgr_ok C g → undisturbed g g' → numbered g' →
  (counter_in_range g → counter_in_range g') →
  (NDEBUG = true → ∀ id, has_socket id g → has_socket id g') → stays C g g'.
Proof.
  intros [Hs Hc Ht Hn] Hu Hn' Hr Hk. split; [split|..]; try done.
  - by eapply undisturbed_shared.
  - by eapply undisturbed_counted.
  - by eapply undisturbed_trees.
  - intros [[Hw1 Hw2] Hw3]. destruct Hu as [_ E2 E3 _ _]. split; [|auto]. split; congruence.
  - by rewrite (same_connections _ _ Hu).
Qed.

Lemma still_stays C g g' : mgr_ok C g → still g g' → stays C g g'.
Proof.
  intros Hok Hst. pose proof (still_kept NDEBUG _ _ Hst) as [Hn Hk]. destruct Hst as [Hu _ En _].
  apply undisturbed_stays; try done; [apply Hn, Hok|]. unfold counter_in_range. by rewrite En.
Qed.

Lemma calm_evolved C g g' : mgr_ok C g → calm NDEBUG g g' → evolved C g g'.
Proof.
  intros [Hs Hc Ht Hn] [Hu [Hn' Hk]]. split; auto.
  - by eapply undisturbed_shared.
  - by eapply undisturbed_trees.
  - by rewrite (same_connections _ _ Hu).
  - exists C. destruct (undisturbed_counted _ _ _ Hu Hc). by split_and!.
Qed.

(** A change of one client: its tree stays well-formed and it does not start
    processing. *)
Lemma on_conn_stays C a f g :
  mgr_ok C g → (∀ c, m_find a (connections_ g) = Some c → tree_ok (tree_of (f c))) →
  (∀ c, is_processing (f c) = true → is_processing c = true) →
  stays C g (on_connections (m_update a f) g).
Proof.
  intros [Hs Hc Ht Hn] Hf Hp. split; [split|..]; try done.
  - by apply on_conn_shared.
  - by apply on_conn_counted.
  - apply on_conn_trees; [done|done|apply Hs].
  - cbn [connections_ on_connections]. by rewrite keys_update.
Qed.

Lemma start_evolved C a g :
  mgr_ok C g → m_find a (connections_ g) = None →
  ∃ g', start a g = Ok (tt, g')
    ∧ connections_ g' = m_emplace a new_connection (connections_ g)
    ∧ mgr_ok C g' ∧ (∀ id, has_socket id g → has_socket id g').
Proof.
  intros [Hs Hc Ht Hn] Hf. eexists. split; [done|]. split; [done|]. split; [|done].
  assert (∀ b c, (b, c) ∈ m_emplace a new_connection (connections_ g) →
                 (b, c) = (a, new_connection) ∨ (b, c) ∈ connections_ g) as Hin
    by (intros b c; by rewrite elem_of_m_emplace).
  split; [|split|..].
  - by eapply start_ok.
  - apply Hc.
  - intros b Hb%(counted_there _ _ Hc)%elem_of_keys. apply elem_of_keys.
    destruct Hb as [v Hv]. exists v. cbn [connections_ on_connections].
    apply elem_of_m_emplace; [done|by right].
  - intros b c [[= -> ->]|Hb]%Hin Hp; [done|]. by eapply (counted_processing _ _ Hc).
  - apply Hc.
  - intros b c [[= -> ->]|Hb]%Hin; [apply new_tree_ok|by eapply Ht].
  - done.
Qed.

Lemma stop_evolved C a c g :
  mgr_ok C g → ready g → m_find a (connections_ g) = Some c →
  ∃ g', stop a g = Ok (tt, g') ∧ evolved C g g'.
Proof.
  intros [Hs Hc Ht Hn] [Hw _] Hf.
  destruct (stop_total a c g Hf Ht) as (g' & E & Ec & En & Eb & Ei & Ed).
  exists g'. split; [done|]. destruct (stop_ok _ _ _ _ Hs Hw E) as [Hs' _].
  assert (∀ b x, (b, x) ∈ connections_ g' → (b, x) ∈ connections_ g) as Hsub.
  { intros b x. rewrite Ec. destruct (conn_stopped c); [done|]. by intros [_ ?]%elem_of_m_erase. }
  split; [done| | | | |].
  - intros b x Hx%Hsub. by eapply Ht.
  - eapply numbered_ext; [by rewrite Eb|done|done].
  - intros _. by apply same_sockets.
  - intros b [x Hx%Hsub]%elem_of_keys. apply elem_of_keys. eauto.
  - destruct Hc as [Hnd Hth Hp Hb]. destruct (conn_stopped c).
    { exists C. rewrite Ec, En. by split_and!. }
    exists (filter (λ b, b ≠ a) C). cbn [negb andb] in En. split_and!.
    + by apply NoDup_filter.
    + intros b HbC Hbk. apply list_elem_of_filter. split; [|done]. intros ->.
      rewrite Ec in Hbk. by apply elem_of_keys_erase in Hbk as [].
    + intros b x Hx Hpx. apply list_elem_of_filter. split; [|by eapply Hp; [apply Hsub|]].
      intros ->. rewrite Ec in Hx. by apply elem_of_m_erase in Hx as [].
    + pose proof (length_filter (λ b, b ≠ a) C) as Hle. rewrite En.
      destruct (is_processing c) eqn:Epc; [|lia].
      assert (a ∈ C) as Ha by (by eapply Hp; [apply m_find_elem|]).
      assert (length (filter (λ b, b ≠ a) C) < length C)%nat as Hlt.
      { apply elem_of_Permutation in Ha as [C' HC']. rewrite HC'.
        rewrite filter_cons_False by (by intros []). cbn.
        pose proof (length_filter (λ b, b ≠ a) C'). lia. }
      pose proof (ok_counter g Hs). rewrite u64_id by (split; lia). lia.
Qed.

Lemma registration_evolved C a c g :
  mgr_ok C g → ready g → m_find a (connections_ g) = Some c →
  ∃ g', notify_files_registration a g = Ok (tt, g') ∧ evolved C g g'.
Proof.
  intros [Hs Hc Ht Hn] [Hw _] Hf.
  destruct (registration_total a c g Hf Ht) as (g' & E & Ec & En & Eb & Ei & Ed).
  exists g'. split; [done|]. destruct (notify_files_registration_ok _ _ _ _ Hs Hw E) as [Hs' _].
  split; [done| | | | |].
  - intros b x. rewrite Ec. intros (y & Hy & ->)%elem_of_m_update.
    case_bool_decide; exact (Ht b y Hy).
  - eapply numbered_ext; [by rewrite Eb|done|done].
  - intros _. by apply same_sockets.
  - intros b. by rewrite Ec, keys_update.
  - destruct Hc as [Hnd Hth Hp Hb]. destruct Hw as [Hw _]. pose proof (ok_counter g Hs) as Hoc.
    pose proof (processing_count_nonneg g) as Hpc. rewrite En, u64_id by (split; lia).
    exists (if decide (a ∈ C) then C else a :: C).
    assert (∀ b, b ∈ C ∨ b = a → b ∈ (if decide (a ∈ C) then C else a :: C)) as HD.
    { intros b. destruct (decide (a ∈ C)); [by intros [?| ->]|].
      intros [?| ->]; [by right|left]. }
    split_and!.
    + destruct (decide (a ∈ C)); [done|by constructor].
    + auto.
    + intros b x. rewrite Ec. intros (y & Hy & ->)%elem_of_m_update Hx. apply HD.
      case_bool_decide; [by right|left; by eapply Hp].
    + destruct (decide (a ∈ C)); cbn; lia.
Qed.

Lemma do_notify_evolved C a c msg g :
  mgr_ok C g → ready g → m_find a (connections_ g) = Some c → a ∈ C →
  ∃ g', do_notify (nickname_ (client_ c)) msg g = Ok (tt, g') ∧ evolved C g g'.
Proof.
  intros [Hs Hc Ht Hn] [Hw _] Hf Ha.
  destruct (do_notify_total (nickname_ (client_ c)) msg g) as (g' & E & Ec & En & Eb & Ei & Ed).
  exists g'. split; [done|].
  split; [by eapply do_notify_shared| | | | |].
  - intros b x. rewrite Ec. apply Ht.
  - eapply numbered_ext; [by rewrite Eb|done|done].
  - intros _. by apply same_sockets.
  - by rewrite Ec.
  - exists C. destruct Hc. rewrite Ec, En. by split_and!.
Qed.

Lemma shared_write_done_evolved C a id g :
  mgr_ok C g → (a, id) ∈ unfinished g →
  ∃ g', shared_write_done NDEBUG a id g = Ok (tt, g') ∧ evolved C g g'.
Proof.
  intros [Hs Hc Ht Hn] Hin.
  destruct (unfinished_stored g a id Hs Hin) as (buf & n & Hf & Hpos & _).
  assert (0 < n < two64) as Hrange.
  { pose proof (ok_remaining g Hs id) as Hr. unfold remaining in Hr. rewrite Hf in Hr. lia. }
  assert (∃ g', shared_write_done NDEBUG a id g = Ok (tt, g')
    ∧ connections_ g' = connections_ g ∧ processing_counter_ g' = processing_counter_ g
    ∧ backup_requests_ g' = backup_requests_ g
    ∧ DownloadTransactionsIDCounter g' = DownloadTransactionsIDCounter g
    ∧ download_manager_ g' = download_manager_ g) as (g' & E & Ec & En & Eb & Ei & Ed).
  { unfold shared_write_done. destruct (alive _ a); [|eexists; by split_and!].
    rewrite (notify_shared_write_done_spec NDEBUG id (on_unfinished (remove_one (a, id)) g)
               buf n Hf Hrange).
    eexists. by split_and!. }
  exists g'. split; [done|]. split; [by eapply shared_write_done_ok| | | | |].
  - intros b x. rewrite Ec. apply Ht.
  - eapply numbered_ext; [by rewrite Eb|done|done].
  - intros _. by apply same_sockets.
  - by rewrite Ec.
  - exists C. destruct Hc. rewrite Ec, En. by split_and!.
Qed.

Lemma find_owner_ok owner path g : trees_ok g → ∃ r, find_owner owner path g = Ok r.
Proof.
  intros Ht. unfold find_owner. destruct (m_find_if _ _) as [[a c]|] eqn:E; [|eauto].
  destruct (Find_ok (remote_file_system_ (client_ c)) path false) as [[fnd cch] Ef].
  { by apply (Ht a c), (m_find_if_elem _ _ _ _ E). }
  rewrite Ef. cbn. eauto.
Qed.

Lemma querry_evolved C q a g :
  mgr_ok C g → ready g →
  ∃ g', resolve_download_file_querry port d q a g = Ok (tt, g') ∧ evolved C g g'.
Proof.
  intros [Hs Hc Ht Hn] [_ Hr].
  destruct (find_owner_ok (q_FileOwner q) (q_FilePath q) g Ht) as [r Er].
  destruct (querry_spec port d q a g r Hn Hr Er) as (g' & E & _ & Hu & Ed & Hn').
  exists g'. split; [done|]. apply calm_evolved; [done|]. split; [done|]. split; [done|].
  intros _ id. unfold has_socket. by rewrite Ed.
Qed.
End invariant.
