(* ===== verification/HandlerSpec.v ===== *)
(** * HandlerSpec: what a client sees of its requests

    Which replies a request receives, which requests are executed at all, and what
    signing in and out does to the nicknames. *)

From S2P Require Import Prelude Hoare Text Protocol Validators Vfs StdMap BackupRequests.
From S2P Require Import DownloadManager UsersDb Scheduler Manager ManagerSpec ManagerFrame.
From S2P Require Import Handler.

(** The replies among the writes of a server. *)
Definition is_reply (w : Z * write) : bool :=
  match w.2 with Write (StringReplyMessage _ _ _) => true | _ => false end.
Definition replies (s : manager) : list (Z * write) :=
  filter (λ w, is_reply w = true) (sent s).

(** ** Which writes an operation of the manager starts *)

(** Between two states of the manager no reply was started. *)
Definition no_replies (ws : list (Z * write)) : Prop := Forall (λ w, is_reply w = false) ws.
Definition quietly (s s' : manager) : Prop := ∃ ws, sent s' = sent s ++ ws ∧ no_replies ws.
Abbreviation quiet m := (preserves quietly m).

#[global] Instance quietly_preorder : PreOrder quietly.
Proof.
  split; [intros s; exists []; rewrite app_nil_r; by repeat constructor|].
  intros s1 s2 s3 (w1 & H1 & P1) (w2 & H2 & P2). exists (w1 ++ w2).
  rewrite H2, H1, app_assoc. split; [done|]. by apply Forall_app.
Qed.

Lemma quietly_sent s s' : sent s' = sent s → quietly s s'.
Proof. intros E. exists []. rewrite E, app_nil_r. by repeat constructor. Qed.

Lemma quietly_one s s' w : sent s' = sent s ++ [w] → is_reply w = false → quietly s s'.
Proof. intros E Hw. exists [w]. by repeat constructor. Qed.

Lemma quiet_conn a : quiet (conn a).
Proof. intros s y s'. unfold conn. destruct (m_find _ _); [|done]. by intros [= <- <-]. Qed.

Lemma quiet_modify f : (∀ s, sent (f s) = sent s) → quiet (modify f).
Proof. intros Hf. apply preserves_modify. intros s. by apply quietly_sent. Qed.

Lemma quiet_on_conn a f : quiet (on_conn a f).
Proof. by apply quiet_modify. Qed.

Lemma quiet_store buf n : quiet (store_shared buf n).
Proof. intros s y s' [= <- <-]. by apply quietly_sent. Qed.

Lemma quiet_start_shared_write a id : quiet (start_shared_write a id).
Proof. intros s y s' [= <- <-]. by eapply quietly_one. Qed.

Lemma quiet_share id P : quiet (share id P).
Proof.
  intros s y s'. rewrite share_spec. intros [= <- <-]. eexists. split; [done|].
  apply Forall_forall. intros w (b & -> & _)%list_elem_of_fmap. done.
Qed.

#[export] Hint Resolve quiet_conn quiet_on_conn quiet_store quiet_start_shared_write
  quiet_share : preserves.

Section spec.
Context `{Protocol} `{BoostSplit}.

Lemma quiet_do_notify nick msg : quiet (do_notify nick msg).
Proof. unfold do_notify. preserves. Qed.

Lemma quiet_collect id cs acc : quiet (collect_and_share id cs acc).
Proof.
  revert acc. induction cs as [|[a c] cs IH]; intros acc; cbn [collect_and_share]; [preserves|].
  destruct (is_processing c); [|apply IH]. preserves.
Qed.

Lemma quiet_notification a k hs b :
  quiet (start_write a (StringNotificationMessage k hs b)).
Proof. intros s y s' [= <- <-]. by eapply quietly_one. Qed.

Lemma quiet_registration a : quiet (notify_files_registration a).
Proof.
  unfold notify_files_registration.
  repeat (apply preserves_bind; [apply _| |intros ?]); eauto with preserves;
    [by apply quiet_modify|].
  destruct (bool_decide _); [eauto with preserves|].
  repeat (apply preserves_bind; [apply _| |intros ?]);
    eauto using quiet_collect, quiet_notification with preserves.
Qed.

Lemma quiet_file_add f a : quiet (notify_file_add f a).
Proof. unfold notify_file_add. eauto using quiet_do_notify with preserves. Qed.
Lemma quiet_path_removed f a : quiet (notify_path_removed f a).
Proof. unfold notify_path_removed. eauto using quiet_do_notify with preserves. Qed.
Lemma quiet_path_renamed f g a : quiet (notify_path_renamed f g a).
Proof. unfold notify_path_renamed. eauto using quiet_do_notify with preserves. Qed.
End spec.

(** ** Every executed request is answered once *)

Section answers.
Context `{Protocol} `{BoostSplit} `{SqlApi}.

Definition silent {A} (m : M server A) : Prop :=
  ∀ s x s', m s = Ok (x, s') → replies (mgr s') = replies (mgr s).

(** When [m] completes it has started one reply, to [a], that ends the request [r]. *)
Definition answers {A} (m : M server A) (a : Z) (r : str) : Prop :=
  ∀ s x s', m s = Ok (x, s') →
    ∃ code, final_code code = true ∧ replies (mgr s') = replies (mgr s) ++ [(a, Write (reply code r))].

Lemma silent_in_mgr {A} (m : M manager A) : quiet m → silent (in_mgr m).
Proof.
  intros Hm s x s'. unfold in_mgr. destruct (m (mgr s)) as [[y s1]|] eqn:E; [|done].
  cbn. intros [= <- <-]. destruct (Hm _ _ _ E) as (ws & Hs & Hq). cbn.
  unfold replies. rewrite Hs, filter_app, (filter_none _ ws), app_nil_r; [done|].
  eapply Forall_impl; [exact Hq|]. cbn. by intros w ->.
Qed.

Lemma silent_in_db {A} (f : database → outcome (A * database)) : silent (in_db f).
Proof.
  intros s x s'. unfold in_db. destruct (f (users_db s)) as [[y db]|]; [|done].
  cbn. by intros [= <- <-].
Qed.

Lemma silent_bind {A B} (m : M server A) (f : A → M server B) :
  silent m → (∀ x, silent (f x)) → silent (m ≫= f).
Proof.
  intros Hm Hf s y s'. rewrite M_bind_unfold. destruct (m s) as [[x s1]|] eqn:E; [|done].
  intros E'. rewrite (Hf _ _ _ _ E'). by eapply Hm.
Qed.

Lemma answers_answer a code r : final_code code = true → answers (answer a code r) a r.
Proof.
  intros Hc s x s' [= <- <-]. exists code. split; [done|]. unfold replies. cbn. by rewrite filter_app.
Qed.

Lemma answers_after {A B} (m : M server A) (f : A → M server B) a r :
  silent m → (∀ x, answers (f x) a r) → answers (m ≫= f) a r.
Proof.
  intros Hm Hf s y s'. rewrite M_bind_unfold. destruct (m s) as [[x s1]|] eqn:E; [|done].
  intros E'. destruct (Hf _ _ _ _ E') as (code & Hfin & Hc). exists code. split; [done|].
  by rewrite Hc, (Hm _ _ _ E).
Qed.

Lemma answers_before {A B} (m : M server A) (f : A → M server B) a r :
  answers m a r → (∀ x, silent (f x)) → answers (m ≫= f) a r.
Proof.
  intros Hm Hf s y s'. rewrite M_bind_unfold. destruct (m s) as [[x s1]|] eqn:E; [|done].
  intros E'. destruct (Hm _ _ _ E) as (code & Hfin & Hc). exists code. split; [done|]. by rewrite (Hf _ _ _ _ E').
Qed.

(** A status of the database decides how the request is answered. *)
Lemma answers_status {B} l (f : database → outcome (status_code * database))
    (g : status_code → M server B) a r :
  (∀ db, returns_one_of l (f db)) → Forall (λ code, answers (g code) a r) l →
  answers (in_db f ≫= g) a r.
Proof.
  intros Hf Hg s y s'. rewrite M_bind_unfold. unfold in_db. specialize (Hf (users_db s)).
  destruct (f (users_db s)) as [[code db]|]; [|done]. cbn in *. intros E.
  rewrite Forall_forall in Hg. exact (Hg _ Hf _ _ _ E).
Qed.

Lemma answers_caught a r f : answers (caught a r f) a r.
Proof. destruct f; cbn; [done|by apply answers_answer|done|done]. Qed.

#[local] Hint Resolve answers_answer answers_caught : preserves.

Lemma silent_log_in a nick : silent (log_in a nick).
Proof. apply silent_in_mgr. auto with preserves. Qed.

Lemma run_signin_answers a r l p : answers (run_signin a r l p) a r.
Proof.
  eapply answers_status; [apply retrieve_returns|].
  repeat constructor; cbn; auto with preserves.
  apply answers_after; [apply silent_in_mgr; auto with preserves|]. intros [];
    [auto with preserves|]. apply answers_after; [apply silent_log_in|auto with preserves].
Qed.

Lemma run_signup_answers a r l p : answers (run_signup a r l p) a r.
Proof.
  eapply answers_status; [apply register_returns|].
  repeat constructor; cbn; auto with preserves.
  apply answers_after; [apply silent_log_in|auto with preserves].
Qed.

Lemma run_delete_account_answers a r : answers (run_delete_account a r) a r.
Proof.
  apply answers_after; [apply silent_in_mgr; auto with preserves|]. intros c.
  eapply answers_status; [apply erase_returns|]. repeat constructor; cbn; auto with preserves.
Qed.

Lemma run_push_files_answers a r l : answers (run_push_files a r l) a r.
Proof.
  apply answers_after; [apply silent_in_mgr; auto with preserves|]. intros c.
  destruct (add_all _ _) as [v [f|]];
    (apply answers_after; [apply silent_in_mgr; auto with preserves|]); intros ?;
    [auto with preserves|].
  apply answers_before; [auto with preserves|]. intros _.
  apply silent_in_mgr, quiet_registration.
Qed.

Lemma run_add_file_answers a r f : answers (run_add_file a r f) a r.
Proof.
  apply answers_after; [apply silent_in_mgr; auto with preserves|]. intros c.
  destruct (Add _ _ _) as [v|e]; [|auto with preserves].
  apply answers_after; [apply silent_in_mgr; auto with preserves|]. intros _.
  apply answers_before; [auto with preserves|]. intros _. apply silent_in_mgr, quiet_file_add.
Qed.

Lemma run_remove_path_answers a r f : answers (run_remove_path a r f) a r.
Proof.
  apply answers_after; [apply silent_in_mgr; auto with preserves|]. intros c.
  destruct (Vfs.Remove _ _ _ _) as [[[[] es] v]|e]; [| |auto with preserves];
    (apply answers_after; [apply silent_in_mgr; auto with preserves|]); intros _;
    (apply answers_after; [apply silent_in_mgr; by apply quiet_modify|]); intros _;
    [|auto with preserves].
  apply answers_before; [auto with preserves|]. intros _. apply silent_in_mgr, quiet_path_removed.
Qed.

Lemma run_remame_path_answers ra a r f g : answers (run_remame_path ra a r f g) a r.
Proof.
  apply answers_after; [apply silent_in_mgr; auto with preserves|]. intros c.
  destruct (Rename _ _ _ _ _ _) as [[[[] es] v]|e]; [| |auto with preserves];
    (apply answers_after; [apply silent_in_mgr; auto with preserves|]); intros _;
    (apply answers_after; [apply silent_in_mgr; by apply quiet_modify|]); intros _;
    [|auto with preserves].
  apply answers_before; [auto with preserves|]. intros _. apply silent_in_mgr, quiet_path_renamed.
Qed.

(** The request a function object answers itself; a logout is not answered, and a
    download is answered when the file is there. *)
Definition answered_request (t : task) : option str :=
  match t with
  | do_signin r _ _ | do_signup r _ _ | do_push_files r _ | do_delete_account r
  | do_add_file r _ | do_remove_path r _ | do_remame_path r _ _ => Some r
  | do_logout | do_download_file _ => None
  end.

(** C18. A posted request other than a logout or a download is answered exactly once
    when it is executed, with a final code and its own number and on the connection it came from,
    whatever the database and the tree do; if the connection is gone by then it is
    dropped and changes nothing. *)
Theorem executed_request_answered_once ra port d j s s' r :
  answered_request (job_task j) = Some r →
  execute ra port d j s = Ok (tt, s') →
  if alive (mgr s) (job_connection j) then
    ∃ code, final_code code = true ∧ replies (mgr s')
            = replies (mgr s) ++ [(job_connection j, Write (reply code r))]
  else s' = s.
Proof.
  intros Hr. unfold execute. destruct (alive _ _); [|by intros [= <-]].
  destruct (job_task j); try done; injection Hr as <-; intros E.
  - by eapply run_signin_answers.
  - by eapply run_signup_answers.
  - by eapply run_push_files_answers.
  - by eapply run_delete_account_answers.
  - by eapply run_add_file_answers.
  - by eapply run_remove_path_answers.
  - by eapply run_remame_path_answers.
Qed.
End answers.

(** ** Reading a message *)

Section reading.
Context `{ProtocolLaws} `{BoostSplit} `{SqlApi}.
Variables (port : Z) (d : disk).

(** The refusal of a message in a state, if any, with the number it is sent under. *)
Definition refusal (msg : message) (st : State) : option (responses.t * str) :=
  match basic_validate msg with
  | Some code => Some (code, CMD_ID_WHEN_NO_CMDID_PRESENT)
  | None =>
      match transition_validate msg st with
      | Some code => Some (code, header msg headers.CommandId)
      | None => (λ code, (code, header msg headers.CommandId)) <$> semantic_validate msg
      end
  end.

Lemma posts_one msg a c :
  command msg = command_text c →
  c ∈ [commands.SIGNIN; commands.SIGNUP; commands.PUSH_FILES; commands.DELETE_ACCOUNT;
       commands.LOGOUT] →
  length (handle_message msg a) = 1%nat.
Proof.
  intros E Hc. unfold handle_message. rewrite !(is_command_text _ _ _ E).
  repeat (apply elem_of_cons in Hc as [->|Hc]; [done|]). by apply elem_of_nil in Hc.
Qed.

Lemma is_querry_text msg q q' :
  header msg headers.QuerryType = querry_text q → is_querry msg q' = bool_decide (q = q').
Proof.
  intros E. unfold is_querry. rewrite E. apply bool_decide_ext.
  split; [apply querry_text_inj|by intros ->].
Qed.

Lemma posts_querry msg a :
  command msg = command_text commands.QUERRY →
  length (handle_message msg a) = 1%nat
  ∨ (∀ q, header msg headers.QuerryType ≠ querry_text q) ∧ handle_message msg a = [].
Proof.
  intros E. unfold handle_message. rewrite !(is_command_text _ _ _ E). cbn. unfold resolve_querry.
  destruct (is_querry msg querries.DOWNLOAD_FILE) eqn:E1;
    [apply bool_decide_eq_true in E1; rewrite !(is_querry_text _ _ _ E1); by left|].
  destruct (is_querry msg querries.ADD_FILE) eqn:E2;
    [apply bool_decide_eq_true in E2; rewrite !(is_querry_text _ _ _ E2); by left|].
  destruct (is_querry msg querries.REMOVE_PATH) eqn:E3;
    [apply bool_decide_eq_true in E3; rewrite !(is_querry_text _ _ _ E3); by left|].
  destruct (is_querry msg querries.RENAME_PATH) eqn:E4; [by left|right].
  apply bool_decide_eq_false in E1, E2, E3, E4. split; [by intros []|done].
Qed.

Lemma posts_connection msg a : Forall (λ pj, job_connection pj.2 = a) (handle_message msg a).
Proof.
  unfold handle_message, resolve_querry.
  repeat (case_match; try (by repeat constructor)); cbn; by repeat constructor.
Qed.

Lemma read_action_found msg a c s :
  m_find a (connections_ (mgr s)) = Some c → is_command msg commands.HEARTBEAT = false →
  read_action port d msg a s =
  match refusal msg (state_ (client_ c)) with
  | Some (code, id) => answer a code id s
  | None =>
      if is_command msg commands.REPLY then in_mgr (resolve_download_reply port d msg) s
      else match confirm msg with
           | Some result =>
               (answer a result (header msg headers.CommandId) ≫= λ _,
                post_all (handle_message msg a)) s
           | None => raise UndefinedBehaviour s
           end
  end.
Proof.
  intros Hf Hh. unfold read_action, refusal. rewrite Hh, M_bind_unfold.
  assert (in_mgr (conn a) s = Ok (c, s)) as ->.
  { unfold in_mgr, conn. rewrite Hf. by destruct s. }
  destruct (basic_validate msg); [done|]. destruct (transition_validate _ _); [done|].
  destruct (semantic_validate msg); [done|]. cbn. repeat case_match; done.
Qed.

(** C17. A message a connection reads, other than a heartbeat or a reply: if a validator
    refuses it, the refusal is the only effect; otherwise it is confirmed under its
    number and posted for that connection, and the request that is executed later is
    one the client's state allows and has the headers its command demands.  It is
    posted exactly once - except a query of an unknown type, which is confirmed and
    then forgotten. *)
Theorem message_admitted_or_refused msg a c s :
  m_find a (connections_ (mgr s)) = Some c →
  is_command msg commands.HEARTBEAT = false → is_command msg commands.REPLY = false →
  match refusal msg (state_ (client_ c)) with
  | Some (code, id) =>
      read_action port d msg a s
      = Ok (tt, mkServer (on_sent [(a, Write (reply code id))] (mgr s)) (users_db s) (posted s))
  | None =>
      ∃ cmd code,
        cmd ∈ allowed_commands (state_ (client_ c)) ∧ command msg = command_text cmd
        ∧ required_headers msg cmd ∧ confirm msg = Some code
        ∧ read_action port d msg a s
          = Ok (tt, mkServer
                  (on_sent [(a, Write (reply code (header msg headers.CommandId)))] (mgr s))
                  (users_db s) (posted s ++ handle_message msg a))
        ∧ Forall (λ pj, job_connection pj.2 = a) (handle_message msg a)
        ∧ (length (handle_message msg a) = 1%nat
           ∨ cmd = commands.QUERRY ∧ (∀ q, header msg headers.QuerryType ≠ querry_text q)
             ∧ handle_message msg a = [])
  end.
Proof.
  intros Hf Hh Hr. rewrite (read_action_found _ _ _ _ Hf Hh), Hr.
  destruct (refusal msg (state_ (client_ c))) as [[code id]|] eqn:Eref; [done|].
  unfold refusal in Eref. destruct (basic_validate msg); [done|].
  destruct (transition_validate msg (state_ (client_ c))) eqn:Et; [done|].
  destruct (semantic_validate msg) eqn:Es; [done|].
  pose proof Et as Et'. apply transition_validate_allowed in Et as (cmd & Hc & E).
  destruct (confirm_admitted msg _ Et' Hr) as [code Hcode]. exists cmd, code.
  rewrite Hcode. split_and!; [done|done|by apply (semantic_validate_None _ _ E)|done| | |].
  - done.
  - apply posts_connection.
  - destruct (decide (cmd = commands.QUERRY)) as [->|Hne].
    + destruct (posts_querry msg a E); [by left|by right].
    + left. apply (posts_one msg a cmd E).
      assert (cmd ≠ commands.REPLY) as Hnr.
      { intros ->. by rewrite (is_command_text _ _ _ E) in Hr. }
      destruct (state_ (client_ c)); cbn in Hc; set_solver.
Qed.

(** Any client that has registered its files can stop the server: a reply whose
    number is not a number passes every check, and the exception of [stoull] leaves
    the completion handler that read the message. *)
Theorem malformed_reply_throws msg a c s :
  m_find a (connections_ (mgr s)) = Some c → state_ (client_ c) = processing →
  command msg = command_text commands.REPLY →
  have_header msg headers.CommandId = true →
  stoull (header msg headers.CommandId) = Fault Thrown →
  read_action port d msg a s = Fault Thrown.
Proof.
  intros Hf Hst E Hid Hth. rewrite (read_action_found _ _ _ _ Hf)
    by (by rewrite (is_command_text _ _ _ E)).
  assert (refusal msg (state_ (client_ c)) = None) as ->.
  { unfold refusal, basic_validate. rewrite Hid. cbn.
    assert (transition_validate msg (state_ (client_ c)) = None) as ->.
    { apply transition_validate_allowed. exists commands.REPLY. rewrite Hst. split; [|done].
      cbn. set_solver. }
    by rewrite (proj2 (semantic_validate_None _ _ E) I). }
  rewrite (is_command_text _ _ commands.REPLY E), bool_decide_eq_true_2 by done.
  unfold in_mgr, resolve_download_reply. rewrite M_bind_unfold. unfold lift. by rewrite Hth.
Qed.
End reading.

(** ** Witnesses: Ann and Bob of [ManagerSpec], with an empty database *)

#[local] Existing Instance split_def_split.
#[local] Existing Instance sample_protocol.
#[local] Existing Instance sample_sql.
#[local] Existing Instance sample_protocol_laws.

Definition no_disk : disk := mkDisk (λ _, None) (λ _, false) (λ _, false) (λ _, true).
Definition no_append (p f : str) : str := p ++ f.
Definition server6 : server := mkServer w6 ([] : list (str * str)) [].
Definition serve (m : M server unit) (s : server) : server :=
  match m s with Ok (_, s') => s' | Fault _ => s end.

(** Bob asks to add a file. *)
Definition add_job : job := mkJob 20 (do_add_file (lit "7") (lit "/a")).

Lemma executed_request_answered_once_witness :
  ∃ code, replies (mgr (serve (execute no_append 80 no_disk add_job) server6))
          = replies w6 ++ [(20, Write (reply code (lit "7")))].
Proof.
  assert (execute no_append 80 no_disk add_job server6
          = Ok (tt, serve (execute no_append 80 no_disk add_job) server6)) as E
    by (vm_compute; reflexivity).
  assert (alive (mgr server6) (job_connection add_job) = true) as Ha
    by (vm_compute; reflexivity).
  pose proof (executed_request_answered_once no_append 80 no_disk add_job server6
                (serve (execute no_append 80 no_disk add_job) server6) (lit "7") eq_refl E) as Hr.
  rewrite Ha in Hr. destruct Hr as (code & _ & Hr). exists code. exact Hr.
Defined.

Definition add_message : message :=
  mk_message (lit "QUERRY")
    [(headers.CommandId, lit "7"); (headers.QuerryType, lit "AddFile");
     (headers.FileName, lit "/a")] [].

Lemma message_admitted_or_refused_witness :
  handle_message add_message 20 = [(medium, add_job)]
  ∧ read_action 80 no_disk add_message 20 server6
    = Ok (tt, mkServer (on_sent [(20, Write (reply responses.QUERRY_CMD_ACCEPTED (lit "7")))] w6)
                ([] : list (str * str)) [(medium, add_job)]).
Proof.
  split; [vm_compute; reflexivity|].
  destruct (message_admitted_or_refused 80 no_disk add_message 20 bob server6 bob_found
              ltac:(vm_compute; reflexivity) ltac:(vm_compute; reflexivity))
    as (cmd & code & _ & _ & _ & Hc & E & _).
  vm_compute in Hc. injection Hc as <-. exact E.
Defined.

Definition bad_reply : message := mk_message (lit "REPLY") [(headers.CommandId, lit "x")] [].

Lemma malformed_reply_throws_witness :
  read_action 80 no_disk bad_reply 20 server6 = Fault Thrown.
Proof.
  apply (malformed_reply_throws 80 no_disk bad_reply 20 bob server6 bob_found);
    vm_compute; reflexivity.
Defined.
