(* ===== verification/AccountsSpec.v ===== *)
(** * AccountsSpec: signing in, signing up and deleting an account

    The database of accounts and the nicknames of the connections together: at any
    time a nickname names at most one connection - the manager looks a file's owner up
    by nickname - as long as no account is deleted. *)

From S2P Require Import Prelude Text Protocol Validators Vfs StdMap BackupRequests.
From S2P Require Import DownloadManager UsersDb Scheduler Manager ManagerSpec Handler HandlerSpec.

Section accounts.
Context `{Protocol} `{BoostSplit} `{SqlLaws}.
Variables (ra : str → str → str) (port : Z) (d : disk).
Implicit Types (s : server) (m : gmap str str) (a : Z) (l p r : str).

Definition nick (c : connection) : str := nickname_ (client_ c).

(** No two connections have the same nickname, other than those that have none yet. *)
Definition unique_nicknames (cs : stdmap connection) : Prop :=
  ∀ a b c c', (a, c) ∈ cs → (b, c') ∈ cs → nick c = nick c' → nick c ≠ [] → a = b.

(** The nickname of a connection is the name of an account. *)
Definition nicknames_registered (cs : stdmap connection) m : Prop :=
  ∀ a c, (a, c) ∈ cs → nick c ≠ [] → is_Some (m !! c_str (nick c)).

Definition accounts_ok s m : Prop :=
  stores (users_db s) m ∧ NoDup (keys (connections_ (mgr s)))
  ∧ unique_nicknames (connections_ (mgr s))
  ∧ nicknames_registered (connections_ (mgr s)) m.

(** ** What signing in and up answer, and the accounts afterwards *)

Definition signin_code s m l p : responses.t :=
  match m !! c_str l with
  | None => responses.NICKNAME_INCORRECT
  | Some pw =>
      if bool_decide (p = c_str pw) then
        if isLogged l (mgr s) then responses.USER_ALREADY_LOGGED
        else responses.LOGIN_SUCCESSFULL
      else responses.PASSWORD_INCORRECT
  end.

Definition signup_code m l : responses.t :=
  match m !! c_str l with
  | None => responses.REGISTERING_SUCCESSFULL
  | Some _ => responses.USER_ALREADY_REGISTERED
  end.

Definition is_success (code : responses.t) : bool :=
  bool_decide (code = responses.LOGIN_SUCCESSFULL
               ∨ code = responses.REGISTERING_SUCCESSFULL).

(** The manager after such an answer: on success the connection has the nickname and
    its client is logged. *)
Definition after_signing (code : responses.t) a r l (g : manager) : manager :=
  on_sent [(a, Write (reply code r))]
    (if is_success code
     then on_connections (m_update a (λ c, with_state logged (with_nickname l c))) g else g).

Lemma run_signin_spec a r l p s m :
  stores (users_db s) m →
  ∃ db, run_signin a r l p s
        = Ok (tt, mkServer (after_signing (signin_code s m l p) a r l (mgr s)) db (posted s))
    ∧ stores db m.
Proof.
  intros Hs. destruct (retrieve_spec (mkUser l p) _ _ Hs) as (db & E & Hs').
  exists db. split; [|done]. unfold run_signin, signin_code. rewrite M_bind_unfold.
  unfold in_db. rewrite E. unfold spec_retrieve. cbn.
  destruct (m !! c_str l) as [pw|]; [|done]. destruct (bool_decide _); [|done].
  cbn. rewrite M_bind_unfold. unfold in_mgr, gets. cbn. by destruct (isLogged l (mgr s)).
Qed.

Lemma run_signup_spec a r l p s m :
  stores (users_db s) m →
  ∃ db, run_signup a r l p s
        = Ok (tt, mkServer (after_signing (signup_code m l) a r l (mgr s)) db (posted s))
    ∧ stores db (spec_register (mkUser l p) m).2.
Proof.
  intros Hs. destruct (register_spec (mkUser l p) _ _ Hs) as (db & E & Hs').
  exists db. split; [|done]. unfold run_signup, signup_code. rewrite M_bind_unfold.
  unfold in_db. rewrite E. unfold spec_register. cbn. by destruct (m !! c_str l).
Qed.

(** ** Giving a connection a nickname no other one has *)

Lemma unique_after a l cs :
  (∀ b c, (b, c) ∈ cs → nick c = l → b = a ∨ l = []) → unique_nicknames cs →
  unique_nicknames (m_update a (λ c, with_state logged (with_nickname l c)) cs).
Proof.
  intros Hfree Hu x y c c' (c0 & Hx & ->)%elem_of_m_update (c1 & Hy & ->)%elem_of_m_update.
  repeat case_bool_decide; subst; cbn; try done.
  - intros E Hl. destruct (Hfree y c1 Hy) as [->|]; by unfold nick in *.
  - intros E Hl. unfold nick in *. cbn in *. destruct (Hfree x c0 Hx) as [->|]; congruence.
  - eauto.
Qed.

Lemma registered_after a l cs m m' :
  is_Some (m' !! c_str l) → m ⊆ m' → nicknames_registered cs m →
  nicknames_registered (m_update a (λ c, with_state logged (with_nickname l c)) cs) m'.
Proof.
  intros Hl Hsub Hr b c (c0 & Hb & ->)%elem_of_m_update. case_bool_decide; [done|].
  intros Hn. destruct (Hr b c0 Hb Hn) as [pw E]. exists pw. by eapply lookup_weaken.
Qed.

Lemma not_logged_free l g b c :
  isLogged l g = false → (b, c) ∈ connections_ g → nick c ≠ l.
Proof.
  unfold isLogged. destruct (m_find_if _ _) as [[]|] eqn:E; [done|]. intros _ Hin Hn.
  rewrite m_find_if_None in E. specialize (E _ _ Hin). unfold has_nickname in E.
  by apply bool_decide_eq_false in E.
Qed.

Lemma after_signing_ok code a r l s m m' db ps :
  accounts_ok s m → stores db m' → m ⊆ m' →
  (is_success code = true →
     is_Some (m' !! c_str l) ∧ ∀ b c, (b, c) ∈ connections_ (mgr s) → nick c = l → b = a ∨ l = []) →
  accounts_ok (mkServer (after_signing code a r l (mgr s)) db ps) m'.
Proof.
  intros (_ & Hd & Hu & Hr) Hs Hsub Hc. unfold accounts_ok, after_signing.
  destruct (is_success code); cbn [mgr users_db].
  - destruct (Hc eq_refl) as [Hl Hfree]. split_and!; [done| | |].
    + cbn [connections_ on_sent on_connections]. by rewrite keys_update.
    + by apply unique_after.
    + by eapply registered_after.
  - split_and!; [done..|]. intros b c Hb Hn. destruct (Hr b c Hb Hn) as [pw E].
    exists pw. by eapply lookup_weaken.
Qed.

(** Both requests keep it, whatever their answer. *)
Lemma run_signin_keeps a r l p s m :
  accounts_ok s m →
  ∃ s', run_signin a r l p s = Ok (tt, s')
    ∧ mgr s' = after_signing (signin_code s m l p) a r l (mgr s) ∧ accounts_ok s' m.
Proof.
  intros Hok. destruct (run_signin_spec a r l p s m (proj1 Hok)) as (db & E & Hs). rewrite E.
  eexists. split_and!; [done..|]. apply after_signing_ok with m; [done..|].
  unfold signin_code. destruct (m !! c_str l) as [pw|]; [|done].
  destruct (bool_decide _); [|done]. destruct (isLogged l (mgr s)) eqn:El; [done|].
  intros _. split; [done|]. intros b c Hb Hn. by destruct (not_logged_free l _ b c El Hb).
Qed.

Lemma run_signup_keeps a r l p s m :
  accounts_ok s m →
  ∃ s', run_signup a r l p s = Ok (tt, s')
    ∧ mgr s' = after_signing (signup_code m l) a r l (mgr s)
    ∧ accounts_ok s' (spec_register (mkUser l p) m).2.
Proof.
  intros Hok. destruct (run_signup_spec a r l p s m (proj1 Hok)) as (db & E & Hs). rewrite E.
  eexists. split_and!; [done..|]. revert Hs. unfold signup_code, spec_register. cbn.
  destruct (m !! c_str l) as [pw|] eqn:Em; cbn [snd]; intros Hs;
    apply after_signing_ok with m; try done; [by apply insert_subseteq|].
  intros _. split; [by rewrite lookup_insert_eq|]. intros b c Hb Hn.
  destruct (decide (l = [])) as [->|Hl]; [by right|]. left. exfalso.
  destruct Hok as (_ & _ & _ & Hr). subst l. destruct (Hr b c Hb Hl). congruence.
Qed.

(** Signing in and signing up on a healthy database: the request is answered as the
    accounts determine, the client gets the nickname exactly when the answer is a
    success, and afterwards it is still true that a nickname names at most one
    connection and that every nickname in use is a registered account. *)
Theorem signing_keeps_nicknames_unique a r l p s m :
  accounts_ok s m → alive (mgr s) a = true →
  (∃ s', execute ra port d (mkJob a (do_signin r l p)) s = Ok (tt, s')
     ∧ mgr s' = after_signing (signin_code s m l p) a r l (mgr s) ∧ accounts_ok s' m)
  ∧ (∃ s', execute ra port d (mkJob a (do_signup r l p)) s = Ok (tt, s')
     ∧ mgr s' = after_signing (signup_code m l) a r l (mgr s)
     ∧ accounts_ok s' (spec_register (mkUser l p) m).2).
Proof.
  intros Hok Ha. unfold execute. cbn [job_connection job_task]. rewrite Ha.
  split; [by apply run_signin_keeps|by apply run_signup_keeps].
Qed.

Lemma run_delete_account_spec a c r s m pw :
  stores (users_db s) m → m_find a (connections_ (mgr s)) = Some c →
  m !! c_str (nick c) = Some pw →
  ∃ db, run_delete_account a r s
        = Ok (tt, mkServer (on_sent [(a, Write (reply responses.DELETING_ACCOUNT_SUCCESSFULL r))]
                              (mgr s)) db (posted s))
    ∧ stores db (base.delete (c_str (nick c)) m).
Proof.
  intros Hs Hf Hm. destruct (erase_spec (mkUser (nick c) []) _ _ Hs) as (db & E & Hs').
  unfold spec_erase in E, Hs'. cbn [nickname] in E, Hs'. rewrite Hm in E, Hs'.
  exists db. split; [|exact Hs']. unfold run_delete_account.
  rewrite M_bind_unfold. unfold in_mgr at 1, conn. rewrite Hf. cbn [mbind outcome_bind].
  rewrite M_bind_unfold. unfold in_db. cbn [users_db]. fold (nick c). rewrite E. done.
Qed.

(** C40. Deleting an account breaks it: the connection stays, logged, under the name of
    an account that is gone; whoever signs up with that name next, on any other
    connection, succeeds, and then two connections have the nickname. *)
Theorem deleted_account_taken_over a b c c' r r' p s m pw :
  accounts_ok s m → m_find a (connections_ (mgr s)) = Some c →
  m_find b (connections_ (mgr s)) = Some c' → a ≠ b →
  nick c ≠ [] → m !! c_str (nick c) = Some pw →
  ∃ s1 s2,
    execute ra port d (mkJob a (do_delete_account r)) s = Ok (tt, s1)
    ∧ execute ra port d (mkJob b (do_signup r' (nick c) p)) s1 = Ok (tt, s2)
    ∧ m_find a (connections_ (mgr s2)) = Some c
    ∧ m_find b (connections_ (mgr s2)) = Some (with_state logged (with_nickname (nick c) c'))
    ∧ ¬ unique_nicknames (connections_ (mgr s2)).
Proof.
  intros (Hs & Hd & Hu & Hr) Hfa Hfb Hab Hn Hm.
  destruct (run_delete_account_spec a c r s m pw Hs Hfa Hm) as (db1 & E1 & Hs1).
  destruct (run_signup_spec b r' (nick c) p
    (mkServer (on_sent [(a, Write (reply responses.DELETING_ACCOUNT_SUCCESSFULL r))] (mgr s))
       db1 (posted s)) _ Hs1) as (db2 & E2 & _).
  eexists _, _. unfold execute. cbn [job_connection job_task].
  assert (alive (mgr s) a = true) as -> by (unfold alive; by rewrite Hfa).
  split; [exact E1|]. unfold alive. cbn [mgr connections_ on_sent]. rewrite Hfb.
  split; [exact E2|]. unfold signup_code. rewrite lookup_delete_eq.
  cbn [mgr]. unfold after_signing. change (is_success _) with true.
  cbn [connections_ on_sent on_connections].
  rewrite !m_find_update, Hfa, Hfb, bool_decide_eq_false_2, bool_decide_eq_true_2 by done.
  split_and!; [done..|]. intros Hu2. apply Hab.
  eapply (Hu2 a b c (with_state logged (with_nickname (nick c) c'))); try done;
    apply m_find_elem; rewrite m_find_update.
  - by rewrite bool_decide_eq_false_2.
  - by rewrite bool_decide_eq_true_2, Hfb.
Qed.
End accounts.

(** ** Witnesses: Ann and Bob again, and a third connection *)

#[local] Existing Instance split_def_split.
#[local] Existing Instance sample_protocol.
#[local] Existing Instance sample_sql.
#[local] Existing Instance sample_sql_laws.

Definition sample_accounts : gmap str str :=
  {[ lit "ann" := lit "pw"; lit "bob" := lit "pw2" ]}.
Definition accounts_server : server :=
  mkServer (run_or (start 30) w6) ([(lit "ann", lit "pw"); (lit "bob", lit "pw2")]) [].

Definition find_or (a : Z) (s : server) : connection :=
  match m_find a (connections_ (mgr s)) with Some c => c | None => new_connection end.

Lemma accounts_server_ok : accounts_ok accounts_server sample_accounts.
Proof.
  split_and!.
  - split; [exact I|]. change (rows (users_db accounts_server)) with
      [(lit "ann", lit "pw"); (lit "bob", lit "pw2")].
    unfold sample_accounts. rewrite map_to_list_insert by done.
    by rewrite map_to_list_singleton.
  - vm_compute. repeat (constructor; [set_solver|]). constructor.
  - intros a b c c' Ha Hb. vm_compute in Ha, Hb.
    repeat (apply elem_of_cons in Ha as [Ha|Ha]; [injection Ha as -> ->|]);
      try (by apply elem_of_nil in Ha);
    repeat (apply elem_of_cons in Hb as [Hb|Hb]; [injection Hb as -> ->|]);
      try (by apply elem_of_nil in Hb); by vm_compute.
  - intros a c Ha. vm_compute in Ha.
    repeat (apply elem_of_cons in Ha as [Ha|Ha]; [injection Ha as -> ->|]);
      try (by apply elem_of_nil in Ha); vm_compute; by eauto.
Qed.

Lemma signing_keeps_nicknames_unique_witness :
  ∃ s', execute no_append 80 no_disk (mkJob 30 (do_signin (lit "1") (lit "ann") (lit "pw")))
          accounts_server = Ok (tt, s')
    ∧ accounts_ok s' sample_accounts
    ∧ signin_code accounts_server sample_accounts (lit "ann") (lit "pw")
      = responses.USER_ALREADY_LOGGED.
Proof.
  destruct (signing_keeps_nicknames_unique no_append 80 no_disk 30 (lit "1") (lit "ann")
              (lit "pw") accounts_server sample_accounts accounts_server_ok
              ltac:(vm_compute; reflexivity)) as [(s' & E & _ & Hok) _].
  exists s'. split; [exact E|]. split; [exact Hok|]. vm_compute. reflexivity.
Defined.

Lemma deleted_account_taken_over_witness :
  ∃ s1 s2,
    execute no_append 80 no_disk (mkJob 20 (do_delete_account (lit "1"))) accounts_server
      = Ok (tt, s1)
    ∧ execute no_append 80 no_disk (mkJob 30 (do_signup (lit "2") (lit "bob") (lit "x"))) s1
      = Ok (tt, s2)
    ∧ ¬ unique_nicknames (connections_ (mgr s2)).
Proof.
  destruct (deleted_account_taken_over no_append 80 no_disk 20 30
              (find_or 20 accounts_server) (find_or 30 accounts_server) (lit "1") (lit "2")
              (lit "x") accounts_server sample_accounts (lit "pw2") accounts_server_ok)
    as (s1 & s2 & E1 & E2 & _ & _ & Hu);
    [vm_compute; reflexivity|vm_compute; reflexivity|discriminate|vm_compute; discriminate
    |vm_compute; reflexivity|].
  exists s1, s2. split; [exact E1|]. split; [exact E2|exact Hu].
Defined.
