(* ===== verification/Notices.v ===== *)
(** * Notices: what a client is told of the others' files

    The notifications as an abstract vocabulary: a [notice] says what happened to the
    files of a user, [notice_message] is the message the server builds for it, and
    [apply_notice] what its reader learns.  A [picture] is what a reader knows: for each
    user the paths there are.  The [board] is what there is to know: the files of the
    clients that have registered.  [heard]: the notifications a connection was sent, the
    shared buffers read from the storage. *)

From S2P Require Import Prelude Hoare Text Protocol Validators Vfs VfsTree VfsAdd VfsDelete.
From S2P Require Import VfsPaths VfsSpec VfsEntries StdMap BackupRequests DownloadManager.
From S2P Require Import Manager ManagerSpec ManagerFrame DownloadSpec ManagerInv.

Inductive notice :=
  | RegisteredFiles (owner : str) (files : option (list str))
  | FilesOfOthers (files : gmap str (list str))
  | AddedFile (owner file : str)
  | DeletedPath (owner path : str)
  | RenamedPath (owner path new_name : str)
  | LoggedOut (owner : str).

Abbreviation picture := (gmap str (gset path)).

Section notices.
Context `{Protocol} `{BoostSplit}.
Implicit Types (g : manager) (a b : Z) (P : picture) (nt : notice).

Definition notice_message nt : outbound :=
  match nt with
  | RegisteredFiles owner None =>
      StringNotificationMessage notifications.USER_REGISTERED_FILES [(headers.FileOwner, owner)] None
  | RegisteredFiles owner (Some Paths) =>
      let FilesBody := build_body_list Paths CSV_LIST in
      StringNotificationMessage notifications.USER_REGISTERED_FILES
        [(headers.FileOwner, owner);
         (headers.ContentLength, to_string (Z.of_nat (length FilesBody)));
         (headers.ContentType, CSV_LIST)] (Some FilesBody)
  | FilesOfOthers files =>
      let FilesBody := build_body_map files in
      StringNotificationMessage notifications.FILES_OF_OTHER_USERS
        [(headers.ContentLength, to_string (Z.of_nat (length FilesBody)));
         (headers.ContentType, CSV_MAP)] (Some FilesBody)
  | AddedFile owner file =>
      StringNotificationMessage notifications.USER_ADDED_NEW_FILE
        [(headers.FileOwner, owner); (headers.FileName, file)] None
  | DeletedPath owner path =>
      StringNotificationMessage notifications.USER_DELETED_FILE
        [(headers.FileOwner, owner); (headers.FileName, path)] None
  | RenamedPath owner path new_name =>
      StringNotificationMessage notifications.USER_RENAMED_FILE
        [(headers.FileOwner, owner); (headers.FileName, path); (headers.FileNewName, new_name)] None
  | LoggedOut owner =>
      StringNotificationMessage notifications.USER_LOGGED_OUT [(headers.FileOwner, owner)] None
  end.

Local Abbreviation entries := (entries PATH_SEPARATOR_CHR).
Local Abbreviation added := (added PATH_SEPARATOR_CHR).
Local Abbreviation removed := (removed PATH_SEPARATOR_CHR).
Local Abbreviation renamed := (renamed PATH_SEPARATOR_CHR).
Local Abbreviation file_entries := (file_entries PATH_SEPARATOR_CHR).
Local Abbreviation nick c := (nickname_ (client_ c)).

(** What the reader of a notice learns: a change of a user's files says nothing when
    the user is not known. *)
Definition apply_notice nt P : picture :=
  match nt with
  | RegisteredFiles owner files => <[owner := entries (default [] files)]> P
  | FilesOfOthers files => (entries <$> files) ∪ P
  | AddedFile owner file => alter (added file) owner P
  | DeletedPath owner path => alter (removed path) owner P
  | RenamedPath owner path new_name => alter (renamed path new_name) owner P
  | LoggedOut owner => delete owner P
  end.

(** What a reader knows after these notices, in this order. *)
Definition replay (ns : list notice) : picture := foldl (λ P nt, apply_notice nt P) ∅ ns.

Lemma replay_snoc ns nt : replay (ns ++ [nt]) = apply_notice nt (replay ns).
Proof. unfold replay. by rewrite foldl_app. Qed.

(** The files of the clients that have registered. *)
Definition board g : picture :=
  list_to_map (map (λ e : Z * connection, (nick e.2, file_entries (tree_of e.2))) (processing_conns g)).

(** What the notifications rely on: the clients that have registered have different names
    without NUL, and no tree has two entries of one path. *)
Definition well_named g : bool :=
  bool_decide (NoDup (map (λ e : Z * connection, nick e.2) (processing_conns g)))
  && forallb (λ e : Z * connection, bool_decide (c_str (nick e.2) = nick e.2)) (processing_conns g)
  && forallb (λ e : Z * connection, distinct_siblings (tree_of e.2)) (connections_ g).

(** A client that has registered stays registered under its name as long as it is there. *)
Definition keeps_names g g' : bool :=
  forallb (λ e : Z * connection,
      match m_find e.1 (connections_ g') with
      | Some c => is_processing c && has_nickname (nick e.2) c
      | None => true
      end) (processing_conns g).

(** ** What a connection is told *)

(** The notifications about files and users; the remaining kind asks for a download. *)
Definition is_notice (m : outbound) : bool :=
  match m with
  | StringNotificationMessage kind _ _ =>
      negb (bool_decide (kind = notifications.USER_REQUESTED_FILE_DOWNLOAD))
  | _ => false
  end.

Definition heard_in (storage : stdmap (outbound * Z)) a (w : Z * write) : option outbound :=
  if bool_decide (w.1 = a) then
    match w.2 with
    | Write m => if is_notice m then Some m else None
    | SharedWrite id => fst <$> m_find id storage
    end
  else None.

Definition heard a g : list outbound := omap (heard_in (shared_storage_ g) a) (sent g).

(** Every shared write has its buffer, and no buffer changes or goes. *)
Definition stored g : Prop :=
  ∀ b id, (b, SharedWrite id) ∈ sent g → is_Some (m_find id (shared_storage_ g)).
Definition keeps_buffers g g' : Prop :=
  ∀ id m k, m_find id (shared_storage_ g) = Some (m, k) →
    ∃ k', m_find id (shared_storage_ g') = Some (m, k').

#[global] Instance keeps_buffers_preorder : PreOrder keeps_buffers.
Proof.
  split; [intros g id m k; eauto|]. intros g1 g2 g3 H12 H23 id m k E.
  apply H12 in E as [k' E]. by eapply H23.
Qed.

Lemma heard_more a g g' ws :
  stored g → keeps_buffers g g' → sent g' = sent g ++ ws →
  heard a g' = heard a g ++ omap (heard_in (shared_storage_ g') a) ws.
Proof.
  intros Hs Hk E. unfold heard. rewrite E, omap_app. f_equal.
  apply list_omap_ext, Forall_Forall2_diag, Forall_forall. intros [b w] Hw.
  unfold heard_in. cbn [fst snd]. case_bool_decide; [|done]. destruct w as [m|id]; [done|].
  destruct (Hs b id Hw) as [[m k] Em]. destruct (Hk id m k Em) as [k' ->]. by rewrite Em.
Qed.

(** Nothing is said about files. *)
Definition mute (w : Z * write) : Prop :=
  match w.2 with Write m => is_notice m = false | SharedWrite _ => False end.

Definition hushed g g' : Prop :=
  keeps_buffers g g' ∧ ∃ ws, sent g' = sent g ++ ws ∧ Forall mute ws.

#[global] Instance hushed_preorder : PreOrder hushed.
Proof.
  split.
  - intros g. split; [done|]. exists []. by rewrite app_nil_r.
  - intros g1 g2 g3 [K1 (w1 & E1 & M1)] [K2 (w2 & E2 & M2)]. split; [by transitivity g2|].
    exists (w1 ++ w2). rewrite E2, E1, app_assoc. split; [done|]. by apply Forall_app.
Qed.

Lemma hushed_same g g' :
  shared_storage_ g' = shared_storage_ g → sent g' = sent g → hushed g g'.
Proof.
  intros Es E. split; [intros id m k; rewrite Es; eauto|]. exists [].
  by rewrite E, app_nil_r.
Qed.

Lemma hushed_heard g g' : stored g → hushed g g' → stored g' ∧ ∀ a, heard a g' = heard a g.
Proof.
  intros Hs [Hk (ws & E & Hm)]. split.
  - intros b id. rewrite E, elem_of_app. intros [Hin|Hin].
    + destruct (Hs b id Hin) as [[m k] Em]. destruct (Hk id m k Em) as [k' ->]. by eexists.
    + rewrite Forall_forall in Hm. by apply Hm in Hin.
  - intros a. rewrite (heard_more a g g' ws Hs Hk E).
    assert (omap (heard_in (shared_storage_ g') a) ws = []) as ->; [|by rewrite app_nil_r].
    clear E. induction Hm as [|[b w] ws Hw Hm IH]; [done|]. csimpl. rewrite IH.
    unfold heard_in, mute in *. cbn [fst snd] in *. case_bool_decide; [|done].
    destruct w as [m|id]; [by rewrite Hw|done].
Qed.

(** Nor is there another client, or another tree. *)
Definition unsaid g g' : Prop := hushed g g' ∧ connections_ g' = connections_ g.

#[global] Instance unsaid_preorder : PreOrder unsaid.
Proof.
  split; [by intros g; split|]. intros g1 g2 g3 [H12 E12] [H23 E23].
  split; [by transitivity g2|congruence].
Qed.

Lemma unsaid_same g g' :
  shared_storage_ g' = shared_storage_ g → sent g' = sent g →
  connections_ g' = connections_ g → unsaid g g'.
Proof. intros Es E Ec. split; [by apply hushed_same|done]. Qed.

(** ** Telling several *)

(** The connections [rs] are handed one new buffer. *)
Lemma share_told m n id rs g g1 :
  shared_ok g → SharedStorageIDCounter g < two64 - 1 → stored g → store_shared m n g = Ok (id, g1) → NoDup rs →
  let g' := shared_with id rs g1 in
  stored g' ∧ (∀ a, heard a g' = heard a g ++ if bool_decide (a ∈ rs) then [m] else [])
  ∧ connections_ g' = connections_ g ∧ processing_counter_ g' = processing_counter_ g.
Proof.
  intros Hok Hw Hs E Hrs. cbv zeta.
  unfold store_shared in E. destruct (ok_ids g Hok) as [Hi0 Hi].
  rewrite u64_id in E by (split; lia). injection E as <- <-.
  set (id := SharedStorageIDCounter g + 1).
  assert (m_find id (shared_storage_ g) = None) as Hf.
  { apply m_find_None. intros Hin. rewrite Forall_forall in Hi. specialize (Hi _ Hin). lia. }
  set (g' := shared_with _ _ _).
  assert (keeps_buffers g g') as Hk.
  { intros j m' k E. exists k. unfold g'. cbn. rewrite m_find_emplace by done.
    rewrite bool_decide_eq_false_2 by congruence. done. }
  assert (fst <$> m_find id (shared_storage_ g') = Some m) as Hid.
  { unfold g'. cbn. rewrite m_find_emplace by done. by rewrite bool_decide_eq_true_2. }
  assert (sent g' = sent g ++ map (λ a, (a, SharedWrite id)) rs) as Ese by done.
  split_and!; [| |done..].
  - intros b j. rewrite Ese, elem_of_app, list_elem_of_fmap. intros [Hin|(c & [= -> ->] & _)].
    + destruct (Hs b j Hin) as [[m' k] Em]. destruct (Hk j m' k Em) as [k' ->]. by eexists.
    + apply fmap_Some in Hid as (e & -> & _). by eexists.
  - intros a. rewrite (heard_more a g g' _ Hs Hk Ese). f_equal. clearbody g'. clear -Hid Hrs.
    induction Hrs as [|r rs Hr Hrs IH]; [done|]. cbn [map]. csimpl. rewrite IH.
    unfold heard_in at 1. cbn [fst snd]. rewrite Hid.
    destruct (decide (r = a)) as [->|Hne].
    + rewrite (bool_decide_eq_true_2 (a = a)), (bool_decide_eq_false_2 (a ∈ rs)) by done.
      rewrite bool_decide_eq_true_2 by left. done.
    + rewrite (bool_decide_eq_false_2 (r = a)) by done.
      erewrite bool_decide_ext; [done|]. rewrite elem_of_cons. naive_solver.
Qed.

Lemma recipients_NoDup Q (m : stdmap connection) : NoDup (keys m) → NoDup (recipients Q m).
Proof.
  intros Hk. unfold recipients, keys. eapply sublist_NoDup; [exact Hk|].
  apply (fmap_sublist fst), sublist_filter.
Qed.

Lemma elem_of_recipients Q (m : stdmap connection) a :
  NoDup (keys m) →
  a ∈ recipients Q m ↔ ∃ c, m_find a m = Some c ∧ is_processing c = true ∧ Q c = true.
Proof.
  intros Hk. unfold recipients. rewrite elem_of_keys. setoid_rewrite list_elem_of_filter.
  cbn [fst snd]. setoid_rewrite andb_true_iff. split.
  - intros (c & [Hp Hq] & Hin). exists c. split; [by apply m_find_NoDup|done].
  - intros (c & Hf & Hp & Hq). exists c. split; [done|by apply m_find_elem].
Qed.

(** A notification goes to the clients that process and have another nickname. *)
Definition tells (n : str) (m : outbound) g g' : Prop :=
  stored g' ∧ ∀ a, heard a g' = heard a g
    ++ match m_find a (connections_ g) with
       | Some c => if is_processing c && negb (has_nickname n c) then [m] else []
       | None => []
       end.

Lemma recipients_tells n (m : outbound) (cs : stdmap connection) a :
  NoDup (keys cs) →
  (if bool_decide (a ∈ recipients (λ c, negb (has_nickname n c)) cs) then [m] else [])
  = match m_find a cs with
    | Some c => if is_processing c && negb (has_nickname n c) then [m] else []
    | None => []
    end.
Proof.
  intros Hk. destruct (m_find a cs) as [c|] eqn:E.
  - destruct (is_processing c && _) eqn:Ep.
    + apply andb_true_iff in Ep as [? ?]. rewrite bool_decide_eq_true_2; [done|].
      apply elem_of_recipients; eauto.
    + rewrite bool_decide_eq_false_2; [done|].
      intros (c' & Hf & Hp & Hq)%elem_of_recipients; [|done]. rewrite E in Hf. injection Hf as <-.
      by rewrite Hp, Hq in Ep.
  - rewrite bool_decide_eq_false_2; [done|].
    intros (c' & Hf & _)%elem_of_recipients; congruence.
Qed.

Lemma do_notify_tells b c m g u g' :
  shared_ok g → no_wrap g → stored g → m_find b (connections_ g) = Some c →
  is_processing c = true → do_notify (nick c) m g = Ok (u, g') →
  tells (nick c) m g g' ∧ connections_ g' = connections_ g.
Proof.
  intros Hok Hw Hs Hf Hp. unfold do_notify. rewrite M_bind_unfold. cbn [gets].
  pose proof (ok_connections g Hok) as Hk. case_bool_decide as Hn.
  - intros [= _ <-]. split; [|done]. split; [done|]. intros a.
    rewrite <- (recipients_tells (nick c) m _ a Hk).
    rewrite bool_decide_eq_false_2; [by rewrite app_nil_r|]. intros Ha.
    pose proof (recipients_others b c (nick c) (connections_ g) (m_find_elem _ _ _ Hf) Hp
      ltac:(by apply bool_decide_eq_true)) as Hl.
    pose proof (ok_counter g Hok) as Hc. rewrite processing_count_eq in Hc.
    destruct (recipients _ _); [by apply elem_of_nil in Ha|cbn in Hl; lia].
  - rewrite M_bind_unfold. destruct (store_shared m _ g) as [[id g1]|] eqn:E; [|done].
    rewrite share_spec. assert (connections_ g1 = connections_ g) as -> by (by injection E as _ <-).
    intros [= _ <-].
    destruct (share_told m _ id (recipients (λ c', negb (has_nickname (nick c) c')) (connections_ g))
      g g1 Hok (proj2 Hw) Hs E (recipients_NoDup _ _ Hk)) as (Hs' & Hh & Hc & _).
    split; [|done]. split; [done|]. intros a. rewrite (Hh a). f_equal. by apply recipients_tells.
Qed.
End notices.
