(* ===== verification/NoticesSpec.v ===== *)
(** * NoticesSpec: who is told what by which operation

    Replies, downloads and timers say nothing about files and change no client ([unsaid]); signing off and
    registering tell every client that processes, and registering tells the client itself
    what it has missed. *)

From S2P Require Import Prelude Hoare Text Protocol Validators Vfs VfsTree VfsAdd VfsDelete.
From S2P Require Import VfsPaths VfsSpec VfsEntries StdMap BackupRequests DownloadManager UsersDb.
From S2P Require Import Scheduler Manager ManagerSpec ManagerFrame DownloadSpec ManagerInv.
From S2P Require Import Handler Connection Notices.

Section unsaid.
Context `{Protocol} `{BoostSplit}.
Variables (port : Z) (d : disk).
Implicit Types (g : manager) (a : Z).

Lemma unsaid_start_write a m : is_notice m = false → preserves unsaid (start_write a m).
Proof.
  intros Hm g x g' [= _ <-]. split; [|done]. split; [by intros i m' k ?; exists k|]. exists [(a, Write m)].
  split; [done|]. by apply Forall_singleton.
Qed.

(** A computation that starts no write and leaves the buffers alone. *)
Lemma unsaid_quiet {A} (m : M manager A) :
  (∀ g x g', m g = Ok (x, g') →
     shared_storage_ g' = shared_storage_ g ∧ sent g' = sent g ∧ connections_ g' = connections_ g) →
  preserves unsaid m.
Proof. intros Hm g x g' E. destruct (Hm g x g' E) as (? & ? & ?). by apply unsaid_same. Qed.

Lemma unsaid_modify f :
  (∀ g, shared_storage_ (f g) = shared_storage_ g) → (∀ g, sent (f g) = sent g) →
  (∀ g, connections_ (f g) = connections_ g) → preserves unsaid (modify f).
Proof. intros ???. apply preserves_modify. intros g. by apply unsaid_same. Qed.

Lemma unsaid_conn a : preserves unsaid (conn a).
Proof.
  apply unsaid_quiet. intros g x g'. unfold conn. destruct (m_find _ _); [|done].
  by intros [= <- <-].
Qed.

Lemma unsaid_deny a r : preserves unsaid (deny a r).
Proof. by apply unsaid_start_write. Qed.

Lemma unsaid_deliver a compr r path :
  preserves unsaid (DeliverFileFromLocalStorage port d a compr r path).
Proof.
  intros s x s'. unfold DeliverFileFromLocalStorage.
  destruct (BeginUploadTransaction _ _ _ _ _) as [[[ok c'] T] dm]. intros E'.
  transitivity (set_downloads dm s); [by apply unsaid_same|].
  destruct ok, (file_size d path); by refine (unsaid_start_write _ _ _ _ _ _ E').
Qed.

Lemma unsaid_for_each_and_remove id f :
  (∀ r, preserves unsaid (f r)) → preserves unsaid (for_each_and_remove id f).
Proof.
  intros Hf s x s'. unfold for_each_and_remove, ForEachAndRemoveWrapper, ForEach.
  destruct (m_index id default_backup (backup_requests_ s)) as [[info t] m].
  destruct (for_each _ _ _) as [[[] s1]|] eqn:E; [|done]. cbn. intros [= <- <-].
  transitivity s1; [|by apply unsaid_same].
  transitivity (set_backup m s); [by apply unsaid_same|].
  eapply (preserves_for_each unsaid); [|exact E].
  intros r s2 y s3. destruct (alive _ _); [apply Hf|by intros [= <- <-]].
Qed.

Lemma unsaid_denied id : preserves unsaid (for_each_and_remove id GetDownloadDenyHandler).
Proof. apply unsaid_for_each_and_remove. intros r. by apply unsaid_start_write. Qed.

#[local] Hint Resolve unsaid_conn unsaid_deny unsaid_deliver unsaid_denied : preserves.

Lemma unsaid_notify_download owner ID c : preserves unsaid (NotifyFileDownload port owner ID c).
Proof.
  intros g x g'. unfold NotifyFileDownload. destruct (m_find_if _ _) as [[b c']|];
    [|by intros [= _ <-]]. destruct (start_write _ _ g) as [[[] g1]|] eqn:E; [|done].
  cbn. intros [= _ <-]. by refine (unsaid_start_write _ _ _ _ _ _ E).
Qed.

Lemma unsaid_reply m : preserves unsaid (resolve_download_reply port d m).
Proof.
  unfold resolve_download_reply. apply preserves_bind; [apply _|preserves|]. intros RequestID.
  cbv zeta. destruct (negb _); [preserves|].
  apply preserves_bind; [apply _| |intros [[path owner]|]; [|preserves]].
  { apply unsaid_quiet. intros g x g'. unfold IsRequestIDValid.
    destruct (m_find _ _) as [[i t]|]; by intros [= <- <-]. }
  apply preserves_bind; [apply _|preserves|]. intros size.
  apply preserves_bind; [apply _| |].
  { apply unsaid_quiet. intros g x g'. unfold BeginDownloadTransaction.
    repeat (destruct (negb _); [try done; cbn; by intros [= <- <-]|]). cbn. by intros [= <- <-]. }
  intros []; [|preserves]. apply preserves_bind; [apply _|apply unsaid_notify_download|preserves].
Qed.

Lemma unsaid_querry q a : preserves unsaid (resolve_download_file_querry port d q a).
Proof.
  unfold resolve_download_file_querry. destruct (negb _); [by apply unsaid_start_write|].
  apply preserves_bind; [apply _| |].
  { apply unsaid_quiet. intros g x g'. destruct (find_owner _ _ _); [|done]. by intros [= <- <-]. }
  intros [[b []]|]; [preserves| |preserves]. cbv zeta.
  apply preserves_bind; [apply _| |].
  { apply unsaid_quiet. intros g x g'. destruct (IsDownloadPending _ _ _ _ _ _).
    by intros [= <- <-]. }
  intros []; [preserves|].
  apply preserves_bind; [apply _|by apply unsaid_modify|]. intros _.
  apply preserves_bind; [apply _|preserves|]. intros id.
  apply preserves_bind; [apply _|by apply unsaid_start_write|]. intros _.
  by apply unsaid_modify.
Qed.

Lemma unsaid_end NDEBUG id : preserves unsaid (assert_end_download NDEBUG id).
Proof.
  apply preserves_cassert; [apply _|]. apply unsaid_quiet. intros g x g'.
  unfold EndDownloadTransaction. by intros [= <- <-].
Qed.

(** A release build never sets the flag of a file. *)
Lemma unsaid_set_cached owner path : preserves unsaid (SetFileToCached true owner path).
Proof.
  intros g x g'. unfold SetFileToCached. destruct (m_find_if _ _) as [[b c]|]; by intros [= _ <-].
Qed.

Lemma unsaid_completed id h Succes :
  preserves unsaid (download_completed port true d id h Succes).
Proof.
  unfold download_completed. apply preserves_bind; [apply _| |intros _].
  { apply unsaid_quiet. intros g x g'. destruct (CloseDownloadTransaction _ _); [|done].
    by intros [= <- <-]. }
  apply preserves_bind; [apply _| |intros _; apply unsaid_end].
  destruct Succes; [|preserves].
  apply preserves_bind; [apply _|apply unsaid_set_cached|]. intros _.
  apply unsaid_for_each_and_remove. intros r. apply unsaid_deliver.
Qed.

Lemma unsaid_expired NDEBUG id : preserves unsaid (download_timer_expired NDEBUG id).
Proof.
  unfold download_timer_expired. apply preserves_bind; [apply _|preserves|]. intros _. apply unsaid_end.
Qed.

(** A release build counts the writes of a buffer and keeps it. *)
Lemma unsaid_written a id g u g' :
  shared_ok g → (a, id) ∈ unfinished g → shared_write_done true a id g = Ok (u, g') →
  unsaid g g'.
Proof.
  intros Hok Hin E. destruct (shared_write_done_result true a id g u g' Hok Hin E) as (_ & _ & Hf).
  assert (sent g' = sent g ∧ connections_ g' = connections_ g) as [Es Ec].
  { revert E. unfold shared_write_done. destruct (alive _ _); [|by intros [= _ <-]].
    unfold notify_shared_write_done. rewrite M_bind_unfold. cbn [modify]. rewrite M_bind_unfold.
    cbn [gets]. by repeat case_match; intros [= _ <-]. }
  split; [|done]. split; [|exists []; by rewrite Es, app_nil_r].
  intros j m k Em. rewrite Hf, Em, andb_false_r.
  destruct (bool_decide (j = id) && alive g a); cbn; eauto.
Qed.
End unsaid.

(** ** Signing off *)

Section signing_off.
Context `{Protocol} `{BoostSplitLaws}.
Implicit Types (g : manager) (a b : Z).

Local Abbreviation nick c := (nickname_ (client_ c)).
Local Abbreviation file_entries := (file_entries PATH_SEPARATOR_CHR).

(** Everybody who processes, in a set of connections, hears [m]. *)
Definition to_all (m : outbound) (cs : stdmap connection) b : list outbound :=
  match m_find b cs with Some c => if is_processing c then [m] else [] | None => [] end.

Lemma recipients_all (m : outbound) cs b :
  NoDup (keys cs) →
  (if bool_decide (b ∈ recipients (λ _, true) cs) then [m] else []) = to_all m cs b.
Proof.
  intros Hk. unfold to_all. destruct (m_find b cs) as [c|] eqn:E.
  - destruct (is_processing c) eqn:Ep.
    + rewrite bool_decide_eq_true_2; [done|]. apply elem_of_recipients; eauto.
    + rewrite bool_decide_eq_false_2; [done|].
      intros (c' & Hf & Hp & _)%elem_of_recipients; [congruence|done].
  - rewrite bool_decide_eq_false_2; [done|].
    intros (c' & Hf & _)%elem_of_recipients; congruence.
Qed.

Lemma to_all_none (m : outbound) cs b :
  NoDup (keys cs) → count_processing cs = 0%nat → to_all m cs b = [].
Proof.
  intros Hk Hn. unfold to_all. destruct (m_find b cs) as [c|] eqn:E; [|done].
  rewrite (count_processing_erase b c cs Hk E) in Hn. by destruct (is_processing c).
Qed.

Lemma disconnection_tells a c g u g' :
  shared_ok g → no_wrap g → stored g → m_find a (connections_ g) = Some c →
  notify_disconnection a g = Ok (u, g') →
  let cs := m_erase a (connections_ g) in
  connections_ g' = cs ∧ stored g'
  ∧ ∀ b, heard b g' = heard b g
       ++ if is_processing c then to_all (notice_message (LoggedOut (nick c))) cs b else [].
Proof.
  intros Hok Hw Hs Hf. cbv zeta. unfold notify_disconnection. rewrite M_bind_unfold. unfold conn.
  rewrite Hf, M_bind_unfold. cbn [modify]. set (g1 := on_connections (m_erase a) g).
  pose proof (count_processing_erase a c _ (ok_connections g Hok) Hf) as Hcount.
  pose proof (ok_counter g Hok) as Hc. rewrite processing_count_eq in Hc.
  assert (NoDup (keys (connections_ g1))) as Hk1 by apply keys_erase_NoDup, Hok.
  unfold is_processing in *. rewrite M_bind_unfold.
  destruct (decide (state_ (client_ c) = processing)) as [Hst|Hst];
    [rewrite (bool_decide_eq_true_2 _ Hst) in *|rewrite (bool_decide_eq_false_2 _ Hst) in *].
  - rewrite M_bind_unfold. cbn [modify]. set (g2 := set_processing_counter _ g1).
    assert (processing_counter_ g2 = processing_counter_ g - 1) as Hc2
      by (cbn; rewrite u64_id by (split; lia); done).
    rewrite M_bind_unfold. cbn [gets]. case_bool_decide as Hz.
    + intros [= _ <-]. split_and!; [done|done|]. intros b.
      change (heard b g2) with (heard b g). rewrite to_all_none; [by rewrite app_nil_r|done|].
      lia.
    + rewrite M_bind_unfold. destruct (store_shared _ _ g2) as [[id g3]|] eqn:E; [|done].
      rewrite M_bind_unfold, share_spec. cbn. intros [= _ <-].
      assert (connections_ g3 = m_erase a (connections_ g)) as Hcs by (by injection E as _ <-).
      assert (shared_ok g2) as Hok2.
      { eapply (shared_ok_frame g g2); [exact Hok|exact Hk1| |done..].
        rewrite Hc2, processing_count_eq.
        change (connections_ g2) with (m_erase a (connections_ g)). lia. }
      rewrite Hcs. destruct (share_told _ _ id (recipients (λ _, true) (m_erase a (connections_ g)))
        g2 g3 Hok2 (proj2 Hw) Hs E (recipients_NoDup _ _ Hk1))
        as (Hs' & Hh & Hc' & _).
      split_and!; [exact Hcs|exact Hs'|]. intros b. specialize (Hh b).
      rewrite recipients_all in Hh by done. exact Hh.
  - cbn. intros [= _ <-]. split_and!; [done|done|]. intros b. by rewrite app_nil_r.
Qed.

Lemma stop_tells a c g u g' :
  shared_ok g → no_wrap g → stored g → m_find a (connections_ g) = Some c → conn_stopped c = false →
  stop a g = Ok (u, g') →
  let cs := m_erase a (connections_ g) in
  connections_ g' = cs ∧ stored g'
  ∧ ∀ b, heard b g' = heard b g
       ++ if is_processing c then to_all (notice_message (LoggedOut (nick c))) cs b else [].
Proof.
  intros Hok Hw Hs Hf Hns. cbv zeta. unfold stop. rewrite M_bind_unfold. unfold conn at 1.
  rewrite Hf, Hns. rewrite M_bind_unfold. unfold on_conn. cbn [modify].
  set (g1 := on_connections (m_update a with_stopped) g).
  assert (m_find a (connections_ g1) = Some (with_stopped c)) as Hf1.
  { unfold g1. cbn. by rewrite m_find_update, Hf, bool_decide_eq_true_2. }
  assert (shared_ok g1) as Hok1 by (by apply on_conn_shared).
  rewrite M_bind_unfold. destruct (notify_disconnection a g1) as [[u2 g2]|] eqn:E; [|done].
  destruct (disconnection_tells a _ g1 u2 g2 Hok1 Hw Hs Hf1 E) as (Hc & Hs2 & Hh).
  rewrite M_bind_unfold. unfold lift. destruct (delete_vfs _ _ _) as [es|]; [|done].
  intros [= _ <-]. unfold g1 in Hc, Hh. cbn [connections_ on_connections] in Hc, Hh.
  rewrite m_erase_update in Hc, Hh. split_and!; [exact Hc|exact Hs2|exact Hh].
Qed.

(** ** Registering *)

Local Abbreviation entries := (entries PATH_SEPARATOR_CHR).
Definition shown (e : Z * connection) : str * gset path := (nick e.2, file_entries (tree_of e.2)).

Lemma collect_files id cs acc g r g' :
  collect_and_share id cs acc g = Ok (r, g') →
  let ps := filter (λ e, is_processing e.2 = true) cs in
  NoDup (map shown ps).*1 → Forall (λ e, c_str (nick e.2) = nick e.2 ∧ acc !! nick e.2 = None) ps →
  entries <$> r = list_to_map (map shown ps) ∪ (entries <$> acc).
Proof.
  cbv zeta. revert acc g. induction cs as [|[a c] cs IH]; intros acc g; cbn [collect_and_share].
  { intros [= <- <-] _ _. by rewrite left_id_L by apply _. }
  destruct (is_processing c) eqn:Ep.
  2: { rewrite filter_cons_False by (cbn; congruence). apply IH. }
  rewrite filter_cons_True by done. cbn [map fmap list_fmap list_to_map shown fst snd].
  rewrite M_bind_unfold. unfold lift.
  destruct (Get PATH_SEPARATOR_CHR (remote_file_system_ (client_ c)) FILE) as [ps|] eqn:E; [|done].
  rewrite M_bind_unfold. intros HC [Hn Hd]%NoDup_cons [[Hz Ha] Hall]%Forall_cons.
  cbn [snd] in *. rewrite Hz, Ha in HC. cbn [default] in HC. rewrite app_nil_r in HC.
  apply IH in HC; [|done|].
  - assert (shown (a, c) = (nick c, entries ps)) as ->
      by (unfold shown, VfsEntries.file_entries, tree_of; cbn [snd]; by rewrite E).
    rewrite list_to_map_cons, HC, fmap_insert, <- insert_union_l, insert_union_r; [done|].
    by apply not_elem_of_list_to_map_1.
  - rewrite Forall_forall in *. intros e He. destruct (Hall e He) as [Hze Hae]. split; [done|]. rewrite lookup_insert_ne; [done|].
    intros Heq. apply Hn. rewrite Heq. apply list_elem_of_fmap. exists (shown e). split; [done|].
    by apply list_elem_of_fmap_2.
Qed.

Lemma registration_notification_notice c t msg :
  listed PATH_SEPARATOR_CHR (remote_file_system_ c) t → registration_notification c = Ok msg →
  ∃ files, msg = notice_message (RegisteredFiles (nickname_ c) files)
    ∧ entries (default [] files) = file_entries (remote_file_system_ c).
Proof.
  intros Hl. pose proof Hl as [[Hr Ht] Hroot]. unfold registration_notification, Empty.
  rewrite (repr_root _ _ Hr), (deref_Some _ _ _ (repr_at_lookup _ _ _ (repr_heap _ _ Hr))).
  cbn [mbind outcome_bind IsLeaf MyChildrens_].
  destruct (bool_decide _) eqn:Eb.
  - intros [= <-]. exists None. split; [done|]. apply bool_decide_eq_true in Eb.
    apply set_eq. intros q. rewrite (elem_of_file_entries _ _ _ _ Hl). cbn [default].
    rewrite elem_of_entries. split; [by intros (p & ?%elem_of_nil & _)|].
    destruct t as [l n b ts]. cbn [tsub] in Eb. destruct ts; [|done].
    intros [Hq [s Hs]]. by destruct q.
  - unfold VfsEntries.file_entries.
    destruct (Get PATH_SEPARATOR_CHR (remote_file_system_ c) FILE) as [ps|]; [|done].
    intros [= <-]. by exists (Some ps).
Qed.

(** Who hears of a registration: everybody who processes, and the client itself the
    files of all of those, unless there are none. *)
Lemma registration_tells b c g u g' :
  shared_ok g → no_wrap g → stored g → well_named g = true →
  m_find b (connections_ g) = Some c → (∃ t, listed PATH_SEPARATOR_CHR (tree_of c) t) →
  notify_files_registration b g = Ok (u, g') →
  connections_ g' = m_update b (with_state processing) (connections_ g) ∧ stored g'
  ∧ (count_processing (connections_ g) = 0%nat ∧ (∀ a, heard a g' = heard a g)
     ∨ ∃ files others, entries (default [] files) = file_entries (tree_of c)
       ∧ entries <$> others = board g
       ∧ ∀ a, heard a g' = heard a g
           ++ to_all (notice_message (RegisteredFiles (nick c) files)) (connections_ g) a
           ++ if bool_decide (a = b) then [notice_message (FilesOfOthers others)] else []).
Proof.
  intros Hok Hw Hs Hn Hf [t Hl]. unfold notify_files_registration. rewrite M_bind_unfold.
  unfold conn. rewrite Hf, M_bind_unfold. unfold lift at 1.
  destruct (registration_notification (client_ c)) as [msg|] eqn:Em; [|done].
  apply (registration_notification_notice _ t) in Em as (files & -> & Ef); [|done].
  rewrite M_bind_unfold. cbn [modify]. set (g1 := set_processing_counter _ g).
  pose proof (ok_counter g Hok) as Hc. rewrite processing_count_eq in Hc.
  assert (processing_counter_ g1 = processing_counter_ g + 1) as Hc1
    by (cbn; rewrite u64_id by (destruct Hw; split; lia); done).
  rewrite M_bind_unfold. cbn [gets]. pose proof (ok_connections g Hok) as Hk.
  case_bool_decide as Hone.
  { intros [= _ <-]. split_and!; [done|done|]. left. split; [lia|done]. }
  rewrite M_bind_unfold. destruct (store_shared _ _ g1) as [[id g2]|] eqn:E; [|done].
  assert (connections_ g2 = connections_ g) as Hcs by (by injection E as _ <-).
  rewrite M_bind_unfold. cbn [gets]. rewrite Hcs, M_bind_unfold.
  destruct (collect_and_share id (connections_ g) ∅ g2) as [[others g3]|] eqn:E3; [|done].
  assert (shared_ok g1) as Hok1.
  { eapply (shared_ok_frame g g1); [exact Hok|exact Hk| |done..].
    rewrite Hc1, processing_count_eq. change (connections_ g1) with (connections_ g).
    destruct Hw. lia. }
  pose proof (collect_and_share_spec _ _ _ _ _ _ E3) as ->.
  apply andb_true_iff in Hn as [[Hd%bool_decide_eq_true Hz]%andb_true_iff _].
  apply collect_files in E3; [|by rewrite <- list_fmap_compose|].
  2: { apply Forall_forall. intros e He. split; [|apply lookup_empty].
       rewrite forallb_forall in Hz. apply list_elem_of_In in He.
       by apply Hz, bool_decide_eq_true in He. }
  rewrite fmap_empty, right_id_L in E3 by apply _.
  destruct (share_told _ _ id (recipients (λ _, true) (connections_ g)) g1 g2 Hok1 (proj2 Hw) Hs E
    (recipients_NoDup _ _ Hk)) as (Hs3 & Hh & _ & _).
  set (g3 := shared_with _ _ g2) in *. rewrite M_bind_unfold. cbn [start_write modify].
  intros [= _ <-]. set (w := [(b, Write (notice_message (FilesOfOthers others)))]).
  split_and!; [cbn; by rewrite Hcs| |right].
  - intros a j. cbn [sent on_sent on_connections shared_storage_]. rewrite elem_of_app.
    intros [Hin|Hin]; [by eapply Hs3|]. by apply list_elem_of_singleton in Hin.
  - exists files, others. split_and!; [exact Ef|exact E3|]. intros a.
    assert (keeps_buffers g3 (on_sent w g3)) as Hb by (intros i m k ?; by exists k).
    pose proof (heard_more a g3 (on_sent w g3) w Hs3 Hb eq_refl) as Hm.
    change (heard a (on_connections _ _)) with (heard a (on_sent w g3)). rewrite Hm, (Hh a).
    rewrite recipients_all, <- app_assoc by done. do 2 f_equal. cbn. unfold heard_in. cbn [fst snd].
    rewrite (bool_decide_ext (b = a) (a = b)) by done. by case_bool_decide.
Qed.
End signing_off.
