(* ===== verification/NoticesInv.v ===== *)
(** * NoticesInv: every client's picture is right

    [informed]: the notifications a registered client was sent are the messages of
    notices whose replay is the board, up to the client itself.  Each way the manager
    changes clients, trees and notifications keeps it. *)

From S2P Require Import Prelude Hoare Text Protocol Validators Vfs VfsTree VfsAdd VfsDelete.
From S2P Require Import VfsPaths VfsSpec VfsEntries StdMap BackupRequests DownloadManager UsersDb.
From S2P Require Import Scheduler Manager ManagerSpec ManagerFrame DownloadSpec ManagerInv.
From S2P Require Import Handler Connection Notices NoticesSpec.

Section informed.
Context `{Protocol} `{BoostSplitLaws}.
Implicit Types (g : manager) (a b : Z) (n : str).

Local Abbreviation nick c := (nickname_ (client_ c)).
Local Abbreviation file_entries := (file_entries PATH_SEPARATOR_CHR).
Local Abbreviation listed := (listed PATH_SEPARATOR_CHR).
Local Notation "g ⟦ a ⟧" := (m_find a (connections_ g)) (at level 1, format "g ⟦ a ⟧").

(** The notices [ns] tell [a], whose name is [n], everything about the others. *)
Definition knows a n g (ns : list notice) : Prop :=
  heard a g = map notice_message ns ∧ delete n (replay ns) = delete n (board g).

Record informed g : Prop := {
  inf_stored : stored g;
  inf_trees a c : (a, c) ∈ connections_ g → ∃ t, listed (tree_of c) t;
  inf_told a c : g⟦a⟧ = Some c → is_processing c = true → ∃ ns, knows a (nick c) g ns;
  inf_deaf a c : g⟦a⟧ = Some c → is_processing c = false → heard a g = [];
}.

(** ** The board *)

Lemma well_named_nicks g :
  well_named g = true → NoDup (map (λ e : Z * connection, nick e.2) (processing_conns g)).
Proof. by intros [[?%bool_decide_eq_true _]%andb_true_iff _]%andb_true_iff. Qed.

Lemma well_named_trees g a c :
  well_named g = true → (a, c) ∈ connections_ g → distinct_siblings (tree_of c) = true.
Proof.
  intros [_ Ht]%andb_true_iff Hin. rewrite forallb_forall in Ht. apply (Ht (a, c)).
  by apply list_elem_of_In.
Qed.

Lemma board_Some g n X :
  NoDup (keys (connections_ g)) → well_named g = true →
  board g !! n = Some X
  ↔ ∃ a c, g⟦a⟧ = Some c ∧ is_processing c = true ∧ nick c = n ∧ X = file_entries (tree_of c).
Proof.
  intros Hk Hn. unfold board. rewrite <- elem_of_list_to_map.
  - rewrite list_elem_of_fmap. split.
    + intros ([a c] & [= -> ->] & [Hp Hin]%list_elem_of_filter). exists a, c.
      split; [by apply m_find_NoDup|done].
    + intros (a & c & Hf & Hp & <- & ->). exists (a, c). split; [done|].
      apply list_elem_of_filter. split; [done|by apply m_find_elem].
  - rewrite <- list_fmap_compose. by apply well_named_nicks.
Qed.

Lemma board_client g a c :
  NoDup (keys (connections_ g)) → well_named g = true → g⟦a⟧ = Some c → is_processing c = true →
  board g !! nick c = Some (file_entries (tree_of c)).
Proof. intros Hk Hn Hf Hp. apply board_Some; [done..|]. by exists a, c. Qed.

(** Two registered clients of one name are one. *)
Lemma one_name g a b c c' :
  NoDup (keys (connections_ g)) → well_named g = true →
  g⟦a⟧ = Some c → g⟦b⟧ = Some c' → is_processing c = true → is_processing c' = true →
  nick c = nick c' → a = b.
Proof.
  intros Hk Hn%well_named_nicks Ha Hb Hp Hp' E.
  assert ((a, c) ∈ processing_conns g) as H1a
    by (apply list_elem_of_filter; split; [done|by apply m_find_elem]).
  assert ((b, c') ∈ processing_conns g) as H1b
    by (apply list_elem_of_filter; split; [done|by apply m_find_elem]).
  apply list_elem_of_lookup in H1a as [i Hi], H1b as [j Hj].
  assert (i = j) as ->.
  { eapply NoDup_lookup; [exact Hn| |];
      rewrite list_lookup_fmap; [rewrite Hi|rewrite Hj]; cbn; by rewrite ?E. }
  congruence.
Qed.

(** The clients of the other names are the same. *)
Definition same_others n g g' : Prop :=
  ∀ m, m ≠ n → ∀ Y,
    (∃ a c, g'⟦a⟧ = Some c ∧ is_processing c = true ∧ nick c = m ∧ Y = file_entries (tree_of c))
    ↔ ∃ a c, g⟦a⟧ = Some c ∧ is_processing c = true ∧ nick c = m ∧ Y = file_entries (tree_of c).

Lemma board_ext g g' n F :
  NoDup (keys (connections_ g)) → NoDup (keys (connections_ g')) →
  well_named g = true → well_named g' = true → same_others n g g' →
  board g' !! n = F (board g !! n) → board g' = partial_alter F n (board g).
Proof.
  intros Hk Hk' Hn Hn' Hother Hat. apply map_eq. intros m.
  destruct (decide (m = n)) as [->|Hne]; [by rewrite lookup_partial_alter_eq|].
  rewrite lookup_partial_alter_ne by done. apply option_eq. intros Y.
  rewrite !board_Some by done. by apply Hother.
Qed.

(** A change of one client that keeps its name. *)
Lemma same_others_update b c h g g' :
  g⟦b⟧ = Some c → connections_ g' = m_update b h (connections_ g) → nick (h c) = nick c →
  same_others (nick c) g g'.
Proof.
  intros Hb Ec Hh m Hm Y.
  assert (∀ a, g'⟦a⟧ = if bool_decide (a = b) then Some (h c) else g⟦a⟧) as Hat.
  { intros a. rewrite Ec, m_find_update. case_bool_decide; [subst; by rewrite Hb|done]. }
  split; intros (a & c0 & Ha & Hrest); exists a, c0.
  - rewrite Hat in Ha. case_bool_decide; [|done]. subst a. injection Ha as <-.
    destruct Hrest as (_ & E & _). congruence.
  - rewrite Hat. case_bool_decide; [|done]. subst a. rewrite Hb in Ha. injection Ha as <-.
    by destruct Hrest as (_ & <- & _).
Qed.

(** ** Steps *)

(** Nobody registers, nobody who is registered changes, nothing is said. *)
Lemma informed_silent g g' :
  informed g → stored g' → (∀ a, heard a g' = heard a g) →
  processing_conns g' = processing_conns g →
  NoDup (keys (connections_ g)) →
  (∀ a c, (a, c) ∈ connections_ g' → ∃ t, listed (tree_of c) t) →
  (∀ a c, g'⟦a⟧ = Some c → is_processing c = false → heard a g = []) →
  informed g'.
Proof.
  intros [Hs Ht Hp Hd] Hs' Hsame Ec Hk Ht' Hd'.
  split; [done|done| |].
  - intros a c Hf Hc.
    assert ((a, c) ∈ processing_conns g) as Hin.
    { rewrite <- Ec. apply list_elem_of_filter. split; [done|by apply m_find_elem]. }
    apply list_elem_of_filter in Hin as [_ Hin%(m_find_NoDup _ _ _ Hk)].
    destruct (Hp a c Hin Hc) as [ns [E1 E2]]. exists ns. unfold knows, board.
    rewrite Hsame, Ec. done.
  - intros a c Hf Hc. rewrite Hsame. by eapply Hd'.
Qed.

Lemma informed_unsaid g g' :
  informed g → unsaid g g' → NoDup (keys (connections_ g)) → informed g'.
Proof.
  intros Hi [Hh Ec] Hk. destruct (hushed_heard g g' (inf_stored g Hi) Hh) as [Hs' Hsame].
  apply (informed_silent g); try done.
  - unfold processing_conns. by rewrite Ec.
  - rewrite Ec. apply Hi.
  - rewrite Ec. apply Hi.
Qed.

(** A change of a registered client's tree, and the notice of it to the others. *)
Lemma informed_change b c v nt f g g' :
  informed g → NoDup (keys (connections_ g)) → well_named g = true → well_named g' = true →
  g⟦b⟧ = Some c → is_processing c = true →
  connections_ g' = m_update b (with_tree v) (connections_ g) → (∃ t, listed v t) →
  tells (nick c) (notice_message nt) g g' →
  (∀ P, apply_notice nt P = alter f (nick c) P) → file_entries v = f (file_entries (tree_of c)) →
  informed g'.
Proof.
  intros [Hs Ht Hp Hd] Hk Hn Hn' Hb Hpb Ec Hv [Hs' Hh] Hnt Hf.
  assert (∀ a, g'⟦a⟧ = if bool_decide (a = b) then Some (with_tree v c) else g⟦a⟧) as Hat.
  { intros a. rewrite Ec, m_find_update. case_bool_decide; [subst; by rewrite Hb|done]. }
  assert (NoDup (keys (connections_ g'))) as Hk' by (by rewrite Ec, keys_update).
  assert (board g' = alter f (nick c) (board g)) as HB.
  { apply (board_ext g g' (nick c) (fmap f)); try done.
    - by eapply same_others_update.
    - rewrite (board_client g b c) by done. cbn. rewrite <- Hf.
      apply (board_client g' b (with_tree v c)); try done. by rewrite Hat, bool_decide_eq_true_2. }
  split; [done| | |].
  - intros a c0 Hin. rewrite Ec in Hin. apply elem_of_m_update in Hin as (c1 & Hin & ->).
    case_bool_decide; [done|]. by eapply Ht.
  - intros a c0 Ha Hc0. rewrite Hat in Ha. case_bool_decide as Ea.
    + subst a. injection Ha as <-. destruct (Hp b c Hb Hpb) as [ns [E1 E2]]. exists ns. split.
      * rewrite (Hh b), Hb, Hpb. unfold has_nickname. rewrite bool_decide_eq_true_2 by done.
        by rewrite app_nil_r.
      * cbn [client_ with_tree nickname_]. rewrite E2, HB. by rewrite delete_alter_eq.
    + destruct (Hp a c0 Ha Hc0) as [ns [E1 E2]]. exists (ns ++ [nt]).
      assert (nick c0 ≠ nick c) as Hne by (intros E; by apply Ea, (one_name g a b c0 c)).
      split.
      * rewrite (Hh a), Ha, Hc0. unfold has_nickname. rewrite bool_decide_eq_false_2 by done.
        by rewrite E1, map_app.
      * rewrite replay_snoc, Hnt, HB, !delete_alter_ne by done. by f_equal.
  - intros a c0 Ha Hc0. rewrite Hat in Ha. case_bool_decide as Ea.
    + injection Ha as <-. change (is_processing c = false) in Hc0. congruence.
    + rewrite (Hh a), Ha, Hc0. by rewrite (Hd a c0), app_nil_r.
Qed.

(** A client leaves; if it has registered, the others are told. *)
Lemma informed_leave b c g g' :
  informed g → NoDup (keys (connections_ g)) → well_named g = true → well_named g' = true →
  g⟦b⟧ = Some c → connections_ g' = m_erase b (connections_ g) → stored g' →
  (∀ a, heard a g' = heard a g
     ++ if is_processing c
        then to_all (notice_message (LoggedOut (nick c))) (m_erase b (connections_ g)) a else []) →
  informed g'.
Proof.
  intros Hi Hk Hn Hn' Hb Ec Hs' Hh.
  assert (NoDup (keys (connections_ g'))) as Hk' by (by rewrite Ec; apply keys_erase_NoDup).
  assert (∀ a, g'⟦a⟧ = if bool_decide (a = b) then None else g⟦a⟧) as Hat
    by (intros a; by rewrite Ec, m_find_erase).
  assert (∀ a c0, (a, c0) ∈ connections_ g' → ∃ t, listed (tree_of c0) t) as Ht'.
  { intros a c0. rewrite Ec. intros [_ Hin]%elem_of_m_erase. by eapply inf_trees. }
  assert (∀ a c0, g'⟦a⟧ = Some c0 → g⟦a⟧ = Some c0 ∧ a ≠ b) as Hold.
  { intros a c0. rewrite Hat. by case_bool_decide. }
  destruct (is_processing c) eqn:Hpb.
  - assert (board g' = delete (nick c) (board g)) as HB.
    { apply (board_ext g g' (nick c) (λ _, None)); try done.
      - intros m Hm Y. split; intros (a & c0 & Ha & Hrest); exists a, c0.
        + apply Hold in Ha as [Ha _]. done.
        + rewrite Hat. case_bool_decide; [|done]. subst a. rewrite Hb in Ha.
          injection Ha as <-. by destruct Hrest as (_ & <- & _).
      - apply eq_None_not_Some. intros [Y (a & c0 & Ha & Hc0 & E & _)%board_Some]; [|done..].
        apply Hold in Ha as [Ha Hne]. by apply Hne, (one_name g a b c0 c). }
    split; [done|done| |].
    + intros a c0 Ha Hc0. pose proof Ha as [Ha0 Hne]%Hold.
      destruct (inf_told g Hi a c0 Ha0 Hc0) as [ns [E1 E2]]. exists (ns ++ [LoggedOut (nick c)]).
      split.
      * rewrite (Hh a), E1, map_app. f_equal. unfold to_all. rewrite <- Ec, Ha. by rewrite Hc0.
      * rewrite replay_snoc, HB. cbn [apply_notice].
        rewrite (delete_delete (replay ns)), (delete_delete (board g)). by rewrite E2.
    + intros a c0 Ha Hc0. pose proof Ha as [Ha0 Hne]%Hold. rewrite (Hh a).
      unfold to_all. rewrite <- Ec, Ha, Hc0, app_nil_r. by eapply inf_deaf.
  - apply (informed_silent g); try done.
    + intros a. by rewrite Hh, app_nil_r.
    + unfold processing_conns. rewrite Ec. unfold m_erase. rewrite list_filter_filter.
      apply filter_ext_in. intros [a c0] Hin. cbn [fst snd]. split; [by intros [? _]|].
      intros Hc0. split; [done|]. intros ->. apply (m_find_NoDup _ _ _ Hk) in Hin. congruence.
    + intros a c0 [Ha _]%Hold. by eapply inf_deaf.
Qed.

(** ** Registering *)

Lemma board_none g : count_processing (connections_ g) = 0%nat → board g = ∅.
Proof.
  unfold board, processing_conns, count_processing. intros Hn%length_zero_iff_nil. by rewrite Hn.
Qed.

(** A client with the tree [v] changes nothing else. *)
Lemma well_named_tree b c v g g1 :
  well_named g = true → g⟦b⟧ = Some c → connections_ g1 = m_update b (with_tree v) (connections_ g) →
  distinct_siblings v = true → well_named g1 = true.
Proof.
  intros [[Hn Hz]%andb_true_iff Ht]%andb_true_iff Hb Ec Hv.
  assert (∀ (f : connection → str), (∀ c, f (with_tree v c) = f c) →
    map (λ e : Z * connection, f e.2) (processing_conns g1)
    = map (λ e : Z * connection, f e.2) (processing_conns g)) as Hsame.
  { intros f Hf. unfold processing_conns. rewrite Ec. unfold m_update. clear Ec Hn Hz Ht Hb.
    induction (connections_ g) as [|[a c0] cs IH]; [done|]. cbn [map fst snd].
    assert (∀ c1, is_processing (with_tree v c1) = is_processing c1) as Hp by done.
    case_bool_decide; destruct (is_processing c0) eqn:E.
    - rewrite !filter_cons_True by (cbn; rewrite ?Hp; done). cbn. by rewrite Hf, IH.
    - rewrite !filter_cons_False by (cbn; rewrite ?Hp; congruence). done.
    - rewrite !filter_cons_True by done. cbn. by rewrite IH.
    - rewrite !filter_cons_False by (cbn; congruence). done. }
  unfold well_named. rewrite (Hsame (λ c, nick c)) by done.
  apply andb_true_iff. split; [apply andb_true_iff; split; [done|]|].
  - rewrite forallb_forall in *. intros e He.
    assert (nick e.2 ∈ map (λ e : Z * connection, nick e.2) (processing_conns g)) as Hin.
    { rewrite <- (Hsame (λ c, nick c)) by done. apply list_elem_of_fmap. exists e.
      split; [done|by apply list_elem_of_In]. }
    apply list_elem_of_fmap in Hin as (e' & -> & He'). by apply Hz, list_elem_of_In.
  - rewrite forallb_forall in *. intros [a c0] Hin%list_elem_of_In. rewrite Ec in Hin.
    apply elem_of_m_update in Hin as (c1 & Hin & ->). cbn [snd].
    destruct (bool_decide (a = b)); [exact Hv|].
    by apply (Ht (a, c1)), list_elem_of_In.
Qed.

(** A client registers the tree [v]: the others are told of it, and it of them. *)

Section registration.
Variables (b : Z) (c : connection) (v : vfs) (files : option (list str)) (g g1 g' : manager).
Hypothesis Hi : informed g.
Hypothesis Hk : NoDup (keys (connections_ g)).
Hypothesis Hn : well_named g = true.
Hypothesis Hn' : well_named g' = true.
Hypothesis Hb : g⟦b⟧ = Some c.
Hypothesis Ec1 : connections_ g1 = m_update b (with_tree v) (connections_ g).
Hypothesis Hh1 : ∀ a, heard a g1 = heard a g.
Hypothesis Ec : connections_ g' = m_update b (with_state processing) (connections_ g1).

Local Abbreviation h := (λ c, with_state processing (with_tree v c)).

Lemma registered_all : connections_ g' = m_update b h (connections_ g).
Proof. by rewrite Ec, Ec1, m_update_update. Qed.

Lemma registered_at a : g'⟦a⟧ = if bool_decide (a = b) then Some (h c) else g⟦a⟧.
Proof. rewrite registered_all, m_find_update. case_bool_decide; [subst; by rewrite Hb|done]. Qed.

Lemma pushed_at a : g1⟦a⟧ = if bool_decide (a = b) then Some (with_tree v c) else g⟦a⟧.
Proof. rewrite Ec1, m_find_update. case_bool_decide; [subst; by rewrite Hb|done]. Qed.

Lemma pushed_keys : NoDup (keys (connections_ g1)).
Proof. by rewrite Ec1, keys_update. Qed.

Lemma registered_keys : NoDup (keys (connections_ g')).
Proof. by rewrite registered_all, keys_update. Qed.

Lemma registered_self : g'⟦b⟧ = Some (h c).
Proof. by rewrite registered_at, bool_decide_eq_true_2. Qed.

Lemma registered_board : board g' = <[nick c := file_entries v]> (board g).
Proof.
  apply (board_ext g g' (nick c) (λ _, Some (file_entries v))); try done.
  - apply registered_keys.
  - apply (same_others_update b c h); [done|apply registered_all|done].
  - apply (board_client g' b (h c)); [apply registered_keys|done|apply registered_self|done].
Qed.

Lemma pushed_board : delete (nick c) (board g1) = delete (nick c) (board g).
Proof.
  rewrite (board_ext g g1 (nick c) (λ _, board g1 !! nick c)); try done.
  - apply map_eq. intros m. destruct (decide (m = nick c)) as [->|Hne];
      [by rewrite !lookup_delete_eq|]. by rewrite !lookup_delete_ne, lookup_partial_alter_ne.
  - apply pushed_keys.
  - apply (well_named_tree b c v g g1 Hn Hb Ec1).
    apply (well_named_trees g' b (h c) Hn'), m_find_elem, registered_self.
  - by apply (same_others_update b c (with_tree v)).
Qed.

(** Nobody had registered: nobody is told, and there is nothing to know. *)
Lemma registers_alone :
  count_processing (connections_ g1) = 0%nat → (∀ a, heard a g' = heard a g1) →
  knows b (nick c) g' [].
Proof.
  intros Hz Hh. split.
  - rewrite Hh, Hh1. apply (inf_deaf g Hi b c Hb).
    rewrite (count_processing_erase b (with_tree v c) _ pushed_keys) in Hz
      by (by rewrite pushed_at, bool_decide_eq_true_2).
    change (is_processing (with_tree v c)) with (is_processing c) in Hz.
    by destruct (is_processing c).
  - by rewrite registered_board, delete_insert_eq, <- pushed_board, board_none.
Qed.

Section told.
Variable others : gmap str (list str).
Hypothesis Ef : entries PATH_SEPARATOR_CHR (default [] files) = file_entries v.
Hypothesis Eo : entries PATH_SEPARATOR_CHR <$> others = board g1.
Hypothesis Hh : ∀ a, heard a g' = heard a g1
         ++ to_all (notice_message (RegisteredFiles (nick c) files)) (connections_ g1) a
         ++ if bool_decide (a = b) then [notice_message (FilesOfOthers others)] else [].

Lemma registers_among : ∃ ns, knows b (nick c) g' ns.
Proof.
  assert (to_all (notice_message (RegisteredFiles (nick c) files)) (connections_ g1) b
    = if is_processing c then [notice_message (RegisteredFiles (nick c) files)] else []) as Ht.
  { unfold to_all. by rewrite pushed_at, bool_decide_eq_true_2. }
  unfold knows. rewrite registered_board, delete_insert_eq, (Hh b), Hh1, Ht, bool_decide_eq_true_2 by done.
  destruct (is_processing c) eqn:Hpb.
  - destruct (inf_told g Hi b c Hb Hpb) as [ns [E1 E2]].
    exists ((ns ++ [RegisteredFiles (nick c) files]) ++ [FilesOfOthers others]). split.
    + by rewrite E1, !map_app, <- app_assoc.
    + rewrite !replay_snoc. cbn [apply_notice]. rewrite Eo, delete_union, delete_insert_eq.
      by rewrite pushed_board, E2, (idemp_L (∪)).
  - exists [FilesOfOthers others]. split; [by rewrite (inf_deaf g Hi b c Hb Hpb)|].
    cbn. by rewrite Eo, right_id_L, pushed_board by apply _.
Qed.

Lemma others_told a c0 :
  a ≠ b → g⟦a⟧ = Some c0 → is_processing c0 = true → ∃ ns, knows a (nick c0) g' ns.
Proof.
  intros Ea Ha Hc0. destruct (inf_told g Hi a c0 Ha Hc0) as [ns [E1 E2]].
  assert (nick c0 ≠ nick c) as Hne.
  { intros E. apply Ea, (one_name g' a b c0 (h c)); try done.
    - apply registered_keys.
    - by rewrite registered_at, bool_decide_eq_false_2.
    - apply registered_self. }
  exists (ns ++ [RegisteredFiles (nick c) files]). split.
  - rewrite (Hh a), Hh1, E1, map_app. f_equal. unfold to_all.
    by rewrite pushed_at, !bool_decide_eq_false_2, Ha, Hc0, app_nil_r.
  - rewrite replay_snoc, registered_board. cbn [apply_notice]. rewrite Ef, !delete_insert_ne by done.
    by rewrite E2.
Qed.
End told.

Lemma informed_register :
  stored g' → (∃ t, listed v t) →
  (count_processing (connections_ g1) = 0%nat ∧ (∀ a, heard a g' = heard a g1)
   ∨ ∃ others, entries PATH_SEPARATOR_CHR (default [] files) = file_entries v
     ∧ entries PATH_SEPARATOR_CHR <$> others = board g1
     ∧ ∀ a, heard a g' = heard a g1
         ++ to_all (notice_message (RegisteredFiles (nick c) files)) (connections_ g1) a
         ++ if bool_decide (a = b) then [notice_message (FilesOfOthers others)] else []) →
  informed g'.
Proof.
  intros Hs' Hv Hreg. split; [done| | |].
  - intros a c0 Hin. rewrite registered_all in Hin. apply elem_of_m_update in Hin as (c1 & Hin & ->).
    case_bool_decide; [done|]. by eapply (inf_trees g Hi).
  - intros a c0 Ha Hc0. rewrite registered_at in Ha. case_bool_decide as Ea.
    + subst a. injection Ha as <-. change (nick (h c)) with (nick c).
      destruct Hreg as [[Hz Hh]|(others & Ef & Eo & Hh)]; [|by eapply registers_among].
      eexists. by apply registers_alone.
    + destruct Hreg as [[Hz Hh]|(others & Ef & Eo & Hh)]; [|by eapply others_told].
      assert (g1⟦a⟧ = Some c0) as Ha1 by (by rewrite pushed_at, bool_decide_eq_false_2).
      by rewrite (count_processing_erase a c0 _ pushed_keys Ha1), Hc0 in Hz.
  - intros a c0 Ha Hc0. rewrite registered_at in Ha. case_bool_decide as Ea; [by injection Ha as <-|].
    pose proof (inf_deaf g Hi a c0 Ha Hc0) as Hd.
    destruct Hreg as [[Hz Hh]|(others & Ef & Eo & Hh)]; rewrite (Hh a), Hh1, Hd; [done|].
    unfold to_all. by rewrite pushed_at, !bool_decide_eq_false_2, Ha, Hc0.
Qed.
End registration.
End informed.
