(* ===== verification/Steady.v ===== *)
(** * Steady: what the handlers leave alone

    Operations that have nothing to do with downloads add to the writes and leave the
    backed-up requests and the transactions as they are.  Every such operation
    [preserves steady]; the proofs are compositions of the hints, done once for every
    relation that is a [Frame]. *)

From S2P Require Import Prelude Hoare Text Protocol Validators Vfs StdMap BackupRequests.
From S2P Require Import DownloadManager UsersDb Scheduler Manager ManagerSpec ManagerFrame.
From S2P Require Import Handler.

(** Writes are added, connections may go, downloads stay. *)
Record steady (g g' : manager) : Prop := {
  steady_sent : sent g `prefix_of` sent g';
  steady_backup : backup_requests_ g' = backup_requests_ g;
  steady_number : DownloadTransactionsIDCounter g' = DownloadTransactionsIDCounter g;
  steady_downloads : download_transactions_ (download_manager_ g')
                     = download_transactions_ (download_manager_ g);
  steady_uploads : upload_transactions_ (download_manager_ g')
                   = upload_transactions_ (download_manager_ g);
  steady_keys : ∀ a, a ∈ keys (connections_ g') → a ∈ keys (connections_ g);
}.

#[global] Instance steady_preorder : PreOrder steady.
Proof.
  split; [by split|]. intros g1 g2 g3 [S1 ? ? ? ? K1] [S2 ? ? ? ? K2].
  split; [by etrans|congruence..|auto].
Qed.

Lemma steady_alive g g' a : steady g g' → alive g' a = true → alive g a = true.
Proof.
  intros Hs. unfold alive. destruct (m_find a (connections_ g)) eqn:E; [done|].
  destruct (m_find a (connections_ g')) eqn:E'; [|done]. apply m_find_None in E.
  destruct E. apply (steady_keys _ _ Hs), elem_of_keys. apply m_find_elem in E'. eauto.
Qed.

(** ** Frames

    A relation that only looks at the writes, the downloads and some aspect of the
    connections is kept by every operation that changes the clients in the ways [changes]
    allows. *)

Class Frame (R : relation manager) (changes : (connection → connection) → Prop) : Prop := {
  frame_preorder :: PreOrder R;
  frame_others g g' :
    connections_ g' = connections_ g → sent g `prefix_of` sent g' →
    backup_requests_ g' = backup_requests_ g →
    DownloadTransactionsIDCounter g' = DownloadTransactionsIDCounter g →
    download_transactions_ (download_manager_ g') = download_transactions_ (download_manager_ g) →
    upload_transactions_ (download_manager_ g') = upload_transactions_ (download_manager_ g) →
    R g g';
  frame_client a f g : changes f → R g (on_connections (m_update a f) g);
  frame_erase a g : R g (on_connections (m_erase a) g);
  frame_stopped : changes with_stopped;
  frame_state st : changes (with_state st);
  frame_tree v : changes (with_tree v);
}.

Section frame.
Context `{Protocol} `{BoostSplit}.
Context (R : relation manager) {changes : (connection → connection) → Prop} `{!Frame R changes}.

Lemma framed_start_write a m : preserves R (start_write a m).
Proof. intros g x g' [= <- <-]. apply frame_others; try done. by apply prefix_app_r. Qed.

Lemma framed_conn a : preserves R (conn a).
Proof. intros g x g'. unfold conn. destruct (m_find _ _); [|done]. by intros [= <- <-]. Qed.

Lemma framed_on_conn a f : changes f → preserves R (on_conn a f).
Proof. intros Hf. apply preserves_modify. intros g. by apply frame_client. Qed.

Lemma framed_stopped a : preserves R (on_conn a with_stopped).
Proof. apply framed_on_conn, frame_stopped. Qed.
Lemma framed_state a st : preserves R (on_conn a (with_state st)).
Proof. apply framed_on_conn, frame_state. Qed.
Lemma framed_tree a v : preserves R (on_conn a (with_tree v)).
Proof. apply framed_on_conn, frame_tree. Qed.

Lemma framed_store msg n : preserves R (store_shared msg n).
Proof. intros g x g' [= <- <-]. by apply frame_others. Qed.

Lemma framed_counter n : preserves R (modify (λ s, set_processing_counter (n s) s)).
Proof. apply preserves_modify. intros g. by apply frame_others. Qed.

Lemma framed_start_shared a id : preserves R (start_shared_write a id).
Proof. intros g x g' [= <- <-]. apply frame_others; try done. by apply prefix_app_r. Qed.

Lemma framed_share id P : preserves R (share id P).
Proof.
  intros g x g'. rewrite share_spec. intros [= <- <-]. apply frame_others; try done.
  by apply prefix_app_r.
Qed.

Lemma framed_effects es : preserves R (modify (on_disk es)).
Proof. apply preserves_modify. intros g. by apply frame_others. Qed.

Lemma framed_forget a : preserves R (modify (on_connections (m_erase a))).
Proof. apply preserves_modify. intros g. apply frame_erase. Qed.

#[local] Hint Resolve framed_start_write framed_conn framed_stopped framed_state framed_tree
  framed_store framed_counter framed_start_shared framed_share framed_effects framed_forget
  : preserves.

Lemma framed_disconnection a : preserves R (notify_disconnection a).
Proof. unfold notify_disconnection. cbv zeta. preserves. Qed.
#[local] Hint Resolve framed_disconnection : preserves.

Lemma framed_stop a : preserves R (stop a).
Proof. unfold stop. preserves. Qed.

Lemma framed_do_notify nick msg : preserves R (do_notify nick msg).
Proof. unfold do_notify. preserves. Qed.

Lemma framed_collect id cs acc : preserves R (collect_and_share id cs acc).
Proof.
  revert acc. induction cs as [|[a c] cs IH]; intros acc; cbn [collect_and_share]; [preserves|].
  cbv zeta. destruct (is_processing c); [preserves|apply IH].
Qed.
#[local] Hint Resolve framed_do_notify framed_collect : preserves.

Lemma framed_registration a : preserves R (notify_files_registration a).
Proof. unfold notify_files_registration. cbv zeta. preserves. Qed.

Lemma framed_file_add f a : preserves R (notify_file_add f a).
Proof. unfold notify_file_add. cbv zeta. preserves. Qed.
Lemma framed_path_removed f a : preserves R (notify_path_removed f a).
Proof. unfold notify_path_removed. cbv zeta. preserves. Qed.
Lemma framed_path_renamed f h a : preserves R (notify_path_renamed f h a).
Proof. unfold notify_path_renamed. cbv zeta. preserves. Qed.

Lemma framed_written NDEBUG a id : preserves R (shared_write_done NDEBUG a id).
Proof.
  intros g x g'. unfold shared_write_done.
  assert (R g (on_unfinished (remove_one (a, id)) g)) as Hu by (by apply frame_others).
  destruct (alive _ a); [|by intros [= <- <-]].
  intros E. transitivity (on_unfinished (remove_one (a, id)) g); [done|]. revert E.
  assert (∀ f, preserves R (modify (on_storage f))) as Hst.
  { intros f. apply preserves_modify. intros s. by apply frame_others. }
  assert (preserves R (notify_shared_write_done NDEBUG id)) as Hp; [|apply Hp].
  unfold notify_shared_write_done. preserves.
  apply preserves_cassert; [apply _|]. intros s y s' [= <- <-]. by apply frame_others.
Qed.

Lemma framed_set_cached NDEBUG owner path : preserves R (SetFileToCached NDEBUG owner path).
Proof.
  intros g x g'. unfold SetFileToCached. destruct (m_find_if _ _) as [[b c]|]; [|by intros [= _ <-]].
  assert (preserves R (cassert NDEBUG (λ s,
    '(ok, v) ← SetCached PATH_SEPARATOR_CHR path true (remote_file_system_ (client_ c));
    Ok (ok, on_connections (m_update b (with_tree v)) s)))) as Hp; [|apply Hp].
  apply preserves_cassert; [apply _|]. intros s y s'. destruct (SetCached _ _ _ _) as [[ok v]|]; [|done].
  intros [= <- <-]. by apply (framed_tree b v s tt).
Qed.

Lemma framed_notify_download port owner ID c : preserves R (NotifyFileDownload port owner ID c).
Proof.
  intros g x g'. unfold NotifyFileDownload. destruct (m_find_if _ _) as [[b c']|];
    [|by intros [= _ <-]]. destruct (start_write _ _ g) as [[[] g1]|] eqn:E; [|done].
  cbn. intros [= _ <-]. by eapply framed_start_write.
Qed.

(** ** Requests *)

Context `{SqlApi}.
Variables (ra : str → str → str) (port : Z) (d : disk).

(** The same, of the manager of a server; the accounts are not used. *)
Record framedly (v v' : server) : Prop := {
  framedly_mgr : R (mgr v) (mgr v');
  framedly_posted : posted v' = posted v;
  framedly_db : users_db v' = users_db v;
}.
#[global] Instance framedly_preorder : PreOrder framedly.
Proof. split; [by split|]. intros v1 v2 v3 [] []. split; [by transitivity (mgr v2)|congruence..]. Qed.

Lemma framedly_in_mgr {A} (m : M manager A) : preserves R m → preserves framedly (in_mgr m).
Proof.
  intros Hm v x v'. unfold in_mgr. destruct (m (mgr v)) as [[y g']|] eqn:E; [|done].
  cbn. intros [= <- <-]. split; [|done..]. by eapply Hm.
Qed.

#[local] Hint Resolve framed_stop framed_registration framed_file_add framed_path_removed
  framed_path_renamed framedly_in_mgr : preserves.

Lemma framedly_answer a code r : preserves framedly (answer a code r).
Proof. unfold answer. preserves. Qed.
Lemma framedly_caught a r f : preserves framedly (caught a r f).
Proof. destruct f; cbn; try apply framedly_answer; preserves. Qed.
#[local] Hint Resolve framedly_answer framedly_caught : preserves.

(** The requests that concern neither the accounts nor the downloads. *)
Definition is_plain (t : task) : bool :=
  match t with
  | do_signin _ _ _ | do_signup _ _ _ | do_delete_account _ | do_download_file _ => false
  | _ => true
  end.

Lemma execute_framed j : is_plain (job_task j) = true → preserves framedly (execute ra port d j).
Proof.
  intros Hj v x v'. unfold execute. destruct (alive _ _); [|by intros [= <- <-]].
  destruct j as [a t]. cbn [job_connection job_task] in *.
  assert (∀ m : M server unit, preserves framedly m → m v = Ok (x, v') → framedly v v') as Hp
    by (intros m Hm E; by eapply Hm).
  destruct t; try done; apply Hp; clear Hp.
  - unfold run_push_files. preserves.
  - preserves.
  - unfold run_add_file. preserves.
  - unfold run_remove_path. preserves.
  - unfold run_remame_path. preserves.
Qed.
End frame.

(** ** Steadiness is a frame *)

Section steady.
Context `{Protocol} `{BoostSplit}.

#[global] Instance steady_frame : Frame steady (λ _, True).
Proof.
  split; try done; [apply _| | |].
  - intros g g' Ec. split; try done. by rewrite Ec.
  - intros a f g _. split; try done. intros b. cbn [connections_ on_connections]. by rewrite keys_update.
  - intros a g. split; try done. by intros b [_ ?]%elem_of_keys_erase.
Qed.

Lemma steady_start_write a m : preserves steady (start_write a m).
Proof. exact (framed_start_write steady a m). Qed.
Lemma steady_stop a : preserves steady (stop a).
Proof. exact (framed_stop steady a). Qed.
Lemma steady_written NDEBUG a id : preserves steady (shared_write_done NDEBUG a id).
Proof. exact (framed_written steady NDEBUG a id). Qed.
Lemma steady_set_cached NDEBUG owner path : preserves steady (SetFileToCached NDEBUG owner path).
Proof. exact (framed_set_cached steady NDEBUG owner path). Qed.
Lemma steady_notify_download port owner ID c : preserves steady (NotifyFileDownload port owner ID c).
Proof. exact (framed_notify_download steady port owner ID c). Qed.

Context `{SqlApi}.
Variables (ra : str → str → str) (port : Z) (d : disk).

(** The same, of the manager of a server. *)
Definition steadily (v v' : server) : Prop := steady (mgr v) (mgr v') ∧ posted v' = posted v.
#[global] Instance steadily_preorder : PreOrder steadily.
Proof.
  split; [by split|]. intros v1 v2 v3 [A1 B1] [A2 B2]. split; [by transitivity (mgr v2)|congruence].
Qed.

Lemma steadily_mgr {A} (m : M manager A) : preserves steady m → preserves steadily (in_mgr m).
Proof.
  intros Hm v x v'. unfold in_mgr. destruct (m (mgr v)) as [[y g']|] eqn:E; [|done].
  cbn. intros [= <- <-]. split; [|done]. by eapply Hm.
Qed.

Lemma steadily_db {A} (f : database → outcome (A * database)) : preserves steadily (in_db f).
Proof.
  intros v x v'. unfold in_db. destruct (f (users_db v)) as [[y db]|]; [|done].
  by intros [= <- <-].
Qed.

Lemma steadily_answer a code r : preserves steadily (answer a code r).
Proof. apply steadily_mgr, steady_start_write. Qed.
Lemma steadily_log_in a l : preserves steadily (log_in a l).
Proof. apply steadily_mgr. by exact (framed_on_conn steady a _ I). Qed.
Lemma steadily_conn a : preserves steadily (in_mgr (conn a)).
Proof. apply steadily_mgr. exact (framed_conn steady a). Qed.
Lemma steadily_gets {A} (f : manager → A) : preserves steadily (in_mgr (gets f)).
Proof. apply steadily_mgr, preserves_gets, _. Qed.
#[local] Hint Resolve steadily_db steadily_answer steadily_log_in steadily_conn steadily_gets : preserves.

(** Every request but a download. *)
Definition is_download (t : task) : bool :=
  match t with do_download_file _ => true | _ => false end.

Lemma execute_steady j : is_download (job_task j) = false → preserves steadily (execute ra port d j).
Proof.
  intros Hj v x v' E. destruct (is_plain (job_task j)) eqn:Hp.
  { by destruct (execute_framed steady ra port d j Hp v x v' E). }
  unfold execute in E. destruct (alive _ _); [|by injection E as <- <-].
  assert (∀ m : M server unit, preserves steadily m → m v = Ok (x, v') → steadily v v') as Hm
    by (intros m Hm E'; by eapply Hm).
  destruct (job_task j); try done; revert E; apply Hm.
  - unfold run_signin. preserves.
  - unfold run_signup. preserves.
  - unfold run_delete_account. preserves.
Qed.
End steady.
