(* ===== verification/Accounting.v ===== *)
(** * Accounting: every request is accounted for

    For each connection and each request number: the replies that ended a request, and
    the requests that wait for a file.  No operation loses a waiting request of a
    connection that is there: it stays, or it becomes a reply. *)

From S2P Require Import Prelude Hoare Text Protocol Validators Vfs StdMap BackupRequests.
From S2P Require Import DownloadManager UsersDb Scheduler Manager ManagerSpec ManagerFrame.
From S2P Require Import DownloadSpec ManagerInv Handler HandlerSpec Steady.

(** ** Counting *)

Implicit Types (g : manager) (a : Z) (r : str).

(** A reply to [a] under the number [r], with one of the codes. *)
Definition is_reply_to (codes : responses.t → bool) a r (w : Z * write) : bool :=
  match w with
  | (b, Write (StringReplyMessage code id _)) => codes code && bool_decide (b = a ∧ id = r)
  | _ => false
  end.

(** The requests of [a] under [r] that were accepted, and those that came to an end. *)
Definition accepted a r g : nat := count (is_reply_to accepted_code a r) (sent g).
Definition ended a r g : nat := count (is_reply_to final_code a r) (sent g).

Definition waits_for a r (q : Request) : bool :=
  bool_decide (WeakConnection q = a ∧ RequestID q = r).
Definition requests_of (m : requests_map) : list Request := m ≫= λ e, Requests e.2.1.

(** Those that wait for a file. *)
Definition waiting a r g : nat := count (waits_for a r) (requests_of (backup_requests_ g)).

(** ** The backed-up requests as one list *)

Lemma requests_of_perm m m' : m ≡ₚ m' → requests_of m ≡ₚ requests_of m'.
Proof. intros E. unfold requests_of. by rewrite E. Qed.

Lemma requests_of_split id m :
  NoDup (keys m) → requests_of m ≡ₚ waiting_on id m ++ requests_of (m_erase id m).
Proof.
  intros Hd. unfold waiting_on. destruct (m_find id m) as [[info t]|] eqn:E.
  - rewrite (requests_of_perm _ _ (m_erase_perm _ _ _ Hd E)) at 1. done.
  - by rewrite m_erase_absent.
Qed.

(** A change of one entry. *)
Lemma requests_of_change id m m' :
  NoDup (keys m) → NoDup (keys m') → (∀ j, j ≠ id → m_find j m' = m_find j m) →
  requests_of m' ++ waiting_on id m ≡ₚ requests_of m ++ waiting_on id m'.
Proof.
  intros Hm Hm' Hj. rewrite (requests_of_split id m Hm), (requests_of_split id m' Hm').
  rewrite (requests_of_perm (m_erase id m') (m_erase id m)); [solve_Permutation|].
  apply m_find_perm; [by apply keys_erase_NoDup..|]. intros j. rewrite !m_find_erase.
  case_bool_decide; auto.
Qed.

Lemma requests_of_update id f m :
  (∀ e, Requests (f e).1 = Requests e.1) → requests_of (m_update id f m) = requests_of m.
Proof.
  intros Hf. unfold requests_of, m_update. induction m as [|[k e] m IH]; [done|].
  cbn [map fst snd]. rewrite !bind_cons, IH. by case_bool_decide; cbn; rewrite ?Hf.
Qed.

(** ** Accounted operations *)

(** Nothing that was accepted is taken back, and for a connection that is still there
    the requests that ended and those that wait are not fewer. *)
Record accounted g g' : Prop := {
  ac_numbered : numbered g → numbered g';
  ac_alive : ∀ a, alive g' a = true → alive g a = true;
  ac_accepted : ∀ a r, (accepted a r g ≤ accepted a r g')%nat;
  ac_ended : numbered g → ∀ a r, alive g' a = true →
    (ended a r g + waiting a r g ≤ ended a r g' + waiting a r g')%nat;
}.

#[global] Instance accounted_preorder : PreOrder accounted.
Proof.
  split; [by split|]. intros g1 g2 g3 [N1 A1 C1 E1] [N2 A2 C2 E2]. split; auto.
  - intros a r. etrans; [apply C1|apply C2].
  - intros Hn a r Ha. etrans; [apply E1|apply E2]; auto.
Qed.

Lemma steady_accounted g g' : steady g g' → accounted g g'.
Proof.
  intros Hs. pose proof Hs as [Hsent Hb Hn Hd Hk]. split.
  - apply numbered_ext; [by rewrite Hb|done].
  - intros a. by eapply steady_alive.
  - intros a r. by apply count_prefix.
  - intros _ a r _. unfold waiting. rewrite Hb. pose proof (count_prefix (is_reply_to final_code a r) _ _ Hsent).
    unfold ended. lia.
Qed.

(** A change of the numbers and timers alone. *)
Lemma renumbered_accounted g g' :
  (numbered g → numbered g') → connections_ g' = connections_ g → sent g' = sent g →
  requests_of (backup_requests_ g') = requests_of (backup_requests_ g) → accounted g g'.
Proof.
  intros Hn Hc Hs Hr. split; [done| |by unfold accepted; rewrite Hs|].
  - intros a. by rewrite (alive_connections _ _ Hc).
  - intros _ a r _. unfold ended, waiting. by rewrite Hs, Hr.
Qed.

Lemma answers_count qs ws a r :
  Forall2 answers_request qs ws →
  count (is_reply_to final_code a r) ws = count (waits_for a r) qs.
Proof.
  induction 1 as [|q w qs ws (code & hs & Hc & ->) _ IH]; [done|].
  rewrite !count_cons, IH. cbn [is_reply_to]. by rewrite Hc.
Qed.

Section manager.
Context `{Protocol} `{BoostSplit}.
Variables (NDEBUG : bool) (port : Z) (d : disk).

Lemma for_each_and_remove_accounted id f :
  answering f → (∀ q, preserves still (f q)) → preserves accounted (for_each_and_remove id f).
Proof.
  intros Hf Hst g [] g' E. destruct (for_each_and_remove_spec f id g Hf)
    as (g1 & ws & E1 & Hs & Ha & Hc & Hb). rewrite E in E1. injection E1 as <-.
  pose proof (calm_for_each_and_remove true id f Hst _ _ _ E) as [_ [Hn _]].
  split; [done| | |].
  - intros a. by rewrite (alive_connections _ _ Hc).
  - intros a r. unfold accepted. rewrite Hs, count_app. lia.
  - intros (Hd & _ & _) a r Hal. unfold ended, waiting. rewrite Hs, Hb, count_app.
    rewrite (requests_of_split id _ Hd), count_app, (answers_count _ _ a r Ha).
    unfold reachable. rewrite (count_filter (waits_for a r) (λ q, alive g (WeakConnection q))).
    + lia.
    + intros q [<- _]%bool_decide_eq_true. by rewrite <- (alive_connections _ _ Hc).
Qed.

Lemma deny_accounted id : preserves accounted (for_each_and_remove id GetDownloadDenyHandler).
Proof.
  apply for_each_and_remove_accounted; [apply deny_answering|apply still_deny_handler].
Qed.

Lemma deliver_accounted id path :
  preserves accounted (for_each_and_remove id (λ q,
    DeliverFileFromLocalStorage port d (WeakConnection q) (RequestedCompression q) (RequestID q) path)).
Proof.
  apply for_each_and_remove_accounted; [apply deliver_answering|]. intros q. apply still_deliver.
Qed.

Lemma start_write_accounted a m : preserves accounted (start_write a m).
Proof. eapply preserves_impl; [apply steady_accounted|apply steady_start_write]. Qed.

#[local] Hint Resolve deny_accounted deliver_accounted start_write_accounted : preserves.

Lemma valid_accounted id :
  preserves accounted (λ s, let '(r, m) := IsRequestIDValid id (backup_requests_ s) in
                            Ok (r, set_backup m s)).
Proof.
  intros g x g'. unfold IsRequestIDValid.
  destruct (m_find id _) as [[info t]|]; intros [= <- <-]; apply renumbered_accounted; try done.
  - apply numbered_ext; [apply keys_update|done].
  - by apply requests_of_update.
Qed.

Lemma begin_accounted ID FileName FileSize c h :
  preserves accounted (λ s,
    '(ok, dm) ← BeginDownloadTransaction d ID FileName FileSize c h (download_manager_ s);
    Ok (ok, set_downloads dm s)).
Proof.
  intros g x g'. destruct (BeginDownloadTransaction _ _ _ _ _ _ _) as [[ok dm]|]; [|done].
  cbn. intros [= <- <-]. by apply renumbered_accounted.
Qed.

Lemma notify_download_accounted owner ID c :
  preserves accounted (NotifyFileDownload port owner ID c).
Proof. eapply preserves_impl; [apply steady_accounted|apply steady_notify_download]. Qed.
#[local] Hint Resolve valid_accounted begin_accounted notify_download_accounted : preserves.

Lemma reply_accounted msg : preserves accounted (resolve_download_reply port d msg).
Proof. unfold resolve_download_reply. cbv zeta. preserves. Qed.

Lemma assert_end_accounted ID : preserves accounted (assert_end_download NDEBUG ID).
Proof.
  unfold assert_end_download. apply preserves_cassert; [apply _|]. intros g x g'.
  destruct (EndDownloadTransaction _ _) as [n dm]. intros [= <- <-]. by apply renumbered_accounted.
Qed.

Lemma set_cached_accounted owner path : preserves accounted (SetFileToCached NDEBUG owner path).
Proof. eapply preserves_impl; [apply steady_accounted|apply steady_set_cached]. Qed.
#[local] Hint Resolve assert_end_accounted set_cached_accounted : preserves.

Lemma completed_accounted ID h Succes :
  preserves accounted (download_completed port NDEBUG d ID h Succes).
Proof.
  unfold download_completed. apply preserves_bind; [apply _| |intros _; preserves].
  intros g x g'. destruct (CloseDownloadTransaction _ _); [|done]. by intros [= <- <-].
Qed.

Lemma transfer_expired_accounted ID : preserves accounted (download_timer_expired NDEBUG ID).
Proof. unfold download_timer_expired. preserves. Qed.

Lemma request_expired_accounted ID : preserves accounted (backup_timer_expired ID).
Proof. apply deny_accounted. Qed.

(** ** A download query *)

Lemma answered_or_waits_sent q a g g' :
  answered_or_waits q a g g' → sent g `prefix_of` sent g'.
Proof.
  intros [(w & -> & _)|(o & id & info & _ & _ & _ & _ & _ & Hs)]; [by apply prefix_app_r|].
  destruct (m_find id (backup_requests_ g)); [by rewrite Hs|].
  destruct Hs as (hs & _ & ->). by apply prefix_app_r.
Qed.

(** The request that is executed is one more that ended or waits. *)
Lemma answered_or_waits_count q a g g' b r :
  numbered g → numbered g' → answered_or_waits q a g g' →
  (ended b r g + waiting b r g + (if bool_decide (a = b ∧ q_QuerryID q = r) then 1 else 0)
   ≤ ended b r g' + waiting b r g')%nat.
Proof.
  intros (Hd & _) (Hd' & _) Hw.
  pose proof (count_prefix (is_reply_to final_code b r) _ _ (answered_or_waits_sent _ _ _ _ Hw)) as He.
  destruct Hw as [(w & Hs & (code & hs & Hc & ->) & Hb)|(o & id & info & Hf & _ & _ & Hr & Hj & _)].
  - unfold ended, waiting. rewrite Hs, Hb, count_app, count_cons.
    cbn [is_reply_to WeakConnection RequestID]. rewrite Hc. cbn [andb]. lia.
  - pose proof (requests_of_change id _ _ Hd Hd' Hj) as Hp.
    assert (waiting_on id (backup_requests_ g') = Requests info) as Hwo.
    { unfold waiting_on. by rewrite Hf. }
    rewrite Hwo, Hr in Hp. apply (count_Permutation (waits_for b r)) in Hp.
    rewrite !count_app, count_cons in Hp. unfold waits_for at 4 in Hp. cbn [WeakConnection RequestID] in Hp.
    unfold waiting. unfold ended. lia.
Qed.
End manager.
