(* ===== verification/System.v ===== *)
(** * System: the whole server as one transition system

    The parts composed the way the program composes them: connections read messages
    and post requests to the scheduler; the pool threads take them and execute them
    against the clients' trees, the accounts and the connection manager; the
    completion handlers of writes, timers and file transfers call back into the
    manager.  An event is one completion handler, one turn of a pool thread, or one
    expiry; [sys_step] is executable, and a run is a list of events.

    A run is serial: a handler is one event, it runs to its end before the next one
    begins.  The program lets handlers overlap - a handler is several critical sections,
    and the pool threads, the io thread and the download thread run at the same time - so
    the theorems about [serial_reach] say what each handler does to the state it finds, one
    after the other, and not what two handlers do to each other.  That is the subject of
    [Workers], which cuts the handlers into actions: a serial execution is one of its
    interleavings ([threads_alone_atomic]), and [WorkersRaces] has, for the theorems here
    that other interleavings break, a run that breaks them.

    What the environment decides - which socket has data, which timer expires, what the
    disk looks like - is in the event.  Four fields of the state are history: they record
    what happened and nothing reads them. *)

From S2P Require Import Prelude Hoare Text Protocol Validators Vfs StdMap BackupRequests.
From S2P Require Import DownloadManager UsersDb Scheduler Manager Handler Connection.

Section system.
Context `{Protocol} `{BoostSplit} `{SqlApi} `{PriorityQueue (item job)}.
(** The build, [filesystem::path(p).relative_path().append(f)], the download port and
    [std::stoi] of the setting [SEC_TO_W8_ON_INCOMPLETE_MSG]. *)
Variables (NDEBUG : bool) (relative_append : str → str → str) (port : Z)
  (incomplete_message_timeout : outcome Z).

Record system := mkSystem {
  srv : server;                     (* the manager with its connections, the accounts *)
  requests : request_scheduler job;
  acceptor_open : bool;             (* Server::acceptor_ *)
  receiving : list Z;               (* downloads whose receiver is at work *)
  delivering : list Z;              (* uploads whose deliver is at work *)
  used : list Z;                    (* history: every connection there has been *)
  counted : list Z;                 (* history: connections that have registered files *)
  admitted : list job;              (* history: the requests posted *)
  executed : list (job * bool);     (* history: requests, and whether their client was there *)
}.

Definition new_system (no_of_threads : nat) (db : database) : system :=
  mkSystem (mkServer new_manager db []) (new_request_scheduler no_of_threads) true [] []
    [] [] [] [].

Inductive sys_event :=
  | Accepts (a : Z)                          (* a client connects *)
  | Reads (a : Z) (e : Connection.event)     (* its bytes held this *)
  | Fails (a : Z)                            (* a read or write of it fails *)
  | Sends (a BufferID : Z)                   (* a shared write completes *)
  | Starts (i : nat)                         (* a pool thread takes a request *)
  | Finishes (i : nat)                       (* it has executed it *)
  | RequestExpires (id : Z)                  (* the timer of a backed-up request *)
  | Greets (ready : bool) (hello : str) (sock : peer)   (* a peer of the download port *)
  | TransferExpires (id : Z)                 (* the timer of a download transaction *)
  | Receives (id : Z) (Succes : bool)        (* a receiver has finished *)
  | Delivers (id : Z)                        (* a deliver has finished *)
  | Signals.                                 (* SIGINT, SIGTERM *)

Definition with_srv (v : server) (s : system) : system :=
  mkSystem v (requests s) (acceptor_open s) (receiving s) (delivering s) (used s)
    (counted s) (admitted s) (executed s).
Definition with_requests q (s : system) : system :=
  mkSystem (srv s) q (acceptor_open s) (receiving s) (delivering s) (used s) (counted s)
    (admitted s) (executed s).
Definition with_acceptor b (s : system) : system :=
  mkSystem (srv s) (requests s) b (receiving s) (delivering s) (used s) (counted s)
    (admitted s) (executed s).
Definition with_transfers rs ds (s : system) : system :=
  mkSystem (srv s) (requests s) (acceptor_open s) rs ds (used s) (counted s) (admitted s)
    (executed s).
Definition with_used us (s : system) : system :=
  mkSystem (srv s) (requests s) (acceptor_open s) (receiving s) (delivering s) us
    (counted s) (admitted s) (executed s).
Definition with_counted cs (s : system) : system :=
  mkSystem (srv s) (requests s) (acceptor_open s) (receiving s) (delivering s) (used s) cs
    (admitted s) (executed s).
Definition with_admitted js (s : system) : system :=
  mkSystem (srv s) (requests s) (acceptor_open s) (receiving s) (delivering s) (used s)
    (counted s) js (executed s).
Definition with_executed js (s : system) : system :=
  mkSystem (srv s) (requests s) (acceptor_open s) (receiving s) (delivering s) (used s)
    (counted s) (admitted s) js.

(** A handler of the server. *)
Definition on_srv {A} (m : M server A) (s : system) : outcome system :=
  '(_, v) ← m (srv s); Ok (with_srv v s).
Definition on_mgr {A} (m : M manager A) : system → outcome system := on_srv (in_mgr m).

(** The posts of a handler reach the scheduler. *)
Definition flush (s : system) : system :=
  with_srv (mkServer (mgr (srv s)) (users_db (srv s)) [])
    (with_admitted (admitted s ++ (posted (srv s)).*2)
       (with_requests
          (foldl (λ q pj, Scheduler.post pj.1 pj.2 q) (requests s) (posted (srv s))) s)).

(** The history after a handler: a connection that is processing has registered; one
    that is gone is forgotten. *)
Definition recount (s : system) : system :=
  with_counted
    (keys (filter (λ e, bool_decide (e.1 ∈ counted s) || is_processing e.2 = true)
             (connections_ (mgr (srv s))))) s.

(** Which transaction a greeting starts: [inl] a download, [inr] an upload. *)
Definition greeting_starts (ready : bool) (hello : str) (dm : download_manager download_handler)
    : option (Z + Z) :=
  match TryInitTransaction ready hello with
  | Ok (Some (HelloType, id)) =>
      if bool_decide (HelloType = RECEIVER_CODE_STR) then
        match m_find id (upload_transactions_ dm) with Some _ => Some (inr id) | None => None end
      else if bool_decide (HelloType = SENDER_CODE_STR) then
        match m_find id (download_transactions_ dm) with Some _ => Some (inl id) | None => None end
      else None
  | _ => None
  end.

(** [SetSocket] and [Start] on a transaction at work destroy the socket it is using. *)
Definition restarts (s : system) (t : option (Z + Z)) : bool :=
  match t with
  | Some (inl id) => bool_decide (id ∈ receiving s)
  | Some (inr id) => bool_decide (id ∈ delivering s)
  | None => false
  end.

Definition at_work (t : option (Z + Z)) (s : system) : system :=
  match t with
  | Some (inl id) => with_transfers (id :: receiving s) (delivering s) s
  | Some (inr id) => with_transfers (receiving s) (id :: delivering s) s
  | None => s
  end.

Definition greet (ready : bool) (hello : str) (sock : peer) (s : system) : outcome system :=
  let dm := download_manager_ (mgr (srv s)) in
  let started := greeting_starts ready hello dm in
  if restarts s started then Fault UndefinedBehaviour
  else
    s ← on_mgr (λ g, dm ← HandleHandshake NDEBUG false ready hello sock (download_manager_ g);
                     Ok (tt, set_downloads dm g)) s;
    Ok (at_work started s).

(** The download handler of a transaction that is at work. *)
Definition handler_of (id : Z) (s : system) : option download_handler :=
  match m_find id (download_transactions_ (download_manager_ (mgr (srv s)))) with
  | Some (Some r, _) => Some (receiver_handler r)
  | _ => None
  end.

Definition receive_done (d : disk) (id : Z) (Succes : bool) (s : system) : outcome system :=
  match handler_of id s with
  | Some h =>
      s ← on_mgr (download_completed port NDEBUG d id h Succes) s;
      Ok (with_transfers (remove_one id (receiving s)) (delivering s) s)
  | None => Fault UndefinedBehaviour           (* the receiver was destroyed *)
  end.

Definition deliver_done (id : Z) (s : system) : outcome system :=
  s ← on_mgr (λ g, '(_, dm) ← upload_clean_up NDEBUG id (download_manager_ g);
                   Ok (tt, set_downloads dm g)) s;
  Ok (with_transfers (receiving s) (remove_one id (delivering s)) s).

(** A pool thread takes the best request. *)
Definition take_request (i : nat) (s : system) : option system :=
  match request_threads_ (requests s) !! i, run_once (scheduler_ (requests s)) with
  | Some Scheduler.Waiting, Executes p sch =>
      Some (with_requests (with_worker i (Executing p) sch (requests s)) s)
  | _, _ => None
  end.

(** The request a pool thread holds. *)
Definition taken (i : nat) (s : system) : option job :=
  match request_threads_ (requests s) !! i with
  | Some (Executing p) => Some (function_ p)
  | _ => None
  end.

(** It executes it and waits again: the whole handler, without interference ([Workers] has
    the critical sections it consists of). *)
Definition run_request (d : disk) (i : nat) (j : job) (s : system) : outcome system :=
  let there := alive (mgr (srv s)) (job_connection j) in
  s ← on_srv (execute relative_append port d j) s;
  Ok (with_executed (executed s ++ [(j, there)])
        (with_requests
           (with_worker i Scheduler.Waiting (scheduler_ (requests s)) (requests s)) s)).

Definition ticking {V} (id : Z) (m : stdmap (V * timer)) : bool :=
  match m_find id m with Some (_, t) => bool_decide (t = Ticking) | None => false end.

Definition guard_step (b : bool) (o : outcome system) : option (outcome system) :=
  if b then Some o else None.

(** [None]: the event cannot happen in this state. *)
Definition handle (d : disk) (e : sys_event) (s : system) : option (outcome system) :=
  let g := mgr (srv s) in
  match e with
  | Accepts a =>
      guard_step (acceptor_open s && negb (bool_decide (a ∈ used s)))
        (on_mgr (Manager.start a) (with_used (a :: used s) s))
  | Reads a e =>
      guard_step (alive g a)
        (flush <$> on_srv (react port d incomplete_message_timeout a e) s)
  | Fails a => guard_step (alive g a) (on_mgr (Manager.stop a) s)
  | Sends a id =>
      guard_step (bool_decide ((a, id) ∈ unfinished g)) (on_mgr (shared_write_done NDEBUG a id) s)
  | Starts i => Ok <$> take_request i s
  | Finishes i => (λ j, run_request d i j s) <$> taken i s
  | RequestExpires id =>
      guard_step (ticking id (backup_requests_ g)) (on_mgr (backup_timer_expired id) s)
  | Greets ready hello sock => Some (greet ready hello sock s)
  | TransferExpires id =>
      guard_step (ticking id (download_transactions_ (download_manager_ g)))
        (on_mgr (download_timer_expired NDEBUG id) s)
  | Receives id Succes =>
      guard_step (bool_decide (id ∈ receiving s)) (receive_done d id Succes s)
  | Delivers id => guard_step (bool_decide (id ∈ delivering s)) (deliver_done id s)
  | Signals => guard_step (acceptor_open s) (Ok (with_acceptor false s))
  end.

Definition sys_step (d : disk) (e : sys_event) (s : system) : option (outcome system) :=
  (λ o : outcome system, recount <$> o) <$> handle d e s.

(** The 64-bit counters have room for one more. *)
Definition in_range (s : system) : bool :=
  let g := mgr (srv s) in
  (processing_counter_ g <? two64 - 1) && (SharedStorageIDCounter g <? two64 - 1)
  && (DownloadTransactionsIDCounter g <? two64 - 1).

(** The states serial runs lead to, starting with the database [db]: no handler begins
    before the one before it has ended. *)
Inductive serial_reach (n : nat) (db : database) : list sys_event → system → Prop :=
  | reach_new : serial_reach n db [] (new_system n db)
  | reach_step es s d e s' :
      serial_reach n db es s → in_range s = true → sys_step d e s = Some (Ok s') →
      serial_reach n db (es ++ [e]) s'.

(** The run of a list of events. *)
Fixpoint run (es : list (disk * sys_event)) (s : system) : option system :=
  match es with
  | [] => Some s
  | (d, e) :: es =>
      if in_range s then
        match sys_step d e s with Some (Ok s) => run es s | _ => None end
      else None
  end.

Lemma run_reach n db es0 es s s' :
  serial_reach n db es0 s → run es s = Some s' → serial_reach n db (es0 ++ es.*2) s'.
Proof.
  revert es0 s. induction es as [|[d e] es IH]; intros es0 s Hs; cbn [run].
  - intros [= <-]. by rewrite app_nil_r.
  - destruct (in_range s) eqn:Hr; [|done].
    destruct (sys_step d e s) as [[s1|]|] eqn:E; try done. intros HR.
    cbn. rewrite (cons_middle e), app_assoc. eapply IH; [|exact HR]. by econstructor.
Qed.
End system.
