(* ===== verification/RequestInv.v ===== *)
(** * SystemInv: the invariant of the whole server

    Every event of [System] preserves the invariant, and completes unless it is one of
    the crashes the definition [crash] lists. *)

From S2P Require Import Prelude Hoare Text Protocol Validators Vfs VfsTree VfsAdd VfsDelete.
From S2P Require Import VfsPaths VfsSpec StdMap BackupRequests DownloadManager UsersDb.
From S2P Require Import Scheduler Manager ManagerSpec ManagerFrame DownloadSpec ManagerInv.
From S2P Require Import Handler HandlerSpec Connection System.

(** ** Requests *)

Section requests.
Context `{Protocol} `{BoostSplitLaws} `{SqlApi} `{!SqlThrows}.
Variables (NDEBUG : bool) (ra : str → str → str) (port : Z) (d : disk).
Implicit Types (C : list Z) (v : server) (a : Z) (r : str).

(** The request runs to its end, and leaves a good manager. *)
Definition ends C v (o : outcome (unit * server)) : Prop :=
  ∃ v', o = Ok (tt, v') ∧ evolved NDEBUG C (mgr v) (mgr v') ∧ posted v' = posted v.

(** A part of it does, with the registered connections as they were. *)
Definition goes {A} C v (o : outcome (A * server)) (Q : A → server → Prop) : Prop :=
  ∃ x v', o = Ok (x, v') ∧ stays NDEBUG C (mgr v) (mgr v') ∧ posted v' = posted v ∧ Q x v'.

Lemma ends_bind {A} C v (m : M server A) (f : A → M server unit) Q :
  goes C v (m v) Q → (∀ x v1, stays NDEBUG C (mgr v) (mgr v1) → Q x v1 → ends C v1 (f x v1)) →
  ends C v ((m ≫= f) v).
Proof.
  intros (x & v1 & E & Hst & Ep & HQ) Hf. rewrite M_bind_unfold, E.
  destruct (Hf x v1 Hst HQ) as (v2 & E2 & He & Ep2). exists v2. split; [done|].
  split; [by eapply stays_then|congruence].
Qed.

Lemma goes_ends C v (o : outcome (unit * server)) Q : goes C v o Q → ends C v o.
Proof.
  intros ([] & v' & E & Hst & Ep & _). exists v'. split; [done|].
  split; [by apply stays_evolved|done].
Qed.

Lemma ends_mgr C v (m : M manager unit) g' :
  m (mgr v) = Ok (tt, g') → evolved NDEBUG C (mgr v) g' → ends C v (in_mgr m v).
Proof. intros E He. unfold in_mgr. rewrite E. eexists. by split_and!. Qed.

Lemma goes_mgr {A} C v (m : M manager A) x g' (Q : A → server → Prop) :
  m (mgr v) = Ok (x, g') → stays NDEBUG C (mgr v) g' →
  Q x (mkServer g' (users_db v) (posted v)) → goes C v (in_mgr m v) Q.
Proof. intros E Hs HQ. unfold in_mgr. rewrite E. eexists _, _. by split_and!. Qed.

Lemma goes_answer C v a code r :
  mgr_ok C (mgr v) → goes C v (answer a code r v) (λ _ v', connections_ (mgr v') = connections_ (mgr v)).
Proof. intros Hok. eapply goes_mgr; [done|by apply still_stays|done]. Qed.

Lemma ends_answer C v a code r : mgr_ok C (mgr v) → ends C v (answer a code r v).
Proof. intros Hok. eapply goes_ends. by apply goes_answer. Qed.

Lemma ends_ret C v : mgr_ok C (mgr v) → ends C v ((mret tt : M server unit) v).
Proof. intros Hok. exists v. split; [done|]. split; [|done]. by apply stays_evolved, still_stays. Qed.

(** A status of the database, whatever it is. *)
Lemma ends_status C v (f : database → outcome (status_code * database)) g :
  mgr_ok C (mgr v) → is_ok (f (users_db v)) = true →
  (∀ code v1, mgr v1 = mgr v → ends C v1 (g code v1)) → ends C v ((in_db f ≫= g) v).
Proof.
  intros Hok Hf Hg. eapply (ends_bind _ _ _ _ (λ _ v1, mgr v1 = mgr v)); [|by intros ???; apply Hg].
  unfold in_db. destruct (f (users_db v)) as [[code db]|]; [|done].
  eexists _, _. split_and!; [done|by apply still_stays|done|done].
Qed.

Lemma goes_log_in C v a l :
  mgr_ok C (mgr v) → goes C v (log_in a l v) (λ _ _, True).
Proof.
  intros Hok. eapply goes_mgr; [done| |done]. apply on_conn_stays; [done| |].
  - intros c Hf. exact (m_find_tree _ _ _ (mo_trees _ _ Hok) Hf).
  - by intros c.
Qed.

Lemma goes_conn C v a c (Q : connection → server → Prop) :
  mgr_ok C (mgr v) → m_find a (connections_ (mgr v)) = Some c →
  Q c v → goes C v (in_mgr (conn a) v) Q.
Proof.
  intros Hok Hf HQ. eapply goes_mgr; [unfold conn; by rewrite Hf|by apply still_stays|].
  by destruct v.
Qed.

Lemma run_signin_ends C v a r l p : mgr_ok C (mgr v) → ends C v (run_signin a r l p v).
Proof.
  intros Hok. unfold run_signin. apply ends_status; [done|apply operations_return|].
  intros code v1 E1. assert (mgr_ok C (mgr v1)) as Hok1 by (by rewrite E1).
  destruct code; try (by apply ends_ret); try by apply ends_answer.
  eapply (ends_bind _ _ _ _ (λ _ v2, mgr v2 = mgr v1)).
  { eapply goes_mgr; [done|by apply still_stays|done]. }
  intros already v2 _ E2. assert (mgr_ok C (mgr v2)) as Hok2 by (by rewrite E2).
  destruct already; [by apply ends_answer|].
  eapply ends_bind; [by apply goes_log_in|]. intros _ v3 Hst _. apply ends_answer, Hst.
Qed.

Lemma run_signup_ends C v a r l p : mgr_ok C (mgr v) → ends C v (run_signup a r l p v).
Proof.
  intros Hok. unfold run_signup. apply ends_status; [done|apply operations_return|].
  intros code v1 E1. assert (mgr_ok C (mgr v1)) as Hok1 by (by rewrite E1).
  destruct code; try (by apply ends_ret); try by apply ends_answer.
  eapply ends_bind; [by apply goes_log_in|]. intros _ v2 Hst _. apply ends_answer, Hst.
Qed.

Lemma run_delete_account_ends C v a c r :
  mgr_ok C (mgr v) → m_find a (connections_ (mgr v)) = Some c →
  ends C v (run_delete_account a r v).
Proof.
  intros Hok Hf. unfold run_delete_account.
  eapply (ends_bind _ _ _ _ (λ _ v1, mgr v1 = mgr v)); [by eapply goes_conn|].
  intros c' v1 _ E1. apply ends_status; [by rewrite E1|apply operations_return|].
  intros code v2 E2. assert (mgr_ok C (mgr v2)) as Hok2 by (by rewrite E2, E1).
  destruct code; try (by apply ends_ret); by apply ends_answer.
Qed.

(** ** Requests on the tree *)

(** The new tree of a client. *)
Lemma goes_tree C v a c t :
  mgr_ok C (mgr v) → m_find a (connections_ (mgr v)) = Some c → tree_ok t →
  goes C v (in_mgr (on_conn a (with_tree t)) v)
    (λ _ v', m_find a (connections_ (mgr v')) = Some (with_tree t c)).
Proof.
  intros Hok Hf Ht. eapply goes_mgr; [done| |].
  - apply on_conn_stays; [done| |by intros c']. by intros c' _.
  - cbn [mgr connections_ on_connections]. by rewrite m_find_update, Hf, bool_decide_eq_true_2.
Qed.

Lemma goes_disk C v a c es :
  mgr_ok C (mgr v) → m_find a (connections_ (mgr v)) = Some c →
  goes C v (in_mgr (modify (on_disk es)) v) (λ _ v', m_find a (connections_ (mgr v')) = Some c).
Proof. intros Hok Hf. eapply goes_mgr; [done|by apply still_stays|done]. Qed.

Lemma goes_reply C v a c code r :
  mgr_ok C (mgr v) → m_find a (connections_ (mgr v)) = Some c →
  goes C v (answer a code r v) (λ _ v', m_find a (connections_ (mgr v')) = Some c).
Proof. intros Hok Hf. eapply goes_mgr; [done|by apply still_stays|done]. Qed.

(** The notification of a change, by a connection that has registered. *)
Lemma ends_notify C v a c (mk : str → outbound) :
  mgr_ok C (mgr v) → ready (mgr v) → m_find a (connections_ (mgr v)) = Some c → a ∈ C →
  ends C v (in_mgr (c ← conn a; do_notify (nickname_ (client_ c)) (mk (nickname_ (client_ c)))) v).
Proof.
  intros Hok Hr Hf Ha.
  destruct (do_notify_evolved NDEBUG C a c (mk (nickname_ (client_ c))) (mgr v) Hok Hr Hf Ha)
    as (g' & E & He).
  eapply ends_mgr; [|exact He]. rewrite M_bind_unfold. unfold conn. by rewrite Hf.
Qed.

Lemma Add_ok sep Path t :
  tree_ok t → (∃ t', Add sep Path t = Ok t' ∧ tree_ok t') ∨ Add sep Path t = Fault UndefinedBehaviour.
Proof.
  intros [t0 Hr]. pose proof (Add_spec sep t t0 Path Hr) as Hs.
  destruct (add_ok _ _); [left|by right]. destruct Hs as (t' & E & Hr'). exists t'. split; [done|].
  by eexists.
Qed.

Lemma add_all_ok Paths t :
  tree_ok t → tree_ok (add_all Paths t).1
              ∧ ((add_all Paths t).2 = None ∨ (add_all Paths t).2 = Some UndefinedBehaviour).
Proof.
  revert t. induction Paths as [|Path Paths IH]; intros t Ht; cbn [add_all]; [by split; [|left]|].
  destruct (Add_ok PATH_SEPARATOR_CHR Path t Ht) as [(t' & E & Ht')|E]; rewrite E; [by apply IH|].
  by split; [|right].
Qed.

Lemma Add_undefined_ok sep Path t :
  tree_ok t →
  if add_undefined sep Path t then Add sep Path t = Fault UndefinedBehaviour
  else ∃ t', Add sep Path t = Ok t' ∧ tree_ok t'.
Proof.
  intros [t0 Hr]. pose proof (Add_cases sep t t0 Path Hr) as Hs.
  destruct (add_undefined sep Path t); [done|]. destruct Hs as (t' & E & Hr').
  exists t'. split; [done|by eexists].
Qed.

(** One of these paths, added one after the other, can not be added. *)
Fixpoint any_undefined (Paths : list str) (v : vfs) : bool :=
  match Paths with
  | [] => false
  | Path :: Paths =>
      if add_undefined PATH_SEPARATOR_CHR Path v then true
      else match Add PATH_SEPARATOR_CHR Path v with
           | Ok v => any_undefined Paths v
           | Fault _ => false
           end
  end.

Lemma add_all_fault Paths t :
  tree_ok t → (add_all Paths t).2 = if any_undefined Paths t then Some UndefinedBehaviour else None.
Proof.
  revert t. induction Paths as [|Path Paths IH]; intros t Ht; [done|]. cbn [add_all any_undefined].
  pose proof (Add_undefined_ok PATH_SEPARATOR_CHR Path t Ht) as HA.
  destruct (add_undefined PATH_SEPARATOR_CHR Path t); [by rewrite HA|].
  destruct HA as (t' & -> & Ht'). by apply IH.
Qed.

(** The requests whose paths can not all be added to the tree: [Add] of one of them is
    undefined. *)
Definition adds_undefined (t : task) (v : vfs) : bool :=
  match t with
  | do_add_file _ f => add_undefined PATH_SEPARATOR_CHR f v
  | do_push_files _ fs => any_undefined fs v
  | _ => false
  end.

(** The requests that notify the others. *)
Definition notifies (t : task) : bool :=
  match t with
  | do_add_file _ _ | do_remove_path _ _ | do_remame_path _ _ _ => true
  | _ => false
  end.

Lemma run_push_files_ends C v a c r l :
  mgr_ok C (mgr v) → ready (mgr v) → m_find a (connections_ (mgr v)) = Some c →
  if adds_undefined (do_push_files r l) (tree_of c)
  then run_push_files a r l v = Fault UndefinedBehaviour
  else ends C v (run_push_files a r l v).
Proof.
  intros Hok Hr Hf. pose proof (m_find_tree _ _ _ (mo_trees _ _ Hok) Hf) as Ht.
  unfold run_push_files, adds_undefined. destruct (add_all_ok l (tree_of c) Ht) as [Ht' _].
  pose proof (add_all_fault l (tree_of c) Ht) as Hfault.
  destruct (add_all l (tree_of c)) as [t' fault] eqn:Ea. cbn [fst snd] in *. subst fault.
  destruct (any_undefined l (tree_of c)).
  - rewrite M_bind_unfold. unfold in_mgr at 1, conn.
    rewrite Hf. cbn [mbind outcome_bind]. unfold tree_of in Ea. rewrite Ea. done.
  - eapply (ends_bind _ _ _ _ (λ c' v1, c' = c ∧ mgr v1 = mgr v)); [by eapply goes_conn|].
    intros c' v1 _ [-> E1]. fold (tree_of c). rewrite Ea.
    rewrite <- E1 in Hok, Hr, Hf.
    eapply ends_bind; [by eapply goes_tree|]. intros [] v2 Hst2 Hf2.
    eapply ends_bind; [by eapply goes_reply; [apply Hst2|]|]. intros [] v3 Hst3 Hf3.
    destruct (registration_evolved NDEBUG C a _ (mgr v3) (st_ok _ _ _ _ Hst3)
                (st_ready _ _ _ _ Hst3 (st_ready _ _ _ _ Hst2 Hr)) Hf3) as (g' & E & He).
    by eapply ends_mgr.
Qed.

Lemma run_add_file_ends C v a c r f :
  mgr_ok C (mgr v) → ready (mgr v) → m_find a (connections_ (mgr v)) = Some c → a ∈ C →
  if adds_undefined (do_add_file r f) (tree_of c)
  then run_add_file a r f v = Fault UndefinedBehaviour
  else ends C v (run_add_file a r f v).
Proof.
  intros Hok Hr Hf Ha. pose proof (m_find_tree _ _ _ (mo_trees _ _ Hok) Hf) as Ht.
  unfold run_add_file, adds_undefined.
  pose proof (Add_undefined_ok PATH_SEPARATOR_CHR f (tree_of c) Ht) as HA.
  destruct (add_undefined PATH_SEPARATOR_CHR f (tree_of c)); [rename HA into Ea|destruct HA as (t' & Ea & Ht')].
  - rewrite M_bind_unfold. unfold in_mgr at 1, conn. rewrite Hf. cbn [mbind outcome_bind].
    unfold tree_of in Ea. by rewrite Ea.
  - eapply (ends_bind _ _ _ _ (λ c' v1, c' = c ∧ mgr v1 = mgr v)); [by eapply goes_conn|].
    intros c' v1 _ [-> E1]. unfold tree_of in Ea. rewrite Ea. rewrite <- E1 in Hok, Hr, Hf.
    eapply ends_bind; [by eapply goes_tree|]. intros [] v2 Hst2 Hf2.
    eapply ends_bind; [by eapply goes_reply; [apply Hst2|]|]. intros [] v3 Hst3 Hf3.
    eapply (ends_notify _ _ _ _ (λ nick, StringNotificationMessage
      notifications.USER_ADDED_NEW_FILE [(headers.FileOwner, nick); (headers.FileName, f)] None));
      [apply Hst3|apply Hst3, Hst2, Hr|exact Hf3|done].
Qed.

Lemma run_remove_path_ends C v a c r f :
  mgr_ok C (mgr v) → ready (mgr v) → m_find a (connections_ (mgr v)) = Some c → a ∈ C →
  ends C v (run_remove_path a r f v).
Proof.
  intros Hok Hr Hf Ha. destruct (m_find_tree _ _ _ (mo_trees _ _ Hok) Hf) as [t Ht].
  unfold run_remove_path.
  eapply (ends_bind _ _ _ _ (λ c' v1, c' = c ∧ mgr v1 = mgr v)); [by eapply goes_conn|].
  intros c' v1 _ [-> E1]. rewrite <- E1 in Hok, Hr, Hf.
  pose proof (perform_repr PATH_SEPARATOR_CHR (nickname_ (client_ c)) ra _ _ (RRemove f) Ht) as HP.
  cbn [perform] in HP. unfold tree_of in HP.
  destruct (Vfs.Remove _ _ f _) as [[[b es] t']|flt]; cbn in HP;
    [|by destruct HP as (_ & ? & [=] & _)].
  eapply ends_bind; [by eapply goes_tree|]. intros [] v2 Hst2 Hf2.
  eapply ends_bind; [by eapply goes_disk; [apply Hst2|]|]. intros [] v3 Hst3 Hf3.
  destruct b; [|apply ends_answer, Hst3].
  eapply ends_bind; [by eapply goes_reply; [apply Hst3|]|]. intros [] v4 Hst4 Hf4.
  eapply (ends_notify _ _ _ _ (λ nick, StringNotificationMessage
    notifications.USER_DELETED_FILE [(headers.FileOwner, nick); (headers.FileName, f)] None));
    [apply Hst4|apply Hst4, Hst3, Hst2, Hr|exact Hf4|done].
Qed.

Lemma run_remame_path_ends C v a c r f g :
  mgr_ok C (mgr v) → ready (mgr v) → m_find a (connections_ (mgr v)) = Some c → a ∈ C →
  ends C v (run_remame_path ra a r f g v).
Proof.
  intros Hok Hr Hf Ha. destruct (m_find_tree _ _ _ (mo_trees _ _ Hok) Hf) as [t Ht].
  unfold run_remame_path.
  eapply (ends_bind _ _ _ _ (λ c' v1, c' = c ∧ mgr v1 = mgr v)); [by eapply goes_conn|].
  intros c' v1 _ [-> E1]. rewrite <- E1 in Hok, Hr, Hf.
  pose proof (perform_repr PATH_SEPARATOR_CHR (nickname_ (client_ c)) ra _ _ (RRename f g) Ht) as HP.
  cbn [perform] in HP. unfold tree_of in HP.
  destruct (Rename _ _ ra f g _) as [[[b es] t']|flt]; cbn in HP;
    [|by destruct HP as (_ & ? & [=] & _)].
  eapply ends_bind; [by eapply goes_tree|]. intros [] v2 Hst2 Hf2.
  eapply ends_bind; [by eapply goes_disk; [apply Hst2|]|]. intros [] v3 Hst3 Hf3.
  destruct b; [|apply ends_answer, Hst3].
  eapply ends_bind; [by eapply goes_reply; [apply Hst3|]|]. intros [] v4 Hst4 Hf4.
  eapply (ends_notify _ _ _ _ (λ nick, StringNotificationMessage
    notifications.USER_RENAMED_FILE [(headers.FileOwner, nick); (headers.FileName, f);
      (headers.FileNewName, g)] None));
    [apply Hst4|apply Hst4, Hst3, Hst2, Hr|exact Hf4|done].
Qed.

(** A request, executed: it ends, unless its client is there and a path of it can not be added. *)
Lemma execute_ends C v j :
  mgr_ok C (mgr v) → ready (mgr v) →
  (notifies (job_task j) = true → alive (mgr v) (job_connection j) = true → job_connection j ∈ C) →
  match m_find (job_connection j) (connections_ (mgr v)) with
  | Some c => if adds_undefined (job_task j) (tree_of c)
              then execute ra port d j v = Fault UndefinedBehaviour
              else ends C v (execute ra port d j v)
  | None => ends C v (execute ra port d j v)
  end.
Proof.
  intros Hok Hr Hn. destruct j as [a t]. cbn [job_connection job_task] in *.
  unfold execute, alive in *. cbn [job_connection job_task].
  destruct (m_find a (connections_ (mgr v))) as [c|] eqn:Hf; [|by apply ends_ret].
  destruct t; cbn [adds_undefined notifies] in *.
  - by apply run_signin_ends.
  - by apply run_signup_ends.
  - by apply (run_push_files_ends C v a c).
  - by eapply run_delete_account_ends.
  - destruct (stop_evolved NDEBUG C a c (mgr v) Hok Hr Hf) as (g' & E & He). by eapply ends_mgr.
  - apply (run_add_file_ends C v a c); auto.
  - eapply run_remove_path_ends; eauto.
  - eapply run_remame_path_ends; eauto.
  - destruct (querry_evolved NDEBUG port d C
      (mkDownloadQuerry (d_RequestID downloadInfo) (d_FileOwner downloadInfo)
         (d_FilePath downloadInfo) (Version_of_text (d_SslVersion downloadInfo))
         (CSVCompressions_of_text (d_Compressions downloadInfo))) a (mgr v) Hok Hr)
      as (g' & E & He). by eapply ends_mgr.
Qed.
End requests.

(** ** Messages *)

Section reads.
Context `{ProtocolLaws} `{BoostSplitLaws} `{SqlApi}.
Variables (NDEBUG : bool) (port : Z) (d : disk) (timeout : outcome Z).
Implicit Types (C : list Z) (v : server) (a : Z) (msg : message).

(** What a reply that was not checked leads to: its number and the size of the file are
    converted without a handler for the exceptions, and so are the directories made. *)
Definition reply_fault (Reply : message) (g : manager) : option fault :=
  match stoull (header Reply headers.CommandId) with
  | Fault f => Some f
  | Ok RequestID =>
      if bool_decide (header Reply headers.ReplyCode
                      = response_text responses.DOWNLOAD_FILE_QUERRY_APPROVED)
      then match m_find RequestID (backup_requests_ g) with
           | None => None
           | Some (info, _) =>
               match stoull (header Reply headers.FileSize) with
               | Fault f => Some f
               | Ok _ =>
                   if creates_parents d (FileOwner info ++ FilePath info) then None
                   else Some Thrown
               end
           end
      else None
  end.

Lemma NotifyFileDownload_total owner ID c g :
  ∃ b g', NotifyFileDownload port owner ID c g = Ok (b, g').
Proof. unfold NotifyFileDownload. destruct (m_find_if _ _) as [[a c']|]; cbn; eauto. Qed.

Lemma reply_ends msg g :
  match reply_fault msg g with
  | Some f => resolve_download_reply port d msg g = Fault f
  | None => is_ok (resolve_download_reply port d msg g) = true
  end.
Proof.
  unfold reply_fault, resolve_download_reply. rewrite lift_bind.
  destruct (stoull (header msg headers.CommandId)) as [id|f]; [|done].
  cbv zeta. destruct (bool_decide _); [cbn [negb]|done].
  rewrite M_bind_unfold. unfold IsRequestIDValid.
  destruct (m_find id (backup_requests_ g)) as [[info t]|]; [|done].
  rewrite lift_bind. destruct (stoull (header msg headers.FileSize)) as [size|f]; [|done].
  rewrite M_bind_unfold. unfold BeginDownloadTransaction.
  destruct (creates_parents d _); [cbn [negb]|done].
  destruct (opens_for_writing d _); cbn [negb mbind outcome_bind].
  - rewrite M_bind_unfold. match goal with |- context [NotifyFileDownload port ?o ?i ?c ?s] =>
      destruct (NotifyFileDownload_total o i c s) as (b & g' & ->) end. done.
  - match goal with |- context [for_each_and_remove ?i ?f ?s] =>
      destruct (for_each_and_remove_spec f i s deny_answering) as (g' & ws & -> & _) end. done.
Qed.

Lemma reply_cases msg g :
  match reply_fault msg g with
  | Some f => resolve_download_reply port d msg g = Fault f
  | None => ∃ g', resolve_download_reply port d msg g = Ok (tt, g') ∧ calm NDEBUG g g'
  end.
Proof.
  pose proof (reply_ends msg g) as He. destruct (reply_fault msg g); [done|].
  destruct (resolve_download_reply port d msg g) as [[[] g']|f] eqn:E; [|done].
  exists g'. split; [done|]. by eapply calm_reply.
Qed.

(** The posts of a connection in the state [st]. *)
Definition posts_ok a (st : State) (js : list (scheduler_priority * job)) : Prop :=
  ∀ p j, (p, j) ∈ js → job_connection j = a ∧ (notifies (job_task j) = true → st = processing).

Lemma handle_message_notifies msg a p j :
  (p, j) ∈ handle_message msg a → notifies (job_task j) = true →
  is_command msg commands.QUERRY = true.
Proof.
  unfold handle_message. destruct (is_command msg commands.QUERRY); [done|].
  repeat case_match; intros Hin; repeat (apply elem_of_cons in Hin as [[= -> ->]|Hin]; [done|]);
    by apply elem_of_nil in Hin.
Qed.

Lemma handle_message_posts msg a st :
  transition_validate msg st = None → posts_ok a st (handle_message msg a).
Proof.
  intros Ht p j Hin. split.
  - pose proof (posts_connection msg a) as Hc. rewrite Forall_forall in Hc. exact (Hc _ Hin).
  - intros Hn. pose proof (handle_message_notifies _ _ _ _ Hin Hn) as Hq.
    apply transition_validate_allowed in Ht as (c & Hc & E).
    rewrite (is_command_text _ _ _ E) in Hq. apply bool_decide_eq_true in Hq as ->.
    by destruct st; cbn in Hc; set_solver.
Qed.

(** Why acting on what a connection has read does not complete. *)
Definition read_fault (e : event) (c : connection) (g : manager) : option fault :=
  match e with
  | Message m =>
      if is_command m commands.HEARTBEAT then None
      else match refusal m (state_ (client_ c)) with
           | Some _ => None
           | None => if is_command m commands.REPLY then reply_fault m g else None
           end
  | Malformed => None
  | Incomplete => match timeout with Ok _ => None | Fault f => Some f end
  end.

Lemma react_cases a c e v :
  m_find a (connections_ (mgr v)) = Some c →
  match read_fault e c (mgr v) with
  | Some f => react port d timeout a e v = Fault f
  | None => ∃ v' js, react port d timeout a e v = Ok (tt, v') ∧ calm NDEBUG (mgr v) (mgr v')
              ∧ posted v' = posted v ++ js ∧ posts_ok a (state_ (client_ c)) js
  end.
Proof.
  intros Hf.
  assert (∀ v' o, o = Ok (tt, v') → still (mgr v) (mgr v') → posted v' = posted v →
    ∃ v1 js, o = Ok (tt, v1) ∧ calm NDEBUG (mgr v) (mgr v1) ∧ posted v1 = posted v ++ js
             ∧ posts_ok a (state_ (client_ c)) js) as Hstill.
  { intros v' o -> Hs Ep. exists v', []. rewrite app_nil_r. split_and!; [done|by apply still_calm|done|].
    by intros p j ?%elem_of_nil. }
  destruct e as [m| |]; cbn [read_fault react].
  2: by eapply Hstill.
  2: { unfold read_indeterminate. rewrite lift_bind.
       destruct timeout; [|done]. by eapply Hstill. }
  destruct (is_command m commands.HEARTBEAT) eqn:Eh.
  { unfold read_action. rewrite Eh. by eapply Hstill. }
  rewrite (read_action_found _ _ _ _ _ _ Hf Eh).
  destruct (refusal m (state_ (client_ c))) as [[code id]|] eqn:Er; [by eapply Hstill|].
  destruct (is_command m commands.REPLY) eqn:Erep.
  - pose proof (reply_cases m (mgr v)) as Hc. unfold in_mgr.
    destruct (reply_fault m (mgr v)); [by rewrite Hc|]. destruct Hc as (g' & E & Hcalm).
    rewrite E. eexists _, []. rewrite app_nil_r. split_and!; [done..|]. by intros p j ?%elem_of_nil.
  - assert (transition_validate m (state_ (client_ c)) = None) as Ht.
    { unfold refusal in Er. destruct (basic_validate m); [done|].
      by destruct (transition_validate m (state_ (client_ c))). }
    destruct (confirm_admitted m _ Ht Erep) as [code ->].
    eexists _, (handle_message m a). split_and!; [done|by apply still_calm|done|].
    by apply handle_message_posts.
Qed.
End reads.
