(* ===== verification/SystemInv.v ===== *)
(** * SystemInv: the invariant of the whole server

    Every event of [System] preserves the invariant [sys_ok], and in a release build it
    completes unless it is one of the crashes [crash] lists. *)

From S2P Require Import Prelude Hoare Text Protocol Validators Vfs VfsTree VfsAdd VfsDelete.
From S2P Require Import VfsPaths VfsSpec StdMap BackupRequests DownloadManager UsersDb.
From S2P Require Import Scheduler Manager ManagerSpec ManagerFrame DownloadSpec ManagerInv.
From S2P Require Import Handler HandlerSpec Connection RequestInv System.

(** ** The invariant *)

Section invariant.
Context `{ProtocolLaws} `{BoostSplitLaws} `{SqlApi} `{!SqlThrows} `{PriorityQueue (item job)}.
Context `{!PriorityQueueLaws (item job) item_comp}.
Variables (NDEBUG : bool) (ra : str → str → str) (port : Z) (timeout : outcome Z).
Implicit Types (s : system) (g : manager) (v : server) (a : Z).

Local Abbreviation mgr_of s := (mgr (srv s)).

(** The requests that wait or are being executed. *)
Definition jobs (q : request_scheduler job) : list (item job) := queued q ++ executing q.

(** A request comes from a connection there has been; one whose execution notifies the
    other clients comes from a connection that has registered, if it is still there. *)
Definition job_ok (used counted : list Z) g (j : job) : Prop :=
  job_connection j ∈ used
  ∧ (notifies (job_task j) = true → alive g (job_connection j) = true → job_connection j ∈ counted).

Record sys_ok s : Prop := {
  so_mgr : mgr_ok (counted s) (mgr_of s);
  so_posted : posted (srv s) = [];
  so_used : ∀ a, alive (mgr_of s) a = true → a ∈ used s;
  so_jobs : ∀ p, p ∈ jobs (requests s) → job_ok (used s) (counted s) (mgr_of s) (function_ p);
  so_threads : once_flag (requests s) = false → request_threads_ (requests s) = [];
  so_sockets : NDEBUG = true → ∀ id, id ∈ receiving s → has_socket id (mgr_of s);
}.

Lemma alive_keys g a : alive g a = true ↔ a ∈ keys (connections_ g).
Proof.
  unfold alive. destruct (m_find a (connections_ g)) eqn:E.
  - split; [|done]. intros _. apply m_find_elem in E. apply elem_of_keys. eauto.
  - split; [done|]. by apply m_find_None in E.
Qed.

Lemma in_range_ready s : in_range s = true → ready (mgr_of s).
Proof.
  unfold in_range, ready, no_wrap, counter_in_range. rewrite !andb_true_iff, !Z.ltb_lt. tauto.
Qed.

(** ** After a handler *)

(** The connections that have registered are exactly those the history keeps. *)
Lemma recount_counted s D :
  shared_ok (mgr_of s) → NoDup D →
  (∀ b, b ∈ counted s → b ∈ keys (connections_ (mgr_of s)) → b ∈ D) →
  (∀ b c, (b, c) ∈ connections_ (mgr_of s) → is_processing c = true → b ∈ D) →
  Z.of_nat (length D) ≤ processing_counter_ (mgr_of s) →
  counted_ok (counted (recount s)) (mgr_of s).
Proof.
  intros Hs HD Hold Hnew Hlen. cbn [counted recount with_counted].
  set (P := λ e : Z * connection, bool_decide (e.1 ∈ counted s) || is_processing e.2 = true).
  assert (∀ b, b ∈ keys (filter P (connections_ (mgr_of s))) →
            b ∈ keys (connections_ (mgr_of s)) ∧ b ∈ D) as Hin.
  { intros b [c Hc]%elem_of_keys. apply list_elem_of_filter in Hc as [Hp Hc].
    assert (b ∈ keys (connections_ (mgr_of s))) as Hb by (apply elem_of_keys; eauto).
    split; [done|]. unfold P in Hp. cbn [fst snd] in Hp. apply orb_true_iff in Hp as [Hp|Hp].
    - apply bool_decide_eq_true in Hp. auto.
    - eauto. }
  assert (NoDup (keys (filter P (connections_ (mgr_of s))))) as Hnd.
  { eapply sublist_NoDup; [apply (ok_connections _ Hs)|]. apply (fmap_sublist fst), sublist_filter. }
  split; [done|by intros b [? _]%Hin| |].
  - intros b c Hc Hp. apply elem_of_keys. exists c. apply list_elem_of_filter. split; [|done].
    unfold P. cbn. by rewrite Hp, orb_true_r.
  - assert (keys (filter P (connections_ (mgr_of s))) ⊆+ D) as Hsub
      by (apply NoDup_submseteq; [done|]; intros b [_ Hb]%Hin; done).
    apply submseteq_length in Hsub. lia.
Qed.

Lemma recount_keeps s b :
  b ∈ keys (connections_ (mgr_of s)) → b ∈ counted s → b ∈ counted (recount s).
Proof.
  intros [c Hc]%elem_of_keys Hb. cbn [counted recount with_counted]. apply elem_of_keys. exists c.
  apply list_elem_of_filter. split; [|done]. cbn. by rewrite bool_decide_eq_true_2.
Qed.

(** A handler that takes connections away, or registers them. *)
Lemma moved s s' :
  sys_ok s → evolved NDEBUG (counted s) (mgr_of s) (mgr_of s') → posted (srv s') = [] →
  used s' = used s → counted s' = counted s →
  (∀ p, p ∈ jobs (requests s') →
     p ∈ jobs (requests s)
     ∨ job_connection (function_ p) ∈ used s
       ∧ (notifies (job_task (function_ p)) = true →
          ∃ c, m_find (job_connection (function_ p)) (connections_ (mgr_of s')) = Some c
               ∧ is_processing c = true)) →
  (once_flag (requests s') = false → request_threads_ (requests s') = []) →
  (NDEBUG = true → ∀ id, id ∈ receiving s' → id ∈ receiving s ∨ has_socket id (mgr_of s')) →
  sys_ok (recount s').
Proof.
  intros [Hm Hp Hu Hj Ht Hso] [Es Et En Eso Ek (D & HD & Hold & Hnew & Hlen)] Ep Eu Ec Hjobs Hth Hrec.
  assert (∀ b, alive (mgr_of s') b = true → alive (mgr_of s) b = true) as Hal
    by (intros b; rewrite !alive_keys; apply Ek).
  assert (counted_ok (counted (recount s')) (mgr_of s')) as Hcnt.
  { eapply recount_counted; try done. by rewrite Ec. }
  split; cbn [recount with_counted srv used requests receiving]; try done.
  - rewrite Eu. auto.
  - intros p Hin. destruct (Hjobs p Hin) as [Hold'|[Hin' Hpr]].
    + destruct (Hj p Hold') as [Hin' Hn]. split; [by rewrite Eu|]. intros Hno Ha.
      apply recount_keeps; [by apply alive_keys|]. rewrite Ec. auto.
    + split; [by rewrite Eu|]. intros Hno _. destruct (Hpr Hno) as (c & Hf & Hc).
      eapply (counted_processing _ _ Hcnt); [by apply m_find_elem|done].
  - intros HN id Hid. destruct (Hrec HN id Hid) as [Hid'|]; [|done]. auto.
Qed.
(** The common case: a handler of the server. *)
Lemma moved_srv s v' :
  sys_ok s → evolved NDEBUG (counted s) (mgr_of s) (mgr v') → posted v' = [] →
  sys_ok (recount (with_srv v' s)).
Proof.
  intros Hok He Ep. apply (moved s); try done; [by left|apply Hok|by left].
Qed.

Lemma evolved_refl C g : mgr_ok C g → evolved NDEBUG C g g.
Proof. intros Hok. by apply calm_evolved. Qed.

(** ** A new connection *)

Lemma accepted_ok s a s' :
  sys_ok s → a ∉ used s → on_mgr (Manager.start a) (with_used (a :: used s) s) = Ok s' →
  sys_ok (recount s').
Proof.
  intros [Hm Hp Hu Hj Ht Hso] Ha E.
  assert (m_find a (connections_ (mgr_of s)) = None) as Hf.
  { apply m_find_None. intros Hin%alive_keys. by apply Ha, Hu. }
  destruct (start_evolved _ a _ Hm Hf) as (g' & E' & Ec & Hm' & Hso').
  unfold on_mgr, on_srv, in_mgr in E. cbn [srv with_used] in E. rewrite E' in E.
  injection E as <-. set (s1 := with_srv _ _).
  assert (∀ b, b ≠ a → alive (mgr_of s1) b = true → alive (mgr_of s) b = true) as Hal.
  { intros b Hb. cbn. unfold alive. rewrite Ec, m_find_emplace by done.
    by rewrite bool_decide_eq_false_2. }
  destruct Hm' as [Hs Hc Htr Hn].
  assert (counted_ok (counted (recount s1)) (mgr_of s1)) as Hcnt.
  { destruct Hc. by apply (recount_counted s1 (counted s)). }
  split; cbn [recount with_counted srv used requests receiving s1 with_srv with_used]; try done.
  - intros b Hb. apply elem_of_cons. destruct (decide (b = a)); [by left|right]. apply Hu, Hal; done.
  - intros p Hin. destruct (Hj p Hin) as [Hin' Hno]. split; [by right|]. intros Hnot Hb.
    assert (job_connection (function_ p) ≠ a) as Hne by (by intros E; rewrite E in Hin').
    apply (recount_keeps s1); [by apply alive_keys|]. cbn. auto.
  - intros HN id Hid. apply Hso', Hso; done.
Qed.

(** ** Requests *)

Lemma queued_post p f (q : request_scheduler job) :
  queued (post p f q) ≡ₚ mkItem (priority_value p) f :: queued q.
Proof. unfold queued, post. cbn. by rewrite pq_elements_push. Qed.

Lemma post_threads p f (q : request_scheduler job) : once_flag (post p f q) = true.
Proof. done. Qed.

Lemma jobs_post p f (q : request_scheduler job) :
  (once_flag q = false → request_threads_ q = []) →
  jobs (post p f q) ≡ₚ mkItem (priority_value p) f :: jobs q.
Proof. intros Hq. unfold jobs. by rewrite queued_post, executing_post. Qed.

Lemma jobs_flush js (q : request_scheduler job) :
  (once_flag q = false → request_threads_ q = []) →
  jobs (foldl (λ q pj, post pj.1 pj.2 q) q js)
  ≡ₚ map (λ pj, mkItem (priority_value pj.1) pj.2) (reverse js) ++ jobs q.
Proof.
  revert q. induction js as [|[p j] js IH]; intros q Hq; [done|].
  cbn [foldl fst snd]. rewrite IH by done. rewrite jobs_post by done.
  rewrite reverse_cons, map_app, <- app_assoc. done.
Qed.

Lemma flush_threads js (q : request_scheduler job) :
  (once_flag q = false → request_threads_ q = []) →
  let q' := foldl (λ q pj, post pj.1 pj.2 q) q js in
  once_flag q' = false → request_threads_ q' = [].
Proof. revert q. induction js as [|[p j] js IH]; intros q Hq; [done|]. by apply IH. Qed.

(** ** The events *)

Variable d : disk.

(** The greeting of a transaction that is at work, or that can not be started: it has no
    receiver, the first header can not be read ([start_receiver]), or, in a debug build, the
    start byte is not written. *)
Definition greet_fault (ready : bool) (hello : str) (sock : peer) s : option fault :=
  let dm := download_manager_ (mgr_of s) in
  let started := greeting_starts ready hello dm in
  if restarts s started then Some UndefinedBehaviour
  else match started with
       | Some (inl id) =>
           match m_find id (download_transactions_ dm) with
           | Some (r, _) => start_fault NDEBUG sock r
           | None => None
           end
       | _ => None
       end.

(** The events that stop the server, and how they end.  In a debug build there are more:
    [debug_crash] adds the ends of downloads. *)
Definition crash (e : sys_event) s : option fault :=
  match e with
  | Reads a e =>
      match m_find a (connections_ (mgr_of s)) with
      | Some c => read_fault d timeout e c (mgr_of s)
      | None => None
      end
  | Finishes i =>
      match taken i s with
      | Some j =>
          match m_find (job_connection j) (connections_ (mgr_of s)) with
          | Some c => if adds_undefined (job_task j) (tree_of c) then Some UndefinedBehaviour else None
          | None => None
          end
      | None => None
      end
  | Greets ready hello sock => greet_fault ready hello sock s
  | _ => None
  end.

(** A handler faults as foreseen, or completes in a good state. *)
Definition steps_to (o : outcome system) (f : option fault) : Prop :=
  match f with Some f => o = Fault f | None => ∃ s', o = Ok s' ∧ sys_ok (recount s') end.

Lemma mgr_steps s (m : M manager unit) g' :
  sys_ok s → m (mgr_of s) = Ok (tt, g') → evolved NDEBUG (counted s) (mgr_of s) g' →
  steps_to (on_mgr m s) None.
Proof.
  intros Hok E He. unfold on_mgr, on_srv, in_mgr. rewrite E. eexists. split; [done|].
  apply moved_srv; [done|done|apply Hok].
Qed.

Lemma reads_steps s a e :
  sys_ok s → alive (mgr_of s) a = true →
  steps_to (flush <$> on_srv (react port d timeout a e) s) (crash (Reads a e) s).
Proof.
  intros Hok Ha. cbn [crash]. unfold alive in Ha.
  destruct (m_find a (connections_ (mgr_of s))) as [c|] eqn:Hf; [|done].
  pose proof (react_cases NDEBUG port d timeout a c e (srv s) Hf) as Hc. unfold on_srv.
  destruct (read_fault d timeout e c (mgr_of s)); cbn [steps_to]; [by rewrite Hc|].
  destruct Hc as (v' & js & E & Hcalm & Ep & Hjs). rewrite E. eexists. split; [done|].
  rewrite (so_posted _ Hok) in Ep. cbn in Ep.
  pose proof (same_connections _ _ (calm_undisturbed _ _ _ Hcalm)) as Ec.
  apply (moved s); try done.
  - apply calm_evolved; [apply Hok|]. done.
  - intros p. cbn [requests flush with_srv with_admitted with_requests srv posted]. rewrite Ep, jobs_flush by apply Hok.
    intros [Hin|]%elem_of_app; [right|by left].
    apply list_elem_of_fmap in Hin as ([pr j] & -> & Hin). rewrite elem_of_reverse in Hin.
    cbn [function_ snd]. destruct (Hjs pr j Hin) as [-> Hno]. split.
    + apply (so_used _ Hok). unfold alive. by rewrite Hf.
    + intros Hpr%Hno. exists c. cbn [flush with_srv with_admitted with_requests srv mgr]. rewrite Ec. split; [done|].
      unfold is_processing. by rewrite bool_decide_eq_true_2.
  - cbn [requests flush with_srv with_admitted with_requests srv posted]. apply flush_threads, Hok.
  - by left.
Qed.

(** ** The threads of the pool *)

Lemma starts_steps s i s' : sys_ok s → take_request i s = Some s' → sys_ok (recount s').
Proof.
  intros Hok. unfold take_request.
  destruct (request_threads_ (requests s) !! i) as [[| |]|] eqn:Ei; try done.
  destruct (run_once (scheduler_ (requests s))) as [| |p sch] eqn:Er; try done. intros [= <-].
  apply run_once_Executes in Er as (_ & _ & Hp & _).
  pose proof (executing_with_worker _ i Scheduler.Waiting (Executing p) sch Ei) as He.
  cbn in He. rewrite app_nil_r in He.
  apply (moved s); try done.
  - by apply evolved_refl, Hok.
  - apply Hok.
  - intros q. cbn [requests with_requests]. intros Hq. left. unfold jobs in *. rewrite He in Hq.
    revert Hq. unfold queued. cbn. rewrite Hp. set_solver.
  - cbn. intros Ho. rewrite (so_threads _ Hok Ho) in Ei. by rewrite lookup_nil in Ei.
  - by left.
Qed.

Lemma finishes_steps s i j :
  sys_ok s → in_range s = true → taken i s = Some j →
  steps_to (run_request ra port d i j s) (crash (Finishes i) s).
Proof.
  intros Hok Hr Ht. cbn [crash]. rewrite Ht. unfold taken in Ht.
  destruct (request_threads_ (requests s) !! i) as [[|p|]|] eqn:Ei; try done.
  injection Ht as <-.
  assert (p ∈ jobs (requests s)) as Hin.
  { apply elem_of_app. right. apply list_elem_of_bind. exists (Executing p). split; [left|].
    by eapply list_elem_of_lookup_2. }
  destruct (so_jobs _ Hok p Hin) as [_ Hn].
  pose proof (execute_ends NDEBUG ra port d (counted s) (srv s) (function_ p) (so_mgr _ Hok)
                (in_range_ready _ Hr) Hn) as He.
  assert (ends NDEBUG (counted s) (srv s) (execute ra port d (function_ p) (srv s)) →
    steps_to (run_request ra port d i (function_ p) s) None) as Hends.
  { intros (v' & E & Hev & Ep). unfold run_request, on_srv. rewrite E. eexists. split; [done|].
    pose proof (executing_with_worker _ i (Executing p) Scheduler.Waiting
                  (scheduler_ (requests s)) Ei) as Hex. cbn in Hex. rewrite app_nil_r in Hex.
    apply (moved s); try done.
    - cbn. rewrite Ep. apply Hok.
    - intros q Hq. left. cbn [requests with_executed with_requests with_srv] in Hq.
      unfold jobs in *. rewrite <- Hex. apply elem_of_app in Hq as [Hq|Hq]; set_solver.
    - cbn. intros Ho. rewrite (so_threads _ Hok Ho) in Ei. by rewrite lookup_nil in Ei.
    - by left. }
  destruct (m_find (job_connection (function_ p)) (connections_ (mgr_of s))) as [c|]; [|auto].
  destruct (adds_undefined _ _); [|auto]. cbn [steps_to]. unfold run_request, on_srv. by rewrite He.
Qed.

(** ** File transfers *)

Context `{!HelloLaws}.

Lemma handshake_cases ready hello sock (dm : download_manager download_handler) :
  match greeting_starts ready hello dm with
  | Some (inl id) =>
      match m_find id (download_transactions_ dm) with
      | Some (r, t) =>
          match start_fault NDEBUG sock r with
          | Some f => HandleHandshake NDEBUG false ready hello sock dm = Fault f
          | None =>
              ∃ r0 dm', r = Some r0 ∧ HandleHandshake NDEBUG false ready hello sock dm = Ok dm'
                ∧ download_transactions_ dm'
                  = m_update id (λ e, (Some (set_receiver_socket (peer_socket sock) r0), e.2))
                      (m_update id (λ e, (e.1, Halted)) (download_transactions_ dm))
          end
      | None => False
      end
  | _ => ∃ dm', HandleHandshake NDEBUG false ready hello sock dm = Ok dm'
           ∧ download_transactions_ dm' = download_transactions_ dm
  end.
Proof.
  unfold greeting_starts, HandleHandshake. cbn [negb].
  destruct (TryInitTransaction_total ready hello type_position number_position)
    as [[[ty id]|] ->]; cbn [mbind outcome_bind]; [|eauto].
  case_bool_decide.
  { unfold TryStartUploadTransaction.
    destruct (m_find id (upload_transactions_ dm)) as [[f t]|]; eauto. }
  case_bool_decide; [|eauto].
  destruct (m_find id (download_transactions_ dm)) as [[r t]|] eqn:E.
  - rewrite E. pose proof (start_existing_download NDEBUG id sock dm r t E) as Hs.
    destruct (start_fault NDEBUG sock r); [done|].
    destruct Hs as (r0 & dm' & ? & ? & ? & _). by exists r0, dm'.
  - unfold TryStartDownloadTransaction. rewrite E. eauto.
Qed.

(** A change of the transactions that takes no started receiver away. *)
Lemma downloads_evolved C g dm :
  mgr_ok C g → (∀ id, has_socket id g → has_socket id (set_downloads dm g)) →
  evolved NDEBUG C g (set_downloads dm g).
Proof.
  intros Hok Hs. apply calm_evolved; [done|]. split; [done|]. split; [by apply numbered_ext|].
  intros _. apply Hs.
Qed.

(** The receiver a greeting starts has the socket. *)
Lemma started_socket g id sock r t dm :
  m_find id (download_transactions_ (download_manager_ g)) = Some (Some r, t) →
  download_transactions_ dm
    = m_update id (λ e, (Some (set_receiver_socket sock r), e.2))
        (m_update id (λ e, (e.1, Halted)) (download_transactions_ (download_manager_ g))) →
  has_socket id (set_downloads dm g)
  ∧ (∀ j, has_socket j g → has_socket j (set_downloads dm g)).
Proof.
  intros Hf Ed.
  assert (has_socket id (set_downloads dm g)) as Hid.
  { exists (set_receiver_socket sock r), Halted, sock. cbn [download_manager_ set_downloads].
    rewrite Ed, !m_find_update, Hf, !bool_decide_eq_true_2 by done. done. }
  split; [done|]. intros j (r' & t' & sock' & Hj & Hs).
  destruct (decide (j = id)) as [->|Hne]; [done|]. exists r', t', sock'.
  cbn [download_manager_ set_downloads].
  by rewrite Ed, !m_find_update, !bool_decide_eq_false_2 by done.
Qed.

Lemma greets_steps s ready hello sock :
  sys_ok s → steps_to (greet NDEBUG ready hello sock s) (crash (Greets ready hello sock) s).
Proof.
  intros Hok. cbn [crash]. unfold greet_fault, greet. cbv zeta.
  destruct (restarts s _) eqn:Er; [done|].
  pose proof (handshake_cases ready hello sock (download_manager_ (mgr_of s))) as Hc.
  unfold on_mgr, on_srv, in_mgr.
  destruct (greeting_starts ready hello _) as [[id|id]|] eqn:Eg.
  - destruct (m_find id (download_transactions_ _)) as [[o t]|] eqn:Ef; [|done].
    destruct (start_fault NDEBUG sock o) as [f|]; cbn [steps_to]; [by rewrite Hc|].
    destruct Hc as (r & dm & -> & E & Ed). rewrite E.
    destruct (started_socket (mgr_of s) id (peer_socket sock) r t dm Ef Ed) as [Hid Hall].
    eexists. split; [done|]. apply (moved s); try done.
    + apply downloads_evolved; [apply Hok|done].
    + apply Hok.
    + by left.
    + apply Hok.
    + intros _ j. cbn [at_work with_transfers receiving with_srv srv mgr].
      intros [->|Hj]%elem_of_cons; [by right|by left].
  - cbn [steps_to]. destruct Hc as (dm & E & Ed). rewrite E. eexists. split; [done|].
    apply (moved s); try done; [|apply Hok|by left|apply Hok|by left].
    apply downloads_evolved; [apply Hok|]. intros j. unfold has_socket. cbn. by rewrite Ed.
  - cbn [steps_to]. destruct Hc as (dm & E & Ed). rewrite E. eexists. split; [done|].
    apply (moved s); try done; [|apply Hok|by left|apply Hok|by left].
    apply downloads_evolved; [apply Hok|]. intros j. unfold has_socket. cbn. by rewrite Ed.
Qed.

(** What a completion of a transfer leaves is good, in both builds. *)
Lemma SetFileToCached_stays C owner path g u g' :
  mgr_ok C g → SetFileToCached NDEBUG owner path g = Ok (u, g') → stays NDEBUG C g g'.
Proof.
  intros Hok. assert (stays NDEBUG C g g) as Hrefl by (by apply still_stays).
  unfold SetFileToCached, cassert.
  destruct (m_find_if _ _) as [[b c]|] eqn:Ef; [|by intros [= _ <-]].
  destruct NDEBUG; [by intros [= _ <-]|]. rewrite M_bind_unfold.
  destruct (SetCached _ _ _ _) as [[ok v]|] eqn:Es; [|done]. cbn [mbind outcome_bind].
  destruct ok; [|done]. intros [= _ <-]. apply on_conn_stays; [done| |by intros c'].
  intros c' _. destruct (mo_trees _ _ Hok b c (m_find_if_elem _ _ _ _ Ef)) as [t Ht].
  pose proof (perform_repr PATH_SEPARATOR_CHR [] ra _ _ (RSetCached path true) Ht) as HP.
  cbn [perform] in HP. unfold tree_of in HP. rewrite Es in HP. exact HP.
Qed.

Lemma completed_evolved C id h Succes g g' :
  mgr_ok C g → download_completed port NDEBUG d id h Succes g = Ok (tt, g') →
  evolved NDEBUG C g g'.
Proof.
  intros Hok. unfold download_completed. rewrite M_bind_unfold.
  destruct (CloseDownloadTransaction _ _) as [[]|]; [|done]. cbn [mbind outcome_bind].
  rewrite M_bind_unfold. destruct Succes.
  - rewrite M_bind_unfold. destruct (SetFileToCached _ _ _ g) as [[u g1]|] eqn:E1; [|done].
    pose proof (SetFileToCached_stays C _ _ _ _ _ Hok E1) as Hst.
    destruct (for_each_and_remove _ _ g1) as [[[] g2]|] eqn:E2; [|done]. intros E3.
    eapply stays_then; [exact Hst|]. apply calm_evolved; [apply Hst|].
    transitivity g2; [|by eapply calm_assert_end].
    eapply calm_for_each_and_remove; [|exact E2]. intros r. apply still_deliver.
  - destruct (for_each_and_remove _ _ g) as [[[] g2]|] eqn:E2; [|done]. intros E3.
    apply calm_evolved; [done|]. transitivity g2; [|by eapply calm_assert_end].
    eapply calm_for_each_and_remove; [|exact E2]. apply still_deny_handler.
Qed.

Lemma assert_end_release id g : NDEBUG = true → assert_end_download NDEBUG id g = Ok (tt, g).
Proof. by intros ->. Qed.

Lemma completed_total id h Succes g :
  NDEBUG = true → CloseDownloadTransaction id (download_manager_ g) = Ok tt →
  ∃ g', download_completed port NDEBUG d id h Succes g = Ok (tt, g').
Proof.
  intros HN Hc. unfold download_completed. rewrite M_bind_unfold, Hc. cbn [mbind outcome_bind].
  rewrite M_bind_unfold. destruct Succes.
  - rewrite M_bind_unfold.
    assert (SetFileToCached NDEBUG (h_owner h) (h_path h) g = Ok (tt, g)) as ->
      by (rewrite HN; unfold SetFileToCached; by destruct (m_find_if _ _) as [[]|]).
    destruct (for_each_and_remove_spec _ (h_request h) g (deliver_answering port d (h_owner h ++ h_path h)))
      as (g' & ws & -> & _). rewrite assert_end_release by done. eauto.
  - destruct (for_each_and_remove_spec _ (h_request h) g deny_answering) as (g' & ws & -> & _).
    rewrite assert_end_release by done. eauto.
Qed.

(** [on_mgr] of an operation that completes. *)
Lemma on_mgr_Ok s (m : M manager unit) s' :
  on_mgr m s = Ok s' →
  ∃ g', m (mgr_of s) = Ok (tt, g') ∧ s' = with_srv (mkServer g' (users_db (srv s)) (posted (srv s))) s.
Proof.
  unfold on_mgr, on_srv, in_mgr. destruct (m (mgr_of s)) as [[[] g']|]; [|done].
  cbn. intros [= <-]. eauto.
Qed.

(** A transfer that is no longer at work. *)
Lemma moved_transfer s g' rs ds :
  sys_ok s → evolved NDEBUG (counted s) (mgr_of s) g' → (∀ id, id ∈ rs → id ∈ receiving s) →
  sys_ok (recount (with_transfers rs ds
                     (with_srv (mkServer g' (users_db (srv s)) (posted (srv s))) s))).
Proof.
  intros Hok He Hrs. apply (moved s); try done; [apply Hok|by left|apply Hok|].
  intros _ id Hid. left. by apply Hrs.
Qed.

Lemma receives_preserve s id Succes s' :
  sys_ok s → receive_done NDEBUG port d id Succes s = Ok s' → sys_ok (recount s').
Proof.
  intros Hok. unfold receive_done. destruct (handler_of id s) as [h|]; [|done].
  destruct (on_mgr _ s) as [s1|] eqn:E; [|done]. intros [= <-].
  apply on_mgr_Ok in E as (g' & E & ->).
  apply moved_transfer; [done| |by intros ? ?%remove_one_in].
  eapply completed_evolved; [apply Hok|exact E].
Qed.

Lemma receives_total s id Succes :
  NDEBUG = true → sys_ok s → id ∈ receiving s →
  ∃ s', receive_done NDEBUG port d id Succes s = Ok s'.
Proof.
  intros HN Hok Hid. destruct (so_sockets _ Hok HN id Hid) as (r & t & sock & Hf & Hs).
  unfold receive_done, handler_of. rewrite Hf.
  destruct (completed_total id (receiver_handler r) Succes (mgr_of s) HN) as [g' E].
  { unfold CloseDownloadTransaction. by rewrite Hf, Hs. }
  unfold on_mgr, on_srv, in_mgr. rewrite E. eauto.
Qed.

Lemma clean_up_evolved C id g u g' :
  mgr_ok C g →
  ('(_, dm) ← upload_clean_up NDEBUG id (download_manager_ g); Ok (tt, set_downloads dm g))
  = Ok (u, g') → evolved NDEBUG C g g'.
Proof.
  intros Hok. unfold upload_clean_up, cassert. destruct NDEBUG eqn:HN.
  - intros [= _ <-]. rewrite <- HN. by apply downloads_evolved.
  - rewrite M_bind_unfold. unfold EndUploadTransaction. cbn [mbind outcome_bind].
    destruct (negb _); [|done]. intros [= _ <-]. rewrite <- HN. by apply downloads_evolved.
Qed.

Lemma delivers_preserve s id s' :
  sys_ok s → deliver_done NDEBUG id s = Ok s' → sys_ok (recount s').
Proof.
  intros Hok. unfold deliver_done. destruct (on_mgr _ s) as [s1|] eqn:E; [|done].
  intros [= <-]. apply on_mgr_Ok in E as (g' & E & ->).
  apply moved_transfer; [done| |done]. eapply clean_up_evolved; [apply Hok|exact E].
Qed.

Lemma delivers_total s id : NDEBUG = true → ∃ s', deliver_done NDEBUG id s = Ok s'.
Proof. intros ->. by eexists. Qed.

Lemma transfer_expires_evolved C id g u g' :
  mgr_ok C g → download_timer_expired NDEBUG id g = Ok (u, g') → evolved NDEBUG C g g'.
Proof. intros Hok E. apply calm_evolved; [done|]. by eapply calm_timer_expired. Qed.

Lemma transfer_expires_total id g :
  NDEBUG = true → ∃ g', download_timer_expired NDEBUG id g = Ok (tt, g').
Proof.
  intros HN. unfold download_timer_expired. rewrite M_bind_unfold.
  destruct (for_each_and_remove_spec _ id g deny_answering) as (g' & ws & -> & _).
  rewrite assert_end_release by done. eauto.
Qed.

Lemma request_expires_evolved C id g :
  mgr_ok C g → ∃ g', backup_timer_expired id g = Ok (tt, g') ∧ evolved NDEBUG C g g'.
Proof.
  intros Hok. destruct (for_each_and_remove_spec _ id g deny_answering) as (g' & ws & E & _).
  exists g'. split; [exact E|]. apply calm_evolved; [done|]. by eapply calm_backup_expired.
Qed.

(** ** Every event *)

Lemma new_system_ok n db : sys_ok (new_system n db).
Proof.
  split; cbn; try done.
  - split; cbn; try done.
    + apply new_manager_ok.
    + split; cbn; try done; [by apply NoDup_nil|]. by intros a c ?%elem_of_nil.
    + by intros a c ?%elem_of_nil.
    + split_and!; [by apply NoDup_nil|constructor|done].
  - intros p. unfold jobs, queued. cbn. rewrite pq_elements_empty. by intros ?%elem_of_nil.
  - by intros _ id ?%elem_of_nil.
Qed.

Lemma acceptor_ok s b : sys_ok s → sys_ok (recount (with_acceptor b s)).
Proof.
  intros Hok. apply (moved s); try done; [by apply evolved_refl, Hok|apply Hok|by left|apply Hok|by left].
Qed.

Lemma guard_step_Some b (o o' : outcome system) :
  guard_step b o = Some o' → b = true ∧ o = o'.
Proof. unfold guard_step. destruct b; [|done]. intros E. split; [done|]. congruence. Qed.

(** Every event leaves a good state. *)
Lemma handle_preserves e s s' :
  sys_ok s → in_range s = true → handle NDEBUG ra port timeout d e s = Some (Ok s') →
  sys_ok (recount s').
Proof.
  intros Hok Hr.
  assert (∀ b o, (∃ f, b = true → steps_to o f) → guard_step b o = Some (Ok s') →
    sys_ok (recount s')) as Hsteps.
  { intros [] o [f Ho]; [|done]. intros [= ->]. specialize (Ho eq_refl).
    destruct f; [done|]. by destruct Ho as (? & [= <-] & ?). }
  destruct e as [a|a e|a|a id|i|i|id|ready hello sock|id|id Succes|id|]; cbn [handle].
  - intros [[_ Ha]%andb_true_iff E]%guard_step_Some.
    apply negb_true_iff, bool_decide_eq_false in Ha. by eapply accepted_ok.
  - apply Hsteps. eexists. intros Ha. by apply reads_steps.
  - apply Hsteps. exists None. intros Ha. unfold alive in Ha.
    destruct (m_find a (connections_ (mgr_of s))) as [c|] eqn:Hf; [|done].
    destruct (stop_evolved NDEBUG _ a c _ (so_mgr _ Hok) (in_range_ready _ Hr) Hf) as (g' & E & He).
    by eapply mgr_steps.
  - apply Hsteps. exists None. intros Hin%bool_decide_eq_true.
    destruct (shared_write_done_evolved NDEBUG _ a id _ (so_mgr _ Hok) Hin) as (g' & E & He).
    by eapply mgr_steps.
  - destruct (take_request i s) as [s1|] eqn:E; [|done]. intros [= <-]. by eapply starts_steps.
  - destruct (taken i s) as [j|] eqn:Ej; [|done]. intros [= E].
    pose proof (finishes_steps s i j Hok Hr Ej) as Hf. rewrite E in Hf.
    destruct (crash _ _); [done|]. by destruct Hf as (? & [= <-] & ?).
  - apply Hsteps. exists None. intros _.
    destruct (request_expires_evolved _ id _ (so_mgr _ Hok)) as (g' & E & He). by eapply mgr_steps.
  - intros [= E]. pose proof (greets_steps s ready hello sock Hok) as Hg. rewrite E in Hg.
    destruct (crash _ _); [done|]. by destruct Hg as (? & [= <-] & ?).
  - unfold guard_step. destruct (ticking _ _); [|done]. intros [= E].
    apply on_mgr_Ok in E as (g' & E & ->). apply moved_srv; [done| |apply Hok].
    by eapply transfer_expires_evolved; [apply Hok|].
  - unfold guard_step. destruct (bool_decide _); [|done]. intros [= E]. by eapply receives_preserve.
  - unfold guard_step. destruct (bool_decide _); [|done]. intros [= E]. by eapply delivers_preserve.
  - unfold guard_step. destruct (acceptor_open s); [|done]. intros [= <-]. by apply acceptor_ok.
Qed.

(** The events that end a transfer: the assertions make them depend on the build. *)
Definition ends_transfer (e : sys_event) : bool :=
  match e with TransferExpires _ | Receives _ _ | Delivers _ => true | _ => false end.

(** Either build survives every other event that is not listed. *)
Lemma handle_ends e s o :
  sys_ok s → in_range s = true → ends_transfer e = false →
  handle NDEBUG ra port timeout d e s = Some o →
  match crash e s with Some f => o = Fault f | None => is_ok o = true end.
Proof.
  intros Hok Hr.
  assert (∀ b o' f, (b = true → steps_to o' f) → guard_step b o' = Some o →
    match f with Some f => o = Fault f | None => is_ok o = true end) as Hsteps.
  { intros [] o' f Ho; [|done]. intros [= ->]. specialize (Ho eq_refl).
    destruct f; [done|]. by destruct Ho as (? & -> & _). }
  destruct e as [a|a e|a|a id|i|i|id|ready hello sock|id|id Succes|id|]; intros He; try done;
    clear He; cbn [handle].
  - unfold guard_step. destruct (_ && _); [|done]. by intros [= <-].
  - apply Hsteps. intros Ha. by apply reads_steps.
  - apply (Hsteps _ _ None). intros Ha. unfold alive in Ha.
    destruct (m_find a (connections_ (mgr_of s))) as [c|] eqn:Hf; [|done].
    destruct (stop_evolved NDEBUG _ a c _ (so_mgr _ Hok) (in_range_ready _ Hr) Hf) as (g' & E & He).
    by eapply mgr_steps.
  - apply (Hsteps _ _ None). intros Hin%bool_decide_eq_true.
    destruct (shared_write_done_evolved NDEBUG _ a id _ (so_mgr _ Hok) Hin) as (g' & E & He).
    by eapply mgr_steps.
  - destruct (take_request i s) as [s1|] eqn:E; [|done]. by intros [= <-].
  - destruct (taken i s) as [j|] eqn:Ej; [|done]. intros [= <-].
    pose proof (finishes_steps s i j Hok Hr Ej) as Hf.
    destruct (crash _ _); [done|]. by destruct Hf as (? & -> & ?).
  - apply (Hsteps _ _ None). intros _.
    destruct (request_expires_evolved _ id _ (so_mgr _ Hok)) as (g' & E & He). by eapply mgr_steps.
  - intros [= <-]. pose proof (greets_steps s ready hello sock Hok) as Hg.
    destruct (crash _ _); [done|]. by destruct Hg as (? & -> & ?).
  - unfold guard_step. destruct (acceptor_open s); [|done]. by intros [= <-].
Qed.

(** A release build survives every event that is not listed. *)
Lemma handle_survives e s o :
  NDEBUG = true → sys_ok s → in_range s = true →
  handle NDEBUG ra port timeout d e s = Some o →
  match crash e s with Some f => o = Fault f | None => is_ok o = true end.
Proof.
  intros HN Hok Hr. destruct (ends_transfer e) eqn:He; [|by apply handle_ends].
  destruct e as [| | | | | | | |id|id Succes|id|]; try done; cbn [handle crash]; unfold guard_step.
  - destruct (ticking _ _); [|done]. intros [= <-].
    destruct (transfer_expires_total id (mgr_of s) HN) as [g' E].
    unfold on_mgr, on_srv, in_mgr. by rewrite E.
  - case_bool_decide as Hin; [|done]. intros [= <-].
    destruct (receives_total s id Succes HN Hok Hin) as [s' ->]. done.
  - destruct (bool_decide _); [|done]. intros [= <-].
    destruct (delivers_total s id HN) as [s' ->]. done.
Qed.
End invariant.
