(* ===== verification/SystemAccount.v ===== *)
(** * SystemAccount: no request is lost on its way through the server

    From the message that is read, through the queue and the threads, to the reply: each
    event of [System] keeps the account of the requests that were admitted, executed and
    answered. *)

From S2P Require Import Prelude Hoare Text Protocol Validators Vfs StdMap BackupRequests.
From S2P Require Import DownloadManager UsersDb Scheduler Manager ManagerSpec ManagerFrame.
From S2P Require Import DownloadSpec ManagerInv Handler HandlerSpec Connection Steady Accounting.
From S2P Require Import RequestInv System SystemInv.

(** The number the client gave the request; a logout is not answered. *)
Definition request_number (t : task) : option str :=
  match t with do_download_file i => Some (d_RequestID i) | _ => answered_request t end.

(** A request of [a] under the number [r]. *)
Definition numbered_job (a : Z) (r : str) (j : job) : bool :=
  bool_decide (job_connection j = a ∧ request_number (job_task j) = Some r).

(** ** Reading *)

Section reads.
Context `{ProtocolLaws} `{BoostSplitLaws} `{SqlApi}.
Variables (NDEBUG : bool) (port : Z) (d : disk) (timeout : outcome Z).
Implicit Types (v : server) (a : Z) (r : str) (msg : message).

Lemma confirm_accepted msg code : confirm msg = Some code → accepted_code code = true.
Proof. unfold confirm. repeat case_match; by intros [= <-]. Qed.

Lemma handle_message_number msg a pj :
  pj ∈ handle_message msg a →
  request_number (job_task pj.2) = Some (header msg headers.CommandId)
  ∨ request_number (job_task pj.2) = None.
Proof.
  unfold handle_message, resolve_querry.
  repeat case_match; intros Hin;
    repeat (apply elem_of_app in Hin as [Hin|Hin]);
    repeat (apply elem_of_cons in Hin as [->|Hin]; [by (left + right)|]);
    by apply elem_of_nil in Hin.
Qed.

Lemma handle_message_length msg a : (length (handle_message msg a) ≤ 1)%nat.
Proof.
  destruct (is_command msg commands.QUERRY) eqn:E.
  - apply bool_decide_eq_true in E.
    destruct (posts_querry msg a E) as [->|[_ ->]]; cbn; lia.
  - unfold handle_message. rewrite E. repeat case_match; cbn; lia.
Qed.

Lemma handle_message_count msg a b r :
  (count (numbered_job b r) (handle_message msg a).*2
   ≤ if bool_decide (b = a ∧ r = header msg headers.CommandId) then 1 else 0)%nat.
Proof.
  pose proof (handle_message_length msg a) as Hl. pose proof (posts_connection msg a) as Hc.
  pose proof (handle_message_number msg a) as Hn. rewrite Forall_forall in Hc.
  destruct (handle_message msg a) as [|pj [|? ?]]; cbn in Hl; [cbn; lia| |lia].
  specialize (Hc pj ltac:(left)). specialize (Hn pj ltac:(left)).
  cbn [fmap list_fmap]. rewrite count_cons. unfold numbered_job, count. cbn [filter list_filter length].
  repeat case_bool_decide; naive_solver lia.
Qed.

(** Acting on what was read. *)
Lemma react_accounted a c e v v' js :
  m_find a (connections_ (mgr v)) = Some c →
  react port d timeout a e v = Ok (tt, v') → posted v' = posted v ++ js →
  accounted (mgr v) (mgr v')
  ∧ ∀ b r, (accepted b r (mgr v) + count (numbered_job b r) js.*2 ≤ accepted b r (mgr v'))%nat.
Proof.
  intros Hf E Ep.
  assert (posted v' = posted v → accounted (mgr v) (mgr v') →
    accounted (mgr v) (mgr v')
    ∧ ∀ b r, (accepted b r (mgr v) + count (numbered_job b r) js.*2 ≤ accepted b r (mgr v'))%nat) as Hquiet.
  { intros Ep' Ha. rewrite Ep' in Ep. assert (js = []) as -> by (by eapply app_inv_head; rewrite app_nil_r).
    split; [done|]. intros b r. cbn. pose proof (ac_accepted _ _ Ha b r). lia. }
  assert (∀ code id, answer a code id v = Ok (tt, v') → posted v' = posted v ∧ accounted (mgr v) (mgr v')) as Hans.
  { intros code id E'. pose proof (steadily_answer a code id v tt v' E') as [Hs Hp].
    split; [done|]. by apply steady_accounted. }
  destruct e as [m| |]; cbn [react] in E.
  2: { apply Hans in E as [? ?]. auto. }
  2: { unfold read_indeterminate in E. rewrite lift_bind in E. destruct timeout; [|done].
       injection E as <-. by apply Hquiet. }
  destruct (is_command m commands.HEARTBEAT) eqn:Eh.
  { unfold read_action in E. rewrite Eh in E. revert E.
    unfold in_mgr. intros [= <-]. apply Hquiet; [done|]. by eapply start_write_accounted. }
  rewrite (read_action_found _ _ _ _ _ _ Hf Eh) in E.
  destruct (refusal m (state_ (client_ c))) as [[code id]|] eqn:Er.
  { apply Hans in E as [? ?]. auto. }
  destruct (is_command m commands.REPLY) eqn:Erep.
  { unfold in_mgr in E. destruct (resolve_download_reply port d m (mgr v)) as [[[] g']|] eqn:Eg; [|done].
    injection E as <-. apply Hquiet; [done|]. by eapply reply_accounted. }
  destruct (confirm m) as [code|] eqn:Ec; [|done]. apply confirm_accepted in Ec.
  rewrite M_bind_unfold in E. injection E as <-. cbn [posted] in Ep.
  apply app_inv_head in Ep as <-. split; [by eapply start_write_accounted|].
  intros b r. unfold accepted. cbn [mgr sent on_sent]. rewrite count_app, count_cons.
  cbn [is_reply_to reply]. rewrite Ec. cbn [andb].
  pose proof (handle_message_count m a b r).
  rewrite (bool_decide_ext (a = b ∧ header m headers.CommandId = r) (b = a ∧ r = header m headers.CommandId)) by naive_solver.
  lia.
Qed.
End reads.

(** ** Executing *)

Section requests.
Context `{ProtocolLaws} `{BoostSplitLaws} `{SqlApi} `{!SqlThrows}.
Variables (ra : str → str → str) (port : Z) (d : disk).
Implicit Types (v : server) (a : Z) (r : str).

(** What was executed is one more request that ended or waits. *)
Definition one_more (j : job) v v' : Prop :=
  ∀ a r, (ended a r (mgr v) + waiting a r (mgr v) + (if numbered_job a r j then 1 else 0)
          ≤ ended a r (mgr v') + waiting a r (mgr v'))%nat.

Lemma ended_replies a r g : ended a r g = count (is_reply_to final_code a r) (replies g).
Proof.
  unfold ended, replies. symmetry. apply count_filter.
  intros [b [[]|]]; try done.
Qed.

Lemma answers_one_more (m : M server unit) j v v' r :
  answered_request (job_task j) = Some r → answers m (job_connection j) r →
  m v = Ok (tt, v') → steadily v v' → one_more j v v'.
Proof.
  intros Hr Hm E [Hs _] a r'. destruct (Hm _ _ _ E) as (code & Hc & Hrep).
  rewrite !ended_replies, Hrep, count_app. unfold waiting. rewrite (steady_backup _ _ Hs).
  rewrite count_cons. cbn [is_reply_to reply]. rewrite Hc. cbn [andb].
  assert (request_number (job_task j) = Some r) as Hn by (by destruct (job_task j)).
  unfold numbered_job. rewrite Hn.
  rewrite (bool_decide_ext (job_connection j = a ∧ Some r = Some r') (job_connection j = a ∧ r = r')) by naive_solver.
  lia.
Qed.

Lemma execute_answers j r v v' :
  alive (mgr v) (job_connection j) = true → answered_request (job_task j) = Some r →
  execute ra port d j v = Ok (tt, v') → one_more j v v'.
Proof.
  intros Ha Hr E.
  assert (is_download (job_task j) = false) as Hnd by (by destruct (job_task j)).
  pose proof (execute_steady ra port d j Hnd v tt v' E) as Hst.
  unfold execute in E. rewrite Ha in E. destruct j as [a t]. cbn [job_connection job_task] in *.
  destruct t; try done; injection Hr as ->;
    (eapply answers_one_more; [done| |exact E|done]); cbn [job_connection].
  - apply run_signin_answers.
  - apply run_signup_answers.
  - apply run_push_files_answers.
  - apply run_delete_account_answers.
  - apply run_add_file_answers.
  - apply run_remove_path_answers.
  - apply run_remame_path_answers.
Qed.

Lemma execute_accounted C j v v' :
  mgr_ok C (mgr v) → ready (mgr v) → execute ra port d j v = Ok (tt, v') →
  accounted (mgr v) (mgr v') ∧ (alive (mgr v) (job_connection j) = true → one_more j v v').
Proof.
  intros Hok [_ Hr] E. destruct (is_download (job_task j)) eqn:Hd.
  2: { pose proof (execute_steady ra port d j Hd v tt v' E) as [Hst _].
       apply steady_accounted in Hst as Hac. split; [done|]. intros Ha.
       destruct (answered_request (job_task j)) as [r|] eqn:Ha'; [by eapply execute_answers|].
       intros a r. unfold numbered_job. rewrite bool_decide_eq_false_2.
       - unfold waiting. rewrite (steady_backup _ _ Hst).
         pose proof (count_prefix (is_reply_to final_code a r) _ _ (steady_sent _ _ Hst)).
         unfold ended. lia.
       - intros [_ HN]. destruct (job_task j); done. }
  destruct j as [a t]. destruct t; try done. unfold execute in E. cbn [job_connection job_task] in *.
  destruct (alive (mgr v) a) eqn:Ha; [|injection E as <-; by split].
  unfold run_download_file, in_mgr in E. set (q := mkDownloadQuerry _ _ _ _ _) in E.
  destruct (find_owner_ok (q_FileOwner q) (q_FilePath q) (mgr v) (mo_trees _ _ Hok)) as [o Eo].
  destruct (querry_spec port d q a (mgr v) o (mo_numbered _ _ Hok) Hr Eo)
    as (g' & Eq & Hw%querry_outcome_cases & Hu & _ & Hn').
  rewrite Eq in E. injection E as <-.
  pose proof (answered_or_waits_count q a (mgr v) g') as Hcount.
  split.
  - split; cbn [mgr]; [done| | |].
    + intros b. by rewrite (alive_connections _ _ (same_connections _ _ Hu)).
    + intros b r. by apply count_prefix, (answered_or_waits_sent q a).
    + intros Hn b r _. specialize (Hcount b r Hn Hn' Hw). lia.
  - intros _ b r. specialize (Hcount b r (mo_numbered _ _ Hok) Hn' Hw). cbn [mgr].
    unfold numbered_job. cbn [job_connection job_task request_number].
    rewrite (bool_decide_ext (a = b ∧ Some (d_RequestID downloadInfo) = Some r)
               (a = b ∧ q_QuerryID q = r)) by (subst q; cbn; naive_solver).
    exact Hcount.
Qed.
End requests.

(** ** The events of the system *)

Section events.
Context `{ProtocolLaws} `{BoostSplitLaws} `{SqlApi} `{!SqlThrows} `{PriorityQueue (item job)}.
Context `{!PriorityQueueLaws (item job) item_comp}.
Variables (NDEBUG : bool) (ra : str → str → str) (port : Z) (timeout : outcome Z) (d : disk).
Implicit Types (s : system) (a : Z) (r : str).

Local Abbreviation mgr_of s := (mgr (srv s)).

(** An executed request whose client was there. *)
Definition served (a : Z) (r : str) (e : job * bool) : bool := e.2 && numbered_job a r e.1.

Record account_ok s : Prop := {
  sa_requests : admitted s ≡ₚ map function_ (jobs (requests s)) ++ (executed s).*1;
  sa_accepted : ∀ a r, (count (numbered_job a r) (admitted s) ≤ accepted a r (mgr_of s))%nat;
  sa_ended : ∀ a r, alive (mgr_of s) a = true →
    (count (served a r) (executed s) ≤ ended a r (mgr_of s) + waiting a r (mgr_of s))%nat;
  sa_there : ∀ j b, (j, b) ∈ executed s → job_connection j ∈ used s;
}.

(** Most events admit and execute nothing. *)
Lemma account_kept s s' :
  sys_ok NDEBUG s → account_ok s → accounted (mgr_of s) (mgr_of s') →
  jobs (requests s') ≡ₚ jobs (requests s) → admitted s' = admitted s →
  executed s' = executed s → used s' = used s → account_ok (recount s').
Proof.
  intros Hok [Sr Sa Se St] Hac Ej Ea Ee Eu.
  split; cbn [recount with_counted admitted executed requests srv used].
  - rewrite Ea, Ee, Sr. by rewrite Ej.
  - intros a r. rewrite Ea. etrans; [apply Sa|apply Hac].
  - intros a r Ha. rewrite Ee. etrans; [apply Se; by eapply ac_alive|].
    apply Hac; [apply Hok|done].
  - rewrite Ee, Eu. exact St.
Qed.

Lemma account_mgr s (m : M manager unit) s' :
  sys_ok NDEBUG s → account_ok s → preserves accounted m → on_mgr m s = Ok s' →
  account_ok (recount s').
Proof.
  intros Hok Ha Hm (g' & E & ->)%on_mgr_Ok. eapply account_kept; [done..| |done|done|done|done].
  by eapply Hm.
Qed.

Lemma account_accepts s a s' :
  sys_ok NDEBUG s → account_ok s → a ∉ used s →
  on_mgr (Manager.start a) (with_used (a :: used s) s) = Ok s' → account_ok (recount s').
Proof.
  intros Hok [Sr Sa Se St] Ha (g' & E & ->)%on_mgr_Ok. injection E as <-.
  split; cbn [recount with_counted admitted executed requests srv used with_srv with_used]; try done.
  - intros b r Hb. destruct (decide (b = a)) as [->|Hne].
    + assert (count (served a r) (executed s) = 0%nat) as ->; [|lia].
      unfold count. rewrite filter_none; [done|]. apply Forall_forall. intros [j x] Hin Hs.
      apply andb_true_iff in Hs as [_ Hs]. apply bool_decide_eq_true in Hs as [Hs _]. cbn in Hs.
      apply Ha. rewrite <- Hs. by eapply St.
    + apply Se. revert Hb. unfold alive. cbn [mgr connections_ on_connections].
      rewrite m_find_emplace; [by rewrite bool_decide_eq_false_2|].
      apply m_find_None. intros Hin%alive_keys. by apply Ha, (so_used _ _ Hok).
  - intros j b Hin. right. by eapply St.
Qed.

Lemma account_reads s a c e s' :
  sys_ok NDEBUG s → account_ok s → m_find a (connections_ (mgr_of s)) = Some c →
  flush <$> on_srv (react port d timeout a e) s = Ok s' → account_ok (recount s').
Proof.
  intros Hok [Sr Sa Se St] Hf. unfold on_srv.
  destruct (react port d timeout a e (srv s)) as [[[] v']|] eqn:E; [|done].
  cbn [mbind outcome_bind fmap outcome_fmap]. intros [= <-].
  destruct (react_accounted port d timeout a c e (srv s) v' (posted v') Hf E) as [Hac Hcnt].
  { by rewrite (so_posted _ _ Hok). }
  split; cbn [recount with_counted admitted executed requests srv used with_srv with_admitted
    with_requests flush mgr posted].
  - rewrite jobs_flush by apply Hok. rewrite Sr, map_app, map_map. cbn [function_].
    rewrite (Permutation_app_comm (_ ++ _)), app_assoc. apply Permutation_app; [|done].
    apply Permutation_app; [|done]. cbn. by rewrite reverse_Permutation.
  - intros b r. rewrite count_app. specialize (Sa b r). specialize (Hcnt b r). lia.
  - intros b r Hb. etrans; [apply Se; by eapply ac_alive|]. apply Hac; [apply Hok|done].
  - exact St.
Qed.

Lemma account_starts s i s' :
  sys_ok NDEBUG s → account_ok s → take_request i s = Some s' → account_ok (recount s').
Proof.
  intros Hok Ha. unfold take_request.
  destruct (request_threads_ (requests s) !! i) as [[| |]|] eqn:Ei; try done.
  destruct (run_once (scheduler_ (requests s))) as [| |p sch] eqn:Er; try done. intros [= <-].
  eapply account_kept; [done..| |done|done|done].
  apply run_once_Executes in Er as (_ & _ & Hp & _).
  pose proof (executing_with_worker _ i Scheduler.Waiting (Executing p) sch Ei) as He.
  cbn in He. rewrite app_nil_r in He. unfold jobs. cbn [requests with_requests]. rewrite He.
  unfold queued. cbn [scheduler_ with_worker]. rewrite Hp. solve_Permutation.
Qed.

Lemma account_finishes s i j s' :
  sys_ok NDEBUG s → in_range s = true → account_ok s → taken i s = Some j →
  run_request ra port d i j s = Ok s' → account_ok (recount s').
Proof.
  intros Hok Hr [Sr Sa Se St] Ht. unfold taken in Ht.
  destruct (request_threads_ (requests s) !! i) as [[|p|]|] eqn:Ei; try done. injection Ht as <-.
  pose proof (executing_with_worker _ i (Executing p) Scheduler.Waiting (scheduler_ (requests s)) Ei) as Hex.
  cbn in Hex. rewrite app_nil_r in Hex.
  unfold run_request, on_srv.
  destruct (execute ra port d (function_ p) (srv s)) as [[[] v']|] eqn:E; [|done].
  cbn [mbind outcome_bind]. intros [= <-].
  destruct (execute_accounted ra port d _ _ _ _ (so_mgr _ _ Hok) (in_range_ready _ Hr) E) as [Hac Hone].
  split; cbn [recount with_counted admitted executed requests srv used with_srv with_requests with_executed].
  - rewrite Sr. unfold jobs. rewrite <- Hex. unfold queued. cbn [scheduler_ with_worker].
    rewrite ?map_app, ?fmap_app. cbn. solve_Permutation.
  - intros b r. etrans; [apply Sa|apply Hac].
  - intros b r Hb. rewrite count_app. specialize (Se b r (ac_alive _ _ Hac b Hb)).
    pose proof (ac_ended _ _ Hac (mo_numbered _ _ (so_mgr _ _ Hok)) b r Hb) as He.
    rewrite count_cons. unfold served at 2. cbn [fst snd].
    destruct (alive (mgr_of s) (job_connection (function_ p))); cbn [andb]; [|cbn; lia].
    specialize (Hone eq_refl b r). cbn. lia.
  - intros j b [Hin|Hin]%elem_of_app; [by eapply St|].
    apply list_elem_of_singleton in Hin as [= -> ->].
    apply (so_jobs _ _ Hok p). unfold jobs. rewrite <- Hex. apply elem_of_app. right.
    apply elem_of_app. right. left.
Qed.

(** What concerns only the transactions. *)
Lemma downloads_accounted {A} (f : download_manager download_handler → outcome (A * download_manager download_handler)) :
  preserves accounted (λ g, '(_, dm) ← f (download_manager_ g); Ok (tt, set_downloads dm g)).
Proof.
  intros g x g'. destruct (f _) as [[y dm]|]; [|done]. intros [= <- <-].
  by apply renumbered_accounted.
Qed.

Lemma account_transfer s s' rs ds :
  account_ok (recount s') → account_ok (recount (with_transfers rs ds s')).
Proof. intros []. by split. Qed.

Lemma account_greets s ready hello sock s' :
  sys_ok NDEBUG s → account_ok s → greet NDEBUG ready hello sock s = Ok s' → account_ok (recount s').
Proof.
  intros Hok Ha. unfold greet. cbv zeta. destruct (restarts s _); [done|].
  destruct (on_mgr _ s) as [s1|] eqn:E; [|done]. cbn [mbind outcome_bind]. intros [= <-].
  assert (account_ok (recount s1)) as H1s.
  { eapply account_mgr; [done..| |exact E]. intros g x g'.
    destruct (HandleHandshake _ _ _ _ _ _) as [dm|]; [|done]. intros [= <- <-].
    by apply renumbered_accounted. }
  unfold at_work. destruct (greeting_starts _ _ _) as [[id|id]|]; [by apply account_transfer..|done].
Qed.

Lemma account_receives s id Succes s' :
  sys_ok NDEBUG s → account_ok s → receive_done NDEBUG port d id Succes s = Ok s' →
  account_ok (recount s').
Proof.
  intros Hok Ha. unfold receive_done. destruct (handler_of id s) as [h|]; [|done].
  destruct (on_mgr _ s) as [s1|] eqn:E; [|done]. cbn [mbind outcome_bind].
  intros [= <-]. apply (account_transfer s1).
  eapply account_mgr; [done..| |exact E]. apply completed_accounted.
Qed.

Lemma account_delivers s id s' :
  sys_ok NDEBUG s → account_ok s → deliver_done NDEBUG id s = Ok s' → account_ok (recount s').
Proof.
  intros Hok Ha. unfold deliver_done. destruct (on_mgr _ s) as [s1|] eqn:E; [|done].
  cbn [mbind outcome_bind].
  intros [= <-]. apply (account_transfer s1). eapply account_mgr; [done..| |exact E].
  apply (downloads_accounted (upload_clean_up NDEBUG id)).
Qed.

Lemma handle_accounts e s s' :
  sys_ok NDEBUG s → in_range s = true → account_ok s →
  handle NDEBUG ra port timeout d e s = Some (Ok s') → account_ok (recount s').
Proof.
  intros Hok Hr Ha.
  destruct e as [a|a e|a|a id|i|i|id|ready hello sock|id|id Succes|id|]; cbn [handle].
  - intros [[_ Hu]%andb_true_iff E]%guard_step_Some.
    apply negb_true_iff, bool_decide_eq_false in Hu. by eapply account_accepts.
  - intros [Hal E]%guard_step_Some. unfold alive in Hal.
    destruct (m_find a (connections_ (mgr_of s))) as [c|] eqn:Hf; [|done]. by eapply account_reads.
  - intros [_ E]%guard_step_Some. eapply account_mgr; [done..| |exact E].
    eapply preserves_impl; [apply steady_accounted|apply steady_stop].
  - intros [_ E]%guard_step_Some. eapply account_mgr; [done..| |exact E].
    eapply preserves_impl; [apply steady_accounted|apply steady_written].
  - destruct (take_request i s) as [s1|] eqn:E; [|done]. intros [= <-]. by eapply account_starts.
  - destruct (taken i s) as [j|] eqn:Ej; [|done]. intros E. apply (f_equal (default (Fault Thrown))) in E.
    by eapply account_finishes.
  - intros [_ E]%guard_step_Some. eapply account_mgr; [done..| |exact E]. apply request_expired_accounted.
  - intros E. apply (f_equal (default (Fault Thrown))) in E. by eapply account_greets.
  - intros [_ E]%guard_step_Some. eapply account_mgr; [done..| |exact E]. apply transfer_expired_accounted.
  - intros [_ E]%guard_step_Some. by eapply account_receives.
  - intros [_ E]%guard_step_Some. by eapply account_delivers.
  - intros [_ E]%guard_step_Some. injection E as <-. by apply (account_kept s).
Qed.

Lemma new_system_accounts n db : account_ok (new_system n db).
Proof.
  split; cbn; try done.
  - unfold jobs, queued. cbn. by rewrite pq_elements_empty.
  - by intros j b ?%elem_of_nil.
Qed.
End events.
