(* ===== verification/SystemWaiting.v ===== *)
(** * SystemWaiting: what waits for a file will be settled

    A request that waits for a file is watched: by the timer of the request, by the timer
    of the transaction, or by a receiver at work.  Each of them, when it fires, settles
    the request. *)

From S2P Require Import Prelude Hoare Text Protocol Validators Vfs StdMap BackupRequests.
From S2P Require Import DownloadManager UsersDb Scheduler Manager ManagerSpec ManagerFrame.
From S2P Require Import DownloadSpec ManagerInv Handler HandlerSpec Connection Steady.
From S2P Require Import RequestInv System SystemInv.

Implicit Types (g : manager) (id : Z).

Definition downloads g := download_transactions_ (download_manager_ g).

(** Something that has not happened yet will settle [id]. *)
Definition watched (rs : list Z) g id : Prop :=
  ticking id (backup_requests_ g) = true ∨ ticking id (downloads g) = true ∨ id ∈ rs.

(** Every number that waits is watched, and a receiver settles its own number. *)
Record watched_ok (rs : list Z) g : Prop := {
  wo_watched : ∀ id, m_find id (backup_requests_ g) ≠ None → watched rs g id;
  wo_handlers : ∀ id r t, m_find id (downloads g) = Some (Some r, t) →
    h_request (receiver_handler r) = id;
}.

(** ** Operations of the manager *)

Section manager.
Context `{Protocol} `{BoostSplit}.
Variables (NDEBUG : bool) (port : Z) (d : disk).

Lemma watched_ok_same rs g g' :
  backup_requests_ g' = backup_requests_ g → downloads g' = downloads g →
  watched_ok rs g → watched_ok rs g'.
Proof. intros E1 E2 [Hw Hh]. split; unfold watched; by rewrite ?E1, E2. Qed.

Lemma steady_watched rs g g' : steady g g' → watched_ok rs g → watched_ok rs g'.
Proof. intros [_ E1 _ E2 _ _]. by apply watched_ok_same. Qed.

(** One number is gone, or will be settled by what is in [rs']. *)
Lemma watched_ok_other rs rs' g g' id :
  (∀ j, j ≠ id → m_find j (backup_requests_ g') = m_find j (backup_requests_ g)) →
  (m_find id (backup_requests_ g') ≠ None → watched rs' g' id) →
  (∀ j, j ≠ id → m_find j (downloads g') = m_find j (downloads g)) →
  (∀ r t, m_find id (downloads g') = Some (Some r, t) → h_request (receiver_handler r) = id) →
  (∀ j, j ≠ id → j ∈ rs → j ∈ rs') →
  watched_ok rs g → watched_ok rs' g'.
Proof.
  intros Hb Hid Hd Hh Hrs [Hw Hho]. split.
  - intros j. destruct (decide (j = id)) as [->|Hne]; [done|]. unfold watched, ticking.
    rewrite Hb, Hd by done. intros [?|[?|?]]%Hw; [by left|by right; left|right; right; auto].
  - intros j r t. destruct (decide (j = id)) as [->|Hne]; [by apply Hh|].
    rewrite Hd by done. apply Hho.
Qed.

(** [for_each_and_remove] with such functions forgets its number only. *)
Lemma removed_downloads id f g g' :
  (∀ q, preserves still (f q)) → for_each_and_remove id f g = Ok (tt, g') → downloads g' = downloads g.
Proof.
  intros Hf. unfold for_each_and_remove, ForEachAndRemoveWrapper, ForEach.
  destruct (m_index id default_backup (backup_requests_ g)) as [[info t] m].
  destruct (for_each _ _ _) as [[[] g1]|] eqn:E; [|done]. cbn. intros [= <-].
  assert (still (set_backup m g) g1) as Hs; [|exact (still_downloads _ _ Hs)].
  eapply (preserves_for_each still); [|exact E].
  intros r s2 y s3. destruct (alive _ _); [apply Hf|by intros [= <- <-]].
Qed.

Lemma removed_watched rs id f g g' :
  answering f → (∀ q, preserves still (f q)) → for_each_and_remove id f g = Ok (tt, g') →
  watched_ok rs g → watched_ok rs g' ∧ downloads g' = downloads g
                    ∧ backup_requests_ g' = m_erase id (backup_requests_ g).
Proof.
  intros Ha Hf E Hw. pose proof (removed_downloads id f g g' Hf E) as Ed.
  destruct (for_each_and_remove_spec f id g Ha) as (g1 & ws & E1 & _ & _ & _ & Eb).
  rewrite E in E1. injection E1 as <-. split; [|done].
  eapply (watched_ok_other rs rs g g' id); try done.
  - intros j Hj. by rewrite Eb, m_find_erase, bool_decide_eq_false_2.
  - rewrite Eb, m_find_erase, bool_decide_eq_true_2; done.
  - intros j _. by rewrite Ed.
  - intros r t. rewrite Ed. apply Hw.
Qed.

Lemma denied_watched rs id g g' :
  for_each_and_remove id GetDownloadDenyHandler g = Ok (tt, g') →
  watched_ok rs g → watched_ok rs g' ∧ downloads g' = downloads g
                    ∧ backup_requests_ g' = m_erase id (backup_requests_ g).
Proof. apply removed_watched; [apply deny_answering|apply still_deny_handler]. Qed.

(** The transaction is taken out, when nothing waits for it any more. *)
Lemma assert_end_watched rs rs' id g g' :
  assert_end_download NDEBUG id g = Ok (tt, g') → m_find id (backup_requests_ g) = None →
  (∀ j, j ≠ id → j ∈ rs → j ∈ rs') → watched_ok rs g → watched_ok rs' g'.
Proof.
  unfold assert_end_download, cassert. destruct NDEBUG.
  - intros [= <-] Hn Hrs Hw. apply (watched_ok_other rs rs' g g id); try done. apply Hw.
  - rewrite M_bind_unfold. unfold EndDownloadTransaction. cbn [mbind outcome_bind].
    destruct (negb _); [|done]. intros [= <-] Hn Hrs Hw.
    apply (watched_ok_other rs rs' g _ id); try done; unfold downloads; cbn.
    + intros j Hj. by rewrite m_find_erase, bool_decide_eq_false_2.
    + intros r t. by rewrite m_find_erase, bool_decide_eq_true_2.
Qed.

Lemma erased_None {V} id (m : stdmap V) : m_find id (m_erase id m) = None.
Proof. by rewrite m_find_erase, bool_decide_eq_true_2. Qed.

Lemma transfer_expired_watched rs id g g' :
  download_timer_expired NDEBUG id g = Ok (tt, g') → watched_ok rs g → watched_ok rs g'.
Proof.
  unfold download_timer_expired. rewrite M_bind_unfold.
  destruct (for_each_and_remove _ _ g) as [[[] g1]|] eqn:E1; [|done]. intros E2 Hw.
  destruct (denied_watched rs id g g1 E1 Hw) as (Hw1 & _ & Eb).
  eapply (assert_end_watched rs rs); [exact E2| |done|exact Hw1]. by rewrite Eb, erased_None.
Qed.

Lemma completed_watched rs id h Succes g g' :
  h_request h = id → download_completed port NDEBUG d id h Succes g = Ok (tt, g') →
  watched_ok rs g → watched_ok (remove_one id rs) g'.
Proof.
  intros <-. unfold download_completed. rewrite M_bind_unfold.
  destruct (CloseDownloadTransaction _ _) as [[]|]; [|done]. cbn [mbind outcome_bind].
  rewrite M_bind_unfold.
  assert (∀ g1 g2, watched_ok rs g1 → backup_requests_ g1 = m_erase (h_request h) (backup_requests_ g2) →
    assert_end_download NDEBUG (h_request h) g1 = Ok (tt, g') →
    watched_ok (remove_one (h_request h) rs) g') as Hend.
  { intros g1 g2 Hw1 Eb E3. eapply (assert_end_watched rs); [exact E3| | |exact Hw1].
    - by rewrite Eb, erased_None.
    - intros j Hj. by apply remove_one_other. }
  destruct Succes.
  - rewrite M_bind_unfold. destruct (SetFileToCached _ _ _ g) as [[[] g1]|] eqn:E1; [|done].
    destruct (for_each_and_remove _ _ g1) as [[[] g2]|] eqn:E2; [|done]. intros E3 Hw.
    apply (steady_watched rs g g1) in Hw; [|by eapply steady_set_cached].
    destruct (removed_watched rs _ _ g1 g2 (deliver_answering port d (h_owner h ++ h_path h))
      (λ q, still_deliver port d _ _ _ _) E2 Hw) as (Hw2 & _ & Eb). by eapply Hend.
  - destruct (for_each_and_remove _ _ g) as [[[] g2]|] eqn:E2; [|done]. intros E3 Hw.
    destruct (denied_watched rs _ g g2 E2 Hw) as (Hw2 & _ & Eb). by eapply Hend.
Qed.

(** A query that waits starts the timer of its number, or finds it watched. *)
Lemma querry_watched rs q a g g' :
  answered_or_waits q a g g' → downloads g' = downloads g →
  watched_ok rs g → watched_ok rs g'.
Proof.
  intros [(w & _ & _ & Eb)|(o & id & info & Hf & _ & _ & _ & Hj & _)] Ed Hw;
    [by apply (watched_ok_same rs g)|].
  apply (watched_ok_other rs rs g g' id); try done.
  - intros _. unfold watched, ticking. rewrite Hf, Ed.
    destruct (m_find id (backup_requests_ g)) as [[i t]|] eqn:E; [|by left].
    pose proof (wo_watched _ _ Hw id) as Hid. rewrite E in Hid. specialize (Hid ltac:(done)).
    unfold watched, ticking in Hid. by rewrite E in Hid.
  - intros j _. by rewrite Ed.
  - intros r t. rewrite Ed. apply Hw.
Qed.

(** An approved reply hands the number over from its timer to the transaction. *)
Lemma reply_watched rs msg g g' :
  resolve_download_reply port d msg g = Ok (tt, g') → watched_ok rs g → watched_ok rs g'.
Proof.
  unfold resolve_download_reply. rewrite lift_bind.
  destruct (stoull (header msg headers.CommandId)) as [id|f]; [|done].
  cbv zeta. destruct (bool_decide _); [cbn [negb]|by intros [= <-]].
  rewrite M_bind_unfold. unfold IsRequestIDValid.
  destruct (m_find id (backup_requests_ g)) as [[info t]|] eqn:Ef;
    [|intros E Hw; injection E as <-; by apply (watched_ok_same rs g)].
  rewrite lift_bind. destruct (stoull (header msg headers.FileSize)) as [size|f]; [|done].
  rewrite M_bind_unfold. set (g1 := set_backup (m_update id stop_timer (backup_requests_ g)) g).
  assert (∀ j, j ≠ id → m_find j (backup_requests_ g1) = m_find j (backup_requests_ g)) as Hb1.
  { intros j Hj. cbn. by rewrite m_find_update, bool_decide_eq_false_2. }
  unfold BeginDownloadTransaction. destruct (creates_parents d _); [cbn [negb]|done].
  destruct (opens_for_writing d _); cbn [negb mbind outcome_bind].
  - rewrite M_bind_unfold. match goal with |- context [NotifyFileDownload port ?o ?i ?c ?s] =>
      set (g2 := s); destruct (NotifyFileDownload port o i c g2) as [[b g3]|] eqn:E3; [|done] end.
    intros [= <-] Hw. pose proof (steady_notify_download _ _ _ _ _ _ _ E3) as Hs.
    apply (steady_watched rs g2 g3 Hs). apply (watched_ok_other rs rs g g2 id); try done.
    + intros _. right. left. unfold ticking, downloads. cbn [g2 download_manager_ set_downloads with_downloads download_transactions_].
      rewrite m_find_update, bool_decide_eq_true_2 by done.
      unfold m_emplace. destruct (m_find id (download_transactions_ _)) as [[r t']|] eqn:E.
      * by rewrite E.
      * rewrite m_find_insert, bool_decide_eq_true_2 by done. done.
    + intros j Hj. unfold downloads. cbn. rewrite m_find_update, bool_decide_eq_false_2 by done.
      unfold m_emplace. destruct (m_find id (download_transactions_ _)) eqn:E; [done|].
      by rewrite m_find_insert, bool_decide_eq_false_2.
    + intros r t'. unfold downloads. cbn. rewrite m_find_update, bool_decide_eq_true_2 by done.
      unfold m_emplace. destruct (m_find id (download_transactions_ _)) as [[r0 t0]|] eqn:E.
      * rewrite E. cbn. intros [= -> <-]. by eapply (wo_handlers _ _ Hw).
      * rewrite m_find_insert, bool_decide_eq_true_2 by done. cbn. unfold make_receiver.
        destruct (GetCompression _); intros [= <- <-]; done.
  - intros E Hw. assert (set_downloads (download_manager_ g1) g1 = g1) as Eg1 by done.
    rewrite Eg1 in E. clear Eg1.
    pose proof (removed_downloads id _ g1 g' still_deny_handler E) as Ed.
    destruct (for_each_and_remove_spec _ id g1 deny_answering) as (g2 & ws & E2 & _ & _ & _ & Eb).
    rewrite E in E2. injection E2 as <-. apply (watched_ok_other rs rs g g' id); try done.
    + intros j Hj. rewrite Eb, m_find_erase, bool_decide_eq_false_2 by done. by apply Hb1.
    + by rewrite Eb, erased_None.
    + intros j _. by rewrite Ed.
    + intros r t'. rewrite Ed. apply Hw.
Qed.

(** ** Where the wait ends *)

(** Every number that waited still waits, or the requests of one were settled. *)
Definition kept_or_settled g g' : Prop :=
  (∀ j, m_find j (backup_requests_ g) ≠ None → m_find j (backup_requests_ g') ≠ None)
  ∨ ∃ id, settled id g g'.

Lemma kept_same g g' : backup_requests_ g' = backup_requests_ g → kept_or_settled g g'.
Proof. intros E. left. intros j. by rewrite E. Qed.

Lemma settled_or_waiting g g' id :
  kept_or_settled g g' → m_find id (backup_requests_ g) ≠ None →
  m_find id (backup_requests_ g') = None → settled id g g'.
Proof.
  intros [Hk|[i Hs]] Hf Hn; [by destruct (Hk id Hf)|].
  destruct (decide (i = id)) as [<-|Hne]; [done|]. destruct Hs as (ws & _ & _ & Hb).
  rewrite Hb, bool_decide_eq_false_2 in Hn by done. done.
Qed.

(** The requests of a number whose timer was stopped are denied. *)
Lemma stopped_denied id g g' :
  for_each_and_remove id GetDownloadDenyHandler
    (set_backup (m_update id stop_timer (backup_requests_ g)) g) = Ok (tt, g') →
  settled id g g'.
Proof.
  set (g1 := set_backup _ g). intros E.
  pose proof (for_each_and_remove_settles _ id g1 g1 g' deny_answering E eq_refl eq_refl
                (λ _, eq_refl)) as (ws & Hs & Ha & Hb).
  exists ws. split; [done|]. split.
  - unfold reachable, waiting_on in *. cbn in Ha. rewrite m_find_update, bool_decide_eq_true_2 in Ha by done.
    by destruct (m_find id (backup_requests_ g)) as [[info t]|].
  - intros j. rewrite Hb. case_bool_decide; [done|]. cbn. by rewrite m_find_update, bool_decide_eq_false_2.
Qed.

(** An approved reply whose transaction can not begin denies the requests on the spot. *)
Lemma reply_settles msg g g' :
  resolve_download_reply port d msg g = Ok (tt, g') → kept_or_settled g g'.
Proof.
  unfold resolve_download_reply. rewrite lift_bind.
  destruct (stoull (header msg headers.CommandId)) as [id|f]; [|done].
  cbv zeta. destruct (bool_decide _); cbn [negb]; [|intros [= <-]; by apply kept_same].
  rewrite M_bind_unfold. unfold IsRequestIDValid.
  destruct (m_find id (backup_requests_ g)) as [[info t]|] eqn:Ef;
    [|intros E; injection E as <-; by apply kept_same].
  rewrite lift_bind. destruct (stoull (header msg headers.FileSize)) as [size|f]; [|done].
  rewrite M_bind_unfold. unfold BeginDownloadTransaction. destruct (creates_parents d _); [cbn [negb]|done].
  destruct (opens_for_writing d _); cbn [negb mbind outcome_bind].
  - rewrite M_bind_unfold. match goal with |- context [NotifyFileDownload port ?o ?i ?c ?s] =>
      set (g2 := s); destruct (NotifyFileDownload port o i c g2) as [[b g3]|] eqn:E3; [|done] end.
    intros [= <-]. pose proof (steady_notify_download _ _ _ _ _ _ _ E3) as Hs. left. intros j.
    rewrite (steady_backup _ _ Hs). cbn. rewrite m_find_update.
    case_bool_decide; [|done]. by destruct (m_find j _).
  - intros E. right. exists id. by apply stopped_denied.
Qed.
End manager.

(** ** Messages and requests *)

Section requests.
Context `{ProtocolLaws} `{BoostSplitLaws} `{SqlApi}.
Variables (ra : str → str → str) (port : Z) (timeout : outcome Z) (d : disk).
Implicit Types (v : server) (a : Z).

(** What was read is a reply for the downloads, or leaves them alone. *)
Lemma react_forms a c e v v' :
  m_find a (connections_ (mgr v)) = Some c → react port d timeout a e v = Ok (tt, v') →
  steady (mgr v) (mgr v')
  ∨ ∃ m, resolve_download_reply port d m (mgr v) = Ok (tt, mgr v').
Proof.
  intros Hf E.
  assert (∀ code r, answer a code r v = Ok (tt, v') → steady (mgr v) (mgr v')) as Hans.
  { intros code r E'. by apply (steadily_answer a code r v tt v' E'). }
  destruct e as [m| |]; cbn [react] in E; [|left; by eapply Hans|].
  2: { left. unfold read_indeterminate in E. rewrite lift_bind in E. destruct timeout; [|done].
       by injection E as <-. }
  destruct (is_command m commands.HEARTBEAT) eqn:Eh.
  { left. unfold read_action in E. rewrite Eh in E. revert E. unfold in_mgr. intros [= <-].
    by eapply steady_start_write. }
  rewrite (read_action_found _ _ _ _ _ _ Hf Eh) in E.
  destruct (refusal m (state_ (client_ c))) as [[code id]|]; [left; by eapply Hans|].
  destruct (is_command m commands.REPLY).
  { right. exists m. unfold in_mgr in E.
    destruct (resolve_download_reply port d m (mgr v)) as [[[] g']|]; [|done]. by injection E as <-. }
  left. destruct (confirm m); [|done]. rewrite M_bind_unfold in E. injection E as <-.
  by eapply steady_start_write.
Qed.

(** What was executed is a download query, or leaves the downloads alone. *)
Lemma execute_forms C j v v' :
  mgr_ok C (mgr v) → ready (mgr v) → execute ra port d j v = Ok (tt, v') →
  steady (mgr v) (mgr v')
  ∨ ∃ q a, answered_or_waits q a (mgr v) (mgr v') ∧ downloads (mgr v') = downloads (mgr v).
Proof.
  intros Hok [_ Hr] E. destruct (is_download (job_task j)) eqn:Hd.
  2: { left. by apply (execute_steady ra port d j Hd v tt v' E). }
  destruct j as [a t]. destruct t; try done. unfold execute in E. cbn [job_connection job_task] in *.
  destruct (alive (mgr v) a); [|injection E as <-; by left].
  unfold run_download_file, in_mgr in E. set (q := mkDownloadQuerry _ _ _ _ _) in E.
  destruct (find_owner_ok (q_FileOwner q) (q_FilePath q) (mgr v) (mo_trees _ _ Hok)) as [o Eo].
  destruct (querry_spec port d q a (mgr v) o (mo_numbered _ _ Hok) Hr Eo)
    as (g' & Eq & Hw%querry_outcome_cases & _ & Ed & _).
  rewrite Eq in E. injection E as <-. right. by exists q, a.
Qed.
End requests.

(** ** The events of the system *)

Section events.
Context `{ProtocolLaws} `{BoostSplitLaws} `{SqlApi} `{!SqlThrows} `{PriorityQueue (item job)}.
Context `{!PriorityQueueLaws (item job) item_comp} `{!HelloLaws}.
Variables (NDEBUG : bool) (ra : str → str → str) (port : Z) (timeout : outcome Z) (d : disk).
Implicit Types (s : system) (a : Z).

Definition system_watched s : Prop := watched_ok (receiving s) (mgr (srv s)).

Lemma watched_mgr s (m : M manager unit) s' :
  (∀ g', m (mgr (srv s)) = Ok (tt, g') → watched_ok (receiving s) g') → on_mgr m s = Ok s' →
  system_watched s' ∧ receiving s' = receiving s.
Proof. intros Hm (g' & E & ->)%on_mgr_Ok. split; [by apply Hm|done]. Qed.

Lemma watched_steady s (m : M manager unit) s' :
  system_watched s → preserves steady m → on_mgr m s = Ok s' →
  system_watched s' ∧ receiving s' = receiving s.
Proof.
  intros Hw Hm. apply watched_mgr. intros g' E. eapply steady_watched; [by eapply Hm|done].
Qed.

Lemma greets_watched s ready hello sock s' :
  system_watched s → greet NDEBUG ready hello sock s = Ok s' → system_watched s'.
Proof.
  intros Hw. unfold greet. cbv zeta. destruct (restarts s _); [done|].
  destruct (on_mgr _ s) as [s1|] eqn:E; [|done]. cbn [mbind outcome_bind]. intros [= <-].
  apply on_mgr_Ok in E as (g' & E & ->).
  pose proof (handshake_cases NDEBUG ready hello sock (download_manager_ (mgr (srv s)))) as Hc.
  destruct (HandleHandshake _ _ _ _ _ _) as [dm|] eqn:Eh; [|done]. injection E as <-.
  unfold system_watched.
  destruct (greeting_starts ready hello _) as [[id|id]|]; cbn [at_work receiving with_transfers with_srv srv mgr].
  - destruct (m_find id (download_transactions_ _)) as [[o t]|] eqn:Ef; [|done].
    destruct (start_fault NDEBUG sock o); [done|].
    destruct Hc as (r & dm' & -> & [= <-] & Ed).
    apply (watched_ok_other (receiving s) (id :: receiving s) (mgr (srv s)) _ id); [done| | | | |done].
    + intros _. right. right. left.
    + intros j Hj. unfold downloads. cbn [download_manager_ set_downloads].
      by rewrite Ed, !m_find_update, !bool_decide_eq_false_2.
    + intros r' t'. unfold downloads. cbn [download_manager_ set_downloads].
      rewrite Ed, !m_find_update, !bool_decide_eq_true_2, Ef by done. intros [= <- <-].
      exact (wo_handlers _ _ Hw id r t Ef).
    + intros j _ Hin. by right.
  - destruct Hc as (dm' & [= <-] & Ed). by eapply watched_ok_same; [| |exact Hw].
  - destruct Hc as (dm' & [= <-] & Ed). by eapply watched_ok_same; [| |exact Hw].
Qed.

Lemma receives_watched s id Succes s' :
  system_watched s → receive_done NDEBUG port d id Succes s = Ok s' → system_watched s'.
Proof.
  intros Hw. unfold receive_done, handler_of.
  destruct (m_find id _) as [[[r|] t]|] eqn:Ef; try done.
  destruct (on_mgr _ s) as [s1|] eqn:E; [|done]. cbn [mbind outcome_bind]. intros [= <-].
  apply on_mgr_Ok in E as (g' & E & ->). unfold system_watched. cbn.
  eapply completed_watched; [by eapply (wo_handlers _ _ Hw)|exact E|exact Hw].
Qed.

Lemma delivers_watched s id s' :
  system_watched s → deliver_done NDEBUG id s = Ok s' → system_watched s'.
Proof.
  intros Hw. unfold deliver_done. destruct (on_mgr _ s) as [s1|] eqn:E; [|done].
  cbn [mbind outcome_bind]. intros [= <-]. apply on_mgr_Ok in E as (g' & E & ->).
  unfold system_watched. cbn. revert E. unfold upload_clean_up, cassert, EndUploadTransaction.
  destruct NDEBUG; [intros [= <-]; by apply (watched_ok_same _ (mgr (srv s)))|].
  rewrite M_bind_unfold. cbn [mbind outcome_bind]. destruct (negb _); [|done].
  intros [= <-]. by apply (watched_ok_same _ (mgr (srv s))).
Qed.

Lemma handle_watched e s s' :
  sys_ok NDEBUG s → in_range s = true → system_watched s →
  handle NDEBUG ra port timeout d e s = Some (Ok s') → system_watched s'.
Proof.
  intros Hok Hr Hw.
  destruct e as [a|a e|a|a id|i|i|id|ready hello sock|id|id Succes|id|]; cbn [handle].
  - intros [_ E]%guard_step_Some. apply on_mgr_Ok in E as (g' & E & ->). injection E as <-.
    by apply (watched_ok_same _ (mgr (srv s))).
  - intros [Ha E]%guard_step_Some. unfold alive in Ha.
    destruct (m_find a (connections_ (mgr (srv s)))) as [c|] eqn:Hf; [|done].
    unfold on_srv in E. destruct (react port d timeout a e (srv s)) as [[[] v']|] eqn:Er; [|done].
    cbn in E. injection E as <-. unfold system_watched. cbn.
    destruct (react_forms port timeout d a c e _ _ Hf Er) as [Hs|[m Em]];
      [by eapply steady_watched|by eapply reply_watched].
  - intros [_ E]%guard_step_Some. eapply watched_steady; [done| |exact E]. apply steady_stop.
  - intros [_ E]%guard_step_Some. eapply watched_steady; [done| |exact E]. apply steady_written.
  - destruct (take_request i s) as [s1|] eqn:E; [|done]. intros [= <-]. unfold take_request in E.
    destruct (request_threads_ (requests s) !! i) as [[| |]|]; try done.
    destruct (run_once _); try done. by injection E as <-.
  - destruct (taken i s) as [j|]; [|done]. cbn [fmap option_fmap option_map].
    unfold run_request, on_srv.
    destruct (execute ra port d j (srv s)) as [[[] v']|] eqn:E; [|done]. intros [= <-].
    unfold system_watched. cbn.
    destruct (execute_forms ra port d _ _ _ _ (so_mgr _ _ Hok) (in_range_ready _ Hr) E)
      as [Hs|(q & a & Ha & Ed)]; [by eapply steady_watched|by eapply querry_watched].
  - intros [_ E]%guard_step_Some. eapply watched_mgr; [|exact E]. intros g' Eg.
    by apply (denied_watched _ _ _ _ Eg).
  - intros E. apply (f_equal (default (Fault Thrown))) in E. by eapply greets_watched.
  - intros [_ E]%guard_step_Some. eapply watched_mgr; [|exact E]. intros g' Eg.
    by eapply transfer_expired_watched.
  - intros [_ E]%guard_step_Some. by eapply receives_watched.
  - intros [_ E]%guard_step_Some. by eapply delivers_watched.
  - intros [_ E]%guard_step_Some. by injection E as <-.
Qed.

(** ** The events that settle a number *)

Lemma request_expires_settles id s s' :
  on_mgr (backup_timer_expired id) s = Ok s' → settled id (mgr (srv s)) (mgr (srv s')).
Proof.
  intros (g' & E & ->)%on_mgr_Ok. by eapply for_each_and_remove_settles; [apply deny_answering|exact E|..].
Qed.

Lemma transfer_expires_settles id s s' :
  on_mgr (download_timer_expired NDEBUG id) s = Ok s' → settled id (mgr (srv s)) (mgr (srv s')).
Proof.
  intros (g' & E & ->)%on_mgr_Ok. unfold download_timer_expired in E. rewrite M_bind_unfold in E.
  destruct (for_each_and_remove _ _ _) as [[[] g1]|] eqn:E1; [|done].
  apply assert_end_frame in E as [? ?]. eapply settled_after; [|done..].
  by eapply for_each_and_remove_settles; [apply deny_answering|exact E1|..].
Qed.

Lemma receives_settles id Succes s s' :
  system_watched s → receive_done NDEBUG port d id Succes s = Ok s' →
  settled id (mgr (srv s)) (mgr (srv s')).
Proof.
  intros Hw. unfold receive_done, handler_of.
  destruct (m_find id (download_transactions_ _)) as [[[r|] t]|] eqn:Ef; [|done..].
  destruct (on_mgr _ s) as [s2|] eqn:E1; [|done]. intros [= <-].
  apply on_mgr_Ok in E1 as (g' & E1 & ->). cbn [mgr srv with_transfers with_srv].
  pose proof (wo_handlers _ _ Hw id r t Ef) as Hh. rewrite <- Hh in E1 |- *.
  by eapply completed_settles.
Qed.

(** Whatever happens, a number that stops waiting is settled. *)
Lemma handle_settles e s s' :
  sys_ok NDEBUG s → in_range s = true → system_watched s →
  handle NDEBUG ra port timeout d e s = Some (Ok s') → kept_or_settled (mgr (srv s)) (mgr (srv s')).
Proof.
  intros Hok Hr Hw.
  assert (∀ (m : M manager unit), preserves steady m → on_mgr m s = Ok s' →
    kept_or_settled (mgr (srv s)) (mgr (srv s'))) as Hsteady.
  { intros m Hm (g' & E & ->)%on_mgr_Ok. apply kept_same. cbn. by apply steady_backup, (Hm _ tt). }
  destruct e as [a|a e|a|a id|i|i|id|ready hello sock|id|id Succes|id|]; cbn [handle].
  - intros [_ E]%guard_step_Some. apply on_mgr_Ok in E as (g' & E & ->). injection E as <-.
    by apply kept_same.
  - intros [Ha E]%guard_step_Some. unfold alive in Ha.
    destruct (m_find a (connections_ (mgr (srv s)))) as [c|] eqn:Hf; [|done].
    unfold on_srv in E. destruct (react port d timeout a e (srv s)) as [[[] v']|] eqn:Er; [|done].
    cbn in E. injection E as <-. cbn [flush with_srv srv mgr].
    destruct (react_forms port timeout d a c e _ _ Hf Er) as [Hs|[m Em]];
      [by apply kept_same, steady_backup|by eapply reply_settles].
  - intros [_ E]%guard_step_Some. by eapply Hsteady; [apply steady_stop|].
  - intros [_ E]%guard_step_Some. by eapply Hsteady; [apply steady_written|].
  - destruct (take_request i s) as [s1|] eqn:E; [|done]. intros [= <-]. unfold take_request in E.
    destruct (request_threads_ (requests s) !! i) as [[| |]|]; try done.
    destruct (run_once _); try done. injection E as <-. by apply kept_same.
  - destruct (taken i s) as [j|]; [|done]. cbn [fmap option_fmap option_map].
    unfold run_request, on_srv.
    destruct (execute ra port d j (srv s)) as [[[] v']|] eqn:E; [|done]. intros [= <-]. cbn.
    destruct (execute_forms ra port d _ _ _ _ (so_mgr _ _ Hok) (in_range_ready _ Hr) E)
      as [Hs|(q & a & [(w & _ & _ & Eb)|(o & id & info & Hf & _ & _ & _ & Hj & _)] & _)];
      [by apply kept_same, steady_backup|by apply kept_same|].
    left. intros k. destruct (decide (k = id)) as [->|Hne]; [by rewrite Hf|by rewrite Hj].
  - intros [_ E]%guard_step_Some. right. exists id. by apply request_expires_settles.
  - intros E. apply (f_equal (default (Fault Thrown))) in E. revert E. cbn. unfold greet. cbv zeta.
    destruct (restarts s _); [done|]. destruct (on_mgr _ s) as [s1|] eqn:E; [|done].
    cbn [mbind outcome_bind]. intros [= <-]. apply on_mgr_Ok in E as (g' & E & ->).
    destruct (HandleHandshake _ _ _ _ _ _) as [dm|]; [|done]. injection E as <-.
    apply kept_same. by destruct (greeting_starts _ _ _) as [[]|].
  - intros [_ E]%guard_step_Some. right. exists id. by apply transfer_expires_settles.
  - intros [_ E]%guard_step_Some. right. exists id. by eapply receives_settles.
  - intros [_ E]%guard_step_Some. unfold deliver_done in E.
    destruct (on_mgr _ s) as [s1|] eqn:E1; [|done]. injection E as <-.
    apply on_mgr_Ok in E1 as (g' & E1 & ->). apply kept_same. cbn. revert E1.
    unfold upload_clean_up, cassert, EndUploadTransaction.
    destruct NDEBUG; [by intros [= <-]|]. rewrite M_bind_unfold. cbn [mbind outcome_bind].
    destruct (negb _); [|done]. by intros [= <-].
  - intros [_ E]%guard_step_Some. injection E as <-. by apply kept_same.
Qed.
End events.
