(* ===== verification/SystemNames.v ===== *)
(** * SystemNames: whose nickname it is

    Over the runs of the whole server: which events touch the nicknames and the accounts,
    and that a nickname names at most one connection until an account is deleted. *)

From S2P Require Import Prelude Hoare Text Protocol Validators Vfs StdMap BackupRequests.
From S2P Require Import DownloadManager UsersDb Scheduler Manager ManagerSpec ManagerFrame.
From S2P Require Import DownloadSpec ManagerInv Handler HandlerSpec AccountsSpec Connection.
From S2P Require Import Steady RequestInv System SystemInv SystemWaiting.

(** No connection has got a new nickname. *)
Record named (g g' : manager) : Prop := {
  named_keys : NoDup (keys (connections_ g)) → NoDup (keys (connections_ g'));
  named_nick : ∀ a c', (a, c') ∈ connections_ g' → ∃ c, (a, c) ∈ connections_ g ∧ nick c' = nick c;
}.

#[global] Instance named_preorder : PreOrder named.
Proof.
  split; [split; eauto|]. intros g1 g2 g3 [K1 N1] [K2 N2]. split; [auto|].
  intros a c3 (c2 & Hin & ->)%N2. apply N1 in Hin as (c1 & Hin & ->). eauto.
Qed.

Lemma named_same g g' : connections_ g' = connections_ g → named g g'.
Proof. intros E. split; rewrite E; eauto. Qed.

#[global] Instance named_frame : Frame named (λ f, ∀ c, nick (f c) = nick c).
Proof.
  split; try done; [apply _| | |].
  - intros g g' E _ _ _ _ _. by apply named_same.
  - intros a f g Hf. split; cbn [connections_ on_connections]; [by rewrite keys_update|].
    intros b c' (c & Hin & ->)%elem_of_m_update. exists c. split; [done|]. by case_bool_decide.
  - intros a g. split; cbn [connections_ on_connections]; [apply keys_erase_NoDup|].
    intros b c [_ Hin]%elem_of_m_erase. eauto.
Qed.

Section names.
Context `{ProtocolLaws} `{BoostSplitLaws} `{SqlLaws} `{!SqlThrows} `{PriorityQueue (item job)}.
Context `{!PriorityQueueLaws (item job) item_comp}.
Variables (NDEBUG : bool) (ra : str → str → str) (port : Z) (timeout : outcome Z) (d : disk).
Implicit Types (s : system) (v : server) (m : gmap str str) (a : Z).

Lemma named_accounts v v' m :
  named (mgr v) (mgr v') → users_db v' = users_db v → accounts_ok v m → accounts_ok v' m.
Proof.
  intros [Hk Hn] Ed (Hs & Hd & Hu & Hr). split_and!; [by rewrite Ed|auto| |].
  - intros a b c c' (c1 & H1c & E1)%Hn (c2 & H2c & E2)%Hn. rewrite E1, E2. eauto.
  - intros a c (c1 & H1c & ->)%Hn. eauto.
Qed.

(** The request deletes an account. *)
Definition deletes (j : job) : bool :=
  match job_task j with do_delete_account _ => true | _ => false end.

Lemma execute_accounts C j v v' m :
  mgr_ok C (mgr v) → ready (mgr v) → deletes j = false →
  execute ra port d j v = Ok (tt, v') → accounts_ok v m → ∃ m', accounts_ok v' m'.
Proof.
  intros Hok [_ Hr] Hd E Ha. destruct (is_plain (job_task j)) eqn:Hp.
  { exists m. destruct (execute_framed named ra port d j Hp v tt v' E). by eapply named_accounts. }
  destruct j as [a t]. unfold execute, deletes in *. cbn [job_connection job_task] in *.
  destruct (alive (mgr v) a); [|injection E as <-; by exists m].
  destruct t; try done.
  - destruct (run_signin_keeps a RequestID login password v m Ha) as (v1 & E1 & _ & H1a).
    rewrite E in E1. injection E1 as <-. eauto.
  - destruct (run_signup_keeps a RequestID login password v m Ha) as (v1 & E1 & _ & H1a).
    rewrite E in E1. injection E1 as <-. eauto.
  - exists m. unfold run_download_file, in_mgr in E. set (q := mkDownloadQuerry _ _ _ _ _) in E.
    destruct (find_owner_ok (q_FileOwner q) (q_FilePath q) (mgr v) (mo_trees _ _ Hok)) as [o Eo].
    destruct (querry_spec port d q a (mgr v) o (mo_numbered _ _ Hok) Hr Eo)
      as (g' & Eq & _ & Hu & _).
    rewrite Eq in E. injection E as <-. apply (named_accounts v); [|done|exact Ha].
    by apply named_same, Hu.
Qed.

(** Until an account is deleted, nicknames are unique. *)
Definition names_ok s : Prop :=
  existsb (λ e, deletes e.1) (executed s) = false → ∃ m, accounts_ok (srv s) m.

Lemma accept_named a g g' :
  m_find a (connections_ g) = None → start a g = Ok (tt, g') →
  NoDup (keys (connections_ g)) →
  ∀ v m, mgr v = g → accounts_ok v m → accounts_ok (mkServer g' (users_db v) (posted v)) m.
Proof.
  intros Hf E Hk v m <- (Hs & Hd & Hu & Hr). injection E as <-.
  unfold accounts_ok. cbn [mgr users_db connections_ on_connections].
  assert (∀ b c, (b, c) ∈ m_emplace a new_connection (connections_ (mgr v)) →
            nick c ≠ [] → (b, c) ∈ connections_ (mgr v)) as Hin.
  { intros b c. rewrite elem_of_m_emplace by done. by intros [[= -> ->]|]. }
  split_and!; [done|by apply keys_emplace_NoDup| |].
  - intros b b' c c' Hb Hb' E Hne. apply (Hu b b' c c'); try done; apply Hin; try done; congruence.
  - intros b c Hb Hne. apply (Hr b c); auto.
Qed.

(** Reading does not touch the accounts. *)
Definition same_db v v' : Prop := users_db v' = users_db v.
#[local] Instance same_db_preorder : PreOrder same_db.
Proof. split; [done|]. unfold same_db. congruence. Qed.

Lemma same_db_in_mgr {A} (mm : M manager A) : preserves same_db (in_mgr mm).
Proof.
  intros v x v'. unfold in_mgr. destruct (mm (mgr v)) as [[y g']|]; [|done]. by intros [= <- <-].
Qed.
#[local] Hint Resolve same_db_in_mgr : preserves.

Lemma react_db a e : preserves same_db (react port d timeout a e).
Proof.
  destruct e as [msg| |]; cbn [react].
  - unfold read_action, answer. preserves.
  - apply same_db_in_mgr.
  - unfold read_indeterminate. preserves.
Qed.

(** What is calm leaves the nicknames alone, and so does a transfer that is completed. *)
Lemma calm_named (g g' : manager) : calm NDEBUG g g' → named g g'.
Proof. intros [Hu _]. by apply named_same, Hu. Qed.

Lemma completed_named id h Succes : preserves named (download_completed port NDEBUG d id h Succes).
Proof.
  unfold download_completed.
  assert (∀ f, (∀ q, preserves still (f q)) → preserves named (for_each_and_remove (h_request h) f)) as Hf.
  { intros f Hf. eapply preserves_impl; [apply calm_named|]. by apply calm_for_each_and_remove. }
  assert (preserves named (assert_end_download NDEBUG id)) as He.
  { eapply preserves_impl; [apply calm_named|apply calm_assert_end]. }
  pose proof (framed_set_cached named NDEBUG (h_owner h) (h_path h)) as Hc.
  apply preserves_bind; [apply _| |intros _; apply preserves_bind; [apply _| |intros _; exact He]].
  - intros g x g'. destruct (CloseDownloadTransaction _ _); [|done]. by intros [= <- <-].
  - destruct Succes.
    + apply preserves_bind; [apply _|exact Hc|]. intros _. apply Hf. intros q. apply still_deliver.
    + apply Hf, still_deny_handler.
Qed.

(** A step that leaves the accounts and the history alone. *)
Lemma names_step s s' :
  named (mgr (srv s)) (mgr (srv s')) → users_db (srv s') = users_db (srv s) →
  executed s' = executed s → names_ok s → names_ok s'.
Proof.
  intros Hm Ed Ee Hn Hd. rewrite Ee in Hd. destruct (Hn Hd) as [m Ha]. exists m.
  by apply (named_accounts (srv s)).
Qed.

Lemma names_on_mgr s (mm : M manager unit) s' :
  preserves named mm → names_ok s → on_mgr mm s = Ok s' → names_ok s'.
Proof.
  intros Hm Hn (g' & E & ->)%on_mgr_Ok. apply (names_step s); try done. by eapply Hm.
Qed.

Lemma names_accepts s a s' :
  sys_ok NDEBUG s → a ∉ used s → names_ok s →
  on_mgr (Manager.start a) (with_used (a :: used s) s) = Ok s' → names_ok s'.
Proof.
  intros Hok Ha Hn (g' & E & ->)%on_mgr_Ok Hd. destruct (Hn Hd) as [m Hm]. exists m.
  assert (m_find a (connections_ (mgr (srv s))) = None) as Hf.
  { apply m_find_None. intros Hin%alive_keys. by apply Ha, (so_used _ _ Hok). }
  eapply (accept_named a); [exact Hf|exact E|by apply Hm|done|exact Hm].
Qed.

Lemma names_finishes s i j s' :
  sys_ok NDEBUG s → in_range s = true → names_ok s →
  run_request ra port d i j s = Ok s' → names_ok s'.
Proof.
  intros Hok Hr Hn. unfold run_request, on_srv.
  destruct (execute ra port d j (srv s)) as [[[] v']|] eqn:E; [|done]. intros [= <-].
  unfold names_ok. cbn [executed with_executed with_requests with_srv srv].
  rewrite existsb_app. cbn. rewrite orb_false_r. intros [Hd Hj]%orb_false_iff.
  destruct (Hn Hd) as [m Hm].
  by apply (execute_accounts _ _ _ _ m (so_mgr _ _ Hok) (in_range_ready _ Hr) Hj E).
Qed.

Lemma names_greets s ready hello sock s' :
  names_ok s → greet NDEBUG ready hello sock s = Ok s' → names_ok s'.
Proof.
  intros Hn. unfold greet. cbv zeta. destruct (restarts s _); [done|].
  destruct (on_mgr _ s) as [s1|] eqn:E; [|done]. cbn [mbind outcome_bind]. intros [= <-].
  apply names_on_mgr in E; [|intros g x g'|done].
  - unfold at_work. by destruct (greeting_starts _ _ _) as [[id|id]|].
  - destruct (HandleHandshake _ _ _ _ _ _) as [dm|]; [|done]. intros [= <- <-]. by apply named_same.
Qed.

Lemma handle_names e s s' :
  sys_ok NDEBUG s → in_range s = true → names_ok s →
  handle NDEBUG ra port timeout d e s = Some (Ok s') → names_ok s'.
Proof.
  intros Hok Hr Hn.
  destruct e as [a|a e|a|a id|i|i|id|ready hello sock|id|id Succes|id|]; cbn [handle].
  - intros [[_ Hu]%andb_true_iff E]%guard_step_Some.
    apply negb_true_iff, bool_decide_eq_false in Hu. by eapply names_accepts.
  - intros [Ha E]%guard_step_Some. unfold alive in Ha.
    destruct (m_find a (connections_ (mgr (srv s)))) as [c|] eqn:Hf; [|done].
    unfold on_srv in E. destruct (react port d timeout a e (srv s)) as [[[] v']|] eqn:Er; [|done].
    pose proof (react_cases NDEBUG port d timeout a c e (srv s) Hf) as Hc.
    destruct (read_fault d timeout e c (mgr (srv s))); [congruence|].
    destruct Hc as (v1 & js & E1 & Hcalm & _). rewrite Er in E1. injection E1 as <-.
    cbn in E. injection E as <-. apply (names_step s); try done; [by apply calm_named|].
    by apply (react_db a e (srv s) tt v').
  - intros [_ E]%guard_step_Some. eapply names_on_mgr; [|done|exact E]. exact (framed_stop named a).
  - intros [_ E]%guard_step_Some. eapply names_on_mgr; [|done|exact E].
    exact (framed_written named NDEBUG a id).
  - destruct (take_request i s) as [s1|] eqn:E; [|done]. intros [= <-]. unfold take_request in E.
    destruct (request_threads_ (requests s) !! i) as [[| |]|]; try done.
    destruct (run_once _); try done. by injection E as <-.
  - destruct (taken i s) as [j|]; [|done]. intros E. apply (f_equal (default (Fault Thrown))) in E.
    by apply (names_finishes s i j).
  - intros [_ E]%guard_step_Some. eapply names_on_mgr; [|done|exact E].
    eapply preserves_impl; [apply calm_named|apply calm_backup_expired].
  - intros E. apply (f_equal (default (Fault Thrown))) in E. by eapply names_greets.
  - intros [_ E]%guard_step_Some. eapply names_on_mgr; [|done|exact E].
    eapply preserves_impl; [apply calm_named|apply calm_timer_expired].
  - intros [_ E]%guard_step_Some. unfold receive_done in E.
    destruct (handler_of id s) as [h|]; [|done].
    destruct (on_mgr _ s) as [s1|] eqn:E1; [|done]. cbn [mbind outcome_bind] in E.
    injection E as <-. apply names_on_mgr in E1; [done|apply completed_named|done].
  - intros [_ E]%guard_step_Some. unfold deliver_done in E.
    destruct (on_mgr _ s) as [s1|] eqn:E1; [|done]. cbn [mbind outcome_bind] in E.
    injection E as <-. apply names_on_mgr in E1; [done| |done]. intros g x g'.
    destruct (upload_clean_up _ _ _) as [[y dm]|]; [|done]. intros [= <- <-]. by apply named_same.
  - intros [_ E]%guard_step_Some. by injection E as <-.
Qed.
End names.
