(* ===== verification/SystemSpec.v ===== *)
(** * SystemSpec: what the whole server promises

    The theorems about the serial runs of [System], in which a handler ends before the next
    one begins: what stops the server, what is true in every state, and that no request is
    lost.  Several of them do not survive handlers that overlap; each says so. *)

From S2P Require Import Prelude Hoare Text Protocol Validators Vfs VfsTree VfsAdd VfsDelete.
From S2P Require Import VfsPaths VfsSpec StdMap BackupRequests DownloadManager UsersDb.
From S2P Require Import Scheduler Manager ManagerSpec ManagerFrame DownloadSpec ManagerInv.
From S2P Require Import Handler HandlerSpec AccountsSpec Connection Steady Accounting.
From S2P Require Import RequestInv System SystemInv SystemAccount SystemWaiting SystemNames.

(** ** The reachable states *)

Section reachable.
Context `{ProtocolLaws} `{BoostSplitLaws} `{SqlApi} `{!SqlThrows} `{PriorityQueue (item job)}.
Context `{!PriorityQueueLaws (item job) item_comp} `{!HelloLaws}.
Variables (NDEBUG : bool) (ra : str → str → str) (port : Z) (timeout : outcome Z).
Variables (n : nat) (db : database).
Implicit Types (s : system) (a : Z) (es : list sys_event) (d : disk).

Lemma sys_step_handle d e s s' :
  sys_step NDEBUG ra port timeout d e s = Some (Ok s') →
  ∃ s1, handle NDEBUG ra port timeout d e s = Some (Ok s1) ∧ s' = recount s1.
Proof.
  unfold sys_step. destruct (handle NDEBUG ra port timeout d e s) as [[s1|f]|]; [|done..].
  cbn. intros [= <-]. eauto.
Qed.

Lemma reach_ok es s : serial_reach NDEBUG ra port timeout n db es s → sys_ok NDEBUG s.
Proof.
  induction 1 as [|es s d e s' _ IH Hr E]; [apply new_system_ok|].
  apply sys_step_handle in E as (s1 & E & ->). by eapply handle_preserves.
Qed.

Lemma reach_account es s : serial_reach NDEBUG ra port timeout n db es s → account_ok s.
Proof.
  induction 1 as [|es s d e s' Hs IH Hr E]; [apply new_system_accounts|].
  apply sys_step_handle in E as (s1 & E & ->). eapply handle_accounts; [|done|done|exact E].
  by eapply reach_ok.
Qed.

Lemma reach_watched es s : serial_reach NDEBUG ra port timeout n db es s → system_watched s.
Proof.
  induction 1 as [|es s d e s' Hs IH Hr E]; [by split|].
  apply sys_step_handle in E as (s1 & E & ->).
  enough (system_watched s1) as [] by (by split).
  eapply handle_watched; [|done|done|exact E]. by eapply reach_ok.
Qed.

(** ** The pool of threads *)

(** All threads are there and none returns, since nothing stops the scheduler. *)
Record pool_ok (q : request_scheduler job) : Prop := {
  po_number : no_of_threads q = n;
  po_threads : length (request_threads_ q) = if once_flag q then n else 0%nat;
  po_running : Forall (λ w, w ≠ Returned) (request_threads_ q);
  po_going : stopped_ (scheduler_ q) = false;
  po_started : once_flag q = false → queued q = [];
}.

Lemma pool_post p f q : pool_ok q → pool_ok (post p f q).
Proof.
  intros [Hn Hl Hr Hs Hq]. split; cbn; try done.
  - destruct (once_flag q); [done|]. by rewrite length_replicate.
  - destruct (once_flag q); [done|]. by apply Forall_replicate.
Qed.

Lemma pool_flush js q : pool_ok q → pool_ok (foldl (λ q pj, post pj.1 pj.2 q) q js).
Proof. revert q. induction js as [|[p j] js IH]; intros q Hq; [done|]. by apply IH, pool_post. Qed.

Lemma pool_worker i w w' sch q :
  pool_ok q → request_threads_ q !! i = Some w → w' ≠ Returned → stopped_ sch = false →
  pool_ok (with_worker i w' sch q).
Proof.
  intros [Hn Hl Hr Hs Hq] Hi Hw Hsch. split; cbn; try done.
  - by rewrite length_insert.
  - by apply Forall_insert.
  - intros Ho. rewrite Ho in Hl. apply length_zero_iff_nil in Hl. by rewrite Hl in Hi.
Qed.

Lemma on_srv_requests {A} (m : M server A) s s' : on_srv m s = Ok s' → requests s' = requests s.
Proof. unfold on_srv. destruct (m (srv s)) as [[x v]|]; [|done]. by intros [= <-]. Qed.

Lemma handle_pool d e s s' :
  pool_ok (requests s) → handle NDEBUG ra port timeout d e s = Some (Ok s') → pool_ok (requests s').
Proof.
  intros Hp. assert (∀ b (mm : M manager unit) s0, requests s0 = requests s →
    guard_step b (on_mgr mm s0) = Some (Ok s') → pool_ok (requests s')) as Hmgr.
  { intros b mm s0 E0 [_ E]%guard_step_Some. apply on_srv_requests in E. by rewrite E, E0. }
  destruct e as [a|a e|a|a id|i|i|id|ready hello sock|id|id Succes|id|]; cbn [handle];
    try by apply Hmgr.
  - intros [_ E]%guard_step_Some. destruct (on_srv _ s) as [s1|] eqn:E1; [|done].
    apply on_srv_requests in E1. injection E as <-. cbn. rewrite E1. by apply pool_flush.
  - unfold take_request. destruct (request_threads_ (requests s) !! i) as [[| |]|] eqn:Ei; try done.
    destruct (run_once _) as [| |p sch] eqn:Er; try done. intros [= <-].
    apply run_once_Executes in Er as (_ & Hs & _). by eapply pool_worker.
  - unfold taken. destruct (request_threads_ (requests s) !! i) as [[|p|]|] eqn:Ei; try done.
    cbn [fmap option_fmap option_map]. unfold run_request.
    destruct (on_srv _ s) as [s1|] eqn:E1; [|done].
    apply on_srv_requests in E1. intros [= <-]. cbn [requests with_executed with_requests].
    rewrite E1. eapply pool_worker; [done|exact Ei|done|apply Hp].
  - intros E. apply (f_equal (default (Fault Thrown))) in E. revert E. cbn. unfold greet. cbv zeta.
    destruct (restarts s _); [done|]. destruct (on_mgr _ s) as [s1|] eqn:E1; [|done].
    apply on_srv_requests in E1. cbn [mbind outcome_bind]. intros [= <-].
    unfold at_work. destruct (greeting_starts _ _ _) as [[id|id]|]; cbn; by rewrite E1.
  - intros [_ E]%guard_step_Some. unfold receive_done in E. destruct (handler_of id s); [|done].
    destruct (on_mgr _ s) as [s1|] eqn:E1; [|done]. apply on_srv_requests in E1.
    injection E as <-. cbn. by rewrite E1.
  - intros [_ E]%guard_step_Some. unfold deliver_done in E.
    destruct (on_mgr _ s) as [s1|] eqn:E1; [|done]. apply on_srv_requests in E1.
    injection E as <-. cbn. by rewrite E1.
  - intros [_ E]%guard_step_Some. by injection E as <-.
Qed.

Lemma reach_pool es s : serial_reach NDEBUG ra port timeout n db es s → pool_ok (requests s).
Proof.
  induction 1 as [|es s d e s' Hs IH Hr E].
  - split; cbn; try done. intros _. apply pq_elements_empty.
  - apply sys_step_handle in E as (s1 & E & ->). cbn. by eapply handle_pool.
Qed.
End reachable.

(** ** The theorems *)

Section spec.
Context `{ProtocolLaws} `{BoostSplitLaws} `{SqlApi} `{!SqlThrows} `{PriorityQueue (item job)}.
Context `{!PriorityQueueLaws (item job) item_comp} `{!HelloLaws}.
Variables (NDEBUG : bool) (ra : str → str → str) (port : Z) (timeout : outcome Z).
Variables (n : nat) (db : database).
Implicit Types (s : system) (a : Z) (r : str) (es : list sys_event) (d : disk).

Lemma sys_step_fault b d e s f :
  sys_step b ra port timeout d e s = Some (Fault f)
  ↔ handle b ra port timeout d e s = Some (Fault f).
Proof.
  unfold sys_step. destruct (handle b ra port timeout d e s) as [[s1|g]|]; cbn; naive_solver.
Qed.

Lemma crash_enabled b d e s f :
  crash b timeout d e s = Some f → ∃ o, handle b ra port timeout d e s = Some o.
Proof.
  destruct e as [| |a|a id|i|i|id|ready hello sock|id|id Succes|id|]; cbn [crash handle]; try done.
  - unfold alive. destruct (m_find _ _); [|done]. cbn. eauto.
  - destruct (taken i s); [|done]. cbn. eauto.
  - eauto.
Qed.

(** C1. What stops the server when handlers do not overlap.  In a release build, in every
    state a serial run leads to and whatever happens next - any message or bytes from any
    client, any completion of a write, timer or transfer, any turn of a pool thread - the
    handler of the event, run without interference, completes, except in exactly the cases
    that [crash] lists: a request adds a path whose [Add] is undefined on the client's tree
    ([add_undefined]: a component of it is there and is its last one, or is not the last
    child of its directory); a client sends as a reply a number or a file size that is not a
    number; the directory of a download cannot be created; the setting of the deadline is
    not a number when a message is incomplete; a peer of the download port names a transfer
    that is already at work or has no receiver, or starts a compressed one whose first
    header cannot be read (the handler then locks a mutex its thread holds).  Handlers that
    overlap can stop the server in one more way, a null pointer
    ([interleavings_fault_only]). *)
Theorem server_survives es s d e f :
  serial_reach true ra port timeout n db es s → in_range s = true →
  sys_step true ra port timeout d e s = Some (Fault f) ↔ crash true timeout d e s = Some f.
Proof.
  intros Hs Hr. apply reach_ok in Hs. rewrite sys_step_fault. split.
  - intros E. pose proof (handle_survives true ra port timeout d e s _ eq_refl Hs Hr E) as Hc.
    destruct (crash true timeout d e s) as [f'|]; [|done]. by injection Hc as ->.
  - intros Hc. destruct (crash_enabled true d e s f Hc) as [o E].
    pose proof (handle_survives true ra port timeout d e s _ eq_refl Hs Hr E) as Hf.
    rewrite Hc in Hf. by rewrite E, Hf.
Qed.

(** C15. The state is well-formed in every state a serial run of the server leads to (no two
    handlers overlap), in both builds:
    connections have distinct addresses, every client's tree represents a tree of paths,
    the count of processing clients is a 64-bit number at least as large as the number of
    them, the numbers of waiting downloads are distinct and were given out by the counter,
    what was read has been handed to the scheduler, every request in the scheduler comes
    from a connection there has been, and one that will notify other clients, if its
    connection is still there, comes from one that has registered. *)
Theorem server_well_formed es s :
  serial_reach NDEBUG ra port timeout n db es s →
  let g := mgr (srv s) in
  NoDup (keys (connections_ g))
  ∧ (∀ a c, (a, c) ∈ connections_ g → a ∈ used s ∧ ∃ t, repr (remote_file_system_ (client_ c)) t)
  ∧ Z.of_nat (length (filter (λ e, is_processing e.2 = true) (connections_ g))) ≤ processing_counter_ g < two64
  ∧ numbered g ∧ posted (srv s) = []
  ∧ ∀ p, p ∈ jobs (requests s) →
      job_connection (function_ p) ∈ used s
      ∧ (notifies (job_task (function_ p)) = true →
         alive g (job_connection (function_ p)) = true → job_connection (function_ p) ∈ counted s).
Proof.
  intros Hs%reach_ok g. destruct Hs as [[Hsh Hc Ht Hn] Hp Hu Hj _ _]. split_and!; try done.
  - apply Hsh.
  - intros a c Hin. split; [|by eapply Ht]. apply Hu, alive_keys, elem_of_keys. eauto.
  - pose proof (ok_counter _ Hsh) as Hk. rewrite processing_count_eq in Hk. apply Hk.
  - apply (ok_counter _ Hsh).
Qed.

(** C7. No buffer is freed while it is being written, as long as handlers do not overlap: in
    every state a serial run leads to, in both builds, a shared write that is not finished
    reads a buffer that is stored, with a count at least the number of its unfinished
    writes; and the completion of the write, run without interference, completes.  Handlers
    that overlap can break it: [notification_race]. *)
Theorem shared_buffers_stored es s d a id :
  serial_reach NDEBUG ra port timeout n db es s → (a, id) ∈ unfinished (mgr (srv s)) →
  (∃ buf k, m_find id (shared_storage_ (mgr (srv s))) = Some (buf, k)
            ∧ 0 < k ∧ pending id (mgr (srv s)) ≤ k)
  ∧ ∃ s', sys_step NDEBUG ra port timeout d (Sends a id) s = Some (Ok s').
Proof.
  intros Hs%reach_ok Hin. split.
  { apply (unfinished_stored _ a id); [apply Hs|done]. }
  destruct (shared_write_done_evolved NDEBUG _ a id _ (so_mgr _ _ Hs) Hin) as (g' & E & _).
  unfold sys_step. cbn [handle]. rewrite bool_decide_eq_true_2 by done. cbn [guard_step].
  unfold on_mgr, on_srv, in_mgr. rewrite E. cbn. eauto.
Qed.

(** C6. No request is lost between the socket and the reply, as long as handlers do not
    overlap.  In every state a serial run leads to: the requests admitted so far are those that are queued, those a thread
    holds and those that were executed, each once; every admitted request was confirmed
    to its client; and for every connection that is there and every number, at least as
    many requests came to an end with a final reply, or wait for a file, as were
    executed under that number.  Two download queries whose handlers overlap can break the
    last point: [querries_race]. *)
Theorem every_request_accounted es s :
  serial_reach NDEBUG ra port timeout n db es s →
  let g := mgr (srv s) in
  admitted s ≡ₚ map function_ (queued (requests s) ++ executing (requests s)) ++ (executed s).*1
  ∧ ∀ a r,
      (count (numbered_job a r) (admitted s) ≤ accepted a r g)%nat
      ∧ (alive g a = true →
         count (served a r) (executed s) ≤ ended a r g + waiting a r g)%nat.
Proof.
  intros Hs%reach_account g. destruct Hs as [Sr Sa Se _]. split; [done|].
  intros a r. split; [apply Sa|apply Se].
Qed.

(** A request never gets stuck in the scheduler: in every state a serial run leads to
    with at least one thread in the pool, as long as an admitted request has not been
    executed there is a thread that can take the next one or can finish the one it
    holds. *)
Lemma no_request_stuck es s :
  serial_reach NDEBUG ra port timeout n db es s → (0 < n)%nat →
  (length (executed s) < length (admitted s))%nat →
  ∃ i d, (∃ s', sys_step NDEBUG ra port timeout d (Starts i) s = Some (Ok s'))
         ∨ ∃ o, sys_step NDEBUG ra port timeout d (Finishes i) s = Some o.
Proof.
  intros Hs Hn Hlt. pose proof (sa_requests _ (reach_account _ _ _ _ _ _ _ _ Hs)) as Hacc.
  pose proof (reach_pool _ _ _ _ _ _ _ _ Hs) as [_ Hl Hrun Hgo Hst].
  apply Permutation_length in Hacc. rewrite length_app, length_map, length_fmap in Hacc.
  assert (∀ i w, request_threads_ (requests s) !! i = Some w → w = Scheduler.Waiting ∨ ∃ p, w = Executing p) as Hw.
  { intros i w Hi. rewrite Forall_forall in Hrun.
    specialize (Hrun w ltac:(by eapply list_elem_of_lookup_2)). destruct w; [by left|right; eauto|done]. }
  set (no_disk := mkDisk (λ _, None) (λ _, false) (λ _, false) (λ _, false)).
  assert (∀ i p, request_threads_ (requests s) !! i = Some (Executing p) →
    ∃ o, sys_step NDEBUG ra port timeout no_disk (Finishes i) s = Some o) as Hfin.
  { intros i p Hi. unfold sys_step. cbn [handle]. unfold taken. rewrite Hi. cbn. eauto. }
  destruct (queued (requests s)) as [|q l] eqn:Eq.
  - assert (executing (requests s) ≠ []) as Hne.
    { intros E. unfold jobs in Hacc. rewrite Eq, E in Hacc. cbn in Hacc. lia. }
    destruct (executing (requests s)) as [|p ps] eqn:Ex; [done|].
    assert (p ∈ executing (requests s)) as Hin by (rewrite Ex; left).
    apply list_elem_of_bind in Hin as (w & Hp & Hw'). apply list_elem_of_lookup in Hw' as [i Hi].
    destruct (Hw i w Hi) as [->|[p' ->]]; [by apply elem_of_nil in Hp|].
    exists i, no_disk. right. by eapply Hfin.
  - assert (once_flag (requests s) = true) as Ho.
    { destruct (once_flag (requests s)); [done|]. by specialize (Hst eq_refl). }
    rewrite Ho in Hl. destruct (request_threads_ (requests s) !! 0%nat) as [w|] eqn:Hi.
    2: { apply lookup_ge_None in Hi. lia. }
    exists 0%nat, no_disk. destruct (Hw 0%nat w Hi) as [->|[p ->]]; [left|right; by eapply Hfin].
    destruct (run_once_progress (scheduler_ (requests s)) Hgo) as (p & sch & Er).
    { unfold queued in Eq. by rewrite Eq. }
    unfold sys_step. cbn [handle]. unfold take_request. rewrite Hi, Er. cbn. eauto.
Qed.

(** The steps of the pool threads, and how many of them the requests still need. *)
Definition pool_turn (e : sys_event) : bool :=
  match e with Starts _ | Finishes _ => true | _ => false end.
Definition to_do s : nat :=
  2 * length (queued (requests s)) + length (executing (requests s)).

Lemma pool_step_to_do d e s s' :
  pool_turn e = true → sys_step NDEBUG ra port timeout d e s = Some (Ok s') →
  to_do s = S (to_do s') ∧ admitted s' = admitted s.
Proof.
  intros He (s1 & E & ->)%sys_step_handle. cbn [recount with_counted admitted]. unfold to_do.
  destruct e as [| | | |i|i| | | | | |]; try done; cbn [handle] in E.
  - unfold take_request in E. destruct (request_threads_ (requests s) !! i) as [[| |]|] eqn:Ei; try done.
    destruct (run_once (scheduler_ (requests s))) as [| |p sch] eqn:Er; try done. injection E as <-.
    apply run_once_Executes in Er as (_ & _ & Hp & _).
    pose proof (executing_with_worker _ i Scheduler.Waiting (Executing p) sch Ei) as Hx.
    apply Permutation_length in Hp, Hx. rewrite !length_app in Hx. cbn [executing_of length] in Hp, Hx.
    cbn [recount requests with_counted with_requests admitted].
    change (queued (with_worker i (Executing p) sch (requests s))) with (pq_elements (queue_ sch)).
    unfold queued at 1. split; [lia|done].
  - unfold taken in E. destruct (request_threads_ (requests s) !! i) as [[|p|]|] eqn:Ei; try done.
    cbn in E. unfold run_request in E. destruct (on_srv _ s) as [s2|] eqn:E2; [|done].
    pose proof (on_srv_requests _ _ _ E2) as Eq. unfold on_srv in E2.
    destruct (execute _ _ _ _ _) as [[[] v']|]; [|done]. injection E2 as <-. injection E as <-.
    pose proof (executing_with_worker _ i (Executing p) Scheduler.Waiting
                  (scheduler_ (requests s)) Ei) as Hx.
    apply Permutation_length in Hx. rewrite !length_app in Hx. cbn [executing_of length] in Hx.
    cbn [recount requests with_counted with_requests with_executed with_srv admitted].
    change (queued (with_worker i Scheduler.Waiting (scheduler_ (requests s)) (requests s)))
      with (queued (requests s)). split; [lia|done].
Qed.

(** C8. The pool works everything off: in any state a serial run leads to, with at least
    one thread, whatever schedule of pool steps follows, each of them brings the requests
    one step closer to the end; at most twice the queued requests and once those being
    executed are made, while any are missing a thread can make one, and when none is
    missing every request that was admitted has been executed. *)
Theorem requests_drain es s pool s' :
  serial_reach NDEBUG ra port timeout n db es s → (0 < n)%nat →
  Forall (λ e, pool_turn e = true) pool.*2 → run NDEBUG ra port timeout pool s = Some s' →
  (length pool + to_do s' = to_do s)%nat
  ∧ if (to_do s' =? 0)%nat then (executed s').*1 ≡ₚ admitted s
    else ∃ i d, (∃ s2, sys_step NDEBUG ra port timeout d (Starts i) s' = Some (Ok s2))
                ∨ ∃ o, sys_step NDEBUG ra port timeout d (Finishes i) s' = Some o.
Proof.
  intros Hs Hn Hp Hr.
  assert (length pool + to_do s' = to_do s ∧ admitted s' = admitted s)%nat as [Hlen Ha].
  { clear Hs. revert s Hp Hr. induction pool as [|[d e] pool IH]; intros s Hp; cbn [run].
    - by intros [= <-].
    - apply Forall_cons in Hp as [He Hp]. cbn in He. destruct (in_range s); [|done].
      destruct (sys_step _ _ _ _ d e s) as [[s1|]|] eqn:E; try done. intros Hr.
      destruct (pool_step_to_do d e s s1 He E) as [-> <-]. destruct (IH s1 Hp Hr) as [IH1 IH2].
      cbn [length]. split; [lia|done]. }
  split; [done|]. eapply run_reach in Hr; [|exact Hs].
  pose proof (sa_requests _ (reach_account _ _ _ _ _ _ _ _ Hr)) as Hacc. unfold jobs in Hacc.
  rewrite <- Ha. destruct (to_do s' =? 0)%nat eqn:E.
  - apply Nat.eqb_eq in E. unfold to_do in E.
    destruct (queued (requests s')); [|cbn in E; lia]. destruct (executing (requests s')); [|cbn in E; lia].
    by rewrite Hacc.
  - apply Nat.eqb_neq in E. unfold to_do in E. eapply no_request_stuck; [exact Hr|done|].
    apply Permutation_length in Hacc. rewrite length_app, length_map, length_app, length_fmap in Hacc. lia.
Qed.

(** C13. A download query is never dropped.  In every serial run (no two handlers overlap),
    when a thread executes one for a client that is there, this completes, and: if the TLS
    version differs, or the first connection with the owner's nickname does not exist or
    its tree does not have the path, or the server has a copy, the query is answered with
    one final reply under its number; otherwise it waits for the file, in front of those
    that wait for the same file already - and if there are none, that connection has just
    been asked for the file under the number the query waits under.  No other waiting
    request is touched.  Two queries that overlap can break it: [querries_race]. *)
Theorem download_querry_answered_or_waits es s d i a q :
  serial_reach NDEBUG ra port timeout n db es s → in_range s = true →
  taken i s = Some (mkJob a (do_download_file q)) → alive (mgr (srv s)) a = true →
  let asked := mkDownloadQuerry (d_RequestID q) (d_FileOwner q) (d_FilePath q)
                 (Version_of_text (d_SslVersion q)) (CSVCompressions_of_text (d_Compressions q)) in
  let owner := m_find_if (has_nickname (d_FileOwner q)) (connections_ (mgr (srv s))) in
  ∃ s', sys_step NDEBUG ra port timeout d (Finishes i) s = Some (Ok s')
    ∧ if bool_decide (GetSslVersion = q_SslVersion asked) then
        match owner with
        | None => answered asked a (mgr (srv s)) (mgr (srv s'))
        | Some (o, c) =>
            ∃ found, Find PATH_SEPARATOR_CHR (tree_of c) (d_FilePath q) false = Ok found
              ∧ if bool_decide (found = (true, false))
                then waits asked a o (mgr (srv s)) (mgr (srv s'))
                else answered asked a (mgr (srv s)) (mgr (srv s'))
        end
      else answered asked a (mgr (srv s)) (mgr (srv s')).
Proof.
  intros Hs%reach_ok Hr Ht Ha asked owner.
  destruct (find_owner_ok (q_FileOwner asked) (q_FilePath asked) _ (mo_trees _ _ (so_mgr _ _ Hs))) as [o Eo].
  destruct (in_range_ready _ Hr) as [_ Hcr].
  destruct (querry_spec port d asked a _ o (mo_numbered _ _ (so_mgr _ _ Hs)) Hcr Eo)
    as (g' & E & Hw & _).
  unfold sys_step. cbn [handle]. rewrite Ht. cbn [fmap option_fmap option_map].
  unfold run_request, on_srv, execute. cbn [job_connection job_task]. rewrite Ha.
  unfold run_download_file, in_mgr. fold asked. rewrite E. eexists. split; [done|].
  revert Hw. unfold querry_outcome. destruct (bool_decide (_ = q_SslVersion asked)); [|done].
  revert Eo. unfold find_owner. cbn [asked q_FileOwner q_FilePath]. fold owner.
  destruct owner as [[b c]|]; [|by intros [= <-]].
  fold (tree_of c). destruct (Find _ _ _ _) as [[found cached]|]; [|done]. cbn [mbind outcome_bind].
  intros [= <-] Hw. eexists. split; [done|]. by destruct found, cached.
Qed.

(** C14. Whatever waits for a file is answered when its wait ends.  In every serial run (no
    two handlers overlap), for every number under which requests wait: the timer of the
    number runs, or the timer of its transaction runs, or its receiver is at work, so that
    one of these three events can happen; each of them, if its handler completes, settles
    the number; and whatever event it is after which nothing waits under the number any
    more - one of the three, or an approved reply whose download could not begin - has
    settled it: the waiting requests of all connections that are still there were
    answered, each once, with a final reply under its own number, nothing else was written
    and no other number touched. *)
Theorem waiting_requests_settled es s id :
  serial_reach NDEBUG ra port timeout n db es s →
  m_find id (backup_requests_ (mgr (srv s))) ≠ None →
  let ends := [RequestExpires id; TransferExpires id; Receives id true; Receives id false] in
  (∃ d e o, e ∈ ends ∧ sys_step NDEBUG ra port timeout d e s = Some o)
  ∧ ∀ d e s', in_range s = true → sys_step NDEBUG ra port timeout d e s = Some (Ok s') →
      e ∈ ends ∨ m_find id (backup_requests_ (mgr (srv s'))) = None →
      settled id (mgr (srv s)) (mgr (srv s')).
Proof.
  intros Hs Hf ends. pose proof (reach_watched _ _ _ _ _ _ _ _ Hs) as Hw.
  apply reach_ok in Hs. set (no_disk := mkDisk (λ _, None) (λ _, false) (λ _, false) (λ _, false)).
  split.
  - exists no_disk. unfold sys_step. destruct (wo_watched _ _ Hw id Hf) as [E|[E|E]].
    + exists (RequestExpires id). cbn [handle]. rewrite E. cbn. eexists. split; [left|done].
    + exists (TransferExpires id). cbn [handle]. unfold downloads in E. rewrite E. cbn.
      eexists. split; [right; left|done].
    + exists (Receives id true). cbn [handle]. rewrite bool_decide_eq_true_2 by done. cbn.
      eexists. split; [right; right; left|done].
  - intros d e s' Hr (s1 & E & ->)%sys_step_handle [He|Hn].
    2: { pose proof (handle_settles NDEBUG ra port timeout d e s s1 Hs Hr Hw E) as Hk.
         exact (settled_or_waiting _ _ id Hk Hf Hn). }
    unfold ends in He. rewrite !elem_of_cons, elem_of_nil in He.
    change (settled id (mgr (srv s)) (mgr (srv s1))).
    destruct He as [->|[->|[->|[->|[]]]]]; cbn [handle] in E; apply guard_step_Some in E as [_ E].
    + by apply request_expires_settles.
    + by eapply transfer_expires_settles.
    + by eapply receives_settles.
    + by eapply receives_settles.
Qed.
End spec.

(** ** Nicknames *)

Section names.
Context `{ProtocolLaws} `{BoostSplitLaws} `{SqlLaws} `{!SqlThrows} `{PriorityQueue (item job)}.
Context `{!PriorityQueueLaws (item job) item_comp} `{!HelloLaws}.
Variables (NDEBUG : bool) (ra : str → str → str) (port : Z) (timeout : outcome Z).

Lemma reach_names n db m es s :
  stores db m → serial_reach NDEBUG ra port timeout n db es s → names_ok s.
Proof.
  intros Hdb. induction 1 as [|es s d e s' Hs IH Hr E].
  - intros _. exists m. split_and!; [done|by apply NoDup_nil|by intros a b c c' ?%elem_of_nil|].
    by intros a c ?%elem_of_nil.
  - apply sys_step_handle in E as (s1 & E & ->).
    enough (names_ok s1) as Hn by exact Hn.
    eapply handle_names; [by eapply reach_ok|done|done|exact E].
Qed.

(** C16. Starting with any healthy database, as long as no account has been deleted: in
    every state a serial run leads to (no two handlers overlap) a nickname names at most one
    connection, and every nickname in use is a registered account - whatever the clients
    send, and in whatever order the threads execute the requests to sign in and to sign up,
    one after the other.  Two sign-ins that overlap break it: [signins_race]. *)
Theorem nicknames_stay_unique n db m es s :
  stores db m → serial_reach NDEBUG ra port timeout n db es s →
  existsb (λ e, deletes e.1) (executed s) = false →
  unique_nicknames (connections_ (mgr (srv s)))
  ∧ ∃ m', stores (users_db (srv s)) m' ∧ nicknames_registered (connections_ (mgr (srv s))) m'.
Proof.
  intros Hdb Hs Hd. destruct (reach_names n db m es s Hdb Hs Hd) as (m' & Hst & _ & Hu & Hr).
  split; [done|]. by exists m'.
Qed.
End names.

(** ** Witnesses: a run in which Bob downloads a file from Ann *)

Section witnesses.
#[local] Existing Instance split_def_split.
#[local] Existing Instance split_def_laws.
#[local] Existing Instance sample_protocol.
#[local] Existing Instance sample_protocol_laws.
#[local] Existing Instance sample_sql.
#[local] Existing Instance sample_sql_laws.
#[local] Instance sample_job_queue : PriorityQueue (item job) := list_queue item_comp.
#[local] Instance sample_job_queue_laws : PriorityQueueLaws (item job) item_comp :=
  item_queue_laws job.
#[local] Instance sample_hello_laws : HelloLaws.
Proof. split; cbn; lia. Qed.
#[local] Instance sample_sql_throws : SqlThrows.
Proof. intros [] db f; done. Qed.

Definition no_accounts : database := ([] : list (str * str)).
Definition run_disk : disk := mkDisk (λ _, Some 3) (λ _, true) (λ _, true) (λ _, true).
Definition run_append (p f : str) : str := p ++ f.

Definition says (a : Z) (command : string) (hs : list (headers.t * str)) (body : list str) : sys_event :=
  Reads a (Message (mk_message (lit command) hs body)).
Definition served_by_pool (es : list sys_event) : list sys_event :=
  es ≫= λ e, [e; Starts 0; Finishes 0].

(** A client connects, signs up and registers a file. *)
Definition joins (a : Z) (name file : string) : list sys_event :=
  Accepts a :: served_by_pool
    [says a "SIGNUP" [(headers.CommandId, lit "1"); (headers.Nickname, lit name);
                      (headers.Password, lit "pw")] [];
     says a "PUSH_FILES" [(headers.CommandId, lit "2"); (headers.ContentType, lit "csv")] [lit file]].

Definition bob_asks : sys_event :=
  says 20 "QUERRY" [(headers.CommandId, lit "5"); (headers.QuerryType, lit "DownloadFile");
                    (headers.FileOwner, lit "ann"); (headers.FileName, lit "/f");
                    (headers.SslVersion, lit "sslv23"); (headers.Compressions, lit "zlib")] [].

Definition events_posted : list sys_event := joins 10 "ann" "/f" ++ joins 20 "bob" "/g" ++ [bob_asks].
Definition events_taken : list sys_event := events_posted ++ [Starts 0].
Definition events_waiting : list sys_event := events_taken ++ [Finishes 0].

Definition run_of (NDEBUG : bool) (es : list sys_event) : option system :=
  run NDEBUG run_append 80 (Ok 30) (map (λ e, (run_disk, e)) es) (new_system 1 no_accounts).
Definition state_of (NDEBUG : bool) (es : list sys_event) : system :=
  default (new_system 1 no_accounts) (run_of NDEBUG es).

Lemma reach_of NDEBUG es :
  is_Some (run_of NDEBUG es) →
  serial_reach NDEBUG run_append 80 (Ok 30) 1 no_accounts es (state_of NDEBUG es).
Proof.
  unfold state_of. intros [s E]. rewrite E. cbn [default].
  apply (run_reach NDEBUG run_append 80 (Ok 30) 1 no_accounts []) in E; [|constructor].
  cbn [app] in E. rewrite <- list_fmap_compose in E. cbn in E. by rewrite list_fmap_id in E.
Qed.

Lemma server_survives_witness :
  sys_step true run_append 80 (Ok 30) run_disk
    (says 10 "REPLY" [(headers.CommandId, lit "x")] []) (state_of true events_waiting)
  = Some (Fault Thrown).
Proof.
  apply (server_survives run_append 80 (Ok 30) 1 no_accounts events_waiting).
  - apply reach_of. vm_compute. eexists. reflexivity.
  - vm_compute. reflexivity.
  - vm_compute. reflexivity.
Defined.

Lemma server_well_formed_witness : numbered (mgr (srv (state_of true events_waiting))).
Proof.
  destruct (server_well_formed true run_append 80 (Ok 30) 1 no_accounts events_waiting
              (state_of true events_waiting) ltac:(apply reach_of; vm_compute; eexists; reflexivity))
    as (_ & _ & _ & Hn & _). exact Hn.
Defined.

(** Ann is being told of Bob's files. *)
Lemma shared_buffers_stored_witness :
  ∃ buf k, m_find 1 (shared_storage_ (mgr (srv (state_of true events_waiting)))) = Some (buf, k) ∧ 0 < k.
Proof.
  destruct (shared_buffers_stored true run_append 80 (Ok 30) 1 no_accounts events_waiting
              (state_of true events_waiting) run_disk 10 1) as [(buf & k & Hf & Hk & _) _].
  - apply reach_of. vm_compute. eexists. reflexivity.
  - vm_compute. left.
  - exists buf, k. split; [exact Hf|exact Hk].
Defined.

Lemma every_request_accounted_witness :
  (1 ≤ ended 20 (lit "5") (mgr (srv (state_of true events_waiting)))
       + waiting 20 (lit "5") (mgr (srv (state_of true events_waiting))))%nat.
Proof.
  destruct (every_request_accounted true run_append 80 (Ok 30) 1 no_accounts events_waiting
              (state_of true events_waiting) ltac:(apply reach_of; vm_compute; eexists; reflexivity)) as [_ Ha].
  destruct (Ha 20 (lit "5")) as [_ He]. apply He. vm_compute. reflexivity.
Defined.

Lemma requests_drain_witness :
  (executed (state_of true events_waiting)).*1 ≡ₚ admitted (state_of true events_posted).
Proof.
  apply (requests_drain true run_append 80 (Ok 30) 1 no_accounts events_posted (state_of true events_posted)
           [(run_disk, Starts 0); (run_disk, Finishes 0)] (state_of true events_waiting)).
  - apply reach_of. vm_compute. eexists. reflexivity.
  - lia.
  - repeat constructor.
  - vm_compute. reflexivity.
Defined.

Lemma no_request_stuck_witness :
  ∃ i d, (∃ s', sys_step true run_append 80 (Ok 30) d (Starts i) (state_of true events_posted) = Some (Ok s'))
         ∨ ∃ o, sys_step true run_append 80 (Ok 30) d (Finishes i) (state_of true events_posted) = Some o.
Proof.
  apply (no_request_stuck true run_append 80 (Ok 30) 1 no_accounts events_posted).
  - apply reach_of. vm_compute. eexists. reflexivity.
  - lia.
  - vm_compute. lia.
Defined.

Definition bobs_request : download_request :=
  mkDownloadRequest (lit "5") (lit "ann") (lit "/f") (lit "sslv23") (lit "zlib").

Lemma download_querry_answered_or_waits_witness :
  ∃ s', sys_step true run_append 80 (Ok 30) run_disk (Finishes 0) (state_of true events_taken) = Some (Ok s')
    ∧ waits (mkDownloadQuerry (lit "5") (lit "ann") (lit "/f") (true : bool) [zlib]) 20 10
        (mgr (srv (state_of true events_taken))) (mgr (srv s')).
Proof.
  destruct (download_querry_answered_or_waits true run_append 80 (Ok 30) 1 no_accounts events_taken
           (state_of true events_taken) run_disk 0 20 bobs_request) as (s' & E & Hw).
  - apply reach_of. vm_compute. eexists. reflexivity.
  - vm_compute. reflexivity.
  - vm_compute. reflexivity.
  - vm_compute. reflexivity.
  - exists s'. split; [exact E|].
    rewrite bool_decide_eq_true_2 in Hw by reflexivity.
    destruct (m_find_if _ _) as [[b c]|] eqn:Eo; vm_compute in Eo; [|discriminate].
    injection Eo as <- <-. destruct Hw as (found & Ef & Hw). vm_compute in Ef.
    injection Ef as <-. exact Hw.
Defined.

(** Ann approves, but her file can not be opened for writing. *)
Definition refusing_disk : disk := mkDisk (λ _, Some 3) (λ _, true) (λ _, false) (λ _, true).
Definition ann_approves : sys_event :=
  says 10 "REPLY" [(headers.CommandId, lit "2"); (headers.ReplyCode, lit "APPROVED");
                   (headers.FileSize, lit "3"); (headers.Compressions, lit "zlib")] [].

Definition state_denied : system :=
  match sys_step true run_append 80 (Ok 30) refusing_disk ann_approves (state_of true events_waiting) with
  | Some (Ok s) => s
  | _ => state_of true events_waiting
  end.

Lemma waiting_requests_settled_witness :
  settled 2 (mgr (srv (state_of true events_waiting))) (mgr (srv state_denied)).
Proof.
  destruct (waiting_requests_settled true run_append 80 (Ok 30) 1 no_accounts events_waiting
              (state_of true events_waiting) 2) as [_ He].
  - apply reach_of. vm_compute. eexists. reflexivity.
  - vm_compute. discriminate.
  - apply (He refusing_disk ann_approves state_denied).
    + vm_compute. reflexivity.
    + vm_compute. reflexivity.
    + right. vm_compute. reflexivity.
Defined.

Lemma nicknames_stay_unique_witness :
  unique_nicknames (connections_ (mgr (srv (state_of true events_waiting)))).
Proof.
  apply (nicknames_stay_unique true run_append 80 (Ok 30) 1 no_accounts ∅ events_waiting).
  - apply stores_empty.
  - apply reach_of. vm_compute. eexists. reflexivity.
  - vm_compute. reflexivity.
Defined.
End witnesses.
