(* ===== verification/SystemUploads.v ===== *)
(** * SystemUploads: a deliver at work has its transaction

    Over the runs of the whole server, in either build: no handler takes the transaction
    of an upload away but the completion of its own deliver. *)

From S2P Require Import Prelude Hoare Text Protocol Validators Vfs StdMap BackupRequests.
From S2P Require Import DownloadManager UsersDb Scheduler Manager ManagerSpec ManagerFrame.
From S2P Require Import DownloadSpec ManagerInv Handler HandlerSpec Connection Steady RequestInv.
From S2P Require Import System SystemInv SystemWaiting SystemSpec.

Local Abbreviation uploads g := (upload_transactions_ (download_manager_ g)).
Local Abbreviation mgr_of s := (mgr (srv s)).

(** No upload has gone. *)
Definition grows (g g' : manager) : Prop :=
  ∀ id, is_Some (m_find id (uploads g)) → is_Some (m_find id (uploads g')).

#[global] Instance grows_preorder : PreOrder grows.
Proof. split; [by intros g id|]. intros g1 g2 g3 H12 H23 id Hid. auto. Qed.

Lemma grows_same g g' : uploads g' = uploads g → grows g g'.
Proof. intros E id. by rewrite E. Qed.

#[global] Instance grows_frame : Frame grows (λ _, True).
Proof. split; try done; [apply _| | |]; intros; by apply grows_same. Qed.

Lemma grows_begin d Path c T (dm dm' : download_manager download_handler) r :
  BeginUploadTransaction d Path c T dm = (r, dm') →
  ∀ id, is_Some (m_find id (upload_transactions_ dm)) →
    is_Some (m_find id (upload_transactions_ dm')).
Proof.
  unfold BeginUploadTransaction. destruct (file_size d Path); [|intros [= <- <-]; auto].
  case_bool_decide; [intros [= <- <-]; auto|]. destruct (negb _); [intros [= <- <-]; auto|].
  intros [= <- <-] id Hid. cbn [upload_transactions_].
  unfold m_emplace. destruct (m_find (upload_transactions_id_counter_ _) _) eqn:E; [exact Hid|].
  rewrite m_find_insert by done. case_bool_decide; [by eexists|exact Hid].
Qed.

Section manager.
Context `{Protocol} `{BoostSplit}.
Variables (NDEBUG : bool) (port : Z) (d : disk).

Lemma grows_start_write a m : preserves grows (start_write a m).
Proof. exact (framed_start_write grows a m). Qed.

Lemma grows_deliver a compr r path :
  preserves grows (DeliverFileFromLocalStorage port d a compr r path).
Proof.
  intros s x s'. unfold DeliverFileFromLocalStorage.
  destruct (BeginUploadTransaction _ _ _ _ _) as [[[ok c'] T] dm] eqn:E. intros E'.
  transitivity (set_downloads dm s); [exact (grows_begin _ _ _ _ _ _ _ E)|].
  destruct ok, (file_size d path); by eapply grows_start_write.
Qed.

Lemma grows_for_each_and_remove id f :
  (∀ r, preserves grows (f r)) → preserves grows (for_each_and_remove id f).
Proof.
  intros Hf s x s'. unfold for_each_and_remove, ForEachAndRemoveWrapper, ForEach.
  destruct (m_index id default_backup (backup_requests_ s)) as [[info t] m].
  destruct (for_each _ _ _) as [[[] s1]|] eqn:E; [|done]. cbn. intros [= <- <-].
  transitivity s1; [|by apply grows_same].
  transitivity (set_backup m s); [by apply grows_same|].
  eapply (preserves_for_each grows); [|exact E].
  intros r s2 y s3. destruct (alive _ _); [apply Hf|by intros [= <- <-]].
Qed.

Lemma grows_denied id : preserves grows (for_each_and_remove id GetDownloadDenyHandler).
Proof. apply grows_for_each_and_remove. intros r. apply grows_start_write. Qed.

(** A computation that leaves the uploads as they are. *)
Lemma grows_uploads {A} (m : M manager A) :
  (∀ g x g', m g = Ok (x, g') → uploads g' = uploads g) → preserves grows m.
Proof. intros Hm g x g' E. apply grows_same. by eapply Hm. Qed.

#[local] Hint Resolve grows_start_write grows_deliver grows_denied : preserves.

Lemma grows_reply m : preserves grows (resolve_download_reply port d m).
Proof.
  unfold resolve_download_reply. apply preserves_bind; [apply _|preserves|]. intros RequestID.
  cbv zeta. destruct (negb _); [preserves|].
  apply preserves_bind; [apply _| |intros [[path owner]|]; [|preserves]].
  { apply grows_uploads. intros g x g'. unfold IsRequestIDValid.
    destruct (m_find _ _) as [[i t]|]; by intros [= <- <-]. }
  apply preserves_bind; [apply _|preserves|]. intros size.
  apply preserves_bind; [apply _| |].
  { apply grows_uploads. intros g x g'. unfold BeginDownloadTransaction.
    repeat (destruct (negb _); [try done; cbn; by intros [= <- <-]|]). cbn. by intros [= <- <-]. }
  intros []; [|preserves]. apply preserves_bind; [apply _| |preserves].
  exact (framed_notify_download grows port owner RequestID _).
Qed.

Lemma grows_querry q a : preserves grows (resolve_download_file_querry port d q a).
Proof.
  unfold resolve_download_file_querry, deny. destruct (negb _); [preserves|].
  apply preserves_bind; [apply _| |].
  { apply grows_uploads. intros g x g'. destruct (find_owner _ _ _); [|done]. by intros [= <- <-]. }
  intros [[b []]|]; [preserves| |preserves]. cbv zeta.
  apply preserves_bind; [apply _| |].
  { apply grows_uploads. intros g x g'. destruct (IsDownloadPending _ _ _ _ _ _).
    by intros [= <- <-]. }
  intros []; [preserves|].
  apply preserves_bind; [apply _|apply preserves_modify; intros g; by apply grows_same|]. intros _.
  apply preserves_bind; [apply _|preserves|]. intros id.
  apply preserves_bind; [apply _|preserves|]. intros _. cbv zeta.
  apply preserves_modify. intros g. by apply grows_same.
Qed.

Lemma grows_end id : preserves grows (assert_end_download NDEBUG id).
Proof.
  apply preserves_cassert; [apply _|]. apply grows_uploads. intros g x g'.
  unfold EndDownloadTransaction. by intros [= <- <-].
Qed.

Lemma grows_completed id h Succes : preserves grows (download_completed port NDEBUG d id h Succes).
Proof.
  unfold download_completed. apply preserves_bind; [apply _| |intros _].
  { apply grows_uploads. intros g x g'. destruct (CloseDownloadTransaction _ _); [|done].
    by intros [= <- <-]. }
  apply preserves_bind; [apply _| |intros _; apply grows_end].
  destruct Succes; [|preserves]. apply preserves_bind; [apply _| |intros _].
  - exact (framed_set_cached grows NDEBUG (h_owner h) (h_path h)).
  - apply grows_for_each_and_remove. intros r. apply grows_deliver.
Qed.

Lemma grows_expired id : preserves grows (download_timer_expired NDEBUG id).
Proof.
  unfold download_timer_expired. apply preserves_bind; [apply _|preserves|]. intros _. apply grows_end.
Qed.

Lemma grows_greeting ready hello sock :
  preserves grows (λ g, dm ← HandleHandshake NDEBUG false ready hello sock (download_manager_ g);
                        Ok (tt, set_downloads dm g)).
Proof.
  intros g x g' E id Hid. revert E. unfold HandleHandshake. cbn [negb].
  destruct (TryInitTransaction _ _) as [[[ty i]|]|]; [|by intros [= <- <-]|done].
  cbn [mbind outcome_bind]. case_bool_decide.
  - unfold TryStartUploadTransaction. destruct (m_find i _) as [[f t]|] eqn:Ef;
      intros [= <- <-]; [|done]. cbn. rewrite m_find_update. case_bool_decide; [|done].
    destruct Hid as [v ->]. by eexists.
  - case_bool_decide; [|by intros [= <- <-]].
    destruct (TryStartDownloadTransaction _ _ _ _) as [dm|] eqn:Es; [|done]. intros [= <- <-].
    apply start_download_uploads in Es. cbn. by rewrite Es.
Qed.
End manager.

(** ** Messages and requests *)

Section requests.
Context `{ProtocolLaws} `{BoostSplitLaws} `{SqlApi}.
Variables (ra : str → str → str) (port : Z) (timeout : outcome Z) (d : disk).
Implicit Types (v : server).

Lemma grows_reads a c e v v' :
  m_find a (connections_ (mgr v)) = Some c → react port d timeout a e v = Ok (tt, v') →
  grows (mgr v) (mgr v').
Proof.
  intros Hf E. destruct (react_forms port timeout d a c e v v' Hf E) as [Hs|[m Em]].
  - by apply grows_same, steady_uploads.
  - by eapply grows_reply.
Qed.

Lemma grows_execute j v v' : execute ra port d j v = Ok (tt, v') → grows (mgr v) (mgr v').
Proof.
  intros E. destruct (is_download (job_task j)) eqn:Hd.
  2: { apply grows_same, steady_uploads. by apply (execute_steady ra port d j Hd v tt v' E). }
  destruct j as [a t]. destruct t; try done. unfold execute in E. cbn [job_connection job_task] in E.
  destruct (alive (mgr v) a); [|by injection E as <-].
  unfold run_download_file, in_mgr in E.
  destruct (resolve_download_file_querry _ _ _ _ _) as [[[] g']|] eqn:Eq; [|done].
  injection E as <-. by eapply grows_querry.
Qed.
End requests.

(** ** The events of the system *)

Section events.
Context `{ProtocolLaws} `{BoostSplitLaws} `{SqlApi} `{PriorityQueue (item job)}.
Variables (NDEBUG : bool) (ra : str → str → str) (port : Z) (timeout : outcome Z).
Implicit Types (s : system) (d : disk).

(** Every deliver at work is that of one upload, which is there. *)
Record delivers_ok s : Prop := {
  do_distinct : NoDup (delivering s);
  do_present id : id ∈ delivering s → is_Some (m_find id (uploads (mgr_of s)));
}.

Lemma delivers_step s s' :
  grows (mgr_of s) (mgr_of s') → delivering s' = delivering s → delivers_ok s → delivers_ok s'.
Proof. intros Hg E [Hn Hp]. split; rewrite E; [done|]. intros id Hid. by apply Hg, Hp. Qed.

Lemma delivers_mgr s (m : M manager unit) s' :
  preserves grows m → delivers_ok s → on_mgr m s = Ok s' →
  delivers_ok s' ∧ grows (mgr_of s) (mgr_of s') ∧ delivering s' = delivering s.
Proof.
  intros Hm Hd (g' & E & ->)%on_mgr_Ok.
  assert (grows (mgr_of s) g') as Hg by (by eapply Hm). split; [|done]. by eapply delivers_step.
Qed.

(** A greeting starts an upload that is there and not at work. *)
Lemma greeting_upload ready hello (dm : download_manager download_handler) id :
  greeting_starts ready hello dm = Some (inr id) → is_Some (m_find id (upload_transactions_ dm)).
Proof.
  unfold greeting_starts. destruct (TryInitTransaction _ _) as [[[ty i]|]|]; [|done..].
  case_bool_decide.
  - destruct (m_find i _) eqn:E; [|done]. intros [= <-]. by eexists.
  - case_bool_decide; [|done]. by destruct (m_find i _).
Qed.

Lemma greets_delivers s ready hello sock s' :
  delivers_ok s → greet NDEBUG ready hello sock s = Ok s' → delivers_ok s'.
Proof.
  intros Hd. unfold greet. cbv zeta. destruct (restarts s _) eqn:Er; [done|].
  destruct (on_mgr _ s) as [s1|] eqn:E; [|done]. cbn [mbind outcome_bind]. intros [= <-].
  apply delivers_mgr in E as (Hd1 & Hg & Ed); [|apply grows_greeting|done].
  destruct (greeting_starts ready hello _) as [[id|id]|] eqn:Eg; [| |done].
  { apply (delivers_step s1); [by apply grows_same|done..]. }
  apply bool_decide_eq_false in Er. apply greeting_upload in Eg. destruct Hd1 as [Hn Hp].
  split; cbn [at_work with_transfers delivering srv].
  - rewrite Ed in *. by constructor.
  - intros j [->|Hj]%elem_of_cons; [by apply Hg|by apply Hp].
Qed.

Lemma delivers_delivers s id s' :
  delivers_ok s → deliver_done NDEBUG id s = Ok s' → delivers_ok s'.
Proof.
  intros [Hn Hp]. unfold deliver_done. destruct (on_mgr _ s) as [s1|] eqn:E; [|done].
  cbn [mbind outcome_bind]. intros [= <-]. apply on_mgr_Ok in E as (g' & E & ->).
  split; cbn [with_transfers delivering srv with_srv mgr]; [by apply remove_one_NoDup|].
  intros j Hj. pose proof (remove_one_ne _ _ _ Hn Hj) as Hne. apply remove_one_in in Hj.
  revert E. unfold upload_clean_up, cassert, EndUploadTransaction.
  destruct NDEBUG; [intros [= <-]; by apply Hp|].
  rewrite M_bind_unfold. cbn [mbind outcome_bind]. destruct (negb _); [|done]. intros [= <-].
  cbn. rewrite m_find_erase, bool_decide_eq_false_2 by done. by apply Hp.
Qed.

Lemma handle_delivers d e s s' :
  delivers_ok s → handle NDEBUG ra port timeout d e s = Some (Ok s') → delivers_ok s'.
Proof.
  intros Hd.
  assert (∀ b (m : M manager unit), preserves grows m → guard_step b (on_mgr m s) = Some (Ok s') →
    delivers_ok s') as Hmgr.
  { intros b m Hm [_ E]%guard_step_Some. by apply (delivers_mgr s m s' Hm Hd) in E as [? _]. }
  destruct e as [a|a e|a|a id|i|i|id|ready hello sock|id|id Succes|id|]; cbn [handle].
  - intros [_ E]%guard_step_Some. apply on_mgr_Ok in E as (g' & E & ->). injection E as <-.
    apply (delivers_step s); [by apply grows_same|done..].
  - intros [Ha E]%guard_step_Some. unfold alive in Ha.
    destruct (m_find a (connections_ (mgr (srv s)))) as [c|] eqn:Hf; [|done].
    unfold on_srv in E. destruct (react port d timeout a e (srv s)) as [[[] v']|] eqn:Er; [|done].
    cbn in E. injection E as <-. apply (delivers_step s); [|done..].
    exact (grows_reads port timeout d a c e _ _ Hf Er).
  - apply Hmgr. exact (framed_stop grows a).
  - apply Hmgr. exact (framed_written grows NDEBUG a id).
  - destruct (take_request i s) as [s1|] eqn:E; [|done]. intros [= <-]. unfold take_request in E.
    destruct (request_threads_ (requests s) !! i) as [[| |]|]; try done.
    destruct (run_once _); try done. injection E as <-.
    apply (delivers_step s); [by apply grows_same|done..].
  - destruct (taken i s) as [j|]; [|done]. cbn [fmap option_fmap option_map].
    unfold run_request, on_srv.
    destruct (execute ra port d j (srv s)) as [[[] v']|] eqn:E; [|done]. intros [= <-].
    apply (delivers_step s); [by eapply grows_execute|done..].
  - apply Hmgr, grows_denied.
  - intros E. apply (f_equal (default (Fault Thrown))) in E. by eapply greets_delivers.
  - apply Hmgr, grows_expired.
  - intros [_ E]%guard_step_Some. unfold receive_done in E.
    destruct (handler_of id s) as [h|]; [|done].
    destruct (on_mgr _ s) as [s1|] eqn:E1; [|done]. cbn [mbind outcome_bind] in E.
    injection E as <-. apply delivers_mgr in E1 as (Hd1 & _); [|apply grows_completed|done].
    apply (delivers_step s1); [by apply grows_same|done..].
  - intros [_ E]%guard_step_Some. by eapply delivers_delivers.
  - intros [_ E]%guard_step_Some. injection E as <-.
    apply (delivers_step s); [by apply grows_same|done..].
Qed.

Lemma reach_delivers n db es s : serial_reach NDEBUG ra port timeout n db es s → delivers_ok s.
Proof.
  induction 1 as [|es s d' e s' Hs IH Hr E].
  - split; [constructor|]. by intros id ?%elem_of_nil.
  - apply sys_step_handle in E as (s1 & E & ->).
    apply handle_delivers in E as [Hn Hp]; [by split|done].
Qed.
End events.
