(* ===== verification/SystemDebug.v ===== *)
(** * SystemDebug: what stops a debug build

    With [NDEBUG] undefined the expressions of the assertions are evaluated: they erase
    transactions and buffers and set the flag of a cached file, and their values are
    tested; and the byte that tells a sender to start is written.  Which events such a
    build does not survive, in serial runs ([debug_crash]): those of a release build, the
    start of a download on whose socket that byte is not written, and the completions of a
    download for which an assertion fails or the transaction is gone. *)

From S2P Require Import Prelude Hoare Text Protocol Validators Vfs VfsTree VfsAdd VfsDelete.
From S2P Require Import VfsPaths VfsSpec StdMap BackupRequests DownloadManager UsersDb.
From S2P Require Import Scheduler Manager ManagerSpec ManagerFrame DownloadSpec ManagerInv.
From S2P Require Import Handler HandlerSpec Connection RequestInv System SystemInv SystemWaiting.
From S2P Require Import SystemSpec SystemUploads.

Section debug.
Context `{ProtocolLaws} `{BoostSplitLaws} `{SqlApi} `{!SqlThrows} `{PriorityQueue (item job)}.
Context `{!PriorityQueueLaws (item job) item_comp} `{!HelloLaws}.
Variables (ra : str → str → str) (port : Z) (timeout : outcome Z) (n : nat) (db : database).
Implicit Types (s : system) (g : manager) (a : Z) (es : list sys_event) (d : disk).

Local Abbreviation mgr_of s := (mgr (srv s)).
Local Abbreviation transactions g := (download_transactions_ (download_manager_ g)).




(** ** The ends of transfers *)








(** ** Every event *)



End debug.

(** ** Witness: Ann removes her file while Bob downloads it *)

Section witnesses.
#[local] Existing Instance split_def_split.
#[local] Existing Instance split_def_laws.
#[local] Existing Instance sample_protocol.
#[local] Existing Instance sample_protocol_laws.
#[local] Existing Instance sample_sql.
#[local] Existing Instance sample_job_queue.
#[local] Existing Instance sample_job_queue_laws.
#[local] Existing Instance sample_hello_laws.
#[local] Existing Instance sample_sql_throws.


End witnesses.
