(* ===== verification/SystemNotices.v ===== *)
(** * SystemNotices: every client is rightly informed, over whole runs

    The events of serial runs keep [informed]: every client that has registered can tell
    from the notifications it was sent which files the others have.  This holds for a
    release build (whose shared buffers are never freed, so that they can be read back)
    and for [orderly] runs: names stay unique and without NUL, nobody signs in a second
    time, and no renaming takes a path that is there. *)

From S2P Require Import Prelude Hoare Text Protocol Validators Vfs VfsTree VfsAdd VfsDelete.
From S2P Require Import VfsPaths VfsSpec VfsEntries StdMap BackupRequests DownloadManager UsersDb.
From S2P Require Import Scheduler Manager ManagerSpec ManagerFrame DownloadSpec ManagerInv.
From S2P Require Import Handler HandlerSpec Connection Notices NoticesSpec NoticesInv RequestInv.
From S2P Require Import System SystemInv SystemWaiting SystemSpec.

Local Abbreviation nick c := (nickname_ (client_ c)).
Local Abbreviation mgr_of s := (mgr (srv s)).
Local Notation "g ⟦ a ⟧" := (m_find a (connections_ g)) (at level 1, format "g ⟦ a ⟧").

(** ** Requests *)

Section requests.
Context `{ProtocolLaws} `{BoostSplitLaws} `{SqlApi}.
Variables (ra : str → str → str) (port : Z) (timeout : outcome Z) (d : disk).
Implicit Types (g : manager) (v : server) (a b : Z).

(** Nothing said, and at most [a] has signed in. *)
Definition signs a g g' : Prop :=
  hushed g g'
  ∧ (connections_ g' = connections_ g
     ∨ ∃ f, (∀ c, is_processing (f c) = false ∧ tree_of (f c) = tree_of c)
         ∧ connections_ g' = m_update a f (connections_ g)).

Lemma unsaid_signs a g g' : unsaid g g' → signs a g g'.
Proof. intros [? ?]. split; [done|by left]. Qed.

#[local] Instance signs_preorder a : PreOrder (signs a).
Proof.
  split; [intros g; split; [done|by left]|].
  intros g1 g2 g3 [H12 E12] [H23 E23]. split; [by transitivity g2|].
  destruct E12 as [E12|(f & Hf & E12)], E23 as [E23|(f' & Hf' & E23)].
  - left. congruence.
  - right. exists f'. by rewrite E23, E12.
  - right. exists f. by rewrite E23, E12.
  - right. exists (λ c, f' (f c)). rewrite E23, E12, m_update_update. split; [|done].
    intros c. destruct (Hf' (f c)) as [? ->]. split; [done|]. apply Hf.
Qed.

(** The same, of the manager of a server. *)
Definition signing a v v' : Prop := signs a (mgr v) (mgr v').
#[local] Instance signing_preorder a : PreOrder (signing a).
Proof.
  split; [intros v; unfold signing; reflexivity|]. intros v1 v2 v3 ? ?. unfold signing.
  by transitivity (mgr v2).
Qed.

Lemma signing_mgr {A} a (m : M manager A) : preserves (signs a) m → preserves (signing a) (in_mgr m).
Proof.
  intros Hm v x v'. unfold in_mgr. destruct (m (mgr v)) as [[y g']|] eqn:E; [|done].
  cbn. intros [= <- <-]. by eapply Hm.
Qed.

Lemma signing_unsaid {A} a (m : M manager A) : preserves unsaid m → preserves (signing a) (in_mgr m).
Proof. intros Hm. apply signing_mgr. intros g x g' E. by eapply unsaid_signs, Hm. Qed.

Lemma signing_db {A} a (f : database → outcome (A * database)) : preserves (signing a) (in_db f).
Proof.
  intros v x v'. unfold in_db. destruct (f (users_db v)) as [[y db]|]; [|done].
  intros [= <- <-]. unfold signing. reflexivity.
Qed.

Lemma signing_answer a code r : preserves (signing a) (answer a code r).
Proof. apply signing_unsaid. by apply unsaid_start_write. Qed.

Lemma signing_log_in a l : preserves (signing a) (log_in a l).
Proof.
  apply signing_mgr. apply preserves_modify. intros g. split; [by apply hushed_same|].
  right. eexists. split; [|done]. done.
Qed.

Lemma signing_conn a : preserves (signing a) (in_mgr (conn a)).
Proof. apply signing_unsaid, unsaid_conn. Qed.
Lemma signing_gets {A} a (f : manager → A) : preserves (signing a) (in_mgr (gets f)).
Proof. apply signing_unsaid, preserves_gets, _. Qed.
#[local] Hint Resolve signing_db signing_answer signing_log_in signing_conn signing_gets : preserves.

(** The requests that neither change files nor leave. *)
Definition tells_nothing (t : task) : bool :=
  match t with
  | do_signin _ _ _ | do_signup _ _ _ | do_delete_account _ | do_download_file _ => true
  | _ => false
  end.

Lemma execute_signs j v v' :
  tells_nothing (job_task j) = true → execute ra port d j v = Ok (tt, v') →
  signing (job_connection j) v v'.
Proof.
  intros Hj E. unfold execute in E. destruct (alive _ _); [|injection E as <-; unfold signing; reflexivity].
  assert (∀ m : M server unit, preserves (signing (job_connection j)) m → m v = Ok (tt, v') →
    signing (job_connection j) v v') as Hm by (intros m Hm E'; by eapply Hm).
  destruct (job_task j); try done; revert E; apply Hm.
  - unfold run_signin. preserves.
  - unfold run_signup. preserves.
  - unfold run_delete_account. preserves.
  - unfold run_download_file. apply signing_unsaid, unsaid_querry.
Qed.

(** Reading says nothing about files. *)
Lemma react_unsaid a e v v' : react port d timeout a e v = Ok (tt, v') → unsaid (mgr v) (mgr v').
Proof.
  assert (∀ code r w, answer a code r v = Ok (tt, w) → unsaid (mgr v) (mgr w)) as Hans.
  { intros code r w [= <-]. by eapply (unsaid_start_write a (reply code r)). }
  destruct e as [m| |]; cbn [react]; [|by apply Hans|].
  2: { unfold read_indeterminate. rewrite lift_bind. destruct timeout; [|done]. intros [= <-]. reflexivity. }
  unfold read_action. destruct (is_command m commands.HEARTBEAT).
  { unfold in_mgr. intros [= <-]. by eapply (unsaid_start_write a (C_StaticAllocatedString _)). }
  rewrite M_bind_unfold. unfold in_mgr at 1, conn.
  destruct (m_find a _) as [c|]; [|done]. cbn [mbind outcome_bind].
  assert (mkServer (mgr v) (users_db v) (posted v) = v) as -> by by destruct v.
  destruct (basic_validate m); [by apply Hans|].
  destruct (transition_validate m _); [by apply Hans|].
  destruct (semantic_validate m); [by apply Hans|].
  destruct (is_command m commands.REPLY).
  - unfold in_mgr. destruct (resolve_download_reply port d m (mgr v)) as [[[] g']|] eqn:E; [|done].
    intros [= <-]. by eapply unsaid_reply.
  - destruct (confirm m); [|done]. rewrite M_bind_unfold. intros [= <-].
    by eapply (unsaid_start_write a (reply _ _)).
Qed.
End requests.

(** ** Requests that change files *)

Section changes.
Context `{ProtocolLaws} `{BoostSplitLaws} `{SqlApi}.
Variables (ra : str → str → str).
Implicit Types (g : manager) (v : server) (a b : Z).

Local Abbreviation file_entries := (file_entries PATH_SEPARATOR_CHR).
Local Abbreviation listed := (listed PATH_SEPARATOR_CHR).

(** Only connections that are there are told anything. *)
Definition tells_present g g' : Prop := ∀ a, a ∉ keys (connections_ g) → heard a g' = heard a g.

(** What a request of [b] leaves. *)
Definition keeps_informed g g' : Prop := informed g' ∧ tells_present g g'.

(** What the requests of a registered client start from. *)
Record registered b c g : Prop := {
  rg_informed : informed g;
  rg_shared : shared_ok g;
  rg_room : no_wrap g;
  rg_named : well_named g = true;
  rg_found : g⟦b⟧ = Some c;
  rg_processing : is_processing c = true;
}.

(** A change of the tree, prepared in [g1] and then told. *)
Lemma change_told b c t nt f g g1 u g' :
  registered b c g → well_named g' = true →
  hushed g g1 → connections_ g1 = m_update b (with_tree t) (connections_ g) →
  shared_ok g1 → no_wrap g1 → (∃ t0, listed t t0) →
  (∀ P, apply_notice nt P = alter f (nick c) P) → file_entries t = f (file_entries (tree_of c)) →
  do_notify (nick c) (notice_message nt) g1 = Ok (u, g') → keeps_informed g g'.
Proof.
  intros [Hi Hok Hw Hn Hb Hp] Hn' Hh Ec Hok1 Hw1 Ht Hnt Hf E.
  assert (g1⟦b⟧ = Some (with_tree t c)) as Hb1
    by (rewrite Ec, m_find_update, Hb; by rewrite bool_decide_eq_true_2).
  destruct (hushed_heard g g1 (inf_stored g Hi) Hh) as [Hs1 Hsame].
  destruct (do_notify_tells b (with_tree t c) _ g1 u g' Hok1 Hw1 Hs1 Hb1 Hp E) as [[Hs' Ht'] Ec'].
  assert (∀ a, heard a g' = heard a g ++
    match g⟦a⟧ with
    | Some c0 => if is_processing c0 && negb (has_nickname (nick c) c0)
                 then [notice_message nt] else []
    | None => []
    end) as Hheard.
  { intros a. rewrite (Ht' a), Hsame. f_equal. rewrite Ec, m_find_update.
    destruct (bool_decide (a = b)); [|done]. by destruct (g⟦a⟧). }
  split.
  - apply (informed_change b c t nt f g g'); try done; [apply Hok|congruence].
  - intros a Ha%m_find_None. by rewrite Hheard, Ha, app_nil_r.
Qed.

(** The state in which a change is told: the tree is there, files may be gone from the
    disk, the request is answered. *)
Definition answered b t es w g : manager :=
  on_sent [w] (on_disk es (on_connections (m_update b (with_tree t)) g)).

Lemma answered_ok b t es code r g :
  let g1 := answered b t es (b, Write (reply code r)) g in
  shared_ok g → no_wrap g →
  hushed g g1 ∧ connections_ g1 = m_update b (with_tree t) (connections_ g)
  ∧ shared_ok g1 ∧ no_wrap g1.
Proof.
  cbv zeta. intros Hok Hw. split_and!; [|done| |done].
  - transitivity (on_disk es (on_connections (m_update b (with_tree t)) g));
      [by apply hushed_same|].
    exact (proj1 (unsaid_start_write b (reply code r) eq_refl _ tt _ eq_refl)).
  - eapply shared_ok_frame; [exact (on_conn_shared b (with_tree t) g Hok ltac:(done))| | |done..];
      apply (on_conn_shared b (with_tree t) g Hok); done.
Qed.

Lemma notify_answered b c t es w mk g u g' :
  g⟦b⟧ = Some c →
  (c ← conn b; do_notify (nick c) (mk (nick c))) (answered b t es w g) = Ok (u, g') →
  do_notify (nick c) (mk (nick c)) (answered b t es w g) = Ok (u, g').
Proof.
  intros Hb. rewrite M_bind_unfold. unfold conn. cbn [answered connections_ on_sent on_disk on_connections].
  rewrite m_find_update, Hb, bool_decide_eq_true_2 by done. done.
Qed.

(** One message of a client as one step. *)
Lemma in_mgr_Ok {A} (m : M manager A) v x v' :
  in_mgr m v = Ok (x, v') → ∃ g', m (mgr v) = Ok (x, g') ∧ v' = mkServer g' (users_db v) (posted v).
Proof.
  unfold in_mgr. destruct (m (mgr v)) as [[y g']|]; [|done]. cbn. intros [= <- <-]. by eexists.
Qed.

(** Nothing but the answer, and what is gone from the disk. *)
Lemma unchanged b c t es code r g :
  informed g → shared_ok g → g⟦b⟧ = Some c → t = tree_of c →
  keeps_informed g (answered b t es (b, Write (reply code r)) g).
Proof.
  intros Hi Hok Hb ->. assert (unsaid g (answered b (tree_of c) es (b, Write (reply code r)) g)) as Hu.
  { split.
    - transitivity (on_disk es (on_connections (m_update b (with_tree (tree_of c))) g));
        [by apply hushed_same|].
    exact (proj1 (unsaid_start_write b (reply code r) eq_refl _ tt _ eq_refl)).
    - cbn. apply (m_update_id _ _ _ c); [apply Hok|done|]. by destruct c as [[]]. }
  split; [by eapply informed_unsaid; [| |apply Hok]|].
  intros a _. by destruct (hushed_heard g _ (inf_stored g Hi) (proj1 Hu)).
Qed.

Lemma on_disk_nil g : on_disk [] g = g.
Proof. destruct g. unfold on_disk. cbn. by rewrite app_nil_r. Qed.

(** The requests of a client that is there, up to the change of its tree. *)
Lemma conn_found {B} b c (k : connection → M server B) v :
  (mgr v)⟦b⟧ = Some c → (in_mgr (conn b) ≫= k) v = k c v.
Proof.
  intros Hb. rewrite M_bind_unfold. unfold in_mgr, conn. rewrite Hb. by destruct v.
Qed.

Lemma add_informed b c r f v u v' :
  registered b c (mgr v) → well_named (mgr v') = true →
  run_add_file b r f v = Ok (u, v') → keeps_informed (mgr v) (mgr v').
Proof.
  intros Hreg Hn'. pose proof Hreg as [Hi Hok Hw Hn Hb Hp].
  destruct (inf_trees _ Hi b c (m_find_elem _ _ _ Hb)) as [t Ht].
  unfold run_add_file. rewrite (conn_found b c) by done. fold (tree_of c).
  destruct (Add PATH_SEPARATOR_CHR f (tree_of c)) as [t'|e] eqn:E.
  2: { destruct (Add_ok PATH_SEPARATOR_CHR f (tree_of c)) as [(? & E' & _)|E'];
         [by exists t; apply Ht|congruence|]. rewrite E in E'. by injection E' as ->. }
  rewrite M_bind_unfold. cbn [in_mgr on_conn modify mbind outcome_bind]. rewrite M_bind_unfold.
  intros (g' & Eg & ->)%in_mgr_Ok.
  set (w := (b, Write (reply responses.ADD_FILE_SUCCESSFULL r))) in *.
  assert (notify_file_add f b (answered b t' [] w (mgr v)) = Ok (u, g')) as Eg'
    by (unfold answered; rewrite on_disk_nil; exact Eg).
  apply (notify_answered b c t' [] w (λ n, notice_message (AddedFile n f))) in Eg'; [|done].
  destruct (Add_entries PATH_SEPARATOR_CHR _ t f t' Ht E) as [Ht' Ef].
  destruct (answered_ok b t' [] responses.ADD_FILE_SUCCESSFULL r (mgr v) Hok Hw)
    as (Hh & Ec & Hok1 & Hw1).
  by eapply (change_told b c t' (AddedFile (nick c) f)).
Qed.

Lemma remove_informed b c r f v u v' :
  registered b c (mgr v) → well_named (mgr v') = true →
  run_remove_path b r f v = Ok (u, v') → keeps_informed (mgr v) (mgr v').
Proof.
  intros Hreg Hn'. pose proof Hreg as [Hi Hok Hw Hn Hb Hp].
  destruct (inf_trees _ Hi b c (m_find_elem _ _ _ Hb)) as [t Ht].
  unfold run_remove_path. rewrite (conn_found b c) by done. fold (tree_of c).
  destruct (Vfs.Remove PATH_SEPARATOR_CHR (nick c) f (tree_of c)) as [[[removed es] t']|e] eqn:E.
  2: { pose proof (Remove_completes PATH_SEPARATOR_CHR (nick c) _ t f Ht) as E'. by rewrite E in E'. }
  destruct (Remove_entries PATH_SEPARATOR_CHR (nick c) _ t f _ _ _ Ht E) as (Ht' & Ef & Esame).
  rewrite M_bind_unfold. cbn [in_mgr on_conn modify mbind outcome_bind]. rewrite M_bind_unfold.
  cbn [in_mgr modify mbind outcome_bind mgr users_db posted].
  destruct removed.
  - rewrite M_bind_unfold. intros (g' & Eg & ->)%in_mgr_Ok.
    apply (notify_answered b c t' (map TreeEffect es) _ (λ n, notice_message (DeletedPath n f)))
      in Eg; [|done].
    destruct (answered_ok b t' (map TreeEffect es) responses.REMOVE_FILE_SUCCESSFULL r (mgr v) Hok Hw)
      as (Hh & Ec & Hok1 & Hw1).
    by eapply (change_told b c t' (DeletedPath (nick c) f)).
  - intros [= <- <-]. by apply (unchanged b c); auto.
Qed.

Lemma rename_informed b c r f h v u v' :
  registered b c (mgr v) → well_named (mgr v') = true →
  run_remame_path ra b r f h v = Ok (u, v') → keeps_informed (mgr v) (mgr v').
Proof.
  intros Hreg Hn'. pose proof Hreg as [Hi Hok Hw Hn Hb Hp].
  destruct (inf_trees _ Hi b c (m_find_elem _ _ _ Hb)) as [t Ht].
  unfold run_remame_path. rewrite (conn_found b c) by done. fold (tree_of c).
  destruct (Rename PATH_SEPARATOR_CHR (nick c) ra f h (tree_of c)) as [[[renamed es] t']|e] eqn:E.
  2: { pose proof (Rename_completes PATH_SEPARATOR_CHR (nick c) ra _ t f h Ht) as E'.
       by rewrite E in E'. }
  assert (∀ g', well_named g' = true →
    connections_ g' = m_update b (with_tree t') (connections_ (mgr v)) →
    distinct_siblings t' = true) as Hd.
  { intros g' Hng Ec. apply (well_named_trees g' b (with_tree t' c) Hng), m_find_elem.
    by rewrite Ec, m_find_update, Hb, bool_decide_eq_true_2. }
  rewrite M_bind_unfold. cbn [in_mgr on_conn modify mbind outcome_bind]. rewrite M_bind_unfold.
  cbn [in_mgr modify mbind outcome_bind mgr users_db posted].
  destruct renamed.
  - rewrite M_bind_unfold. intros (g' & Eg & ->)%in_mgr_Ok.
    apply (notify_answered b c t' (map TreeEffect es) _ (λ n, notice_message (RenamedPath n f h)))
      in Eg; [|done].
    destruct (answered_ok b t' (map TreeEffect es) responses.RENAME_FILE_SUCCESSFULL r (mgr v) Hok Hw)
      as (Hh & Ec & Hok1 & Hw1).
    match type of Eg with do_notify ?n ?m ?g1 = _ =>
      destruct (do_notify_total n m g1) as (g2 & Eg2 & Ec2 & _) end.
    rewrite Eg in Eg2. injection Eg2 as _ <-.
    destruct (Rename_entries PATH_SEPARATOR_CHR (nick c) ra _ t f h _ _ _ Ht E)
      as (Ht' & Ef & Esame); [apply (Hd g' Hn'); by rewrite Ec2|].
    by eapply (change_told b c t' (RenamedPath (nick c) f h)).
  - intros [= <- <-].
    destruct (Rename_entries PATH_SEPARATOR_CHR (nick c) ra _ t f h _ _ _ Ht E)
      as (Ht' & Ef & Esame); [by apply (Hd _ Hn')|]. by apply (unchanged b c); auto.
Qed.

(** ** Registering, signing in, leaving *)

Lemma add_all_listed Paths (x : vfs) t x' :
  listed x t → add_all Paths x = (x', None) → ∃ t', listed x' t'.
Proof.
  revert x t. induction Paths as [|Path Paths IH]; intros x t Ht; cbn [add_all].
  - intros [= <-]. by exists t.
  - destruct (Add PATH_SEPARATOR_CHR Path x) as [x1|] eqn:E; [|done].
    destruct (Add_entries PATH_SEPARATOR_CHR x t Path x1 Ht E) as [[t1 Ht1] _]. by eapply IH.
Qed.

(** The registration that follows the answer to a request to register. *)
Lemma registers_informed b c t' t0 r g u g' :
  informed g → shared_ok g → no_wrap g → well_named g = true → well_named g' = true →
  g⟦b⟧ = Some c → listed t' t0 →
  notify_files_registration b
    (answered b t' [] (b, Write (reply responses.PUSH_FILES_SUCCESS r)) g) = Ok (u, g') →
  keeps_informed g g'.
Proof.
  intros Hi Hok Hw Hn Hn' Hb Ht' Eg'. set (w := (b, Write (reply responses.PUSH_FILES_SUCCESS r))) in *.
  destruct (answered_ok b t' [] responses.PUSH_FILES_SUCCESS r g Hok Hw)
    as (Hh & Ec & Hok1 & Hw1). fold w in Hh, Ec, Hok1, Hw1.
  set (g1 := answered b t' [] w g) in *.
  destruct (hushed_heard _ g1 (inf_stored _ Hi) Hh) as [Hs1 Hsame].
  assert (g1⟦b⟧ = Some (with_tree t' c)) as Hb1
    by (rewrite Ec, m_find_update, Hb; by rewrite bool_decide_eq_true_2).
  assert (trees_ok g1) as Htr.
  { intros a c0. rewrite Ec. intros (c1 & Hin & ->)%elem_of_m_update.
    case_bool_decide; [by exists t0; apply Ht'|].
    destruct (inf_trees _ Hi a c1 Hin) as [t1 Ht1]. by exists t1; apply Ht1. }
  destruct (registration_total b _ g1 Hb1 Htr) as (g2 & Eg2 & Ec2 & _).
  rewrite Eg' in Eg2. injection Eg2 as _ <-.
  assert (distinct_siblings t' = true) as Hd.
  { apply (well_named_trees g' b (with_state processing (with_tree t' c)) Hn'), m_find_elem.
    by rewrite Ec2, m_find_update, Hb1, bool_decide_eq_true_2. }
  destruct (registration_tells b (with_tree t' c) g1 u g' Hok1 Hw1 Hs1
    (well_named_tree b c t' g g1 Hn Hb Ec Hd) Hb1 (ex_intro _ t0 Ht') Eg') as (_ & Hs' & Htold).
  split.
  - assert (∀ files, (count_processing (connections_ g1) = 0%nat ∧ (∀ a, heard a g' = heard a g1)
      ∨ ∃ others, entries PATH_SEPARATOR_CHR (default [] files) = file_entries t'
        ∧ entries PATH_SEPARATOR_CHR <$> others = board g1
        ∧ ∀ a, heard a g' = heard a g1
          ++ to_all (notice_message (RegisteredFiles (nick c) files)) (connections_ g1) a
          ++ if bool_decide (a = b) then [notice_message (FilesOfOthers others)] else []) →
      informed g') as Hreg.
    { intros files. apply (informed_register b c t' files g g1 g'); try done;
        [apply Hok|by exists t0]. }
    destruct Htold as [Hnone|(files & others & Htold)];
      [apply (Hreg None); by left|apply (Hreg files); right; by exists others].
  - intros a Ha. assert (a ≠ b) as Hne.
    { intros ->. apply Ha, elem_of_keys. exists c. by apply m_find_elem. }
    assert (g1⟦a⟧ = None) as Ha1.
    { apply m_find_None in Ha. by rewrite Ec, m_find_update, bool_decide_eq_false_2, Ha. }
    destruct Htold as [[_ Hh']|(files & others & _ & _ & Hh')]; rewrite Hh', Hsame; [done|].
    unfold to_all. rewrite Ha1, bool_decide_eq_false_2 by done. by rewrite app_nil_r.
Qed.

Lemma push_informed b c r l v u v' :
  informed (mgr v) → shared_ok (mgr v) → no_wrap (mgr v) → well_named (mgr v) = true →
  well_named (mgr v') = true → (mgr v)⟦b⟧ = Some c →
  run_push_files b r l v = Ok (u, v') → keeps_informed (mgr v) (mgr v').
Proof.
  intros Hi Hok Hw Hn Hn' Hb.
  destruct (inf_trees _ Hi b c (m_find_elem _ _ _ Hb)) as [t Ht].
  unfold run_push_files. rewrite (conn_found b c) by done. fold (tree_of c).
  destruct (add_all_ok l (tree_of c)) as [_ Hfault]; [by exists t; apply Ht|].
  destruct (add_all l (tree_of c)) as [t' fault] eqn:Ea. cbn [snd] in Hfault.
  rewrite M_bind_unfold. cbn [in_mgr on_conn modify mbind outcome_bind].
  destruct fault as [e|]; [destruct Hfault as [[=]|[= ->]]; done|].
  destruct (add_all_listed l (tree_of c) t t' Ht Ea) as [t0 Ht'].
  rewrite M_bind_unfold. intros (g' & Eg & ->)%in_mgr_Ok.
  eapply (registers_informed b c t' t0 r); try done.
  unfold answered. rewrite on_disk_nil. exact Eg.
Qed.

Lemma stop_informed b c g u g' :
  informed g → shared_ok g → no_wrap g → well_named g = true → well_named g' = true →
  g⟦b⟧ = Some c → stop b g = Ok (u, g') → keeps_informed g g'.
Proof.
  intros Hi Hok Hw Hn Hn' Hb E. destruct (conn_stopped c) eqn:Es.
  - unfold stop in E. rewrite M_bind_unfold in E. unfold conn in E. rewrite Hb, Es in E.
    injection E as _ <-. by split.
  - destruct (stop_tells b c g u g' Hok Hw (inf_stored g Hi) Hb Es E) as (Ec & Hs' & Hh).
    split; [by eapply (informed_leave b c g g'); [|apply Hok|..]|].
    intros a Ha%m_find_None. rewrite Hh. destruct (is_processing c); [|by rewrite app_nil_r].
    unfold to_all. rewrite m_find_erase, Ha. by destruct (bool_decide _); rewrite app_nil_r.
Qed.

Lemma keeps_names_at a c c' g g' :
  keeps_names g g' = true → g⟦a⟧ = Some c → is_processing c = true → g'⟦a⟧ = Some c' →
  is_processing c' = true ∧ nick c' = nick c.
Proof.
  intros Hk Ha Hc Ha'. unfold keeps_names in Hk. rewrite forallb_forall in Hk.
  specialize (Hk (a, c)). cbn [fst snd] in Hk. rewrite Ha' in Hk.
  destruct (proj1 (andb_true_iff _ _) (Hk ltac:(apply list_elem_of_In, list_elem_of_filter;
    split; [done|by apply m_find_elem]))) as [? Hnick].
  split; [done|]. by apply bool_decide_eq_true in Hnick.
Qed.

Lemma processing_update a f (cs : stdmap connection) :
  (∀ c, (a, c) ∈ cs → is_processing c = false) → (∀ c, is_processing (f c) = false) →
  filter (λ e : Z * connection, is_processing e.2 = true) (m_update a f cs)
  = filter (λ e : Z * connection, is_processing e.2 = true) cs.
Proof.
  intros Hcs Hf. unfold m_update. induction cs as [|[b c] cs IH]; [done|]. cbn [map fst snd].
  specialize (IH ltac:(intros c0 Hc0; apply Hcs; by right)). case_bool_decide as E.
  - subst b. rewrite !filter_cons_False; [done| |].
    + cbn. rewrite (Hcs c); [done|left].
    + cbn. by rewrite Hf.
  - destruct (is_processing c) eqn:Ep.
    + rewrite !filter_cons_True by done. by f_equal.
    + rewrite !filter_cons_False by (cbn; congruence). done.
Qed.

(** Who signs in was not registered, if names are kept. *)
Lemma signs_informed a g g' :
  informed g → NoDup (keys (connections_ g)) → keeps_names g g' = true →
  signs a g g' → keeps_informed g g'.
Proof.
  intros Hi Hk Hkeep [Hh Hsame]. destruct (hushed_heard g g' (inf_stored g Hi) Hh) as [Hs' Hheard].
  split; [|by intros b _].
  destruct Hsame as [Ec|(f & Hf & Ec)]; [by apply (informed_unsaid g)|].
  assert (∀ c, (a, c) ∈ connections_ g → is_processing c = false) as Ha.
  { intros c Hin%(m_find_NoDup _ _ _ Hk). destruct (is_processing c) eqn:Ep; [|done].
    destruct (keeps_names_at a c (f c) g g' Hkeep Hin Ep) as [Hp _].
    - by rewrite Ec, m_find_update, Hin, bool_decide_eq_true_2.
    - destruct (Hf c). congruence. }
  apply (informed_silent g); try done.
  - unfold processing_conns. rewrite Ec. apply processing_update; [done|]. apply Hf.
  - intros b c. rewrite Ec. intros (c0 & Hin & ->)%elem_of_m_update.
    destruct (inf_trees g Hi b c0 Hin) as [t Ht]. exists t.
    case_bool_decide; [|done]. by rewrite (proj2 (Hf c0)).
  - intros b c. rewrite Ec, m_find_update. case_bool_decide as Eb; [|by apply inf_deaf].
    subst b. destruct (g⟦a⟧) as [c0|] eqn:E0; [|done]. intros _ _.
    apply (inf_deaf g Hi a c0 E0). by apply Ha, m_find_elem.
Qed.
End changes.

(** ** The events of the system *)

Section events.
Context `{ProtocolLaws} `{BoostSplitLaws} `{SqlApi} `{!SqlThrows} `{PriorityQueue (item job)}.
Context `{!PriorityQueueLaws (item job) item_comp} `{!HelloLaws}.
Variables (ra : str → str → str) (port : Z) (timeout : outcome Z).
Implicit Types (s : system) (d : disk) (a b : Z).

Record notified s : Prop := {
  no_informed : informed (mgr_of s);
  no_unheard a : a ∉ used s → heard a (mgr_of s) = [];
  no_counted a c : a ∈ counted s → (mgr_of s)⟦a⟧ = Some c → is_processing c = true;
}.

(** An event that leaves the manager informed, and forgets no registered client. *)
Lemma notified_step s s' :
  sys_ok true s → notified s → keeps_informed (mgr_of s) (mgr_of s') →
  keeps_names (mgr_of s) (mgr_of s') = true → used s ⊆ used s' → counted s' = counted s →
  NoDup (keys (connections_ (mgr_of s'))) → notified (recount s').
Proof.
  intros Hok [Hi Hu Hc] [Hi' Ht] Hk Eu Ec Hnd. split; cbn [recount with_counted srv used counted].
  - done.
  - intros a Ha. rewrite Ht; [apply Hu; set_solver|].
    intros Hin%alive_keys. by apply Ha, Eu, (so_used _ _ Hok).
  - intros a c [c' [Hp Hin]%list_elem_of_filter]%elem_of_keys Hf. cbn [fst snd] in Hp.
    apply orb_true_iff in Hp as [Hp%bool_decide_eq_true|Hp].
    + rewrite Ec in Hp. pose proof (counted_there _ _ (mo_counted _ _ (so_mgr _ _ Hok)) a Hp) as Hin0.
      apply elem_of_keys in Hin0 as [c0 Hin0].
      apply (m_find_NoDup _ _ _ (ok_connections _ (mo_shared _ _ (so_mgr _ _ Hok)))) in Hin0.
      by destruct (keeps_names_at a c0 c _ _ Hk Hin0 (Hc a c0 Hp Hin0) Hf).
    + apply (m_find_NoDup _ _ _ Hnd) in Hin. congruence.
Qed.

Lemma unsaid_informed g g' :
  informed g → NoDup (keys (connections_ g)) → unsaid g g' → keeps_informed g g'.
Proof.
  intros Hi Hk Hu. split; [by eapply informed_unsaid|]. intros a _.
  by destruct (hushed_heard g g' (inf_stored g Hi) (proj1 Hu)).
Qed.

(** The name of the root of every tree is the separator. *)
Hypothesis root_is_separator : PATH_ROOT = [PATH_SEPARATOR_CHR].

(** A request, executed. *)
Lemma execute_informed d j v u v' :
  informed (mgr v) → shared_ok (mgr v) → no_wrap (mgr v) → well_named (mgr v) = true →
  well_named (mgr v') = true → keeps_names (mgr v) (mgr v') = true →
  (notifies (job_task j) = true → ∀ c, (mgr v)⟦job_connection j⟧ = Some c → is_processing c = true) →
  execute ra port d j v = Ok (u, v') → keeps_informed (mgr v) (mgr v').
Proof.
  intros Hi Hok Hw Hn Hn' Hk Hp E. pose proof (ok_connections _ Hok) as Hnd.
  destruct (tells_nothing (job_task j)) eqn:Ht.
  { destruct u. by apply (signs_informed (job_connection j)), (execute_signs ra port d j). }
  unfold execute, alive in E.
  destruct ((mgr v)⟦job_connection j⟧) as [c|] eqn:Hb; [|injection E as _ <-; by split].
  assert (notifies (job_task j) = true → registered (job_connection j) c (mgr v)) as Hreg
    by (intros Hno; split; auto).
  destruct (job_task j); try done.
  - by eapply push_informed.
  - apply in_mgr_Ok in E as (g' & E & ->). by eapply stop_informed.
  - by eapply add_informed; [apply Hreg| |].
  - by eapply remove_informed; [apply Hreg| |].
  - by eapply rename_informed; [apply Hreg| |].
Qed.

Lemma processing_insert a c (cs : stdmap connection) :
  is_processing c = false →
  filter (λ e : Z * connection, is_processing e.2 = true) (m_insert a c cs)
  = filter (λ e : Z * connection, is_processing e.2 = true) cs.
Proof.
  intros Hc. induction cs as [|[b c'] cs IH]; cbn [m_insert].
  { by rewrite filter_cons_False by (cbn; congruence). }
  case_bool_decide; [by rewrite filter_cons_False by (cbn; congruence)|].
  destruct (is_processing c') eqn:E.
  - rewrite !filter_cons_True by done. by f_equal.
  - rewrite !filter_cons_False by (cbn; congruence). done.
Qed.

Lemma accepts_informed a g u g' :
  informed g → NoDup (keys (connections_ g)) → g⟦a⟧ = None → heard a g = [] →
  Manager.start a g = Ok (u, g') → keeps_informed g g'.
Proof.
  intros Hi Hk Hf Hh [= _ <-]. split; [|by intros b _].
  apply (informed_silent g); try done; [apply Hi| | |].
  - unfold processing_conns. cbn [connections_ on_connections]. unfold m_emplace. rewrite Hf.
    by apply processing_insert.
  - intros b c. cbn [connections_ on_connections]. rewrite elem_of_m_emplace by done.
    intros [[= -> ->]|Hin]; [|by eapply inf_trees]. eexists. by apply new_listed.
  - intros b c. cbn [connections_ on_connections]. rewrite m_find_emplace by done.
    case_bool_decide; [by subst|]. by apply inf_deaf.
Qed.

(** ** Every event *)

(** An event that leaves the clients informed and the history as it was. *)
Definition leaves_informed s s' : Prop :=
  keeps_informed (mgr_of s) (mgr_of s') ∧ counted s' = counted s ∧ used s ⊆ used s'.

Lemma leaves_same s s' :
  informed (mgr_of s) → mgr_of s' = mgr_of s → used s' = used s → counted s' = counted s →
  leaves_informed s s'.
Proof. intros Hi Em Eu Ec. unfold leaves_informed. rewrite Em, Eu. by split. Qed.

Lemma leaves_mgr (m : M manager unit) s s' :
  (∀ u g', m (mgr_of s) = Ok (u, g') → keeps_informed (mgr_of s) g') →
  on_mgr m s = Ok s' → leaves_informed s s'.
Proof.
  intros Hm (g' & E & ->)%on_mgr_Ok. split; [by eapply Hm|]. split; [done|done].
Qed.

Lemma leaves_unsaid (m : M manager unit) s s' :
  sys_ok true s → informed (mgr_of s) → preserves unsaid m →
  on_mgr m s = Ok s' → leaves_informed s s'.
Proof.
  intros Hok Hi Hm. apply leaves_mgr. intros u g' E. eapply unsaid_informed; [done| |by eapply Hm].
  apply ok_connections, (mo_shared _ _ (so_mgr _ _ Hok)).
Qed.

Lemma leaves_more s s1 s' :
  leaves_informed s s1 → mgr_of s' = mgr_of s1 → used s' = used s1 → counted s' = counted s1 →
  leaves_informed s s'.
Proof. unfold leaves_informed. by intros ? -> -> ->. Qed.

Lemma accepts_leaves a s s' :
  sys_ok true s → notified s → a ∉ used s →
  on_mgr (Manager.start a) (with_used (a :: used s) s) = Ok s' → leaves_informed s s'.
Proof.
  intros Hok [Hi Hu _] Ha (g' & E & ->)%on_mgr_Ok. split; [|split; [done|by right]].
  eapply (accepts_informed a (mgr_of s)); [done| | |by apply Hu|exact E].
  - apply ok_connections, (mo_shared _ _ (so_mgr _ _ Hok)).
  - apply m_find_None. intros Hin%alive_keys. by apply Ha, (so_used _ _ Hok).
Qed.

Lemma request_leaves d i j s s' :
  sys_ok true s → in_range s = true → notified s → well_named (mgr_of s) = true →
  well_named (mgr_of s') = true → keeps_names (mgr_of s) (mgr_of s') = true →
  taken i s = Some j → run_request ra port d i j s = Ok s' → leaves_informed s s'.
Proof.
  intros Hok Hr [Hi _ Hc] Hn Hn' Hk Ej. unfold run_request, on_srv.
  destruct (execute ra port d j (srv s)) as [[[] v']|] eqn:E; [|done]. intros [= <-].
  split; [|split; [done|done]]. cbn in Hn', Hk |- *.
  eapply (execute_informed d j (srv s)); try done.
  { apply (mo_shared _ _ (so_mgr _ _ Hok)). }
  { apply (in_range_ready _ Hr). }
  intros Hno c Hf. apply (Hc (job_connection j) c); [|done].
  unfold taken in Ej. destruct (request_threads_ (requests s) !! i) as [[|p|]|] eqn:Ei; try done.
  injection Ej as <-.
  assert (p ∈ jobs (requests s)) as Hin.
  { apply elem_of_app. right. apply list_elem_of_bind. exists (Executing p). split; [left|].
    by eapply list_elem_of_lookup_2. }
  apply (proj2 (so_jobs _ _ Hok p Hin) Hno). unfold alive. by rewrite Hf.
Qed.

Lemma greet_leaves ready hello sock s s' :
  sys_ok true s → informed (mgr_of s) → greet true ready hello sock s = Ok s' → leaves_informed s s'.
Proof.
  intros Hok Hi. unfold greet. cbv zeta. destruct (restarts s _); [done|].
  destruct (on_mgr _ s) as [s1|] eqn:E; [|done]. intros [= <-].
  assert (∀ t x, mgr_of (at_work t x) = mgr_of x ∧ counted (at_work t x) = counted x
    ∧ used (at_work t x) = used x) as Hwork by (by intros [[]|] x).
  apply (leaves_more s s1); [|apply Hwork..]. eapply leaves_unsaid; [done..| |exact E].
  intros g x g' Eg. cbn beta in Eg. destruct (HandleHandshake _ _ _ _ _ _) as [dm|]; [|done].
  injection Eg as _ <-. by apply unsaid_same.
Qed.

Lemma receive_leaves d id Succes s s' :
  sys_ok true s → informed (mgr_of s) → receive_done true port d id Succes s = Ok s' →
  leaves_informed s s'.
Proof.
  intros Hok Hi. unfold receive_done. destruct (handler_of id s) as [h|]; [|done].
  destruct (on_mgr _ s) as [s1|] eqn:E; [|done]. intros [= <-].
  apply (leaves_more s s1); [|done..]. eapply leaves_unsaid; [done..| |exact E].
  apply unsaid_completed.
Qed.

Lemma deliver_leaves id s s' :
  sys_ok true s → informed (mgr_of s) → deliver_done true id s = Ok s' → leaves_informed s s'.
Proof.
  intros Hok Hi. unfold deliver_done. destruct (on_mgr _ s) as [s1|] eqn:E; [|done]. intros [= <-].
  apply (leaves_more s s1); [|done..]. eapply leaves_unsaid; [done..| |exact E].
  intros g x g' Eg. injection Eg as _ <-. by apply unsaid_same.
Qed.

Lemma fails_leaves a s s' :
  sys_ok true s → in_range s = true → informed (mgr_of s) → well_named (mgr_of s) = true →
  well_named (mgr_of s') = true → on_mgr (Manager.stop a) s = Ok s' → leaves_informed s s'.
Proof.
  intros Hok Hr Hi Hn Hn' (g' & E & ->)%on_mgr_Ok. split; [|split; [done|done]].
  pose proof (mo_shared _ _ (so_mgr _ _ Hok)) as Hsh. pose proof (in_range_ready _ Hr) as [Hw _].
  destruct (m_find a (connections_ (mgr_of s))) as [c|] eqn:Hf; [by eapply (stop_informed a c)|].
  unfold stop, conn in E. rewrite M_bind_unfold in E. by rewrite Hf in E.
Qed.

Lemma handle_informed d e s s' :
  sys_ok true s → in_range s = true → notified s → well_named (mgr_of s) = true →
  well_named (mgr_of s') = true → keeps_names (mgr_of s) (mgr_of s') = true →
  handle true ra port timeout d e s = Some (Ok s') → leaves_informed s s'.
Proof.
  intros Hok Hr Hno Hn Hn' Hk. pose proof (no_informed _ Hno) as Hi.
  destruct e as [a|a e|a|a id|i|i|id|ready hello sock|id|id Succes|id|]; cbn [handle].
  - intros [[_ Ha]%andb_true_iff E]%guard_step_Some.
    apply negb_true_iff, bool_decide_eq_false in Ha. by eapply accepts_leaves.
  - intros [Ha E]%guard_step_Some. unfold on_srv in E.
    destruct (react port d timeout a e (srv s)) as [[[] v']|] eqn:Er; [|done].
    cbn in E. injection E as <-. split; [|split; [done|done]]. cbn [flush with_srv srv mgr].
    eapply unsaid_informed; [done| |by eapply react_unsaid].
    apply ok_connections, (mo_shared _ _ (so_mgr _ _ Hok)).
  - intros [_ E]%guard_step_Some. by eapply fails_leaves.
  - intros [Hin%bool_decide_eq_true E]%guard_step_Some.
    eapply (leaves_mgr (shared_write_done true a id)); [|exact E]. intros [] g' Eg.
    pose proof (mo_shared _ _ (so_mgr _ _ Hok)) as Hsh.
    eapply unsaid_informed; [done|by apply ok_connections|by eapply unsaid_written].
  - destruct (take_request i s) as [s1|] eqn:E; [|done]. intros [= ->]. unfold take_request in E.
    destruct (request_threads_ (requests s) !! i) as [[| |]|]; try done.
    destruct (run_once _); try done. injection E as <-. by apply leaves_same.
  - destruct (taken i s) as [j|] eqn:Ej; [|done]. intros [= E]. by eapply request_leaves.
  - intros [_ E]%guard_step_Some. eapply leaves_unsaid; [done..| |exact E]. apply unsaid_denied.
  - intros [= E]. by eapply greet_leaves.
  - intros [_ E]%guard_step_Some. eapply leaves_unsaid; [done..| |exact E]. apply unsaid_expired.
  - intros [_ E]%guard_step_Some. by eapply receive_leaves.
  - intros [_ E]%guard_step_Some. by eapply deliver_leaves.
  - intros [_ E]%guard_step_Some. injection E as <-. by apply leaves_same.
Qed.
End events.

(** ** Whole runs *)

Section runs.
Context `{ProtocolLaws} `{BoostSplitLaws} `{SqlApi} `{!SqlThrows} `{PriorityQueue (item job)}.
Context `{!PriorityQueueLaws (item job) item_comp} `{!HelloLaws}.
Variables (ra : str → str → str) (port : Z) (timeout : outcome Z).
Implicit Types (s : system) (d : disk) (es : list sys_event).

(** Names stay as they are and unambiguous from one state to the next. *)
Definition orderly s s' : bool :=
  keeps_names (mgr_of s) (mgr_of s') && well_named (mgr_of s').

Inductive orderly_reach n (db : database) : list sys_event → system → Prop :=
  | orderly_new : orderly_reach n db [] (new_system n db)
  | orderly_step es s d e s' :
      orderly_reach n db es s → in_range s = true →
      sys_step true ra port timeout d e s = Some (Ok s') → orderly s s' = true →
      orderly_reach n db (es ++ [e]) s'.

Lemma orderly_serial_reach n db es s :
  orderly_reach n db es s → serial_reach true ra port timeout n db es s.
Proof. induction 1; by econstructor. Qed.

Lemma orderly_well_named n db es s : orderly_reach n db es s → well_named (mgr_of s) = true.
Proof. destruct 1 as [|es s d e s' _ _ _ [_ Hn]%andb_true_iff]; done. Qed.

(** The same, run. *)
Fixpoint orderly_run (evs : list (disk * sys_event)) s : option system :=
  match evs with
  | [] => Some s
  | (d, e) :: evs =>
      if in_range s then
        match sys_step true ra port timeout d e s with
        | Some (Ok s') => if orderly s s' then orderly_run evs s' else None
        | _ => None
        end
      else None
  end.

Lemma orderly_run_reach n db es evs s s' :
  orderly_reach n db es s → orderly_run evs s = Some s' → orderly_reach n db (es ++ evs.*2) s'.
Proof.
  revert es s. induction evs as [|[d e] evs IH]; intros es s Hs; cbn [orderly_run].
  - intros [= <-]. by rewrite app_nil_r.
  - destruct (in_range s) eqn:Hr; [|done].
    destruct (sys_step _ _ _ _ d e s) as [[s1|]|] eqn:E; try done.
    destruct (orderly s s1) eqn:Ho; [|done]. intros HR.
    cbn. rewrite (cons_middle e), app_assoc. eapply IH; [|exact HR]. by econstructor.
Qed.

Lemma new_notified n db : notified (new_system n db).
Proof.
  split; [|by intros a _|by intros a c []%elem_of_nil].
  split; [by intros b id []%elem_of_nil|by intros a c []%elem_of_nil|by intros a c..].
Qed.

Hypothesis root_is_separator : PATH_ROOT = [PATH_SEPARATOR_CHR].

Lemma orderly_notified n db es s : orderly_reach n db es s → notified s.
Proof.
  induction 1 as [|es s d e s' Hs IH Hr E [Hk Hn]%andb_true_iff]; [apply new_notified|].
  apply sys_step_handle in E as (s1 & E & ->).
  pose proof (reach_ok _ _ _ _ _ _ _ _ (orderly_serial_reach _ _ _ _ Hs)) as Hok.
  pose proof (handle_preserves _ _ _ _ _ _ _ _ Hok Hr E) as Hok1.
  destruct (handle_informed ra port timeout root_is_separator d e s s1 Hok Hr IH
    (orderly_well_named _ _ _ _ Hs) Hn Hk E) as (Hi & Ec & Eu).
  apply (notified_step s s1); try done. apply ok_connections, (mo_shared _ _ (so_mgr _ _ Hok1)).
Qed.

(** C3. What a client was told is what there is, as long as handlers do not overlap.  In every
    state an orderly serial run of a release build leads to, the notifications a registered client was sent are the
    messages of notices, and replaying these in their order gives, for every name but the
    client's own, exactly the paths of the files of the client registered under it, and
    nothing for a name nobody is registered under: no addition, removal, renaming,
    registration or disconnection, by any client, is missing, told twice or told wrongly.
    Serial: a handler ends before the next one begins; a change of a tree and its
    announcement are different critical sections, so the announcements of two handlers that
    overlap can cross, and then the picture is wrong ([announcements_cross]).
    Orderly: the names of the registered clients are different, without NUL and do not
    change, and no tree has two entries of one path.  [root_is_separator] is about the
    constant that names the root of every tree. *)
Theorem pictures_right n db es s a c :
  orderly_reach n db es s →
  (mgr_of s)⟦a⟧ = Some c → is_processing c = true →
  ∃ ns, heard a (mgr_of s) = map notice_message ns
      ∧ delete (nick c) (replay ns) = delete (nick c) (board (mgr_of s)).
Proof.
  intros Hs Hf Hp.
  apply (inf_told _ (no_informed _ (orderly_notified _ _ _ _ Hs)) a c Hf Hp).
Qed.
End runs.

(** ** Witness: files are added, renamed and removed, Bob leaves and Cat joins *)

Section witnesses.
#[local] Existing Instance split_def_split.
#[local] Existing Instance split_def_laws.
#[local] Existing Instance sample_protocol.
#[local] Existing Instance sample_protocol_laws.
#[local] Existing Instance sample_sql.
#[local] Existing Instance sample_job_queue.
#[local] Existing Instance sample_job_queue_laws.
#[local] Existing Instance sample_hello_laws.
#[local] Existing Instance sample_sql_throws.

Definition asks (a : Z) (id kind : string) (hs : list (headers.t * str)) : sys_event :=
  says a "QUERRY" ((headers.CommandId, lit id) :: (headers.QuerryType, lit kind) :: hs) [].

(** The events of an orderly run. *)
Definition events_orderly : list sys_event :=
  joins 10 "ann" "/f" ++ joins 20 "bob" "/d/k"
  ++ served_by_pool
       [asks 20 "5" "AddFile" [(headers.FileName, lit "/d/l"); (headers.FileSize, lit "3")];
        asks 20 "6" "RenamePath" [(headers.FileName, lit "/d"); (headers.FileNewName, lit "e")];
        asks 20 "7" "RemovePath" [(headers.FileName, lit "/e/k")]]
  ++ joins 30 "cat" "/c" ++ [Fails 30].

Definition orderly_of (es : list sys_event) : option system :=
  orderly_run run_append 80 (Ok 30) (map (λ e, (run_disk, e)) es) (new_system 1 no_accounts).
Definition orderly_state (es : list sys_event) : system :=
  default (new_system 1 no_accounts) (orderly_of es).

Lemma orderly_reach_of es :
  is_Some (orderly_of es) →
  orderly_reach run_append 80 (Ok 30) 1 no_accounts es (orderly_state es).
Proof.
  unfold orderly_state. intros [s E]. rewrite E. cbn [default].
  apply (orderly_run_reach run_append 80 (Ok 30) 1 no_accounts []) in E; [|constructor].
  cbn [app] in E. rewrite <- list_fmap_compose in E. cbn in E. by rewrite list_fmap_id in E.
Qed.

(** ** Runs that are not orderly *)

Definition files_of g : list (str * list path) :=
  map (λ e : Z * connection, (nickname_ (client_ e.2),
         elements (file_entries PATH_SEPARATOR_CHR (tree_of e.2)))) (processing_conns g).

(** Bob renames [/g] to the name of its sibling [/h] and removes [/h]: Ann is told that it
    is gone, and the server still lists a file [/h]. *)
Definition events_collision : list sys_event :=
  joins 10 "ann" "/f" ++ joins 20 "bob" "/g"
  ++ served_by_pool
       [asks 20 "5" "AddFile" [(headers.FileName, lit "/h"); (headers.FileSize, lit "3")];
        asks 20 "6" "RenamePath" [(headers.FileName, lit "/g"); (headers.FileNewName, lit "h")];
        asks 20 "7" "RemovePath" [(headers.FileName, lit "/h")]].

Lemma collision_misinforms :
  let g := mgr (srv (state_of true events_collision)) in
  let ns := [RegisteredFiles (lit "bob") (Some [lit "/g"]); AddedFile (lit "bob") (lit "/h");
             RenamedPath (lit "bob") (lit "/g") (lit "h"); DeletedPath (lit "bob") (lit "/h")] in
  heard 10 g = map notice_message ns ∧ replay ns !! lit "bob" = Some ∅
  ∧ files_of g = [(lit "ann", [[lit "f"]]); (lit "bob", [[lit "h"]])].
Proof. split; [|split]; vm_compute; reflexivity. Qed.

(** Bob posts two sign-ups, and registers after the first: the second one makes it a client
    of another name that has not registered, and Ann is not told that Bob is gone. *)
Definition events_twice : list sys_event :=
  let signup id name :=
    says 20 "SIGNUP" [(headers.CommandId, lit id); (headers.Nickname, lit name);
                      (headers.Password, lit "pw")] [] in
  joins 10 "ann" "/f"
  ++ [Accepts 20; signup "1" "bob"; signup "2" "eve"; Starts 0; Starts 1; Finishes 0;
      says 20 "PUSH_FILES" [(headers.CommandId, lit "3"); (headers.ContentType, lit "csv")] [lit "/g"];
      Starts 0; Finishes 0; Finishes 1].

Definition state_twice : system :=
  default (new_system 2 no_accounts)
    (run true run_append 80 (Ok 30) (map (λ e, (run_disk, e)) events_twice) (new_system 2 no_accounts)).

Lemma second_sign_in_misinforms :
  let g := mgr (srv state_twice) in
  let ns := [RegisteredFiles (lit "bob") (Some [lit "/g"])] in
  heard 10 g = map notice_message ns ∧ files_of g = [(lit "ann", [[lit "f"]])]
  ∧ map (λ e : Z * connection, nickname_ (client_ e.2)) (connections_ g) = [lit "ann"; lit "eve"].
Proof. split; [|split]; vm_compute; reflexivity. Qed.

(** ** The witness *)

Lemma sample_root_is_separator : PATH_ROOT = [PATH_SEPARATOR_CHR].
Proof. reflexivity. Qed.

Definition client_of (a : Z) (es : list sys_event) : connection :=
  default new_connection (m_find a (connections_ (mgr (srv (orderly_state es))))).

(** Ann knows that Bob's files are [/e] and [/e/l], and no longer of Cat's. *)
Lemma pictures_right_witness :
  ∃ ns, heard 10 (mgr (srv (orderly_state events_orderly))) = map notice_message ns
      ∧ replay ns !! lit "bob" = Some {[ [lit "e"]; [lit "e"; lit "l"] ]}
      ∧ replay ns !! lit "cat" = None.
Proof.
  destruct (pictures_right run_append 80 (Ok 30) sample_root_is_separator 1 no_accounts
    events_orderly (orderly_state events_orderly) 10 (client_of 10 events_orderly))
    as (ns & Hh & Hr).
  - apply orderly_reach_of. vm_compute. eexists. reflexivity.
  - vm_compute. reflexivity.
  - vm_compute. reflexivity.
  - exists ns. split; [exact Hh|].
    split; rewrite <- (lookup_delete_ne (replay ns)
      (nickname_ (client_ (client_of 10 events_orderly)))) by (vm_compute; congruence);
      rewrite Hr; vm_compute; reflexivity.
Defined.
End witnesses.
