(* ===== verification/Server.v ===== *)
(** * Server: [Server.h], [Server.cpp], [Configuration.h], [Configuration.cpp], [Main.cpp]

    The program around the manager: the settings, the acceptor whose completion handler
    starts a connection and accepts again, the signals that close it, the threads that
    are started and joined, and [main].  What the system calls do - the database, the
    ports, the certificates, the console - is the environment. *)

From S2P Require Import Prelude Text Protocol.

(** ** Settings *)

(** [std::stoi] *)
Definition stoi (s : str) : outcome Z :=
  let '(neg, s) := read_sign (skip_space (c_str s)) in
  let '(n, seen) := read_digits s 0 false in
  let n := if neg then - n else n in
  if negb seen then Fault Thrown
  else if bool_decide (- 2 ^ 31 ≤ n < 2 ^ 31) then Ok n else Fault Thrown.

(** [(uint16_t)] *)
Definition u16 (z : Z) : Z := z mod 65536.

Inductive setting := SERV_PORT | DOWNLOAD_PORT | SEC_TO_W8_ON_INCOMPLETE_MSG.

(** [.front()], [*begin()] *)
Definition front {A} (l : list A) : outcome A :=
  match l with x :: _ => Ok x | [] => Fault UndefinedBehaviour end.

Section settings.
(** [ConfigSettings::try_get]: the values of a setting, or the default. *)
Variable try_get : setting → list str → list str.

Definition int_setting (key : setting) (default : str) : outcome Z :=
  text ← front (try_get key [default]); stoi text.
Definition port_setting (key : setting) (default : str) : outcome Z :=
  u16 <$> int_setting key default.

Definition serv_port : outcome Z := port_setting SERV_PORT (lit "8070").
Definition download_port : outcome Z := port_setting DOWNLOAD_PORT (lit "8071").

(** The seconds [connection::read_indeterminate] gives its deadline. *)
Definition incomplete_message_seconds : outcome Z :=
  int_setting SEC_TO_W8_ON_INCOMPLETE_MSG (lit "30").
End settings.

(** ** [Configuration] *)

Section configuration.
Context {DB : Type}.

Record Configuration := mkConfiguration { users_db_ptr_ : option DB }.

(** [get_instance]: the object is made by the first call. *)
Definition new_Configuration : Configuration := mkConfiguration None.
Definition set_users_db (udb_ptr : option DB) (c : Configuration) : Configuration :=
  mkConfiguration udb_ptr.
Definition get_users_db (c : Configuration) : option DB := users_db_ptr_ c.
End configuration.
Arguments Configuration : clear implicits.

(** ** [Server] *)

Record Server := mkServer {
  io_thread_ : bool;                  (* whether it is joinable *)
  acceptor_open : bool;               (* acceptor_.is_open() *)
  accepting : bool;                   (* an async_accept has not completed *)
  waiting_for_signal : nat;           (* async_waits that have not completed *)
  io_stopped : bool;                  (* io_context_.stop() was called *)
  started : list Z;                   (* the sockets given to connection_manager_.start *)
}.

Definition do_await_stop (s : Server) : Server :=
  mkServer (io_thread_ s) (acceptor_open s) (accepting s) (S (waiting_for_signal s))
    (io_stopped s) (started s).

Definition do_accept (s : Server) : Server :=
  mkServer (io_thread_ s) (acceptor_open s) true (waiting_for_signal s) (io_stopped s) (started s).

(** [open], [bind], [listen] *)
Definition listen (s : Server) : Server :=
  mkServer (io_thread_ s) true (accepting s) (waiting_for_signal s) (io_stopped s) (started s).

Definition init (s : Server) : Server := do_await_stop s.

(** The members before the constructor's body runs. *)
Definition members : Server := mkServer false false false 0 false [].
Definition new_Server : Server := do_accept (listen (init members)).

(** The handler of [async_accept]: [None] is an error. *)
Definition accept_completed (socket : option Z) (s : Server) : Server :=
  let s := mkServer (io_thread_ s) (acceptor_open s) false (waiting_for_signal s) (io_stopped s)
             (started s) in
  if negb (acceptor_open s) then s
  else
    let s :=
      match socket with
      | Some a => mkServer (io_thread_ s) (acceptor_open s) (accepting s) (waiting_for_signal s)
                    (io_stopped s) (started s ++ [a])
      | None => s
      end in
    do_accept s.

(** The handler of [signals_.async_wait]. *)
Definition signal_completed (s : Server) : Server :=
  mkServer (io_thread_ s) false (accepting s) (pred (waiting_for_signal s)) (io_stopped s) (started s).

(** [run], with the [once_flag] all servers of the process share. *)
Definition run (once_flg : bool) (s : Server) : bool * Server :=
  if once_flg then (true, s)
  else (true, mkServer true (acceptor_open s) (accepting s) (waiting_for_signal s) (io_stopped s)
                (started s)).

(** What the io thread runs: nothing without a thread, or after [stop]. *)
Inductive io_event := Accepted (socket : option Z) | Signalled.

Definition io_step (e : io_event) (s : Server) : option Server :=
  if io_thread_ s && negb (io_stopped s) then
    match e with
    | Accepted socket => if accepting s then Some (accept_completed socket s) else None
    | Signalled => if (waiting_for_signal s =? 0)%nat then None else Some (signal_completed s)
    end
  else None.

Fixpoint io_steps (es : list io_event) (s : Server) : option Server :=
  match es with
  | [] => Some s
  | e :: es => s ← io_step e s; io_steps es s
  end.

(** ** The life of the process *)

(** A computation of the main thread: it is done, an exception leaves it, or the program
    is ended by [std::terminate]. *)
Inductive result (A : Type) :=
  | Done (a : A)
  | Raised (f : fault)
  | Terminated.
Arguments Done {_}.
Arguments Raised {_}.
Arguments Terminated {_}.

#[export] Instance result_bind : MBind result := λ A B f r,
  match r with Done a => f a | Raised e => Raised e | Terminated => Terminated end.

Definition raising {A} (o : outcome A) : result A :=
  match o with Ok a => Done a | Fault f => Raised f end.

(** An exception that destroys a [std::thread] which is joinable. *)
Definition owning_thread {A} (r : result A) : result A :=
  match r with Raised _ => Terminated | r => r end.

(** [~thread] *)
Definition destroy_thread (joinable : bool) : result unit :=
  if joinable then Terminated else Done tt.

(** [join]: a thread that is not joinable throws. *)
Definition join_thread (joinable : bool) : result unit :=
  if joinable then Done tt else Raised Thrown.

(** Destructors are [noexcept]. *)
Definition destructor {A} (r : result A) : result A :=
  match r with Raised _ => Terminated | r => r end.

Section process.
Context {DB : Type}.
Variable try_get : setting → list str → list str.
(** Opening the database, binding a port, reading the certificates. *)
Variables (open_database : outcome DB) (binds : Z → bool) (reads_certificates : bool).

(** [download_manager::download_manager]: the thread runs before the body. *)
Definition construct_download_manager (port : Z) : result unit :=
  if binds port then
    owning_thread (if reads_certificates then Done tt else Raised Thrown)
  else Raised Thrown.

(** [connection_manager::connection_manager] *)
Definition construct_connection_manager : result unit :=
  port ← raising (download_port try_get); construct_download_manager port.

(** [Server::Server(uint16_t)]: when its body throws, the members are destroyed, the
    thread of the download manager among them. *)
Definition construct_Server (port : Z) : result Server :=
  _ ← construct_connection_manager;
  owning_thread (if binds port then Done new_Server else Raised Thrown).

(** [Server::Server(std::string_view, std::string_view)]: the resolver gives the endpoints
    of an address and a port, or throws. *)
Definition construct_Server_at {Endpoint} (resolve : str → str → outcome (list Endpoint))
    (binds_endpoint : Endpoint → bool) (address port : str) : result Server :=
  _ ← construct_connection_manager;
  owning_thread
    (endpoints ← raising (resolve address port);
     endpoint ← raising (front endpoints);
     if binds_endpoint endpoint then Done new_Server else Raised Thrown).

(** [Server::~Server], and whether the scheduler was stopped: the body, then the
    members, whose download manager has a thread nothing has joined. *)
Definition destroy_Server (s : Server) : bool * result unit :=
  match join_thread (io_thread_ s) with
  | Done _ => (true, destroy_thread true)
  | r => (false, destructor r)
  end.

(** The console: the words typed so far, and whether the input has ended; a failed
    extraction leaves the word as it is. *)
Inductive console_end := Exit_typed | Waits_for_input | Spins.

Fixpoint console (cmd : str) (words : list str) (eof : bool) : console_end :=
  if bool_decide (cmd = lit "exit") then Exit_typed
  else
    match words with
    | [] => if eof then Spins else Waits_for_input
    | cmd :: words => console cmd words eof
    end.

(** [main]: still serving, with a console that waits or spins, or at its end. *)
Inductive process :=
  | Serving (spinning : bool) (s : Server) (c : Configuration DB)
  | Ended (scheduler_stopped : bool) (r : result unit).

Definition main (words : list str) (eof : bool) : process :=
  let setup :=
    db ← raising open_database;
    let c := set_users_db (Some db) new_Configuration in
    port ← raising (serv_port try_get);
    s ← construct_Server port;
    Done (c, s) in
  match setup with
  | Done (c, s) =>
      let '(_, s) := run false s in
      match console [] words eof with
      | Exit_typed => let '(stopped, r) := destroy_Server s in Ended stopped r
      | Waits_for_input => Serving false s c
      | Spins => Serving true s c
      end
  | Raised f => Ended false (Raised f)
  | Terminated => Ended false Terminated
  end.

(** ** Theorems *)

Lemma console_exit words eof cmd :
  console cmd words eof = Exit_typed ↔ cmd = lit "exit" ∨ lit "exit" ∈ words.
Proof.
  revert cmd. induction words as [|w words IH]; intros cmd; cbn [console].
  - rewrite elem_of_nil. case_bool_decide; [tauto|]. destruct eof; naive_solver.
  - rewrite elem_of_cons. case_bool_decide; [tauto|]. rewrite IH. naive_solver.
Qed.

Lemma console_runs words eof cmd :
  cmd ≠ lit "exit" → lit "exit" ∉ words →
  console cmd words eof = if eof then Spins else Waits_for_input.
Proof.
  revert cmd. induction words as [|w words IH]; intros cmd Hc; cbn [console];
    rewrite bool_decide_eq_false_2 by done; [done|].
  rewrite not_elem_of_cons. intros [Hw Hws]. apply IH; [congruence|done].
Qed.

(** C32. The program never ends normally.  When its database opens, its settings are
    numbers, its ports can be bound and its certificates read, it serves - with an open
    acceptor, its io thread running and the database at hand - until the word exit is
    typed; at the end of the input without that word the console loop spins; and after
    exit the scheduler is stopped and the program is then ended by [std::terminate],
    because the thread of the download manager is destroyed without having been joined.
    In no environment does [main] return. *)
Theorem main_never_returns words eof :
  (∀ stopped, main words eof ≠ Ended stopped (Done tt))
  ∧ (∀ db sp dp, open_database = Ok db → serv_port try_get = Ok sp → download_port try_get = Ok dp →
     binds sp = true → binds dp = true → reads_certificates = true →
     main words eof
     = if bool_decide (lit "exit" ∈ words) then Ended true Terminated
       else Serving eof (mkServer true true true 1 false []) (mkConfiguration (Some db))).
Proof.
  split.
  - intros stopped. unfold main. destruct (raising open_database) as [db|f|]; cbn; try done.
    destruct (raising (serv_port try_get)) as [p|f|]; cbn; try done.
    destruct (construct_Server p) as [s|f|]; cbn; try done.
    destruct (console [] words eof); done.
  - intros db sp dp E1 E2 E3 Hs Hd Hc. unfold main. rewrite E1, E2. cbn [raising mbind result_bind].
    unfold construct_Server, construct_connection_manager, construct_download_manager.
    rewrite E3. cbn [raising mbind result_bind]. rewrite Hd, Hc, Hs. cbn [owning_thread mbind result_bind].
    case_bool_decide as Hin.
    + rewrite (proj2 (console_exit words eof [])) by (by right). done.
    + rewrite console_runs by done. by destruct eof.
Qed.

(** Both constructors give the same server, and once the connection manager stands a
    failure of either terminates the program. *)
Lemma construct_Server_at_spec {Endpoint} (resolve : str → str → outcome (list Endpoint)) be address port :
  construct_Server_at resolve be address port
  = match construct_connection_manager with
    | Done _ =>
        match resolve address port with
        | Ok (endpoint :: _) => if be endpoint then Done new_Server else Terminated
        | _ => Terminated
        end
    | Raised f => Raised f
    | Terminated => Terminated
    end.
Proof.
  unfold construct_Server_at. destruct construct_connection_manager as [[]| |]; cbn; [|done..].
  destruct (resolve address port) as [[|endpoint l]|f]; cbn; [done| |done]. by destruct (be endpoint).
Qed.

(** A server whose [run] comes second in the process has no thread, handles nothing, and
    its destructor terminates the program before the scheduler is stopped. *)
Lemma second_server_dead :
  let s := (run true new_Server).2 in
  (∀ e, io_step e s = None) ∧ destroy_Server s = (false, Terminated).
Proof. by split. Qed.
End process.

(** The sockets accepted before the first signal. *)
Fixpoint accepted_before_signal (es : list io_event) : list Z :=
  match es with
  | [] | Signalled :: _ => []
  | Accepted (Some a) :: es => a :: accepted_before_signal es
  | Accepted None :: es => accepted_before_signal es
  end.

Lemma closed_io_steps es s s' :
  acceptor_open s = false → io_steps es s = Some s' →
  acceptor_open s' = false ∧ started s' = started s.
Proof.
  revert s. induction es as [|e es IH]; intros s Hs; cbn [io_steps]; [by intros [= <-]|].
  unfold io_step. destruct (io_thread_ s && _); [|done].
  destruct e as [socket|].
  - destruct (accepting s); [|done]. cbn [mbind option_bind]. intros E.
    unfold accept_completed in E. cbn [acceptor_open] in E. rewrite Hs in E. cbn [negb] in E.
    by apply IH in E.
  - destruct (_ =? 0)%nat; [done|]. cbn [mbind option_bind]. intros E. by apply IH in E.
Qed.

Lemma io_steps_accept es s s' :
  acceptor_open s = true → accepting s = true → io_steps es s = Some s' →
  started s' = started s ++ accepted_before_signal es
  ∧ acceptor_open s' = forallb (λ e, match e with Signalled => false | _ => true end) es
  ∧ (acceptor_open s' = true → accepting s' = true).
Proof.
  revert s. induction es as [|e es IH]; intros s Ho Ha; cbn [io_steps].
  { intros [= <-]. by rewrite app_nil_r. }
  unfold io_step. destruct (io_thread_ s && _); [|done].
  destruct e as [socket|].
  - rewrite Ha. cbn [mbind option_bind]. intros E.
    unfold accept_completed in E. cbn [acceptor_open] in E. rewrite Ho in E. cbn [negb] in E.
    destruct socket as [a|]; apply IH in E as (E1 & E2 & E3); try done.
    split_and!; [|done..]. rewrite E1. cbn. by rewrite <- app_assoc.
  - destruct (_ =? 0)%nat; [done|]. cbn [mbind option_bind]. intros E.
    destruct (closed_io_steps es (signal_completed s) s' eq_refl E) as [E1 E2]. cbn in E2.
    rewrite E1, E2. by rewrite app_nil_r.
Qed.

(** C33. The acceptor serves every client until a signal arrives: whatever accepts complete,
    with or without an error, and whenever a signal does, the sockets handed to the
    connection manager are exactly those accepted before the first signal, in their order
    and once each; while the acceptor is open the next accept is always pending, and it is
    open exactly as long as no signal has arrived. *)
Theorem acceptor_serves es s :
  io_steps es (run false new_Server).2 = Some s →
  started s = accepted_before_signal es
  ∧ (acceptor_open s = true ↔ Signalled ∉ es)
  ∧ (acceptor_open s = true → accepting s = true).
Proof.
  intros E. apply io_steps_accept in E as (E1 & E2 & E3); [|done..]. split_and!; [done| |done].
  rewrite E2, forallb_forall. split.
  - intros Hall Hin. specialize (Hall Signalled). by rewrite <- list_elem_of_In in Hall; specialize (Hall Hin).
  - intros Hn [socket|] Hin; [done|]. by apply list_elem_of_In in Hin.
Qed.

(** ** Ports *)

Lemma stoi_to_string z :
  in_u64 z → stoi (to_string z) = if bool_decide (z < 2 ^ 31) then Ok z else Fault Thrown.
Proof.
  intros Hz. unfold stoi.
  rewrite all_digits_prefix by (apply to_string_digits; destruct Hz; lia).
  rewrite <- (app_nil_r (to_string z)), read_to_string by done. cbn [negb read_digits].
  destruct Hz as [Hz1 Hz2]. repeat case_bool_decide; try done; lia.
Qed.

(** C35. The ports the program listens on fit in 16 bits whatever the settings say, and
    are silently cut: for a setting written as a decimal number, a number that does not
    fit in an [int] stops the program with an exception, any other gives the port modulo
    65536, which is the number that was written exactly when that is below 65536. *)
Theorem port_bounds try_get key default z p :
  (port_setting try_get key default = Ok p → 0 ≤ p < 65536)
  ∧ (in_u64 z → try_get key [default] = [to_string z] →
     port_setting try_get key default = (if bool_decide (z < 2 ^ 31) then Ok (z mod 65536) else Fault Thrown)
     ∧ (port_setting try_get key default = Ok z ↔ z < 65536)).
Proof.
  split.
  - unfold port_setting. destruct (int_setting try_get key default) as [k|]; [|done].
    intros [= <-]. by apply Z.mod_pos_bound.
  - intros Hz E. unfold port_setting, int_setting. rewrite E. cbn [front mbind outcome_bind].
    rewrite stoi_to_string by done. destruct Hz as [Hz _].
    case_bool_decide as Hb; cbn; unfold u16; (split; [done|]).
    + split; [intros [= Ez]; pose proof (Z.mod_pos_bound z 65536); lia|]. intros Hlt. f_equal. by apply Z.mod_small.
    + split; [done|lia].
Qed.

(** ** Witnesses *)

Definition defaults (key : setting) (default : list str) : list str := default.

Lemma main_never_returns_witness :
  main defaults (Ok tt) (λ _, true) true [lit "help"; lit "exit"] false = Ended true Terminated.
Proof.
  destruct (main_never_returns defaults (Ok tt) (λ _, true) true [lit "help"; lit "exit"] false)
    as [_ Hm].
  rewrite (Hm tt 8070 8071); [|reflexivity..]. reflexivity.
Defined.

Lemma acceptor_serves_witness :
  started (default new_Server
    (io_steps [Accepted (Some 7); Accepted None; Accepted (Some 8); Signalled; Accepted (Some 9)]
       (run false new_Server).2)) = [7; 8].
Proof.
  apply (acceptor_serves [Accepted (Some 7); Accepted None; Accepted (Some 8); Signalled; Accepted (Some 9)]).
  reflexivity.
Defined.

Lemma port_bounds_witness :
  port_setting (λ _ _, [to_string 73607]) SERV_PORT (lit "8070") = Ok 8071
  ∧ ¬ port_setting (λ _ _, [to_string 73607]) SERV_PORT (lit "8070") = Ok 73607.
Proof.
  destruct (port_bounds (λ _ _, [to_string 73607]) SERV_PORT (lit "8070") 73607 0) as [_ Hp].
  destruct Hp as [E Hz]; [split; reflexivity || discriminate|reflexivity|].
  rewrite E. split; [reflexivity|discriminate].
Defined.
