(* ===== verification/TransferPort.v ===== *)
(** * TransferPort: the sessions of [download_manager.cpp]

    A [TemporarySession] is allocated for the next peer of the download port, lives
    through the TLS handshake, and deletes itself at the end of [HandleHandshake]; raw
    pointers to it are bound into the completion handlers.  The heap of sessions is
    explicit: using or deleting one that is not alive is undefined behaviour.  What a
    greeting does to the transactions is [DownloadManager.HandleHandshake]. *)

From S2P Require Import Prelude Text Protocol StdMap BackupRequests DownloadManager.

Section sessions.
Context {Handler : Type} `{Protocol} `{BoostSplit}.
Variable NDEBUG : bool.

Record transfer_port := mkTransferPort {
  manager_ : download_manager Handler;      (* MyManager_ *)
  next_session : nat;
  sessions : list nat;                      (* the objects that are alive *)
  accepting : option nat;                   (* bound into the pending async_accept *)
  handshaking : list nat;                   (* bound into pending async_handshakes *)
  deleted : list nat;                       (* history *)
}.

Definition with_sessions l (p : transfer_port) : transfer_port :=
  mkTransferPort (manager_ p) (next_session p) l (accepting p) (handshaking p) (deleted p).

(** [new TemporarySession] *)
Definition new_TemporarySession : M transfer_port nat := λ p,
  Ok (next_session p,
      mkTransferPort (manager_ p) (S (next_session p)) (next_session p :: sessions p)
        (accepting p) (handshaking p) (deleted p)).

(** [delete session] *)
Definition delete_session (id : nat) : M transfer_port unit := λ p,
  if bool_decide (id ∈ sessions p) then
    Ok (tt, mkTransferPort (manager_ p) (next_session p) (remove_one id (sessions p))
              (accepting p) (handshaking p) (deleted p ++ [id]))
  else Fault UndefinedBehaviour.

(** A member function of the session is called. *)
Definition on_session (id : nat) : M transfer_port unit := λ p,
  if bool_decide (id ∈ sessions p) then Ok (tt, p) else Fault UndefinedBehaviour.

(** [StartAccept] *)
Definition StartAccept : M transfer_port unit :=
  new_session ← new_TemporarySession;
  _ ← on_session new_session;                        (* new_session->socket() *)
  modify (λ p, mkTransferPort (manager_ p) (next_session p) (sessions p) (Some new_session)
                 (handshaking p) (deleted p)).

(** [TemporarySession::start] *)
Definition start (id : nat) : M transfer_port unit :=
  _ ← on_session id;
  modify (λ p, mkTransferPort (manager_ p) (next_session p) (sessions p) (accepting p)
                 (id :: handshaking p) (deleted p)).

(** [HandleAccept]: the completion handler is called once. *)
Definition HandleAccept (new_session : nat) (error : bool) : M transfer_port unit :=
  _ ← modify (λ p, mkTransferPort (manager_ p) (next_session p) (sessions p) None
                     (handshaking p) (deleted p));
  _ ← (if negb error then start new_session else delete_session new_session);
  StartAccept.

(** [TemporarySession::HandleHandshake], with what [TryInitTransaction] reads and the
    session's socket; every path ends in [delete this]. *)
Definition HandleHandshake (id : nat) (error ready : bool) (TempBuffer : str) (sock : peer)
    : M transfer_port unit :=
  _ ← modify (λ p, mkTransferPort (manager_ p) (next_session p) (sessions p) (accepting p)
                     (remove_one id (handshaking p)) (deleted p));
  _ ← on_session id;
  _ ← (λ p, dm ← DownloadManager.HandleHandshake NDEBUG error ready TempBuffer sock (manager_ p);
            Ok (tt, mkTransferPort dm (next_session p) (sessions p) (accepting p) (handshaking p)
                      (deleted p)));
  delete_session id.

Definition empty_port : transfer_port := mkTransferPort new_download_manager 0 [] None [] [].

(** The constructor of the download manager ends with [StartAccept]. *)
Definition new_transfer_port : outcome transfer_port := snd <$> StartAccept empty_port.

(** The completions of the port's operations, and the changes the rest of the server
    makes to the transactions. *)
Inductive port_event :=
  | Accepts (error : bool)
  | Handshakes (id : nat) (error ready : bool) (hello : str) (sock : peer)
  | Transactions (dm : download_manager Handler).

Definition port_step (e : port_event) (p : transfer_port) : option (outcome transfer_port) :=
  match e with
  | Accepts error =>
      match accepting p with
      | Some id => Some (snd <$> HandleAccept id error p)
      | None => None
      end
  | Handshakes id error ready hello sock =>
      if bool_decide (id ∈ handshaking p)
      then Some (snd <$> HandleHandshake id error ready hello sock p) else None
  | Transactions dm =>
      Some (Ok (mkTransferPort dm (next_session p) (sessions p) (accepting p) (handshaking p)
                  (deleted p)))
  end.

Inductive port_reach : transfer_port → Prop :=
  | port_new p : new_transfer_port = Ok p → port_reach p
  | port_next p e p' : port_reach p → port_step e p = Some (Ok p') → port_reach p'.

(** ** Invariant *)

(** The sessions that are alive are the one that waits for a peer and those that shake
    hands; no number is used twice. *)
Record sessions_ok (p : transfer_port) : Prop := {
  se_accepting : ∃ id, accepting p = Some id ∧ sessions p ≡ₚ id :: handshaking p;
  se_nodup : NoDup (sessions p ++ deleted p);
  se_bound : Forall (λ id, (id < next_session p)%nat) (sessions p ++ deleted p);
}.

(** The state between the completion of an accept and the next [StartAccept]. *)
Lemma StartAccept_ok p :
  sessions p ≡ₚ handshaking p → NoDup (sessions p ++ deleted p) →
  Forall (λ id, (id < next_session p)%nat) (sessions p ++ deleted p) →
  ∃ p', StartAccept p = Ok (tt, p') ∧ sessions_ok p'
    ∧ handshaking p' = handshaking p ∧ deleted p' = deleted p ∧ manager_ p' = manager_ p.
Proof.
  intros Hs Hd Hb. unfold StartAccept, on_session. rewrite M_bind_unfold. cbn [new_TemporarySession].
  rewrite M_bind_unfold. cbn [sessions]. rewrite bool_decide_eq_true_2 by left.
  eexists. split; [done|]. split; [|done]. split; cbn.
  - eexists. split; [done|]. by rewrite Hs.
  - constructor; [|done]. intros Hin. rewrite Forall_forall in Hb. specialize (Hb _ Hin). lia.
  - constructor; [lia|]. eapply Forall_impl; [exact Hb|]. cbn. lia.
Qed.

Lemma delete_session_ok id p :
  id ∈ sessions p →
  delete_session id p
  = Ok (tt, mkTransferPort (manager_ p) (next_session p) (remove_one id (sessions p))
              (accepting p) (handshaking p) (deleted p ++ [id])).
Proof. intros Hin. unfold delete_session. by rewrite bool_decide_eq_true_2. Qed.

Lemma deleted_perm id (l k : list nat) :
  id ∈ l → remove_one id l ++ k ++ [id] ≡ₚ l ++ k.
Proof. intros Hin. rewrite (remove_one_perm id l Hin) at 2. cbn. solve_Permutation. Qed.

Lemma HandleAccept_ok id error p :
  sessions_ok p → accepting p = Some id →
  ∃ p', HandleAccept id error p = Ok (tt, p') ∧ sessions_ok p'
    ∧ handshaking p' = (if error then [] else [id]) ++ handshaking p
    ∧ deleted p' = deleted p ++ (if error then [id] else []) ∧ manager_ p' = manager_ p.
Proof.
  intros [(id' & Ea & Hp) Hd Hb] E. rewrite E in Ea. injection Ea as <-.
  assert (id ∈ sessions p) as Hin by (rewrite Hp; left).
  unfold HandleAccept. rewrite M_bind_unfold. cbn [modify]. rewrite M_bind_unfold.
  destruct error; cbn [negb].
  - rewrite delete_session_ok by done. cbn [sessions deleted manager_ next_session handshaking].
    match goal with |- context [StartAccept ?q] =>
      destruct (StartAccept_ok q) as (p' & -> & Hok & Eh & Ed & Em) end; cbn.
    + apply (Permutation.Permutation_cons_inv (a := id)).
      by rewrite <- (remove_one_perm id _ Hin).
    + by rewrite deleted_perm.
    + by rewrite deleted_perm.
    + by exists p'.
  - unfold start, on_session. rewrite M_bind_unfold. cbn [sessions].
    rewrite bool_decide_eq_true_2 by done. cbn [modify].
    match goal with |- context [StartAccept ?q] =>
      destruct (StartAccept_ok q) as (p' & -> & Hok & Eh & Ed & Em) end; try done.
    exists p'. rewrite app_nil_r. by split_and!.
Qed.

Lemma HandleHandshake_cases id error ready hello sock p :
  sessions_ok p → id ∈ handshaking p →
  match DownloadManager.HandleHandshake NDEBUG error ready hello sock (manager_ p) with
  | Ok dm =>
      ∃ p', HandleHandshake id error ready hello sock p = Ok (tt, p') ∧ sessions_ok p'
        ∧ handshaking p' = remove_one id (handshaking p) ∧ deleted p' = deleted p ++ [id]
        ∧ manager_ p' = dm
  | Fault f => HandleHandshake id error ready hello sock p = Fault f
  end.
Proof.
  intros [(a & Ea & Hp) Hd Hb] Hin.
  assert (id ∈ sessions p) as Hs by (rewrite Hp; by right).
  unfold HandleHandshake, on_session. rewrite M_bind_unfold. cbn [modify]. rewrite M_bind_unfold.
  cbn [sessions]. rewrite bool_decide_eq_true_2 by done. rewrite M_bind_unfold. cbn [manager_].
  destruct (DownloadManager.HandleHandshake _ _ _ _ _ _) as [dm|f]; [|done].
  cbn [mbind outcome_bind]. rewrite delete_session_ok by done. eexists. split; [done|].
  split; [|done]. split; cbn.
  - exists a. split; [done|]. apply (Permutation.Permutation_cons_inv (a := id)).
    rewrite <- (remove_one_perm id _ Hs), Hp, (remove_one_perm id _ Hin) at 1. solve_Permutation.
  - by rewrite deleted_perm.
  - by rewrite deleted_perm.
Qed.

Lemma port_reach_ok p : port_reach p → sessions_ok p.
Proof.
  induction 1 as [p E|p e p' _ IH E].
  - destruct (StartAccept_ok empty_port) as (p' & E' & Hok & _); [done|by apply NoDup_nil|constructor|].
    unfold new_transfer_port in E. rewrite E' in E. cbn in E. by injection E as <-.
  - destruct e as [error|id error ready hello sock|dm]; cbn [port_step] in E.
    + destruct (accepting p) as [id|] eqn:Ea; [|done].
      destruct (HandleAccept_ok id error p IH Ea) as (q & Eq & Hq & _).
      rewrite Eq in E. cbn in E. by injection E as <-.
    + case_bool_decide as Hin; [|done].
      pose proof (HandleHandshake_cases id error ready hello sock p IH Hin) as Hc.
      destruct (DownloadManager.HandleHandshake _ _ _ _ _ _) as [dm|f].
      * destruct Hc as (q & Eq & Hq & _). rewrite Eq in E. cbn in E. by injection E as <-.
      * rewrite Hc in E. done.
    + injection E as <-. destruct IH. by split.
Qed.

(** C34. The raw pointers of the download port are safe: in every state it can reach, the
    session of every pending completion is alive and those are all that are, so nothing
    leaks; exactly one session waits for a peer; no session has been deleted twice or is
    used after it was.  The completion of an accept always runs to its end and leaves the
    next accept pending; that of a handshake deletes its own session, and fails only if
    starting the transaction its greeting names does. *)
Theorem sessions_deleted_once p :
  port_reach p →
  (∃ id, accepting p = Some id ∧ sessions p ≡ₚ id :: handshaking p)
  ∧ NoDup (sessions p ++ deleted p)
  ∧ (∀ error, ∃ p', port_step (Accepts error) p = Some (Ok p') ∧ is_Some (accepting p'))
  ∧ (∀ id error ready hello sock, id ∈ handshaking p →
     match DownloadManager.HandleHandshake NDEBUG error ready hello sock (manager_ p) with
     | Ok dm => ∃ p', port_step (Handshakes id error ready hello sock) p = Some (Ok p')
                      ∧ manager_ p' = dm ∧ deleted p' = deleted p ++ [id] ∧ id ∉ sessions p'
     | Fault f => port_step (Handshakes id error ready hello sock) p = Some (Fault f)
     end).
Proof.
  intros Hok%port_reach_ok. pose proof Hok as [(a & Ea & Hp) Hd Hb]. split_and!.
  - by exists a.
  - done.
  - intros error. cbn [port_step]. rewrite Ea.
    destruct (HandleAccept_ok a error p Hok Ea) as (p' & -> & Hok' & _). exists p'. split; [done|].
    destruct (se_accepting _ Hok') as (b & Eb & _). by rewrite Eb.
  - intros id error ready hello sock Hin. cbn [port_step]. rewrite bool_decide_eq_true_2 by done.
    pose proof (HandleHandshake_cases id error ready hello sock p Hok Hin) as Hc.
    destruct (DownloadManager.HandleHandshake _ _ _ _ _ _) as [dm|f]; [|by rewrite Hc].
    destruct Hc as (p' & -> & Hok' & _ & Edel & Edm). exists p'. split_and!; [done..|].
    intros Hs. pose proof (se_nodup _ Hok') as Hn. rewrite Edel in Hn.
    apply NoDup_app in Hn as (_ & Hn & _). apply (Hn id Hs), elem_of_app. right. left.
Qed.
End sessions.

(** ** Witness: two peers connect, one greets *)

Section witness.
#[local] Existing Instance split_def_split.
#[local] Existing Instance sample_protocol.

Definition port_0 : transfer_port (Handler := unit) :=
  match new_transfer_port with Ok p => p | Fault _ => empty_port end.
Definition port_1 : transfer_port (Handler := unit) :=
  match port_step true (Accepts false) port_0 with Some (Ok p) => p | _ => port_0 end.

Lemma sessions_deleted_once_witness :
  ∃ p', port_step true (Handshakes 0 false true (lit "R:7") (sample_peer 5)) port_1 = Some (Ok p')
        ∧ deleted p' = [0%nat].
Proof.
  assert (port_reach true port_1) as Hr.
  { eapply (port_next true port_0 (Accepts false)); [by constructor|reflexivity]. }
  destruct (sessions_deleted_once true port_1 Hr) as (_ & _ & _ & Hh).
  specialize (Hh 0%nat false true (lit "R:7") (sample_peer 5) ltac:(left)).
  assert (DownloadManager.HandleHandshake true false true (lit "R:7") (sample_peer 5) (manager_ port_1)
          = Ok (manager_ port_1)) as E by (vm_compute; reflexivity).
  rewrite E in Hh. destruct Hh as (p' & Ep & _ & Ed & _). exists p'. split; [exact Ep|exact Ed].
Defined.
End witness.
