(* ===== verification/Workers.v ===== *)
(** * Workers: the handlers of server_side_handler.cpp cut where other threads can run

    The pool threads execute requests at the same time, and the io thread disconnects
    clients meanwhile.  A handler is here a program of actions: an action is a critical
    section of one of the mutexes, an access through a pointer to a connection, or a
    statement that touches shared data; between two actions the other threads run.
    [Handler] has the same handlers as one step each.

    A connection object lives as long as it is in the manager's set or a thread holds a
    [shared_ptr] to it: the ones that have left the set are in [detached].  A
    [weak_ptr] is tested with [expired] and locked later, by two different actions; the
    pointer it gives may be null, and using it then is undefined behaviour. *)

From S2P Require Import Prelude Text Protocol Validators Vfs StdMap BackupRequests.
From S2P Require Import DownloadManager UsersDb Scheduler Manager Handler.

(** ** The shared state *)

Section workers.
Context `{Protocol} `{BoostSplit} `{SqlApi}.
Variables (NDEBUG : bool) (relative_append : str → str → str) (port : Z).

Record world := mkWorld {
  shared : server;                  (* the manager and the accounts *)
  detached : stdmap connection;     (* connections out of the set that are still held *)
  holders : list Z;                 (* the [shared_ptr]s of the threads *)
}.

Definition in_server {A} (m : M server A) : M world A := λ w,
  '(x, v) ← m (shared w); Ok (x, mkWorld v (detached w) (holders w)).
Definition in_manager {A} (m : M manager A) : M world A := in_server (in_mgr m).

(** The connection object at an address. *)
Definition obj (a : Z) (w : world) : option connection :=
  match m_find a (connections_ (mgr (shared w))) with
  | Some c => Some c
  | None => m_find a (detached w)
  end.

Definition expired (a : Z) : M world bool := gets (λ w, bool_decide (obj a w = None)).

(** [weak_ptr::lock], [shared_from_this] *)
Definition lock (a : Z) : M world (option Z) := λ w,
  match obj a w with
  | Some _ => Ok (Some a, mkWorld (shared w) (detached w) (a :: holders w))
  | None => Ok (None, w)
  end.

(** [connection->...] *)
Definition use (a : Z) : M world connection := λ w,
  match obj a w with Some c => Ok (c, w) | None => Fault UndefinedBehaviour end.

Definition on_obj (a : Z) (f : connection → connection) : M world unit := λ w,
  '(_, w) ← in_manager (on_conn a f) w;
  Ok (tt, mkWorld (shared w) (m_update a f (detached w)) (holders w)).

(** A [shared_ptr] is destroyed; the last one destroys the connection and its tree. *)
Definition unlock (p : option Z) : M world unit := λ w,
  match p with
  | None => Ok (tt, w)
  | Some a =>
      let w := mkWorld (shared w) (detached w) (remove_one a (holders w)) in
      match m_find a (detached w) with
      | Some c =>
          if bool_decide (a ∈ holders w) then Ok (tt, w)
          else
            es ← delete_vfs PATH_SEPARATOR_CHR (nickname_ (client_ c))
                   (remote_file_system_ (client_ c));
            in_manager (modify (on_disk (map TreeEffect es)))
              (mkWorld (shared w) (m_erase a (detached w)) (holders w))
      | None => Ok (tt, w)
      end
  end.

(** ** Programs *)

(** What an action needs: a locked pointer, the pointer and a path the tree can take, an
    object that is used without being held, or nothing. *)
Inductive access :=
  | Uses (p : option Z)
  | AddsPath (p : option Z) (Path : str)
  | Raw (a : Z)
  | Shared.

Inductive prog :=
  | Ends
  | Does (k : access) (m : world → outcome (prog * world)).

Definition act {A} (k : access) (m : M world A) (rest : A → prog) : prog :=
  Does k (λ w, '(x, w) ← m w; Ok (rest x, w)).

(** An action through a locked pointer. *)
Definition on_ptr {A} (p : option Z) (m : Z → M world A) : M world A :=
  match p with Some a => m a | None => raise UndefinedBehaviour end.
Definition uses {A} (p : option Z) (m : Z → M world A) (rest : A → prog) : prog :=
  act (Uses p) (on_ptr p m) rest.

(** A program without interference. *)
Fixpoint alone (p : prog) (w : world) : outcome world :=
  match p with
  | Ends => Ok w
  | Does _ m => match m w with Ok (p, w) => alone p w | Fault f => Fault f end
  end.

(** [if (connection_weak.expired()) return; auto connection = connection_weak.lock();] *)
Definition locked (a : Z) (body : option Z → prog) : prog :=
  act Shared (expired a) (λ e, if e : bool then Ends else act Shared (lock a) body).

Definition finally (p : option Z) : prog := act Shared (unlock p) (λ _, Ends).

(** [connection->start_write(...)] of a reply, the last thing a handler does *)
Definition reply_and (p : option Z) (code : responses.t) (RequestID : str) (rest : prog) : prog :=
  uses p (λ a, in_server (answer a code RequestID)) (λ _, rest).
Definition finally_reply p code RequestID : prog := reply_and p code RequestID (finally p).

(** ** [connection_manager] *)

(** [notify_disconnection] after the state and the nickname were read: its critical
    section. *)
Definition disconnection_section (a : Z) (st : State) (nick : str) : M manager unit :=
  _ ← modify (on_connections (m_erase a));
  early_return ←
    (if bool_decide (st = processing) then
       _ ← modify (λ s, set_processing_counter (u64 (processing_counter_ s - 1)) s);
       n ← gets processing_counter_;
       if bool_decide (n = 0) then mret true
       else
         id ← store_shared
                (StringNotificationMessage notifications.USER_LOGGED_OUT
                   [(headers.FileOwner, nick)] None) n;
         _ ← share id (λ _, true);
         mret false
     else mret false);
  if early_return : bool then mret tt
  else modify (on_disk [RemoveAll nick]).

(** The connection that leaves the set is still held by the thread. *)
Definition disconnect (a : Z) (st : State) (nick : str) : M world unit := λ w,
  let w :=
    match m_find a (connections_ (mgr (shared w))) with
    | Some c => mkWorld (shared w) (m_insert a c (detached w)) (holders w)
    | None => w
    end in
  in_manager (disconnection_section a st nick) w.

(** [connection::stop]: [k] says how [this] is known to be there. *)
Definition stop_and (k : access) (a : Z) (rest : prog) : prog :=
  act k (c ← use a; _ ← on_obj a with_stopped; mret (conn_stopped c)) (λ was_stopped,
    if was_stopped : bool then rest
    else
      act k (_ ← use a; lock a) (λ this,
      uses this use (λ c,
      act Shared (disconnect a (state_ (client_ c)) (nickname_ (client_ c))) (λ _,
      act Shared (unlock this) (λ _, rest))))).

(** The critical section of [notify_files_registration]. *)
Definition register_files (a : Z) (SharedBuffer : outbound) : M world unit :=
  _ ← in_manager (modify (λ s, set_processing_counter (u64 (processing_counter_ s + 1)) s));
  n ← in_manager (gets processing_counter_);
  if bool_decide (n = 1) then on_obj a (with_state processing)
  else
    id ← in_manager (store_shared SharedBuffer (u64 (n - 1)));
    FileSystemsOfUsers ← in_manager (λ s, collect_and_share id (connections_ s) ∅ s);
    let FilesOfUsersBody := build_body_map FileSystemsOfUsers in
    _ ← in_manager (start_write a
          (StringNotificationMessage notifications.FILES_OF_OTHER_USERS
             [(headers.ContentLength, to_string (Z.of_nat (length FilesOfUsersBody)));
              (headers.ContentType, CSV_MAP)] (Some FilesOfUsersBody)));
    on_obj a (with_state processing).

Definition registers (p : option Z) (rest : prog) : prog :=
  uses p (λ a, c ← use a; lift (registration_notification (client_ c))) (λ SharedBuffer,
  uses p (λ a, register_files a SharedBuffer) (λ _, rest)).

(** [notify_file_add], [notify_path_removed], [notify_path_renamed]: the nickname is read
    before the critical section. *)
Definition notifies_others (p : option Z) (Notification : str → outbound) (rest : prog) : prog :=
  uses p use (λ c,
  let nick := nickname_ (client_ c) in
  act Shared (in_manager (do_notify nick (Notification nick))) (λ _, rest)).

(** ** [server_side_handler] *)

Definition signin_prog (a : Z) (RequestID login password : str) : prog :=
  locked a (λ p,
  act Shared (in_server (in_db (retrieve_user (mkUser login password)))) (λ code,
  match code with
  | user_credentials_ok =>
      uses p (λ _, in_manager (gets (isLogged login))) (λ already,
      if already : bool then finally_reply p responses.USER_ALREADY_LOGGED RequestID
      else
        uses p (λ a, on_obj a (with_nickname login)) (λ _,
        uses p (λ a, on_obj a (with_state logged)) (λ _,
        finally_reply p responses.LOGIN_SUCCESSFULL RequestID)))
  | user_not_found => finally_reply p responses.NICKNAME_INCORRECT RequestID
  | user_pswd_incorrect => finally_reply p responses.PASSWORD_INCORRECT RequestID
  | internal_error => finally_reply p responses.INTERNAL_SERVER_ERR RequestID
  | _ => finally p
  end)).

Definition signup_prog (a : Z) (RequestID login password : str) : prog :=
  locked a (λ p,
  act Shared (in_server (in_db (register_user (mkUser login password)))) (λ code,
  match code with
  | registered_succes =>
      uses p (λ a, on_obj a (with_nickname login)) (λ _,
      uses p (λ a, on_obj a (with_state logged)) (λ _,
      finally_reply p responses.REGISTERING_SUCCESSFULL RequestID))
  | user_already_registered => finally_reply p responses.USER_ALREADY_REGISTERED RequestID
  | internal_error => finally_reply p responses.INTERNAL_SERVER_ERR RequestID
  | _ => finally p
  end)).

Definition delete_account_prog (a : Z) (RequestID : str) : prog :=
  locked a (λ p,
  uses p use (λ c,
  act Shared (in_server (in_db (erase_user (mkUser (nickname_ (client_ c)) [])))) (λ code,
  match code with
  | user_removed => finally_reply p responses.DELETING_ACCOUNT_SUCCESSFULL RequestID
  | user_failed_to_remove => finally_reply p responses.REMOVE_ACCOUNT_FAILED RequestID
  | internal_error => finally_reply p responses.INTERNAL_SERVER_ERR RequestID
  | _ => finally p
  end))).

Definition logout_prog (a : Z) : prog :=
  locked a (λ p,
  match p with
  | Some a => stop_and (Uses p) a (finally p)
  | None => uses p (λ _, mret tt) (λ _, Ends)
  end).

(** [RemoteFileSystem().Add(Path)]: the exception, if there is one. *)
Definition add_path (Path : str) (a : Z) : M world bool :=
  c ← use a;
  match Add PATH_SEPARATOR_CHR Path (remote_file_system_ (client_ c)) with
  | Ok v => _ ← on_obj a (with_tree v); mret true
  | Fault Thrown => mret false
  | Fault f => raise f
  end.

Fixpoint add_paths (p : option Z) (Paths : list str) (RequestID : str) (rest : prog) : prog :=
  match Paths with
  | [] => rest
  | Path :: Paths =>
      act (AddsPath p Path) (on_ptr p (add_path Path)) (λ added,
      if added : bool then add_paths p Paths RequestID rest
      else finally_reply p responses.INTERNAL_SERVER_ERR RequestID)
  end.

Definition push_files_prog (a : Z) (RequestID : str) (Paths : list str) : prog :=
  locked a (λ p,
  uses p use (λ _,
  add_paths p Paths RequestID
    (reply_and p responses.PUSH_FILES_SUCCESS RequestID (registers p (finally p))))).

Definition add_file_prog (a : Z) (RequestID FileName : str) : prog :=
  locked a (λ p,
  add_paths p [FileName] RequestID
    (reply_and p responses.ADD_FILE_SUCCESSFULL RequestID
       (notifies_others p (λ nick, StringNotificationMessage notifications.USER_ADDED_NEW_FILE
          [(headers.FileOwner, nick); (headers.FileName, FileName)] None) (finally p)))).

(** [Remove], [Rename]: the result, or [None] for an exception. *)
Definition change_tree (f : str → vfs → outcome (bool * list fs_effect * vfs)) (a : Z)
    : M world (option bool) :=
  c ← use a;
  match f (nickname_ (client_ c)) (remote_file_system_ (client_ c)) with
  | Ok (done, effects, v) =>
      _ ← on_obj a (with_tree v);
      _ ← in_manager (modify (on_disk (map TreeEffect effects)));
      mret (Some done)
  | Fault Thrown => mret None
  | Fault f => raise f
  end.

Definition change_path (p : option Z) RequestID f succes failed (Notification : str → outbound) : prog :=
  uses p (change_tree f) (λ done,
  match done with
  | Some true => reply_and p succes RequestID (notifies_others p Notification (finally p))
  | Some false => finally_reply p failed RequestID
  | None => finally_reply p responses.INTERNAL_SERVER_ERR RequestID
  end).

Definition remove_path_prog (a : Z) (RequestID PathName : str) : prog :=
  locked a (λ p,
  change_path p RequestID
    (λ nick v, Vfs.Remove PATH_SEPARATOR_CHR nick PathName v)
    responses.REMOVE_FILE_SUCCESSFULL responses.REMOVE_FILE_FAILED
    (λ nick, StringNotificationMessage notifications.USER_DELETED_FILE
       [(headers.FileOwner, nick); (headers.FileName, PathName)] None)).

Definition remame_path_prog (a : Z) (RequestID OldFilePath NewName : str) : prog :=
  locked a (λ p,
  change_path p RequestID
    (λ nick v, Rename PATH_SEPARATOR_CHR nick relative_append OldFilePath NewName v)
    responses.RENAME_FILE_SUCCESSFULL responses.RENAME_FILE_FAILED
    (λ nick, StringNotificationMessage notifications.USER_RENAMED_FILE
       [(headers.FileOwner, nick); (headers.FileName, OldFilePath);
        (headers.FileNewName, NewName)] None)).

(** [resolve_download_file_querry].  The counter of the numbers is incremented and read
    without a mutex, and read again when the request is backed up. *)
Definition find_and_hold (owner path : str) : M world (option (Z * bool)) := λ w,
  r ← find_owner owner path (mgr (shared w));
  match r with
  | Some (o, cached) =>
      '(_, w) ← lock o w; Ok (Some (o, cached), w)
  | None => Ok (None, w)
  end.

Definition ask_owner (q : DownloadQuerry) (a o : Z) (compr : compression) (rest : prog) : prog :=
  act Shared (in_manager (λ s,
    let '(pending, m) := IsDownloadPending (q_FileOwner q) (q_FilePath q) a compr (q_QuerryID q)
                           (backup_requests_ s) in
    Ok (pending, set_backup m s))) (λ pending,
  if pending : bool then rest
  else
    act Shared (in_manager (modify (λ s,
      set_transactions_id (u64 (DownloadTransactionsIDCounter s + 1)) s))) (λ _,
    act Shared (in_manager (gets DownloadTransactionsIDCounter)) (λ id,
    uses (Some o) (λ o, in_manager (start_write o
      (StringQuerryMessage (to_string id) querries.DOWNLOAD_FILE
         [(headers.FileName, q_FilePath q);
          (headers.SslVersion, Version GetSslVersion);
          (headers.Compressions, CSVCompressions GetSupportedCompressionsStr)]))) (λ _,
    act Shared (in_manager (modify (λ s,
      let info := AddRequest a compr (q_QuerryID q) (mkDownloadInfo (q_FileOwner q) (q_FilePath q) []) in
      set_backup (BackupAndStartTimer (DownloadTransactionsIDCounter s) info (backup_requests_ s)) s)))
      (λ _, rest))))).

Definition resolve_prog (d : disk) (q : DownloadQuerry) (p : option Z) : prog :=
  if negb (bool_decide (GetSslVersion = q_SslVersion q))
  then finally_reply p responses.SSL_VERSION_INCOMPATIBLE (q_QuerryID q)
  else
    act Shared (find_and_hold (q_FileOwner q) (q_FilePath q)) (λ owner,
    match owner with
    | None => finally_reply p responses.DOWNLOAD_DENY (q_QuerryID q)
    | Some (o, cached) =>
        let compr := GetCompression (q_Compressions q) in
        let rest := act Shared (unlock (Some o)) (λ _, finally p) in
        if cached : bool then
          uses p (λ a, in_manager (DeliverFileFromLocalStorage port d a compr (q_QuerryID q)
                                     (q_FileOwner q ++ q_FilePath q))) (λ _, rest)
        else
          uses p (λ a, mret a) (λ a, ask_owner q a o compr rest)
    end).

Definition download_file_prog (d : disk) (a : Z) (i : download_request) : prog :=
  locked a (λ p,
  uses p (λ _, mret tt) (λ _,
  resolve_prog d
    (mkDownloadQuerry (d_RequestID i) (d_FileOwner i) (d_FilePath i)
       (Version_of_text (d_SslVersion i)) (CSVCompressions_of_text (d_Compressions i))) p)).

(** What a pool thread does with a request; [d] is the disk when the request looks at
    it, which it does once. *)
Definition job_prog (d : disk) (j : job) : prog :=
  let a := job_connection j in
  match job_task j with
  | do_signin r l p => signin_prog a r l p
  | do_signup r l p => signup_prog a r l p
  | do_push_files r l => push_files_prog a r l
  | do_delete_account r => delete_account_prog a r
  | do_logout => logout_prog a
  | do_add_file r f => add_file_prog a r f
  | do_remove_path r f => remove_path_prog a r f
  | do_remame_path r o n => remame_path_prog a r o n
  | do_download_file i => download_file_prog d a i
  end.

(** ** The handlers of the io thread *)

(** [if (!SelfWeak.expired()) this->stop();] *)
Definition stop_prog (a : Z) : prog :=
  act Shared (expired a) (λ e, if e : bool then Ends else stop_and (Raw a) a Ends).

(** The completion of a shared write. *)
Definition shared_write_prog (a BufferID : Z) : prog :=
  act Shared (in_manager (modify (on_unfinished (remove_one (a, BufferID))))) (λ _,
  act Shared (expired a) (λ e,
  if e : bool then Ends
  else act (Raw a) (_ ← use a; in_manager (notify_shared_write_done NDEBUG BufferID)) (λ _, Ends))).

(** ** The threads *)

Record pool := mkPool {
  world_ : world;
  workers : list prog;              (* what each pool thread has still to do *)
  io : prog;                        (* and the io thread *)
  known : list Z;                   (* history: the connections there have been *)
}.

Inductive pool_event :=
  | Connects (a : Z)
  | Disconnects (a : Z)             (* a read or a write of it fails *)
  | Completes (a BufferID : Z)      (* a shared write *)
  | Takes (i : nat) (d : disk) (j : job)   (* a pool thread is given a request *)
  | Works (i : nat)                 (* it makes a step *)
  | WorksIo.                        (* the io thread makes one *)

Definition with_worker_at (i : nat) (r : prog * world) (s : pool) : pool :=
  mkPool r.2 (<[i := r.1]> (workers s)) (io s) (known s).
Definition with_io (r : prog * world) (s : pool) : pool :=
  mkPool r.2 (workers s) r.1 (known s).
Definition idle (p : prog) : bool := match p with Ends => true | _ => false end.

Definition pool_step (e : pool_event) (s : pool) : option (outcome pool) :=
  let w := world_ s in
  match e with
  | Connects a =>
      if idle (io s) && negb (bool_decide (a ∈ known s)) then
        Some ('(_, w) ← in_manager (Manager.start a) w;
              Ok (mkPool w (workers s) (io s) (a :: known s)))
      else None
  | Disconnects a => if idle (io s) then Some (Ok (with_io (stop_prog a, w) s)) else None
  | Completes a id =>
      if idle (io s) && bool_decide ((a, id) ∈ unfinished (mgr (shared w)))
      then Some (Ok (with_io (shared_write_prog a id, w) s)) else None
  | Takes i d j =>
      match workers s !! i with
      | Some Ends => Some (Ok (with_worker_at i (job_prog d j, w) s))
      | _ => None
      end
  | Works i =>
      match workers s !! i with
      | Some (Does k m) => Some ((λ r, with_worker_at i r s) <$> m w)
      | _ => None
      end
  | WorksIo =>
      match io s with
      | Does k m => Some ((λ r, with_io r s) <$> m w)
      | Ends => None
      end
  end.

Definition new_pool (n : nat) (db : database) : pool :=
  mkPool (mkWorld (mkServer new_manager db []) [] []) (replicate n Ends) Ends [].

Inductive pool_reach (n : nat) (db : database) : pool → Prop :=
  | pool_new : pool_reach n db (new_pool n db)
  | pool_next s e s' : pool_reach n db s → pool_step e s = Some (Ok s') → pool_reach n db s'.
End workers.
