(* ===== verification/WorkersSpec.v ===== *)
(** * WorkersSpec: what holds when the handlers interleave

    A request that is executed without interference does what [execute] of [Handler]
    does in one step; whatever the threads do, a step can fault in few ways only. *)

From S2P Require Import Prelude Hoare Text Protocol Validators Vfs VfsTree VfsAdd VfsDelete.
From S2P Require Import VfsPaths VfsSpec StdMap BackupRequests DownloadManager UsersDb.
From S2P Require Import Scheduler Manager ManagerSpec Handler Workers.

(** ** A thread alone *)

Section alone.
Context `{Protocol} `{BoostSplit} `{SqlApi}.
Variables (NDEBUG : bool) (ra : str → str → str) (port : Z) (d : disk).
Implicit Types (v : server) (w : world) (a : Z) (p : prog) (hs : list Z).

Lemma alone_act {A} k (m : M world A) (rest : A → prog) w :
  alone (act k m rest) w = '(x, w) ← m w; alone (rest x) w.
Proof. cbn. by destruct (m w) as [[x w']|]. Qed.

Lemma alone_uses {A} a (m : Z → M world A) (rest : A → prog) w :
  alone (uses (Some a) m rest) w = '(x, w) ← m a w; alone (rest x) w.
Proof. apply alone_act. Qed.

Lemma alone_locked a body v :
  alone (locked a body) (mkWorld v [] [])
  = if alive (mgr v) a then alone (body (Some a)) (mkWorld v [] [a]) else Ok (mkWorld v [] []).
Proof.
  unfold locked. rewrite alone_act. unfold expired, alive. cbn [gets mbind outcome_bind].
  unfold obj. cbn [shared detached]. destruct (m_find a (connections_ (mgr v))) as [c|] eqn:E; cbn [m_find].
  - rewrite bool_decide_eq_false_2 by done. rewrite alone_act. unfold lock, obj. cbn. by rewrite E.
  - done.
Qed.

Lemma alone_finally a v : alone (finally (Some a)) (mkWorld v [] [a]) = Ok (mkWorld v [] []).
Proof. cbn. by rewrite decide_True by done. Qed.

(** An action that is a step of the server, whatever is held. *)
Definition lifts {A} (m : M world A) (m' : M server A) : Prop :=
  ∀ v hs, m (mkWorld v [] hs) = '(x, v) ← m' v; Ok (x, mkWorld v [] hs).

Lemma in_mgr_bind {A B} (m : M manager A) (f : A → M manager B) v :
  in_mgr (m ≫= f) v = (in_mgr m ≫= λ x, in_mgr (f x)) v.
Proof.
  rewrite M_bind_unfold. unfold in_mgr. rewrite M_bind_unfold.
  by destruct (m (mgr v)) as [[x g]|].
Qed.

Lemma in_mgr_lift {A} (o : outcome A) v : in_mgr (lift o) v = lift o v.
Proof. unfold in_mgr, lift. destruct o; [|done]. by destruct v. Qed.

Lemma lifts_server {A} (m : M server A) : lifts (in_server m) m.
Proof. done. Qed.
Lemma lifts_manager {A} (m : M manager A) : lifts (in_manager m) (in_mgr m).
Proof. done. Qed.
Lemma lifts_on_obj a f : lifts (on_obj a f) (in_mgr (on_conn a f)).
Proof. done. Qed.

Lemma lifts_use a : lifts (use a) (in_mgr (conn a)).
Proof.
  intros [g db ps] hs. unfold use, obj, in_mgr, conn. cbn.
  by destruct (m_find a (connections_ g)).
Qed.

Lemma lifts_lift {A} (o : outcome A) : lifts (lift o) (in_mgr (lift o)).
Proof. intros v hs. rewrite in_mgr_lift. unfold lift. by destruct o. Qed.

Lemma lifts_bind {A B} m m' (f : A → M world B) f' :
  lifts m (in_mgr m') → (∀ x, lifts (f x) (in_mgr (f' x))) →
  lifts (m ≫= f) (in_mgr (m' ≫= f')).
Proof.
  intros Hm Hf v hs. rewrite in_mgr_bind, !M_bind_unfold, Hm.
  destruct (in_mgr m' v) as [[x v']|]; [|done]. apply Hf.
Qed.

(** What a request executed in one step leaves, with nothing held any more. *)
Definition after {A} (o : outcome (A * server)) : outcome world :=
  (λ r, mkWorld r.2 [] []) <$> o.

(** The first action of a program and the first step of a handler are the same. *)
Definition runs_as {A} (hs : list Z) (p : prog) (v : server) (m : M server A) : Prop :=
  alone p (mkWorld v [] hs) = after (m v).

Lemma runs_bind {A B} hs k (m : M world A) (m' : M server A) (rest : A → prog) v
    (f : A → M server B) :
  lifts m m' → (∀ x v', m' v = Ok (x, v') → runs_as hs (rest x) v' (f x)) →
  runs_as hs (act k m rest) v (m' ≫= f).
Proof.
  intros E Hr. unfold runs_as. rewrite alone_act, E, M_bind_unfold.
  destruct (m' v) as [[x v']|]; [|done]. by apply Hr.
Qed.

Lemma runs_ext {A} hs p v (m m' : M server A) :
  m v = m' v → runs_as hs p v m → runs_as hs p v m'.
Proof. unfold runs_as. by intros ->. Qed.

(** Reading changes nothing. *)
Lemma runs_read {A B} hs k (m : M world A) (rest : A → prog) v (f : M server B) x :
  m (mkWorld v [] hs) = Ok (x, mkWorld v [] hs) → runs_as hs (rest x) v f →
  runs_as hs (act k m rest) v f.
Proof. intros E. unfold runs_as. by rewrite alone_act, E. Qed.

Lemma runs_locked {A} a body v (m : M server A) :
  alive (mgr v) a = true → runs_as [a] (body (Some a)) v m → runs_as [] (locked a body) v m.
Proof. intros Ha. unfold runs_as. by rewrite alone_locked, Ha. Qed.

Lemma runs_finally a v : runs_as [a] (finally (Some a)) v (mret tt).
Proof. apply alone_finally. Qed.

Lemma runs_reply {A} a code r rest v (f : M server A) :
  (∀ v', answer a code r v = Ok (tt, v') → runs_as [a] rest v' f) →
  runs_as [a] (reply_and (Some a) code r rest) v (answer a code r ≫= λ _, f).
Proof. intros Hr. apply runs_bind; [done|]. intros [] v'. apply Hr. Qed.

Lemma runs_finally_reply a code r v :
  runs_as [a] (finally_reply (Some a) code r) v (answer a code r).
Proof.
  eapply runs_ext; [|apply runs_reply; intros v' _; apply runs_finally].
  rewrite M_bind_unfold. by destruct (answer a code r v) as [[[] v']|].
Qed.

Lemma use_alive a c v hs :
  m_find a (connections_ (mgr v)) = Some c → use a (mkWorld v [] hs) = Ok (c, mkWorld v [] hs).
Proof. intros E. unfold use, obj. cbn [shared]. by rewrite E. Qed.

Lemma conn_alive a c v :
  m_find a (connections_ (mgr v)) = Some c → in_mgr (conn a) v = Ok (c, v).
Proof. intros E. unfold in_mgr, conn. rewrite E. by destruct v. Qed.

(** ** The requests about accounts *)

Lemma log_in_twice a login v :
  log_in a login v
  = (in_mgr (on_conn a (with_nickname login)) ≫= λ _, in_mgr (on_conn a (with_state logged))) v.
Proof.
  rewrite M_bind_unfold. unfold log_in, in_mgr, on_conn, modify, on_connections.
  cbn. by rewrite m_update_update.
Qed.

Lemma runs_log_in {A} a login rest v (f : M server A) :
  (∀ v', runs_as [a] rest v' f) →
  runs_as [a] (uses (Some a) (λ a, on_obj a (with_nickname login)) (λ _,
               uses (Some a) (λ a, on_obj a (with_state logged)) (λ _, rest))) v
    (log_in a login ≫= λ _, f).
Proof.
  intros Hr. eapply (runs_ext _ _ _ (in_mgr (on_conn a (with_nickname login)) ≫= λ _,
                                     (in_mgr (on_conn a (with_state logged)) ≫= λ _, f))).
  - rewrite (M_bind_unfold (log_in _ _)), log_in_twice, !M_bind_unfold.
    destruct (in_mgr (on_conn a (with_nickname login)) v) as [[[] v']|]; [|done].
    rewrite M_bind_unfold. by destruct (in_mgr _ v') as [[[] v'']|].
  - apply runs_bind; [done|]. intros [] v' _. apply runs_bind; [done|]. intros [] v'' _. apply Hr.
Qed.

Lemma signin_alone a r login password v :
  alive (mgr v) a = true →
  runs_as [] (signin_prog a r login password) v (run_signin a r login password).
Proof.
  intros Ha. apply runs_locked; [done|].
  apply runs_bind; [done|]. intros [] v' _;
    try apply runs_finally; try apply runs_finally_reply.
  apply runs_bind; [done|]. intros [] v'' _; [apply runs_finally_reply|].
  apply runs_log_in. intros v3. apply runs_finally_reply.
Qed.

Lemma signup_alone a r login password v :
  alive (mgr v) a = true →
  runs_as [] (signup_prog a r login password) v (run_signup a r login password).
Proof.
  intros Ha. apply runs_locked; [done|].
  apply runs_bind; [done|]. intros [] v' _;
    try apply runs_finally; try apply runs_finally_reply.
  apply runs_log_in. intros v3. apply runs_finally_reply.
Qed.

Lemma delete_account_alone a r v :
  alive (mgr v) a = true →
  runs_as [] (delete_account_prog a r) v (run_delete_account a r).
Proof.
  intros Ha. apply runs_locked; [done|]. apply runs_bind; [apply lifts_use|]. intros c v' _.
  apply runs_bind; [done|]. intros [] v'' _; try apply runs_finally; apply runs_finally_reply.
Qed.

(** ** Notifications *)

Lemma runs_notifies {A} a N rest v (f : M server A) (m : M manager unit) :
  m = (c ← conn a; do_notify (nickname_ (client_ c)) (N (nickname_ (client_ c)))) →
  (∀ v', runs_as [a] rest v' f) →
  runs_as [a] (notifies_others (Some a) N rest) v (in_mgr m ≫= λ _, f).
Proof.
  intros -> Hr.
  eapply (runs_ext _ _ _ (in_mgr (conn a) ≫= λ c,
    (in_mgr (do_notify (nickname_ (client_ c)) (N (nickname_ (client_ c)))) ≫= λ _, f))).
  - by rewrite <- M_bind_assoc, !(M_bind_unfold _ (λ _, f)), in_mgr_bind.
  - apply runs_bind; [apply lifts_use|]. intros c v' _. apply runs_bind; [done|].
    intros [] v'' _. apply Hr.
Qed.

(** The part of [notify_files_registration] under the mutex. *)
Definition registration_section (a : Z) (SharedBuffer : outbound) : M manager unit :=
  _ ← modify (λ s, set_processing_counter (u64 (processing_counter_ s + 1)) s);
  n ← gets processing_counter_;
  if bool_decide (n = 1) then on_conn a (with_state processing)
  else
    id ← store_shared SharedBuffer (u64 (n - 1));
    FileSystemsOfUsers ← (λ s, collect_and_share id (connections_ s) ∅ s);
    let FilesOfUsersBody := build_body_map FileSystemsOfUsers in
    _ ← start_write a
          (StringNotificationMessage notifications.FILES_OF_OTHER_USERS
             [(headers.ContentLength, to_string (Z.of_nat (length FilesOfUsersBody)));
              (headers.ContentType, CSV_MAP)] (Some FilesOfUsersBody));
    on_conn a (with_state processing).

Lemma registration_sections a g :
  notify_files_registration a g
  = ((c ← conn a; lift (registration_notification (client_ c))) ≫= registration_section a) g.
Proof.
  rewrite (M_bind_unfold (mbind _ _)), !M_bind_unfold.
  unfold notify_files_registration. rewrite M_bind_unfold.
  destruct (conn a g) as [[c g']|]; [|done]. rewrite M_bind_unfold.
  by destruct (lift _ g') as [[b g'']|].
Qed.

Lemma lifts_register_files a buf : lifts (register_files a buf) (in_mgr (registration_section a buf)).
Proof.
  repeat (apply lifts_bind; [apply lifts_manager|intros]).
  case_bool_decide; [apply lifts_on_obj|].
  repeat (apply lifts_bind; [apply lifts_manager|intros]). apply lifts_on_obj.
Qed.

Lemma runs_registers {A} a rest v (f : M server A) :
  (∀ v', runs_as [a] rest v' f) →
  runs_as [a] (registers (Some a) rest) v (in_mgr (notify_files_registration a) ≫= λ _, f).
Proof.
  intros Hr.
  eapply (runs_ext _ _ _ (in_mgr (c ← conn a; lift (registration_notification (client_ c))) ≫= λ b,
    (in_mgr (registration_section a b) ≫= λ _, f))).
  - rewrite <- M_bind_assoc, !(M_bind_unfold _ (λ _, f)), <- in_mgr_bind.
    unfold in_mgr. by rewrite registration_sections.
  - apply runs_bind.
    + apply lifts_bind; [apply lifts_use|intros c; apply lifts_lift].
    + intros b v' _. apply runs_bind; [apply lifts_register_files|]. intros [] v'' _. apply Hr.
Qed.

(** ** Trees *)

Definition put_tree (a : Z) (t : vfs) v : server :=
  mkServer (on_connections (m_update a (with_tree t)) (mgr v)) (users_db v) (posted v).

Lemma put_tree_twice a t t' v : put_tree a t (put_tree a t' v) = put_tree a t v.
Proof. unfold put_tree, on_connections. cbn. by rewrite m_update_update. Qed.

Lemma put_tree_same a c v :
  NoDup (keys (connections_ (mgr v))) → m_find a (connections_ (mgr v)) = Some c →
  put_tree a (remote_file_system_ (client_ c)) v = v.
Proof.
  intros Hn Hf. destruct v as [g db ps]. unfold put_tree, on_connections. cbn in *.
  enough (m_update a (with_tree (remote_file_system_ (client_ c))) (connections_ g) = connections_ g)
    as -> by by destruct g.
  apply m_update_id with c; [done..|]. by destruct c as [[]].
Qed.

Lemma put_tree_find a t v c :
  m_find a (connections_ (mgr v)) = Some c →
  m_find a (connections_ (mgr (put_tree a t v))) = Some (with_tree t c).
Proof. intros E. cbn. by rewrite m_find_update, E, bool_decide_eq_true_2. Qed.

Lemma put_tree_keys a t v :
  keys (connections_ (mgr (put_tree a t v))) = keys (connections_ (mgr v)).
Proof. apply keys_update. Qed.

Lemma add_path_world a Path v hs c :
  m_find a (connections_ (mgr v)) = Some c →
  add_path Path a (mkWorld v [] hs)
  = match Add PATH_SEPARATOR_CHR Path (remote_file_system_ (client_ c)) with
    | Ok t => Ok (true, mkWorld (put_tree a t v) [] hs)
    | Fault Thrown => Ok (false, mkWorld v [] hs)
    | Fault f => Fault f
    end.
Proof.
  intros E. unfold add_path. rewrite M_bind_unfold, (use_alive a c) by done.
  by destruct (Add _ _ _) as [t|[]].
Qed.

Lemma add_paths_alone a Paths r rest v c :
  NoDup (keys (connections_ (mgr v))) → m_find a (connections_ (mgr v)) = Some c →
  alone (add_paths (Some a) Paths r rest) (mkWorld v [] [a])
  = match add_all Paths (remote_file_system_ (client_ c)) with
    | (t, None) => alone rest (mkWorld (put_tree a t v) [] [a])
    | (t, Some Thrown) =>
        alone (finally_reply (Some a) responses.INTERNAL_SERVER_ERR r)
          (mkWorld (put_tree a t v) [] [a])
    | (_, Some f) => Fault f
    end.
Proof.
  revert v c. induction Paths as [|Path Paths IH]; intros v c Hn Hf; cbn [add_paths add_all].
  { by rewrite (put_tree_same _ _ _ Hn Hf). }
  rewrite alone_act. cbn [on_ptr]. rewrite (add_path_world _ _ _ _ _ Hf).
  destruct (Add _ _ _) as [t|f]; cbn [mbind outcome_bind].
  - rewrite (IH (put_tree a t v) (with_tree t c)); [|by rewrite put_tree_keys|by apply put_tree_find].
    cbn [with_tree client_ remote_file_system_].
    destruct (add_all Paths t) as [t' [[]|]]; rewrite ?put_tree_twice; done.
  - destruct f; try done. by rewrite (put_tree_same _ _ _ Hn Hf).
Qed.

Lemma push_files_alone a r Paths v :
  NoDup (keys (connections_ (mgr v))) → alive (mgr v) a = true →
  runs_as [] (push_files_prog a r Paths) v (run_push_files a r Paths).
Proof.
  intros Hn Ha. apply runs_locked; [done|].
  unfold alive in Ha. destruct (m_find a _) as [c|] eqn:Hf; [|done].
  eapply runs_read; [by apply use_alive|]. unfold runs_as, run_push_files.
  rewrite (add_paths_alone _ _ _ _ _ _ Hn Hf), M_bind_unfold, (conn_alive _ _ _ Hf).
  destruct (add_all Paths _) as [t [f|]]; rewrite M_bind_unfold;
    change (in_mgr (on_conn a (with_tree t)) v) with (Ok (tt, put_tree a t v)); cbv beta iota.
  - destruct f; cbn [caught]; try done. apply runs_finally_reply.
  - apply runs_reply. intros v' _.
    eapply runs_ext; [|apply runs_registers; intros v''; apply runs_finally].
    rewrite M_bind_unfold. by destruct (in_mgr _ v') as [[[] w]|].
Qed.

Lemma add_file_alone a r FileName v :
  NoDup (keys (connections_ (mgr v))) → alive (mgr v) a = true →
  runs_as [] (add_file_prog a r FileName) v (run_add_file a r FileName).
Proof.
  intros Hn Ha. apply runs_locked; [done|].
  unfold alive in Ha. destruct (m_find a _) as [c|] eqn:Hf; [|done].
  unfold runs_as, run_add_file.
  rewrite (add_paths_alone _ _ _ _ _ _ Hn Hf), M_bind_unfold, (conn_alive _ _ _ Hf). cbn [add_all].
  destruct (Add _ _ _) as [t|f].
  - rewrite M_bind_unfold.
    change (in_mgr (on_conn a (with_tree t)) v) with (Ok (tt, put_tree a t v)); cbv beta iota.
    apply runs_reply. intros v' _.
    eapply runs_ext; [|apply runs_notifies; [done|intros v''; apply runs_finally]].
    rewrite M_bind_unfold. by destruct (in_mgr _ v') as [[[] w]|].
  - destruct f; cbn [caught]; try done. rewrite (put_tree_same _ _ _ Hn Hf). apply runs_finally_reply.
Qed.

Definition put_disk (es : list fs_effect) v : server :=
  mkServer (on_disk (map TreeEffect es) (mgr v)) (users_db v) (posted v).

Lemma change_tree_world a f v hs c :
  m_find a (connections_ (mgr v)) = Some c →
  change_tree f a (mkWorld v [] hs)
  = match f (nickname_ (client_ c)) (remote_file_system_ (client_ c)) with
    | Ok (b, es, t) => Ok (Some b, mkWorld (put_disk es (put_tree a t v)) [] hs)
    | Fault Thrown => Ok (None, mkWorld v [] hs)
    | Fault e => Fault e
    end.
Proof.
  intros E. unfold change_tree. rewrite M_bind_unfold, (use_alive a c) by done.
  by destruct (f _ _) as [[[b es] t]|[]].
Qed.

Lemma change_path_alone a r f succes failed N (m : M manager unit) (run : M server unit) v :
  alive (mgr v) a = true →
  m = (c ← conn a; do_notify (nickname_ (client_ c)) (N (nickname_ (client_ c)))) →
  run = (c ← in_mgr (conn a);
    match f (nickname_ (client_ c)) (remote_file_system_ (client_ c)) with
    | Fault e => caught a r e
    | Ok (done, effects, t) =>
        _ ← in_mgr (on_conn a (with_tree t));
        _ ← in_mgr (modify (on_disk (map TreeEffect effects)));
        if done : bool then _ ← answer a succes r; in_mgr m else answer a failed r
    end) →
  runs_as [a] (change_path (Some a) r f succes failed N) v run.
Proof.
  intros Ha Em ->. unfold alive in Ha. destruct (m_find a _) as [c|] eqn:Hf; [|done].
  unfold runs_as, change_path. rewrite alone_uses, M_bind_unfold, (conn_alive _ _ _ Hf).
  rewrite (change_tree_world _ _ _ _ _ Hf).
  destruct (f _ _) as [[[b es] t]|e].
  - cbn [mbind outcome_bind]. rewrite M_bind_unfold.
    change (in_mgr (on_conn a (with_tree t)) v) with (Ok (tt, put_tree a t v)); cbv beta iota.
    rewrite M_bind_unfold.
    change (in_mgr (modify (on_disk (map TreeEffect es))) (put_tree a t v)) with
      (Ok (tt, put_disk es (put_tree a t v))); cbv beta iota.
    destruct b; [|apply runs_finally_reply].
    apply runs_reply. intros v' _.
    eapply runs_ext; [|apply runs_notifies; [exact Em|intros v''; apply runs_finally]].
    rewrite M_bind_unfold. by destruct (in_mgr _ v') as [[[] w]|].
  - destruct e; cbn [caught]; try done. apply runs_finally_reply.
Qed.

(** ** Logging out *)

Lemma disconnect_world a st nick v hs c :
  m_find a (connections_ (mgr v)) = Some c →
  disconnect a st nick (mkWorld v [] hs)
  = '(x, v) ← in_mgr (disconnection_section a st nick) v; Ok (x, mkWorld v [(a, c)] hs).
Proof. intros E. unfold disconnect. cbn [shared]. by rewrite E. Qed.

Lemma unlock_held a v c hs :
  a ∈ hs → unlock (Some a) (mkWorld v [(a, c)] (a :: hs)) = Ok (tt, mkWorld v [(a, c)] hs).
Proof.
  intros Hin. cbn. rewrite decide_True by done. rewrite bool_decide_eq_true_2 by done.
  by rewrite bool_decide_eq_true_2.
Qed.

Lemma unlock_last a v c :
  unlock (Some a) (mkWorld v [(a, c)] [a])
  = es ← delete_vfs PATH_SEPARATOR_CHR (nickname_ (client_ c)) (remote_file_system_ (client_ c));
    Ok (tt, mkWorld (put_disk es v) [] []).
Proof.
  unfold unlock. cbn [detached holders remove_one m_find]. rewrite decide_True by done.
  rewrite bool_decide_eq_true_2 by done. cbn [holders]. rewrite bool_decide_eq_false_2 by apply not_elem_of_nil.
  destruct (delete_vfs _ (nickname_ (client_ c)) _) as [es|]; [|done].
  unfold m_erase. cbn. by rewrite decide_False by auto.
Qed.

Lemma stop_sections a c g :
  m_find a (connections_ g) = Some c →
  stop a g
  = if conn_stopped c then Ok (tt, g)
    else
      '(_, g) ← disconnection_section a (state_ (client_ c)) (nickname_ (client_ c))
                  (on_connections (m_update a with_stopped) g);
      es ← delete_vfs PATH_SEPARATOR_CHR (nickname_ (client_ c)) (remote_file_system_ (client_ c));
      Ok (tt, on_disk (map TreeEffect es) g).
Proof.
  intros Hf. unfold stop. rewrite M_bind_unfold. unfold conn. rewrite Hf.
  destruct (conn_stopped c); [done|]. rewrite M_bind_unfold. unfold on_conn, modify at 1.
  set (g1 := on_connections _ g). rewrite M_bind_unfold.
  assert (m_find a (connections_ g1) = Some (with_stopped c)) as Hf1.
  { cbn. by rewrite m_find_update, Hf, bool_decide_eq_true_2. }
  assert (notify_disconnection a g1
          = disconnection_section a (state_ (client_ c)) (nickname_ (client_ c)) g1) as ->.
  { unfold notify_disconnection. rewrite M_bind_unfold. unfold conn. by rewrite Hf1. }
  destruct (disconnection_section _ _ _ g1) as [[[] g2]|]; [|done]. rewrite lift_bind.
  by destruct (delete_vfs _ (nickname_ (client_ c)) _) as [es|].
Qed.

Lemma logout_alone a v :
  NoDup (keys (connections_ (mgr v))) → alive (mgr v) a = true →
  runs_as [] (logout_prog a) v (in_mgr (stop a)).
Proof.
  intros Hn Ha. apply runs_locked; [done|].
  unfold alive in Ha. destruct (m_find a _) as [c|] eqn:Hf; [|done].
  set (v1 := mkServer (on_connections (m_update a with_stopped) (mgr v)) (users_db v) (posted v)).
  assert (m_find a (connections_ (mgr v1)) = Some (with_stopped c)) as Hf1.
  { cbn. by rewrite m_find_update, Hf, bool_decide_eq_true_2. }
  unfold runs_as, stop_and. rewrite alone_act, M_bind_unfold, (use_alive _ _ _ _ Hf).
  unfold in_mgr. rewrite (stop_sections _ _ _ Hf).
  rewrite M_bind_unfold. change (on_obj a with_stopped (mkWorld v [] [a])) with (Ok (tt, mkWorld v1 [] [a])).
  cbn [mret M_ret mbind outcome_bind].
  destruct (conn_stopped c) eqn:Es.
  - assert (v1 = v) as ->.
    { destruct v as [g db ps]. unfold v1, on_connections. cbn in *.
      enough (m_update a with_stopped (connections_ g) = connections_ g) as -> by by destruct g.
      apply m_update_id with c; [done..|]. by destruct c; cbn in *; subst. }
    rewrite alone_finally. by destruct v.
  - rewrite alone_act, M_bind_unfold, (use_alive _ _ _ _ Hf1). unfold lock, obj. cbn [shared].
    rewrite Hf1. cbn [mbind outcome_bind]. rewrite alone_uses, (use_alive _ _ _ _ Hf1).
    cbn [mbind outcome_bind]. rewrite alone_act, (disconnect_world _ _ _ _ _ _ Hf1).
    unfold in_mgr. cbn [with_stopped client_]. change (mgr v1) with (on_connections (m_update a with_stopped) (mgr v)).
    destruct (disconnection_section _ _ _ _) as [[[] g2]|]; [|done].
    cbn [mbind outcome_bind]. rewrite alone_act, unlock_held by left. cbn [mbind outcome_bind].
    unfold finally. rewrite alone_act, unlock_last. cbn [with_stopped client_].
    by destruct (delete_vfs _ (nickname_ (client_ c)) _) as [es|].
Qed.

(** ** Downloads *)

Lemma find_and_hold_world owner path v hs :
  find_and_hold owner path (mkWorld v [] hs)
  = r ← find_owner owner path (mgr v);
    Ok (r, mkWorld v [] (match r with Some (o, _) => o :: hs | None => hs end)).
Proof.
  unfold find_and_hold. cbn [shared]. unfold find_owner.
  destruct (m_find_if _ _) as [[o c]|] eqn:E; [|done].
  apply m_find_if_elem in E.
  assert (m_find o (connections_ (mgr v)) ≠ None) as Ho.
  { rewrite m_find_None. intros Hn. apply Hn, elem_of_keys. eauto. }
  destruct (Find _ _ _ _) as [[[] cached]|]; [|done..]. cbn [mbind outcome_bind].
  unfold lock, obj. cbn [shared]. by destruct (m_find o _).
Qed.

Lemma alone_release o a v :
  alone (act Shared (unlock (Some o)) (λ _, finally (Some a))) (mkWorld v [] [o; a])
  = Ok (mkWorld v [] []).
Proof.
  rewrite alone_act. unfold unlock at 1. cbn [detached holders remove_one m_find shared].
  rewrite decide_True by done. apply alone_finally.
Qed.

Lemma ask_owner_alone q a o compr v :
  let rest := act Shared (unlock (Some o)) (λ _, finally (Some a)) in
  runs_as [o; a] (ask_owner q a o compr rest) v (in_mgr (
    pending ← (λ s,
      let '(pending, m) :=
        IsDownloadPending (q_FileOwner q) (q_FilePath q) a compr (q_QuerryID q) (backup_requests_ s) in
      Ok (pending, set_backup m s));
    if pending : bool then mret tt
    else
      _ ← modify (λ s, set_transactions_id (u64 (DownloadTransactionsIDCounter s + 1)) s);
      id ← gets DownloadTransactionsIDCounter;
      _ ← start_write o
            (StringQuerryMessage (to_string id) querries.DOWNLOAD_FILE
               [(headers.FileName, q_FilePath q);
                (headers.SslVersion, Version GetSslVersion);
                (headers.Compressions, CSVCompressions GetSupportedCompressionsStr)]);
      let info := AddRequest a compr (q_QuerryID q)
                    (mkDownloadInfo (q_FileOwner q) (q_FilePath q) []) in
      modify (λ s, set_backup (BackupAndStartTimer id info (backup_requests_ s)) s))).
Proof.
  intros rest. unfold ask_owner. eapply runs_ext; [symmetry; apply in_mgr_bind|].
  apply runs_bind; [apply lifts_manager|]. intros [] v' _.
  - destruct v' as [g db ps]. exact (alone_release o a (mkServer g db ps)).
  - unfold runs_as. rewrite alone_act. cbn -[alone rest]. rewrite alone_act. cbn -[alone rest].
    rewrite alone_uses. cbn -[alone rest]. rewrite alone_act. cbn -[alone rest].
    subst rest. by rewrite alone_release.
Qed.

Lemma resolve_alone q a v :
  runs_as [a] (resolve_prog port d q (Some a)) v (in_mgr (resolve_download_file_querry port d q a)).
Proof.
  unfold resolve_prog, resolve_download_file_querry.
  destruct (negb _); [apply runs_finally_reply|].
  unfold runs_as. rewrite alone_act, find_and_hold_world. unfold in_mgr. rewrite M_bind_unfold.
  destruct (find_owner _ _ _) as [[[o cached]|]|] eqn:E; [| |done].
  - cbn [mbind outcome_bind]. destruct cached; cbv zeta.
    + rewrite alone_uses. unfold in_manager, in_server, in_mgr. cbn [shared detached holders].
      destruct (DeliverFileFromLocalStorage _ _ _ _ _ _ _) as [[[] g]|]; [|done].
      cbn [mbind outcome_bind]. by rewrite alone_release.
    + rewrite alone_uses. cbn [mret M_ret mbind outcome_bind].
      exact (ask_owner_alone q a o (GetCompression (q_Compressions q)) v).
  - exact (runs_finally_reply a responses.DOWNLOAD_DENY (q_QuerryID q) v).
Qed.

Lemma download_alone a i v :
  alive (mgr v) a = true →
  runs_as [] (download_file_prog port d a i) v (run_download_file port d a i).
Proof.
  intros Ha. apply runs_locked; [done|]. eapply runs_read; [done|]. apply resolve_alone.
Qed.

(** C9. Executed by a thread without interference a request does exactly what the handler
    of one step does, for every request: the same changes of the manager, the clients,
    their trees and the accounts, the same replies, notifications and effects on the
    disk, or the same fault - and the thread holds nothing any more. *)
Theorem threads_alone_atomic v j :
  NoDup (keys (connections_ (mgr v))) →
  alone (job_prog ra port d j) (mkWorld v [] [])
  = (λ r, mkWorld r.2 [] []) <$> execute ra port d j v.
Proof.
  intros Hn. destruct j as [a t]. unfold execute. cbn [job_connection job_task].
  destruct (alive (mgr v) a) eqn:Ha.
  - destruct t as [r l p|r l p|r l|r| |r f|r f|r o n|i]; cbn [job_prog job_connection job_task].
    + by apply signin_alone.
    + by apply signup_alone.
    + by apply push_files_alone.
    + by apply delete_account_alone.
    + by apply logout_alone.
    + by apply add_file_alone.
    + apply runs_locked; [done|]. by eapply change_path_alone.
    + apply runs_locked; [done|]. by eapply change_path_alone.
    + by apply download_alone.
  - destruct t as [r l p|r l p|r l|r| |r f|r f|r o n|i]; cbn [job_prog job_connection job_task];
      apply (alone_locked _ _ _) || (unfold signin_prog, signup_prog, push_files_prog,
        delete_account_prog, logout_prog, add_file_prog, remove_path_prog, remame_path_prog,
        download_file_prog; rewrite alone_locked, Ha; done).
Qed.
End alone.
