(* ===== verification/WorkersInv.v ===== *)
(** * WorkersInv: the connections while the threads interleave

    Whatever the threads of [Workers] do, a connection is there as long as a thread
    holds it, its tree is well-formed, and none is kept that nothing refers to; and an
    action completes unless it is of the few kinds [danger] lists. *)

From S2P Require Import Prelude Hoare Text Protocol Validators Vfs VfsTree VfsAdd VfsDelete.
From S2P Require Import VfsPaths VfsSpec StdMap BackupRequests DownloadManager UsersDb.
From S2P Require Import Scheduler Manager ManagerSpec ManagerFrame ManagerInv Handler.
From S2P Require Import RequestInv Workers.

Create HintDb steady.

Section invariant.
Context `{Protocol} `{BoostSplitLaws} `{SqlApi} `{!SqlThrows}.
Variables (NDEBUG : bool) (ra : str → str → str) (port : Z).
Implicit Types (g : manager) (w : world) (a : Z) (ptr : option Z) (p : prog) (hs R : list Z).

(** ** The connections of a state *)

Local Abbreviation conns w := (connections_ (mgr (shared w))).

Record world_ok w : Prop := {
  wo_keys : NoDup (keys (conns w));
  wo_trees : trees_ok (mgr (shared w));
  wo_detached_trees : ∀ a c, (a, c) ∈ detached w → tree_ok (tree_of c);
  wo_held : ∀ a, a ∈ holders w → obj a w ≠ None;
  wo_detached : ∀ a, a ∈ keys (detached w) → a ∈ holders w;
}.

Lemma obj_Some a w : obj a w ≠ None ↔ a ∈ keys (conns w) ∨ a ∈ keys (detached w).
Proof.
  unfold obj. destruct (m_find a (conns w)) as [c|] eqn:E.
  - split; [|done]. intros _. left. apply m_find_elem in E. apply elem_of_keys. eauto.
  - apply m_find_None in E. destruct (m_find a (detached w)) as [c|] eqn:E'.
    + split; [|done]. intros _. right. apply m_find_elem in E'. apply elem_of_keys. eauto.
    + apply m_find_None in E'. naive_solver.
Qed.

Lemma obj_tree a c w : world_ok w → obj a w = Some c → tree_ok (tree_of c).
Proof.
  intros Hw. unfold obj. destruct (m_find a (conns w)) as [c'|] eqn:E.
  - intros [= <-]. apply m_find_elem in E. by eapply wo_trees.
  - intros E'%m_find_elem. by eapply wo_detached_trees.
Qed.

(** An operation that changes neither who is connected nor who holds what. *)
Lemma world_ok_same w w' :
  world_ok w → keys (conns w') = keys (conns w) → keys (detached w') = keys (detached w) →
  holders w' = holders w → trees_ok (mgr (shared w')) →
  (∀ a c, (a, c) ∈ detached w' → tree_ok (tree_of c)) → world_ok w'.
Proof.
  intros [Hk Ht Hd Hh Hl] Ek Ed Eh Ht' Hd'. split; rewrite ?Ek, ?Ed, ?Eh; try done.
  intros a Ha%Hh. rewrite obj_Some in *. by rewrite Ek, Ed.
Qed.

(** ** Actions that complete *)

(** An action of a thread that holds [hs] completes; who holds what stays the same. *)
Definition steady {A} hs (m : M world A) : Prop := ∀ w,
  world_ok w → hs ⊆ holders w → ∃ x w', m w = Ok (x, w') ∧ world_ok w' ∧ holders w' = holders w.

Definition mgr_steady {A} (m : M manager A) : Prop := ∀ g,
  NoDup (keys (connections_ g)) → trees_ok g →
  ∃ x g', m g = Ok (x, g') ∧ keys (connections_ g') = keys (connections_ g) ∧ trees_ok g'.

Lemma steady_bind {A B} hs (m : M world A) (f : A → M world B) :
  steady hs m → (∀ x, steady hs (f x)) → steady hs (m ≫= f).
Proof.
  intros Hm Hf w Hw Hs. destruct (Hm w Hw Hs) as (x & w1 & E & Hw1 & E1).
  destruct (Hf x w1 Hw1) as (y & w2 & E2 & Hw2 & E3); [by rewrite E1|].
  exists y, w2. rewrite M_bind_unfold, E, E2. split_and!; [done..|congruence].
Qed.

Lemma steady_ret {A} hs (x : A) : steady hs (mret x).
Proof. intros w Hw _. by exists x, w. Qed.

Lemma steady_mgr {A} hs (m : M manager A) : mgr_steady m → steady hs (in_manager m).
Proof.
  intros Hm [v dt hd] Hw _. destruct (Hm (mgr v) (wo_keys _ Hw) (wo_trees _ Hw)) as (x & g & E & Ek & Ht).
  exists x, (mkWorld (mkServer g (users_db v) (posted v)) dt hd).
  unfold in_manager, in_server, in_mgr. cbn [shared]. rewrite E. split_and!; [done| |done].
  eapply world_ok_same; try done. apply Hw.
Qed.

Lemma steady_db {A} hs (f : database → outcome (A * database)) :
  (∀ db, is_ok (f db) = true) → steady hs (in_server (in_db f)).
Proof.
  intros Hf [v dt hd] Hw _. unfold in_server, in_db. cbn [shared].
  specialize (Hf (users_db v)). destruct (f (users_db v)) as [[x db]|]; [|done].
  eexists _, _. split_and!; [done| |done]. eapply world_ok_same; try done; apply Hw.
Qed.

Lemma steady_use hs a : a ∈ hs → steady hs (use a).
Proof.
  intros Ha w Hw Hs. unfold use. destruct (obj a w) as [c|] eqn:E; [by eexists _, _|].
  by destruct (wo_held _ Hw a (Hs _ Ha)).
Qed.

(** A change of one connection that leaves its tree well-formed. *)
Lemma steady_on_obj hs a f :
  (∀ c, tree_ok (tree_of c) → tree_ok (tree_of (f c))) → steady hs (on_obj a f).
Proof.
  intros Hf [v dt hd] Hw _. eexists _, _. split; [done|].
  assert (trees_ok (on_connections (m_update a f) (mgr v))) as Ht.
  { apply on_conn_trees; [apply Hw| |apply Hw]. intros c Hc. apply Hf.
    exact (m_find_tree _ _ _ (wo_trees _ Hw) Hc). }
  split; [|done]. eapply world_ok_same; [exact Hw|apply keys_update|apply keys_update|done|exact Ht|].
  cbn [detached]. intros b c (c0 & Hin & ->)%elem_of_m_update. apply (wo_detached_trees _ Hw) in Hin.
  case_bool_decide; [by apply Hf|done].
Qed.

Lemma steady_expired hs a : steady hs (expired a).
Proof. intros w Hw _. by eexists _, _. Qed.

(** *** Of the manager *)

Lemma mgr_steady_bind {A B} (m : M manager A) (f : A → M manager B) :
  mgr_steady m → (∀ x, mgr_steady (f x)) → mgr_steady (m ≫= f).
Proof.
  intros Hm Hf g Hk Ht. destruct (Hm g Hk Ht) as (x & g1 & E & Ek & Ht1).
  destruct (Hf x g1) as (y & g2 & E2 & Ek2 & Ht2); [by rewrite Ek|done|].
  exists y, g2. rewrite M_bind_unfold, E. split_and!; [done|congruence|done].
Qed.

(** An operation that leaves the connections alone. *)
Lemma mgr_steady_same {A} (m : M manager A) :
  (∀ g, ∃ x g', m g = Ok (x, g') ∧ connections_ g' = connections_ g) → mgr_steady m.
Proof.
  intros Hm g Hk Ht. destruct (Hm g) as (x & g' & E & Ec). exists x, g'. split; [done|].
  split; [by rewrite Ec|]. intros a c. rewrite Ec. apply Ht.
Qed.

Lemma mgr_steady_modify f :
  (∀ g, connections_ (f g) = connections_ g) → mgr_steady (modify f).
Proof. intros Hf. apply mgr_steady_same. intros g. eexists _, _. by split; [|apply Hf]. Qed.

Lemma mgr_steady_gets {A} (f : manager → A) : mgr_steady (gets f).
Proof. apply mgr_steady_same. intros g. by eexists _, _. Qed.

Lemma mgr_steady_ret {A} (x : A) : mgr_steady (mret x).
Proof. apply mgr_steady_same. intros g. by eexists _, _. Qed.

Lemma mgr_steady_write a m : mgr_steady (start_write a m).
Proof. by apply mgr_steady_modify. Qed.

Lemma mgr_steady_store b n : mgr_steady (store_shared b n).
Proof. apply mgr_steady_same. intros g. by eexists _, _. Qed.

Lemma mgr_steady_share id P : mgr_steady (share id P).
Proof. apply mgr_steady_same. intros g. rewrite share_spec. by eexists _, _. Qed.

Lemma mgr_steady_notify nick m : mgr_steady (do_notify nick m).
Proof. apply mgr_steady_same. intros g. destruct (do_notify_total nick m g) as (g' & E & Ec & _). eauto. Qed.

Lemma mgr_steady_deliver d a c r path : mgr_steady (DeliverFileFromLocalStorage port d a c r path).
Proof.
  apply mgr_steady_same. intros g. unfold DeliverFileFromLocalStorage.
  destruct (BeginUploadTransaction _ _ _ _ _) as [[[[] c'] id] dm]; [|by eexists _, _].
  destruct (file_size _ _); by eexists _, _.
Qed.

Lemma mgr_steady_write_done BufferID : mgr_steady (notify_shared_write_done NDEBUG BufferID).
Proof.
  apply mgr_steady_same. intros g. unfold notify_shared_write_done. rewrite M_bind_unfold.
  cbn [modify]. rewrite M_bind_unfold. cbn [gets].
  match goal with |- context [m_find BufferID ?m] => destruct (m_find BufferID m) as [[b [|n|n]]|] eqn:E end;
    try (by eexists _, _).
  unfold cassert. destruct NDEBUG; [by eexists _, _|]. cbn [mbind outcome_bind]. rewrite M_bind_unfold.
  rewrite E. by eexists _, _.
Qed.

#[local] Hint Resolve steady_ret steady_mgr steady_db steady_use steady_on_obj steady_expired
  mgr_steady_gets mgr_steady_ret mgr_steady_write mgr_steady_store mgr_steady_share
  mgr_steady_notify mgr_steady_deliver mgr_steady_write_done : steady.

Lemma steady_answer hs a code r : steady hs (in_server (answer a code r)).
Proof. exact (steady_mgr hs (start_write a (reply code r)) (mgr_steady_write a _)). Qed.
#[local] Hint Resolve steady_answer : steady.

Lemma mgr_steady_collect id : mgr_steady (λ g, collect_and_share id (connections_ g) ∅ g).
Proof.
  intros g Hk Ht. destruct (collect_total id (connections_ g) ∅ g Ht) as (r & g' & E).
  exists r, g'. split; [done|]. by apply collect_and_share_spec in E as ->.
Qed.
#[local] Hint Resolve mgr_steady_collect : steady.

Lemma steady_register hs a buf : steady hs (register_files a buf).
Proof.
  unfold register_files. apply steady_bind; [apply steady_mgr; by apply mgr_steady_modify|].
  intros _. apply steady_bind; [auto with steady|]. intros n.
  case_bool_decide; [by apply steady_on_obj|].
  do 3 (apply steady_bind; [auto with steady|intros ?]). by apply steady_on_obj.
Qed.

Lemma steady_registration hs a :
  a ∈ hs → steady hs (c ← use a; lift (registration_notification (client_ c))).
Proof.
  intros Ha w Hw Hs. rewrite M_bind_unfold. unfold use. destruct (obj a w) as [c|] eqn:E.
  - destruct (registration_notification_ok (client_ c)) as [b Eb]; [by eapply obj_tree|].
    unfold lift. rewrite Eb. by eexists _, _.
  - by destruct (wo_held _ Hw a (Hs _ Ha)).
Qed.

Lemma steady_add_path hs a Path : a ∈ hs → ∀ w, world_ok w → hs ⊆ holders w →
  match obj a w with
  | Some c =>
      if add_undefined PATH_SEPARATOR_CHR Path (tree_of c)
      then add_path Path a w = Fault UndefinedBehaviour
      else ∃ x w', add_path Path a w = Ok (x, w') ∧ world_ok w' ∧ holders w' = holders w
  | None => False
  end.
Proof.
  intros Ha w Hw Hs. destruct (obj a w) as [c|] eqn:E; [|by destruct (wo_held _ Hw a (Hs _ Ha))].
  unfold add_path. rewrite M_bind_unfold. unfold use. rewrite E. fold (tree_of c).
  pose proof (Add_undefined_ok PATH_SEPARATOR_CHR Path (tree_of c) (obj_tree _ _ _ Hw E)) as HA.
  destruct (add_undefined PATH_SEPARATOR_CHR Path (tree_of c)); [by rewrite HA|].
  destruct HA as (t & -> & Ht).
  apply (steady_bind hs (on_obj a (with_tree t)) (λ _, mret true)); auto with steady.
Qed.

(** What [Remove] and [Rename] do to a tree. *)
Definition tree_change (f : str → vfs → outcome (bool * list fs_effect * vfs)) : Prop :=
  ∀ nick t, tree_ok t → ∃ b es t', f nick t = Ok (b, es, t') ∧ tree_ok t'.

Lemma steady_change_tree hs a f : a ∈ hs → tree_change f → steady hs (change_tree f a).
Proof.
  intros Ha Hf w Hw Hs. unfold change_tree. rewrite M_bind_unfold. unfold use.
  destruct (obj a w) as [c|] eqn:E; [|by destruct (wo_held _ Hw a (Hs _ Ha))].
  destruct (Hf (nickname_ (client_ c)) (tree_of c) (obj_tree _ _ _ Hw E)) as (b & es & t & Ef & Ht).
  unfold tree_of in Ef. rewrite Ef. revert w Hw Hs E.
  enough (steady hs (_ ← on_obj a (with_tree t);
                     _ ← in_manager (modify (on_disk (map TreeEffect es))); mret (Some b))) as Hst.
  { intros w Hw Hs _. exact (Hst w Hw Hs). }
  apply steady_bind; [auto with steady|]. intros _.
  apply steady_bind; [apply steady_mgr; by apply mgr_steady_modify|]. auto with steady.
Qed.

Lemma Remove_change Path : tree_change (λ nick v, Vfs.Remove PATH_SEPARATOR_CHR nick Path v).
Proof.
  intros nick t [t0 Hr]. pose proof (perform_repr PATH_SEPARATOR_CHR nick ra t t0 (RRemove Path) Hr) as HP.
  cbn [perform] in HP. destruct (Vfs.Remove _ _ _ _) as [[[b es] t']|]; cbn in HP.
  - by exists b, es, t'.
  - by destruct HP as (_ & ? & [=] & _).
Qed.

Lemma Rename_change Path NewPath :
  tree_change (λ nick v, Rename PATH_SEPARATOR_CHR nick ra Path NewPath v).
Proof.
  intros nick t [t0 Hr].
  pose proof (perform_repr PATH_SEPARATOR_CHR nick ra t t0 (RRename Path NewPath) Hr) as HP.
  cbn [perform] in HP. destruct (Rename _ _ _ _ _ _) as [[[b es] t']|]; cbn in HP.
  - by exists b, es, t'.
  - by destruct HP as (_ & ? & [=] & _).
Qed.

(** ** Actions that take or give up a connection *)

Lemma lock_spec a w : world_ok w →
  lock a w = Ok (None, w)
  ∨ ∃ w', lock a w = Ok (Some a, w') ∧ world_ok w' ∧ holders w' = a :: holders w.
Proof.
  intros [Hk Ht Hd Hh Hl]. unfold lock. destruct (obj a w) as [c|] eqn:E; [right|by left].
  eexists. split; [done|]. split; [|done]. split; cbn; try done.
  - intros b [->|Hb]%elem_of_cons; [|by apply Hh]. unfold obj in *. cbn. by rewrite E.
  - intros b Hb. right. by apply Hl.
Qed.

Lemma lock_held a w : world_ok w → a ∈ holders w →
  ∃ w', lock a w = Ok (Some a, w') ∧ world_ok w' ∧ holders w' = a :: holders w.
Proof.
  intros Hw Ha. destruct (lock_spec a w Hw) as [E|]; [|done]. unfold lock in E.
  destruct (obj a w) eqn:Eo; [done|by destruct (wo_held _ Hw a Ha)].
Qed.

Lemma unlock_spec a R w : world_ok w → holders w ≡ₚ a :: R →
  ∃ w', unlock (Some a) w = Ok (tt, w') ∧ world_ok w' ∧ holders w' ≡ₚ R.
Proof.
  intros Hw Hp. assert (a ∈ holders w) as Ha by (rewrite Hp; left).
  assert (remove_one a (holders w) ≡ₚ R) as HR.
  { apply (Permutation_cons_inv (a := a)). rewrite <- remove_one_perm by done. done. }
  unfold unlock. set (w1 := mkWorld (shared w) (detached w) (remove_one a (holders w))).
  destruct Hw as [Hk Ht Hd Hh Hl].
  assert (∀ b, b ∈ holders w1 → obj b w1 ≠ None) as Hh1.
  { intros b Hb. apply remove_one_in in Hb. exact (Hh b Hb). }
  assert (∀ b, b ∈ keys (detached w) → b ∈ holders w1 ∨ b = a) as Hl1.
  { intros b Hb. destruct (decide (b = a)); [by right|left]. by apply remove_one_other, Hl. }
  cbn [detached w1]. destruct (m_find a (detached w)) as [c|] eqn:E.
  - case_bool_decide as Hin.
    + exists w1. split; [done|]. split; [|done]. split; try done.
      intros b Hb. destruct (Hl1 b Hb) as [?| ->]; done.
    + destruct (delete_vfs_ok (nickname_ (client_ c)) (tree_of c)) as [es Ees].
      { apply m_find_elem in E. by eapply Hd. }
      unfold tree_of in Ees. rewrite Ees. eexists. split; [done|]. split; [|done]. split; cbn.
      * done.
      * done.
      * intros b x [_ Hb]%elem_of_m_erase. by eapply Hd.
      * intros b Hb. specialize (Hh1 b Hb). rewrite obj_Some in *. cbn in *.
        destruct Hh1 as [|Hb1]; [by left|right]. apply elem_of_keys_erase. split; [|done].
        intros ->. done.
      * intros b [Hne Hb]%elem_of_keys_erase. by destruct (Hl1 b Hb).
  - exists w1. split; [done|]. split; [|done]. split; try done.
    intros b Hb. destruct (Hl1 b Hb) as [?| ->]; [done|]. by apply m_find_None in E.
Qed.

(** The critical section of [notify_disconnection] completes. *)
Lemma disconnection_total a st nick g :
  ∃ g', disconnection_section a st nick g = Ok (tt, g')
   ∧ connections_ g' = m_erase a (connections_ g).
Proof.
  unfold disconnection_section. rewrite M_bind_unfold. cbn [modify].
  case_bool_decide; rewrite M_bind_unfold; [|by eexists].
  rewrite M_bind_unfold. cbn [modify]. rewrite M_bind_unfold. cbn [gets].
  case_bool_decide; [by eexists|]. rewrite M_bind_unfold. unfold store_shared. cbv beta zeta.
  rewrite M_bind_unfold, share_spec. by eexists.
Qed.

Lemma disconnect_spec a st nick w : world_ok w → a ∈ holders w →
  ∃ w', disconnect a st nick w = Ok (tt, w') ∧ world_ok w' ∧ holders w' = holders w.
Proof.
  intros Hw Ha. unfold disconnect.
  match goal with |- context [in_manager _ ?w1] => set (w1' := w1) end.
  assert (shared w1' = shared w ∧ holders w1' = holders w
    ∧ (∀ b c, (b, c) ∈ detached w1' → tree_ok (tree_of c))
    ∧ (∀ b, b ∈ keys (detached w1') → b ∈ holders w)
    ∧ (∀ b, b ∈ keys (detached w) → b ∈ keys (detached w1'))
    ∧ a ∈ keys (detached w1')) as (E1 & E2 & Hd & Hl & Hsub & Hin).
  { unfold w1'. destruct (m_find a (conns w)) as [c|] eqn:E; cbn [shared detached holders].
    - split_and!; try done.
      + intros b x. rewrite m_insert_perm. intros [ [= -> ->] |Hb]%elem_of_cons.
        * exact (m_find_tree _ _ _ (wo_trees _ Hw) E).
        * by eapply wo_detached_trees.
      + intros b. rewrite elem_of_keys. intros [x Hx]. rewrite m_insert_perm in Hx.
        apply elem_of_cons in Hx as [ [= -> ->] |Hx]; [done|]. apply (wo_detached _ Hw), elem_of_keys; eauto.
      + intros b. rewrite !elem_of_keys. intros [x Hx]. exists x. rewrite m_insert_perm. by right.
      + apply elem_of_keys. exists c. rewrite m_insert_perm. left.
    - split_and!; try done; [apply Hw..|]. pose proof (wo_held _ Hw a Ha) as Ho.
      apply obj_Some in Ho as [Ho|]; [|done]. by apply m_find_None in E. }
  clearbody w1'. destruct w1' as [v dt hd]. cbn [shared detached holders] in *. subst v hd.
  unfold in_manager, in_server, in_mgr. cbn [shared].
  destruct (disconnection_total a st nick (mgr (shared w))) as (g' & E & Ec). rewrite E.
  eexists. split; [done|]. split; [|done]. split; cbn.
  - rewrite Ec. apply keys_erase_NoDup, Hw.
  - intros b c. rewrite Ec. intros [_ Hb]%elem_of_m_erase. by eapply (wo_trees _ Hw).
  - done.
  - intros b Hb. rewrite obj_Some. cbn. rewrite Ec, elem_of_keys_erase.
    pose proof (wo_held _ Hw b Hb) as Ho. apply obj_Some in Ho.
    destruct (decide (b = a)) as [->|]; naive_solver.
  - done.
Qed.

Lemma find_and_hold_spec owner path w : world_ok w →
  ∃ r w', find_and_hold owner path w = Ok (r, w') ∧ world_ok w'
    ∧ holders w' = match r with Some (o, _) => o :: holders w | None => holders w end.
Proof.
  intros Hw. unfold find_and_hold, find_owner.
  destruct (m_find_if _ _) as [[o c]|] eqn:E; [|by eexists _, _].
  apply m_find_if_elem in E. destruct (Find_ok (tree_of c) path false) as [[found cached] Ef].
  { by eapply (wo_trees _ Hw). }
  unfold tree_of in Ef. rewrite Ef. cbn [mbind outcome_bind].
  destruct found; [|by eexists _, _]. unfold lock.
  assert (obj o w ≠ None) as Ho. { apply obj_Some. left. apply elem_of_keys. eauto. }
  destruct (obj o w) as [c'|] eqn:Eo; [|done]. cbn [mbind outcome_bind]. eexists _, _. split; [done|].
  split; [|done]. destruct Hw as [Hk Ht Hd Hh Hl]. split; cbn; try done.
  - intros b [->|Hb]%elem_of_cons; [|by apply Hh]. unfold obj in *. cbn. by rewrite Eo.
  - intros b Hb. right. by apply Hl.
Qed.

(** ** Programs that keep the rules *)

(** The actions that do not complete: a null pointer is used, the path can not be added to
    the tree as it is ([add_undefined]), or the object is gone. *)
Definition danger (k : access) w : bool :=
  match k with
  | Uses None | AddsPath None _ => true
  | AddsPath (Some a) Path =>
      match obj a w with
      | Some c => add_undefined PATH_SEPARATOR_CHR Path (tree_of c)
      | None => true
      end
  | Raw a => bool_decide (obj a w = None)
  | Uses (Some _) | Shared => false
  end.

(** [safe hs p]: the thread holds [hs], and in any good state, whatever [R] the others
    hold, [p] makes a step as [danger] foresees; at its end it holds nothing. *)
Inductive safe : list Z → prog → Prop :=
  | safe_ends : safe [] Ends
  | safe_does hs k m :
      (∀ w R, world_ok w → holders w ≡ₚ hs ++ R →
         (danger k w = true → m w = Fault UndefinedBehaviour)
         ∧ (danger k w = false → ∃ p w' hs',
              m w = Ok (p, w') ∧ world_ok w' ∧ holders w' ≡ₚ hs' ++ R ∧ safe hs' p)) →
      safe hs (Does k m).

Lemma safe_act {A} hs k (m : M world A) (rest : A → prog) (Q : A → list Z → Prop) :
  (∀ w R, world_ok w → holders w ≡ₚ hs ++ R →
     (danger k w = true → m w = Fault UndefinedBehaviour)
     ∧ (danger k w = false → ∃ x w' hs',
          m w = Ok (x, w') ∧ world_ok w' ∧ holders w' ≡ₚ hs' ++ R ∧ Q x hs')) →
  (∀ x hs', Q x hs' → safe hs' (rest x)) → safe hs (act k m rest).
Proof.
  intros Hm Hr. constructor. intros w R Hw HR. destruct (Hm w R Hw HR) as [Hf Hc]. split.
  - intros Hd. by rewrite Hf.
  - intros Hd. destruct (Hc Hd) as (x & w' & hs' & E & Hw' & HR' & HQ).
    exists (rest x), w', hs'. rewrite E. split_and!; auto.
Qed.

Lemma held_sub w hs R : holders w ≡ₚ hs ++ R → hs ⊆ holders w.
Proof. intros -> a. rewrite elem_of_app. by left. Qed.

Lemma safe_shared {A} hs (m : M world A) (rest : A → prog) :
  steady hs m → (∀ x, safe hs (rest x)) → safe hs (act Shared m rest).
Proof.
  intros Hm Hr. apply (safe_act _ _ _ _ (λ _ hs', hs' = hs)); [|by intros x ? ->].
  intros w R Hw HR. split; [done|]. intros _.
  destruct (Hm w Hw (held_sub _ _ _ HR)) as (x & w' & E & Hw' & E'). exists x, w', hs.
  by rewrite E'.
Qed.

(** The pointer a thread got from a [weak_ptr]. *)
Definition got ptr hs : Prop := match ptr with Some a => a ∈ hs | None => True end.

Lemma safe_uses {A} hs ptr (m : Z → M world A) (rest : A → prog) :
  got ptr hs → (∀ a, a ∈ hs → steady hs (m a)) → (∀ x, safe hs (rest x)) →
  safe hs (uses ptr m rest).
Proof.
  intros Hg Hm Hr. apply (safe_act _ _ _ _ (λ _ hs', hs' = hs)); [|by intros x ? ->].
  intros w R Hw HR. destruct ptr as [a|]; cbn [danger]; split; try done. intros _.
  destruct (Hm a Hg w Hw (held_sub _ _ _ HR)) as (x & w' & E & Hw' & E'). exists x, w', hs.
  by rewrite E'.
Qed.

Lemma safe_finally ptr : safe (option_list ptr) (finally ptr).
Proof.
  apply (safe_act _ _ _ _ (λ _ hs', hs' = [])); [|by intros x ? ->; constructor].
  intros w R Hw HR. split; [done|]. intros _. destruct ptr as [a|]; cbn [option_list app] in HR.
  - destruct (unlock_spec a R w Hw HR) as (w' & E & Hw' & HR'). by exists tt, w', [].
  - by exists tt, w, [].
Qed.

Lemma got_own ptr : got ptr (option_list ptr).
Proof. destruct ptr; [left|done]. Qed.
#[local] Hint Resolve got_own safe_finally : steady.

Lemma safe_locked a body : (∀ ptr, safe (option_list ptr) (body ptr)) → safe [] (locked a body).
Proof.
  intros Hb. unfold locked. apply safe_shared; [apply steady_expired|]. intros [|]; [constructor|].
  apply (safe_act _ _ _ _ (λ ptr hs', hs' = option_list ptr)); [|by intros ptr ? ->].
  intros w R Hw HR. split; [done|]. intros _.
  destruct (lock_spec a w Hw) as [E|(w' & E & Hw' & E')].
  - by exists None, w, [].
  - exists (Some a), w', [a]. split_and!; [done..| |done]. by rewrite E', HR.
Qed.

Lemma safe_reply hs ptr code r rest :
  got ptr hs → safe hs rest → safe hs (reply_and ptr code r rest).
Proof. intros Hg Hr. apply safe_uses; [done|intros a _; apply steady_answer|done]. Qed.

Lemma safe_finally_reply ptr code r : safe (option_list ptr) (finally_reply ptr code r).
Proof. apply safe_reply; auto with steady. Qed.
#[local] Hint Resolve safe_finally_reply safe_reply : steady.

(** ** The handlers *)

Lemma operations_ok u db :
  is_ok (retrieve_user u db) = true ∧ is_ok (register_user u db) = true
  ∧ is_ok (erase_user u db) = true.
Proof. apply operations_return. Qed.

Lemma safe_log_in ptr hs login rest : got ptr hs → safe hs rest →
  safe hs (uses ptr (λ a, on_obj a (with_nickname login)) (λ _,
           uses ptr (λ a, on_obj a (with_state logged)) (λ _, rest))).
Proof.
  intros Hg Hr. apply safe_uses; [done|intros a _; by apply steady_on_obj|]. intros _.
  by apply safe_uses; [done|intros a _; apply steady_on_obj|].
Qed.

Lemma safe_signin a r login password : safe [] (signin_prog a r login password).
Proof.
  apply safe_locked. intros ptr. apply safe_shared; [apply steady_db; intros; apply operations_ok|].
  intros []; auto with steady. apply safe_uses; [auto with steady|intros b _; auto with steady|].
  intros []; [auto with steady|]. apply safe_log_in; auto with steady.
Qed.

Lemma safe_signup a r login password : safe [] (signup_prog a r login password).
Proof.
  apply safe_locked. intros ptr. apply safe_shared; [apply steady_db; intros; apply operations_ok|].
  intros []; auto with steady. apply safe_log_in; auto with steady.
Qed.

Lemma safe_delete_account a r : safe [] (delete_account_prog a r).
Proof.
  apply safe_locked. intros ptr. apply safe_uses; [auto with steady..|]. intros c.
  apply safe_shared; [apply steady_db; intros; apply operations_ok|]. intros []; auto with steady.
Qed.

(** [stop], by a thread that holds the connection or runs a completion handler of it. *)
Lemma safe_stop k a hs rest :
  (k = Uses (Some a) ∧ a ∈ hs) ∨ k = Raw a → safe hs rest → safe hs (stop_and k a rest).
Proof.
  intros Hk Hr.
  assert (∀ w R, world_ok w → holders w ≡ₚ hs ++ R → danger k w = false → obj a w ≠ None) as Hobj.
  { intros w R Hw HR Hd. destruct Hk as [[-> Ha]| ->]; cbn in Hd.
    - apply (wo_held _ Hw), (held_sub _ _ _ HR), Ha.
    - by apply bool_decide_eq_false in Hd. }
  assert (∀ w R, world_ok w → holders w ≡ₚ hs ++ R → danger k w = true → obj a w = None) as Hgone.
  { intros w R Hw HR Hd. destruct Hk as [[-> Ha]| ->]; cbn in Hd; [done|].
    by apply bool_decide_eq_true in Hd. }
  apply (safe_act _ _ _ _ (λ _ hs', hs' = hs)).
  { intros w R Hw HR. split; intros Hd; rewrite M_bind_unfold; unfold use.
    - by rewrite (Hgone w R).
    - specialize (Hobj w R Hw HR Hd). destruct (obj a w) as [c|] eqn:E; [|done].
      assert (steady [] (_ ← on_obj a with_stopped; mret (conn_stopped c))) as Hst.
      { apply steady_bind; [by apply steady_on_obj|]. intros ?; apply steady_ret. }
      destruct (Hst w Hw) as (x & w' & Ex & Hw' & E'); [by intros ? ?%not_elem_of_nil|].
      exists x, w', hs. by rewrite E'. }
  intros [] hs' ->; [done|].
  apply (safe_act _ _ _ _ (λ this hs', this = Some a ∧ hs' = a :: hs)).
  { intros w R Hw HR. split; intros Hd; rewrite M_bind_unfold; unfold use.
    - by rewrite (Hgone w R).
    - specialize (Hobj w R Hw HR Hd). destruct (obj a w) as [c|] eqn:E; [|done].
      destruct (lock_spec a w Hw) as [El|(w' & El & Hw' & E')].
      + unfold lock in El. by rewrite E in El.
      + rewrite El. exists (Some a), w', (a :: hs). split_and!; try done.
        by rewrite E', HR. }
  intros this hs' [-> ->].
  apply safe_uses; [left|intros b Hb; by apply steady_use|]. intros c.
  apply (safe_act _ _ _ _ (λ _ hs', hs' = a :: hs)).
  { intros w R Hw HR. split; [done|]. intros _.
    destruct (disconnect_spec a (state_ (client_ c)) (nickname_ (client_ c)) w Hw) as (w' & E & Hw' & E').
    { rewrite HR. left. }
    exists tt, w', (a :: hs). by rewrite E'. }
  intros _ hs' ->.
  apply (safe_act _ _ _ _ (λ _ hs', hs' = hs)); [|by intros _ hs' ->].
  intros w R Hw HR. split; [done|]. intros _.
  destruct (unlock_spec a (hs ++ R) w Hw HR) as (w' & E & Hw' & HR'). by exists tt, w', hs.
Qed.

Lemma safe_logout a : safe [] (logout_prog a).
Proof.
  apply safe_locked. intros [b|].
  - apply safe_stop; [left; split; [done|left]|]. apply (safe_finally (Some b)).
  - apply safe_uses; [done|intros; apply steady_ret|]. constructor.
Qed.

Lemma safe_notifies ptr hs N rest : got ptr hs → safe hs rest → safe hs (notifies_others ptr N rest).
Proof.
  intros Hg Hr. apply safe_uses; [done|intros; by apply steady_use|]. intros c.
  apply safe_shared; auto with steady.
Qed.

Lemma safe_registers ptr hs rest : got ptr hs → safe hs rest → safe hs (registers ptr rest).
Proof.
  intros Hg Hr. apply safe_uses; [done|intros; by apply steady_registration|]. intros buf.
  apply safe_uses; [done|intros; apply steady_register|done].
Qed.
#[local] Hint Resolve safe_notifies safe_registers : steady.

Lemma safe_add_paths ptr Paths r rest :
  safe (option_list ptr) rest → safe (option_list ptr) (add_paths ptr Paths r rest).
Proof.
  intros Hr. induction Paths as [|Path Paths IH]; cbn [add_paths]; [done|].
  apply (safe_act _ _ _ _ (λ _ hs', hs' = option_list ptr)).
  - intros w R Hw HR. destruct ptr as [a|]; cbn [danger on_ptr]; [|done].
    pose proof (steady_add_path [a] a Path) as Hs. specialize (Hs ltac:(left) w Hw (held_sub _ _ _ HR)).
    destruct (obj a w) as [c|]; [|done]. destruct (add_undefined _ _ _); [done|]. split; [done|]. intros _.
    destruct Hs as (x & w' & E & Hw' & E'). exists x, w', [a]. by rewrite E'.
  - intros [] hs' ->; [done|apply safe_finally_reply].
Qed.

Lemma safe_push_files a r Paths : safe [] (push_files_prog a r Paths).
Proof.
  apply safe_locked. intros ptr. apply safe_uses; [auto with steady..|]. intros _.
  apply safe_add_paths. auto with steady.
Qed.

Lemma safe_add_file a r FileName : safe [] (add_file_prog a r FileName).
Proof. apply safe_locked. intros ptr. apply safe_add_paths. auto with steady. Qed.

Lemma safe_change_path ptr r f succes failed N :
  tree_change f → safe (option_list ptr) (change_path ptr r f succes failed N).
Proof.
  intros Hf. apply safe_uses; [auto with steady|intros; by apply steady_change_tree|].
  intros [[]|]; auto with steady.
Qed.

(** *** Downloads *)

Lemma safe_ask_owner q ptr a o compr :
  safe (o :: option_list ptr)
    (ask_owner q a o compr (act Shared (unlock (Some o)) (λ _, finally ptr))).
Proof.
  set (rest := act _ _ _). assert (safe (o :: option_list ptr) rest) as Hr.
  { apply (safe_act _ _ _ _ (λ _ hs', hs' = option_list ptr)); [|intros _ hs' ->; apply safe_finally].
    intros w R Hw HR. split; [done|]. intros _.
    destruct (unlock_spec o (option_list ptr ++ R) w Hw HR) as (w' & E & Hw' & HR').
    by exists tt, w', (option_list ptr). }
  clearbody rest. apply safe_shared.
  { apply steady_mgr, mgr_steady_same. intros g. destruct (IsDownloadPending _ _ _ _ _ _) as [b m].
    by eexists _, _. }
  intros []; [done|].
  apply safe_shared; [by apply steady_mgr, mgr_steady_modify|]. intros _.
  apply safe_shared; [auto with steady|]. intros id.
  apply safe_uses; [left|auto with steady|]. intros _.
  apply safe_shared; [by apply steady_mgr, mgr_steady_modify|done].
Qed.

Lemma safe_resolve d q ptr : safe (option_list ptr) (resolve_prog port d q ptr).
Proof.
  unfold resolve_prog. destruct (negb _); [apply safe_finally_reply|].
  apply (safe_act _ _ _ _ (λ r hs', hs' = match r with Some (o, _) => o :: option_list ptr
                                              | None => option_list ptr end)).
  { intros w R Hw HR. split; [done|]. intros _.
    destruct (find_and_hold_spec (q_FileOwner q) (q_FilePath q) w Hw) as (r & w' & E & Hw' & E').
    exists r, w', (match r with Some (o, _) => o :: option_list ptr | None => option_list ptr end).
    split_and!; [done..| |done]. rewrite E'. destruct r as [[o cached]|]; cbn; by rewrite HR. }
  intros [[o cached]|] hs' ->; [|apply safe_finally_reply]. cbv zeta. destruct cached.
  - apply safe_uses; [destruct ptr; [apply elem_of_cons; right; left|done]|auto with steady|]. intros _.
    apply (safe_act _ _ _ _ (λ _ hs', hs' = option_list ptr)); [|intros _ hs' ->; apply safe_finally].
    intros w R Hw HR. split; [done|]. intros _.
    destruct (unlock_spec o (option_list ptr ++ R) w Hw HR) as (w' & E & Hw' & HR').
    by exists tt, w', (option_list ptr).
  - apply safe_uses; [destruct ptr; [apply elem_of_cons; right; left|done]|auto with steady|]. intros a.
    apply safe_ask_owner.
Qed.

Lemma safe_download_file d a i : safe [] (download_file_prog port d a i).
Proof.
  apply safe_locked. intros ptr. apply safe_uses; [auto with steady..|]. intros _. apply safe_resolve.
Qed.

Lemma safe_job d j : safe [] (job_prog ra port d j).
Proof.
  destruct j as [a []]; cbn [job_prog job_task job_connection].
  - apply safe_signin.
  - apply safe_signup.
  - apply safe_push_files.
  - apply safe_delete_account.
  - apply safe_logout.
  - apply safe_add_file.
  - apply safe_locked. intros ptr. apply safe_change_path, Remove_change.
  - apply safe_locked. intros ptr. apply safe_change_path, Rename_change.
  - apply safe_download_file.
Qed.

(** *** The io thread *)

Lemma safe_stop_prog a : safe [] (stop_prog a).
Proof.
  apply safe_shared; [apply steady_expired|]. intros []; [constructor|].
  apply safe_stop; [by right|constructor].
Qed.

Lemma safe_shared_write a BufferID : safe [] (shared_write_prog NDEBUG a BufferID).
Proof.
  apply safe_shared; [by apply steady_mgr, mgr_steady_modify|]. intros _.
  apply safe_shared; [apply steady_expired|]. intros []; [constructor|].
  apply (safe_act _ _ _ _ (λ _ hs', hs' = [])); [|intros _ hs' ->; constructor].
  intros w R Hw HR. cbn [danger]. split; intros Hd; rewrite M_bind_unfold; unfold use.
  - apply bool_decide_eq_true in Hd. by rewrite Hd.
  - apply bool_decide_eq_false in Hd. destruct (obj a w) as [c|]; [|done].
    destruct (steady_mgr [] _ (mgr_steady_write_done BufferID) w Hw) as (x & w' & E & Hw' & E').
    { by intros ? ?%not_elem_of_nil. }
    exists x, w', []. by rewrite E'.
Qed.

(** ** The threads *)

(** What the threads hold, together, is what the state says is held. *)
Definition pool_good (s : pool) : Prop :=
  world_ok (world_ s) ∧ ∃ Hs Hio,
    Forall2 safe Hs (workers s) ∧ safe Hio (io s) ∧ holders (world_ s) ≡ₚ concat Hs ++ Hio.

(** What a thread does next. *)
Definition next_access (e : pool_event) (s : pool) : option access :=
  let first p := match p with Does k _ => Some k | Ends => None end in
  match e with
  | Works i => match workers s !! i with Some p => first p | None => None end
  | WorksIo => first (io s)
  | _ => None
  end.

(** A step ends as [danger] foresees, and leaves a good state. *)
Definition foreseen (e : pool_event) (s : pool) (o : outcome pool) : Prop :=
  match next_access e s with
  | Some k => if danger k (world_ s) then o = Fault UndefinedBehaviour
              else ∃ s', o = Ok s' ∧ pool_good s'
  | None => ∃ s', o = Ok s' ∧ pool_good s'
  end.

Lemma concat_insert (Hs : list (list Z)) i hs hs' R :
  Hs !! i = Some hs → concat Hs ≡ₚ hs ++ R → concat (<[i := hs']> Hs) ≡ₚ hs' ++ R.
Proof.
  intros Hi HR. rewrite insert_take_drop by by eapply lookup_lt_Some.
  rewrite <- (take_drop_middle _ _ _ Hi), concat_app in HR. rewrite concat_app. cbn in *.
  assert (concat (take i Hs) ++ concat (drop (S i) Hs) ≡ₚ R) as <-.
  { apply (Permutation_app_inv_l hs). rewrite <- HR. solve_Permutation. }
  solve_Permutation.
Qed.

Lemma concat_lookup (Hs : list (list Z)) i hs :
  Hs !! i = Some hs → ∃ R, concat Hs ≡ₚ hs ++ R.
Proof.
  intros Hi. rewrite <- (take_drop_middle _ _ _ Hi), concat_app. cbn.
  exists (concat (take i Hs) ++ concat (drop (S i) Hs)). solve_Permutation.
Qed.

Lemma safe_step hs k m w R : safe hs (Does k m) → world_ok w → holders w ≡ₚ hs ++ R →
  if danger k w then m w = Fault UndefinedBehaviour
  else ∃ p w' hs', m w = Ok (p, w') ∧ world_ok w' ∧ holders w' ≡ₚ hs' ++ R ∧ safe hs' p.
Proof.
  inversion 1 as [|? ? ? Hm]; subst. intros Hw HR. destruct (Hm w R Hw HR) as [Hf Hc].
  destruct (danger k w); auto.
Qed.

Lemma works_foreseen s i k m :
  pool_good s → workers s !! i = Some (Does k m) →
  foreseen (Works i) s ((λ r, with_worker_at i r s) <$> m (world_ s)).
Proof.
  intros (Hw & Hs & Hio & HF & HI & HP) Hi. unfold foreseen. cbn [next_access]. rewrite Hi.
  destruct (Forall2_lookup_r _ _ _ _ _ HF Hi) as (hs & Hhs & Hsafe).
  destruct (concat_lookup _ _ _ Hhs) as [R HR].
  pose proof (safe_step hs k m (world_ s) (R ++ Hio) Hsafe Hw) as Hst.
  specialize (Hst ltac:(by rewrite HP, HR, (assoc (++)))).
  destruct (danger k (world_ s)); [by rewrite Hst|].
  destruct Hst as (p & w' & hs' & E & Hw' & HP' & Hsafe'). rewrite E. eexists. split; [done|].
  split; [done|]. exists (<[i := hs']> Hs), Hio. cbn. split_and!; [by apply Forall2_insert|done|].
  by rewrite HP', (concat_insert _ _ _ hs' R Hhs HR), (assoc (++)).
Qed.

Lemma works_io_foreseen s k m :
  pool_good s → io s = Does k m →
  foreseen WorksIo s ((λ r, with_io r s) <$> m (world_ s)).
Proof.
  intros (Hw & Hs & Hio & HF & HI & HP) Hi. unfold foreseen. cbn [next_access]. rewrite Hi in HI |- *.
  pose proof (safe_step Hio k m (world_ s) (concat Hs) HI Hw) as Hst.
  specialize (Hst ltac:(by rewrite HP, Permutation_app_comm)).
  destruct (danger k (world_ s)); [by rewrite Hst|].
  destruct Hst as (p & w' & hs' & E & Hw' & HP' & Hsafe'). rewrite E. eexists. split; [done|].
  split; [done|]. exists Hs, hs'. cbn. split_and!; [done..|]. by rewrite HP', Permutation_app_comm.
Qed.

(** The io thread begins a handler. *)
Lemma io_begins s p : pool_good s → idle (io s) = true → safe [] p →
  pool_good (with_io (p, world_ s) s).
Proof.
  intros (Hw & Hs & Hio & HF & HI & HP) Hidle Hp. split; [done|]. exists Hs, []. split_and!; [done..|].
  cbn. destruct (io s); [|done]. by inversion HI; subst.
Qed.

(** A new connection. *)
Lemma connected_ok a v dt hd db ps :
  world_ok (mkWorld v dt hd) →
  world_ok (mkWorld (mkServer (on_connections (m_emplace a new_connection) (mgr v)) db ps) dt hd).
Proof.
  intros [Hk Ht Hd Hh Hl]. unfold m_emplace.
  assert (∀ b, b ∈ keys (connections_ (mgr v)) →
               b ∈ keys (m_emplace a new_connection (connections_ (mgr v)))) as Hsub.
  { intros b. unfold m_emplace. destruct (m_find a _); [done|].
    rewrite !elem_of_keys. intros [c Hc]. exists c. rewrite m_insert_perm. by right. }
  split; try done.
  - by apply keys_emplace_NoDup.
  - intros b c. cbn. destruct (m_find a (connections_ (mgr v))) eqn:E; [apply Ht|].
    rewrite m_insert_perm. intros [Eb|Hb]%elem_of_cons; [injection Eb as -> ->; apply new_tree_ok|].
    by eapply Ht.
  - intros b Hb. specialize (Hh b Hb). rewrite obj_Some in *.
    destruct Hh as [Hh|]; [left; by apply Hsub|by right].
Qed.

Lemma pool_step_foreseen s e o :
  pool_good s → pool_step NDEBUG ra port e s = Some o → foreseen e s o.
Proof.
  intros Hg. destruct e as [a|a|a id|i d j|i|]; cbn [pool_step].
  - destruct (_ && _) eqn:E; [|done]. intros [= <-]. apply andb_true_iff in E as [Hidle _].
    destruct Hg as (Hw & Hs & Hio & HF & HI & HP). unfold foreseen. cbn [next_access].
    destruct s as [[v dt hd] ps i kn]. eexists. split; [done|].
    split; [exact (connected_ok a v dt hd _ _ Hw)|by exists Hs, Hio].
  - destruct (idle (io s)) eqn:Hidle; [|done]. intros [= <-]. eexists. split; [done|].
    apply io_begins; [done..|apply safe_stop_prog].
  - destruct (_ && _) eqn:E; [|done]. intros [= <-]. apply andb_true_iff in E as [Hidle _].
    eexists. split; [done|]. apply io_begins; [done..|apply safe_shared_write].
  - destruct (workers s !! i) as [[|]|] eqn:Ei; try done. intros [= <-].
    eexists. split; [done|]. destruct Hg as (Hw & Hs & Hio & HF & HI & HP). split; [done|].
    destruct (Forall2_lookup_r _ _ _ _ _ HF Ei) as (hs & Hhs & Hsafe). inversion Hsafe; subst.
    exists Hs, Hio. split_and!; [|done..]. cbn [workers with_worker_at fst].
    rewrite <- (list_insert_id Hs i []) by done. apply Forall2_insert; [done|apply safe_job].
  - destruct (workers s !! i) as [[|k m]|] eqn:Ei; try done. intros [= <-]. by eapply works_foreseen.
  - destruct (io s) as [|k m] eqn:Ei; [done|]. intros [= <-]. by eapply works_io_foreseen.
Qed.

Lemma new_pool_good n db : pool_good (new_pool n db).
Proof.
  split.
  - split; cbn; try (intros ?? ?%not_elem_of_nil; done); try (intros ? ?%not_elem_of_nil; done).
    constructor.
  - exists (replicate n []), []. cbn. split_and!; [|constructor|].
    + apply Forall2_replicate. constructor.
    + induction n; cbn; done.
Qed.

Lemma reach_good n db s : pool_reach NDEBUG ra port n db s → pool_good s.
Proof.
  induction 1 as [|s e s' _ IH E]; [apply new_pool_good|].
  pose proof (pool_step_foreseen s e (Ok s') IH E) as Hf. unfold foreseen in Hf.
  destruct (next_access e s); [destruct (danger _ _); [done|]|]; destruct Hf as (? & [= ->] & ?); done.
Qed.


(** C12. However the threads interleave, a connection a thread holds is there, every
    connection's tree is well-formed, and a connection that has left the set is kept
    only while a thread holds it; when no thread has anything to do, nothing is held
    and nothing is kept. *)
Theorem held_connections_there n db s :
  pool_reach NDEBUG ra port n db s →
  (∀ a, a ∈ holders (world_ s) → obj a (world_ s) ≠ None)
  ∧ (∀ a c, obj a (world_ s) = Some c → ∃ t, repr (remote_file_system_ (client_ c)) t)
  ∧ (∀ a, a ∈ keys (detached (world_ s)) → a ∈ holders (world_ s))
  ∧ (Forall (λ p, idle p = true) (io s :: workers s) →
     holders (world_ s) = [] ∧ detached (world_ s) = []).
Proof.
  intros (Hw & Hs & Hio & HF & HI & HP)%reach_good. split_and!.
  - apply (wo_held _ Hw).
  - intros a c E. exact (obj_tree _ _ _ Hw E).
  - apply (wo_detached _ Hw).
  - intros [Hi Hall]%Forall_cons. destruct (io s); [|done]. inversion HI; subst.
    assert (concat Hs = []) as E.
    { clear HP. induction HF as [|hs p Hs ps Hp _ IH]; [done|]. apply Forall_cons in Hall as [Hidle Hall].
      destruct p; [|done]. inversion Hp; subst. exact (IH Hall). }
    rewrite E in HP. apply Permutation_nil_r in HP. split; [done|].
    destruct (detached (world_ s)) as [|[a c] l] eqn:Ed; [done|].
    assert (a ∈ holders (world_ s)) as Hin by (apply (wo_detached _ Hw); rewrite Ed; left).
    rewrite HP in Hin. by apply not_elem_of_nil in Hin.
Qed.
End invariant.
