(* ===== verification/WorkersRaces.v ===== *)
(** * WorkersRaces: what serial handlers exclude and the threads allow

    Runs of [Workers] that end in states no run of [System] reaches: two clients under
    one nickname, a confirmed request that is neither answered nor waiting, a shared
    buffer that is gone before the last write of it is done, and a client that was told of
    a file that does not exist.  Each is an interleaving of two requests, or of a request
    and a disconnection. *)

From S2P Require Import Prelude Text Protocol Validators Vfs StdMap BackupRequests.
From S2P Require Import DownloadManager UsersDb Scheduler Manager Handler AccountsSpec.
From S2P Require Import Notices Accounting Workers WorkersSpec WorkersInv.

(** ** Runs *)

Section runs.
Context `{Protocol} `{BoostSplit} `{SqlApi}.
Variables (NDEBUG : bool) (ra : str → str → str) (port : Z).

Fixpoint run_pool (es : list pool_event) (s : pool) : option pool :=
  match es with
  | [] => Some s
  | e :: es =>
      match pool_step NDEBUG ra port e s with Some (Ok s) => run_pool es s | _ => None end
  end.

Lemma run_pool_reach n db es s s' :
  pool_reach NDEBUG ra port n db s → run_pool es s = Some s' → pool_reach NDEBUG ra port n db s'.
Proof.
  revert s. induction es as [|e es IH]; intros s Hs; cbn [run_pool]; [by intros [= <-]|].
  destruct (pool_step NDEBUG ra port e s) as [[s1|]|] eqn:E; try done.
  apply IH. by econstructor.
Qed.

(** No thread has anything left to do. *)
Definition all_idle (s : pool) : bool := idle (io s) && forallb idle (workers s).

(** The state of a run that is possible. *)
Definition pool_after n db es : pool := default (new_pool n db) (run_pool es (new_pool n db)).

Definition possible n db es : bool :=
  match run_pool es (new_pool n db) with Some _ => true | None => false end.

Lemma pool_after_reach n db es :
  possible n db es = true → pool_reach NDEBUG ra port n db (pool_after n db es).
Proof.
  unfold pool_after, possible. destruct (run_pool _ _) as [s|] eqn:E; [|done].
  intros _. eapply run_pool_reach; [constructor|exact E].
Qed.
End runs.

(** ** The runs *)

Section races.
#[local] Existing Instance split_def_split.
#[local] Existing Instance sample_protocol.
#[local] Existing Instance sample_sql.

Definition race_disk : disk := mkDisk (λ _, Some 3) (λ _, true) (λ _, true) (λ _, true).
Definition race_append (p f : str) : str := p ++ f.

Definition accounts : database :=
  ([(lit "ann", lit "pw"); (lit "bob", lit "pw"); (lit "cid", lit "pw")] : list (str * str)).

(** Thread [i] takes a request and makes [k] steps. *)
Definition takes (i : nat) (a : Z) (t : task) (k : nat) : list pool_event :=
  Takes i race_disk (mkJob a t) :: replicate k (Works i).

Definition signs_in (i : nat) (a : Z) (name : string) (k : nat) : list pool_event :=
  takes i a (do_signin (lit "1") (lit name) (lit "pw")) k.
Definition pushes (i : nat) (a : Z) (file : string) (k : nat) : list pool_event :=
  takes i a (do_push_files (lit "2") [lit file]) k.
Definition asks (i : nat) (a : Z) (r owner file : string) (k : nat) : list pool_event :=
  takes i a (do_download_file
    (mkDownloadRequest (lit r) (lit owner) (lit file) (lit "sslv23") (lit "zlib"))) k.

(** A client connects, signs in and registers a file, without interference. *)
Definition joined (a : Z) (name file : string) : list pool_event :=
  Connects a :: signs_in 0 a name 8 ++ pushes 0 a file 8.

Definition after_races NDEBUG es : pool := pool_after NDEBUG race_append 80 2 accounts es.
Definition named (a : Z) (l : str) (s : pool) : bool :=
  match m_find a (connections_ (mgr (shared (world_ s)))) with
  | Some c => has_nickname l c
  | None => false
  end.
Definition sent_to (a : Z) (m : outbound) (s : pool) : bool :=
  bool_decide ((a, Write m) ∈ sent (mgr (shared (world_ s)))).
Definition reached NDEBUG s : Prop := pool_reach NDEBUG race_append 80 2 accounts s.

Lemma race_reached NDEBUG es :
  possible NDEBUG race_append 80 2 accounts es = true → reached NDEBUG (after_races NDEBUG es).
Proof. exact (pool_after_reach NDEBUG race_append 80 2 accounts es). Qed.

Lemma named_shared a b l s :
  named a l s = true → named b l s = true → a ≠ b → l ≠ [] →
  ¬ unique_nicknames (connections_ (mgr (shared (world_ s)))).
Proof.
  unfold named, has_nickname. destruct (m_find a _) as [c|] eqn:Ea; [|done].
  destruct (m_find b _) as [c'|] eqn:Eb; [|done].
  intros Hc%bool_decide_eq_true Hc'%bool_decide_eq_true Hab Hl Hu. apply Hab.
  apply (Hu a b c c'); [by apply m_find_elem..| |]; unfold nick; congruence.
Qed.

(** Both threads look whether the account is logged in before either logs in. *)
Definition race_signin : list pool_event :=
  [Connects 10; Connects 20] ++ signs_in 0 10 "ann" 4 ++ signs_in 1 20 "ann" 8
  ++ replicate 4 (Works 0).

(** C31. Two threads can log two clients in under one nickname: [isLogged] and the
    assignment of the nickname are different critical sections, so both threads may
    look before either assigns.  Executed one after the other the second is refused
    (the nicknames of [System] stay unique). *)
Theorem signins_race :
  ∃ s, reached true s ∧ all_idle s = true
    ∧ named 10 (lit "ann") s = true ∧ named 20 (lit "ann") s = true
    ∧ ¬ unique_nicknames (connections_ (mgr (shared (world_ s))))
    ∧ sent_to 10 (reply responses.LOGIN_SUCCESSFULL (lit "1")) s = true
    ∧ sent_to 20 (reply responses.LOGIN_SUCCESSFULL (lit "1")) s = true.
Proof.
  exists (after_races true race_signin).
  assert (named 10 (lit "ann") (after_races true race_signin) = true) as Ha by (vm_compute; reflexivity).
  assert (named 20 (lit "ann") (after_races true race_signin) = true) as Hb by (vm_compute; reflexivity).
  split; [apply race_reached; vm_compute; reflexivity|].
  split; [vm_compute; reflexivity|]. split; [exact Ha|]. split; [exact Hb|].
  split; [|split; vm_compute; reflexivity].
  by apply (named_shared 10 20 (lit "ann")).
Qed.

(** Two clients ask for files of two owners; the first thread has incremented the
    counter when the other increments, reads and uses it. *)
Definition three_clients : list pool_event :=
  joined 10 "ann" "/f" ++ joined 20 "bob" "/g" ++ joined 30 "cid" "/h".
Definition race_querries : list pool_event :=
  three_clients ++ asks 0 20 "8" "ann" "/f" 7 ++ asks 1 30 "9" "bob" "/g" 12
  ++ replicate 5 (Works 0).

(** Two threads can back two download requests up under one number: the counter is
    incremented and read without the mutex, and the second request that is backed up is
    dropped.  Its client is then neither answered nor waiting, although a thread has
    executed its request to the end. *)
Theorem querries_race :
  ∃ s, reached true s ∧ all_idle s = true
    ∧ sent_to 20 (StringQuerryMessage (to_string 3) querries.DOWNLOAD_FILE
         [(headers.FileName, lit "/g"); (headers.SslVersion, Version GetSslVersion);
          (headers.Compressions, CSVCompressions GetSupportedCompressionsStr)]) s = true
    ∧ sent_to 10 (StringQuerryMessage (to_string 3) querries.DOWNLOAD_FILE
         [(headers.FileName, lit "/f"); (headers.SslVersion, Version GetSslVersion);
          (headers.Compressions, CSVCompressions GetSupportedCompressionsStr)]) s = true
    ∧ ended 20 (lit "8") (mgr (shared (world_ s))) = 0%nat
    ∧ waiting 20 (lit "8") (mgr (shared (world_ s))) = 0%nat.
Proof.
  exists (after_races true race_querries). split; [apply race_reached; vm_compute; reflexivity|].
  repeat (split; [vm_compute; reflexivity|]). vm_compute. reflexivity.
Qed.

(** Ann disconnects after the request to announce a file has read her nickname and
    before it enters the critical section; then Bob's write of the announcement
    completes. *)
Definition race_notify : list pool_event :=
  three_clients ++ takes 0 10 (do_add_file (lit "3") (lit "/k")) 5
  ++ Disconnects 10 :: replicate 6 WorksIo ++ replicate 2 (Works 0)
  ++ Completes 20 4 :: replicate 3 WorksIo.

(** A client that disconnects while a thread announces its file makes the stored
    count one too small: [do_notify] takes its client for one of the processing ones.
    In a debug build, the one that erases buffers, the buffer is then erased by a write
    that is not the last, and a connection that is still there has it in an unfinished
    write. *)
Theorem notification_race :
  ∃ s, reached false s ∧ all_idle s = true
    ∧ bool_decide ((30, 4) ∈ unfinished (mgr (shared (world_ s)))) = true
    ∧ named 30 (lit "cid") s = true
    ∧ m_find 4 (shared_storage_ (mgr (shared (world_ s)))) = None.
Proof.
  exists (after_races false race_notify). split; [apply race_reached; vm_compute; reflexivity|].
  repeat (split; [vm_compute; reflexivity|]). vm_compute. reflexivity.
Qed.

(** Ann adds and removes a file; the thread that added it announces it after the thread that
    removed it has announced the removal. *)
Definition race_announcements : list pool_event :=
  joined 10 "ann" "/f" ++ joined 20 "bob" "/g"
  ++ takes 0 10 (do_add_file (lit "3") (lit "/k")) 3
  ++ takes 1 10 (do_remove_path (lit "4") (lit "/k")) 7 ++ replicate 4 (Works 0).

(** The change of a tree and its announcement are different critical sections, so two
    announcements can cross: Bob is told that [/k] was deleted, then that it was added, and
    believes that there is a file [/k] when there is none. *)
Theorem announcements_cross :
  ∃ s, reached true s ∧ all_idle s = true
    ∧ let g := mgr (shared (world_ s)) in
      let ns := [FilesOfOthers {[ lit "ann" := [lit "/f"] ]}; DeletedPath (lit "ann") (lit "/k");
                 AddedFile (lit "ann") (lit "/k")] in
      heard 20 g = map notice_message ns
      ∧ replay ns !! lit "ann" = Some {[ [lit "f"]; [lit "k"] ]}
      ∧ board g !! lit "ann" = Some {[ [lit "f"] ]}.
Proof.
  exists (after_races true race_announcements). split; [apply race_reached; vm_compute; reflexivity|].
  repeat (split; [vm_compute; reflexivity|]). vm_compute. reflexivity.
Qed.

(** ** Witnesses *)


#[local] Instance race_throws : SqlThrows.
Proof. intros [] db f; done. Qed.
#[local] Existing Instance sample_protocol_laws.


(** Ann has left, and a thread still announces her file. *)
Definition still_announcing : list pool_event :=
  three_clients ++ takes 0 10 (do_add_file (lit "3") (lit "/k")) 5
  ++ Disconnects 10 :: replicate 6 WorksIo.

Lemma held_connections_there_witness : obj 10 (world_ (after_races true still_announcing)) ≠ None.
Proof.
  assert (reached true (after_races true still_announcing)) as Hr
    by (apply race_reached; vm_compute; reflexivity).
  destruct (held_connections_there true race_append 80 2 accounts _ Hr) as [Hh _].
  apply Hh, (bool_decide_unpack _). vm_compute. exact I.
Defined.

Definition one_client : server := mkServer (on_connections (m_emplace 10 new_connection) new_manager) accounts [].

Lemma threads_alone_atomic_witness :
  alone (job_prog race_append 80 race_disk (mkJob 10 (do_signin (lit "1") (lit "ann") (lit "no"))))
    (mkWorld one_client [] [])
  = Ok (mkWorld (mkServer (on_sent [(10, Write (reply responses.PASSWORD_INCORRECT (lit "1")))]
                             (mgr one_client)) accounts []) [] []).
Proof.
  rewrite (threads_alone_atomic race_append 80 race_disk one_client
             (mkJob 10 (do_signin (lit "1") (lit "ann") (lit "no")))).
  - vm_compute. reflexivity.
  - apply (bool_decide_unpack _). vm_compute. exact I.
Defined.
End races.
